(* ===== verification/_CoqProject ===== *)
-Q . S2P
Prelude.v
Unicode.v
Interlocked.v
Cas64.v
Critical.v
Dictionary.v
Alignment.v
Timer.v
TimerFire.v
TimerThread.v
Kernel.v
Handle.v
Wait.v
WaitLive.v
Event.v
Semaphore.v
EventPipe.v
MutexObj.v
TimedLock.v
WaitTimer.v
Thread.v
ThreadList.v
Objects.v
Clients.v
CpuFeatures.v
Loader.v
Winsock.v
NetNames.v
File.v
FileWin.v
Sysinfo.v
InitOnce.v
Barrier.v
BarrierWin.v
