(* ===== verification/Prelude.v ===== *)
(** * libuzi: a verification development

    libuzi is a C library that offers a part of the Windows API on POSIX systems:
    conversion between UTF-8 and UTF-16, interlocked lists, critical sections, a
    dictionary, aligned memory, objects with handles (events, semaphores,
    mutexes, waitable timers, threads) and waiting for them, timer queues,
    barriers, one-time initialisation, sockets, files and system information.
    This file is the root of the development and its shared prelude.

    ** The program and the files that model it

    - src/libuzi/unicode.c: [Unicode]. Buffers are lists of code units,
      [ConvertUTF16toUTF8] and [ConvertUTF8toUTF16] loops over positions in them;
      on top of them the [Uzi...] conversions with their length conventions.
    - interlocked.c: [Interlocked]. The circular doubly-linked lists on a heap of
      entries; the singly-linked lists whose header is a 64-bit word changed by
      compare-and-swap, alone and as threads whose steps interleave; the atomic
      operations. [Cas64] has the 64-bit compare-and-swap of systems without the
      instruction, under a mutex that the first caller makes.
    - critical.c and the UziInitCS family of uzi.c: [Critical]. Every shared
      access of EnterCriticalSection and its relatives is one step of a machine,
      run alone or interleaved. It gives the interface [Lock].
    - dictionary.c: [Dictionary]. Items on a heap under a lock: the client of
      [Lock], and an association list to its own clients.
    - alignment.c: [Alignment]. [_aligned_malloc] and its relatives on a heap of
      blocks, with the header before the payload.
    - timer.c, second part: [Timer] (the lists of a timer queue, the calls, the
      firing loop), [TimerFire] (what a firing pass does, for one-shot and
      periodic timers) and [TimerThread] (the queue's thread, with the calls of
      other threads in its waits).
    - synch.h, handle.h, thread.h, error.c: [Kernel] is the world of the objects
      with handles: the heap of objects, the descriptors they own, the system
      calls, and a script of what the rest of the world does while a call is
      blocked. [Handle] holds the tables of operations ([HANDLE_OPS]) and the
      checks of a handle. The calls of these files are computations of the monad
      [K] on that world.
    - wait.c: [Wait]; event.c: [Event], and [EventPipe] where there is no
      eventfd; semaphore.c: [Semaphore]; mutex.c: [MutexObj]; timer.c, first
      part: [WaitTimer]; thread.c: [Thread]; handle.c and the rest of uzi.c:
      [Objects], where all calls come together, and [Clients], the programs that
      make them.
      [WaitLive] adds to [Wait] that waits return, [TimedLock] the replacement of
      pthread_mutex_timedlock; [ThreadList] composes [Thread] with [Dictionary],
      which holds its list of threads.
    - barrier.c: [Barrier], the client of two events through the interface
      [Events], which the events of [Event] on the world of [Kernel] implement;
      [BarrierWin], its branches for Windows, a client of [InitOnce].
    - init.c: [InitOnce]. winsock.c: [Winsock] and [NetNames]. file.c: [File], over a
      file system of paths and what it grants the process (making a path: over
      any), and [FileWin], its branches for Windows, the client of
      [Unicode] for the names and of the interface [WinFiles]. cpu-features.c:
      [CpuFeatures]. library.c and the probe of getauxval in cpu-features.c:
      [Loader], the client of the interface [DynamicLoader]. sysinfo.c and
      sleep.c: [Sysinfo].

    Definitions bear the names of the C functions and types; the loops of a
    function are definitions of their own, named after what they look for.

    ** Conventions

    A C integer of [w] bits is a [Z]; [wrap w] and [swrap w] are what unsigned
    arithmetic and conversions make of it, [sadd] (of [Critical]) is signed
    addition, undefined when it overflows. A computation answers a [res]: a value, [UB] (an access
    outside of an object, a null or dangling pointer, signed overflow, a failed
    assertion) or [NoFuel] (a loop that was given too few rounds, or a call that
    is blocked for ever). [runs x Q] says that [x] has a value and that it
    satisfies [Q]; theorems about functions that must return are stated with it
    or with the value itself, for fuel that a bound on the input determines: the
    length of the input (Unicode, CpuFeatures), the number of nodes of a list
    (Timer, Dictionary), the script's length (retried system calls, TimedLock),
    two rounds (ResetEvent), as many as there are objects (WaitLive), the times
    that the timers fall due ([TimerFire.fire_fuel]). Concurrency is a list or a
    relation of steps of the threads; memory is sequentially consistent. What
    the callers of a concurrent structure see is compared with a specification
    by [traces] and [forward_simulation], at the end of this file.

    What the rest of the world does while a call of an object is under way
    happens where the call blocks or reads the clock, not between two system
    calls that return at once (a race between poll and the read that takes what
    was signalled is not in the model).

    What the library gets from outside is an argument: the addresses that malloc
    and calloc answer (0 for failure), descriptors, times, thread identifiers,
    the contents of files, the answers of sysconf, cpuid and getauxval.

    ** What is shown

    - Type and memory safety: [Objects.calls_well_typed] (the tag, the table of
      operations and the layout of every object agree in every history of calls
      in which no call is undefined), [Objects.handle_kind_safety], and
      [Clients.client_safe] (programs that keep the rules of the calls on events,
      semaphores, mutexes and waitable timers make no undefined call, whatever
      the system answers and whatever calls other threads make that do not close
      their handles; handles of threads are left out). Both rest on one walk
      through the calls, for any [Objects.heap_invariant].
    - Text: [Unicode] has the specification of both conversions (what is
      converted, where and why they stop, that they stay in their buffers), the
      equivalence of isLegalUTF8 with a declarative set, the round trip, and
      that the length answered by a probe is enough.
    - Data structures as refinements of abstract ones: the doubly-linked list of
      a deque, the SLIST of a stack (alone, and as a linearizable one with many
      pushing threads and one popping), the compare-and-swap under a mutex of an
      atomic one, the dictionary of an association list, the list of threads of
      its dictionary, the aligned allocation of an allocation, loaded modules of
      reference counts; the lists of timers.
    - Synchronisation: critical sections exclude and lose no wake-up; an event
      is a flag, in both builds, a semaphore a counter, a mutex a recursive lock;
      waiting for one, any or all objects takes what it should and nothing else;
      barriers separate rounds and do not deadlock, and all calls use the same
      kind of barrier; the initialisation function runs once at a time and
      succeeds once; waitable timers, threads, and the thread of a timer queue
      from creation to end. Waits return when what they wait for is
      signalled, firing passes when the periods advance; no timer is called
      early or more often than it is due, and less often only when the code has
      left it behind another one or dropped it from its lists.
    - The rest: CPU lists, the fields of /proc/cpuinfo and the consistency of the
      features made of them, error codes and sockets, paths, loading and saving,
      making directories, names on Windows, clocks and processor features.

    Where the code does not do what it means to, the theorem states what it does
    and the comment before it says so: a timed wait for all objects
    ([Wait.wait_all_timed_defects]), the deletion of a barrier
    ([Barrier.barrier_delete]), the deletion of a timer queue
    ([Timer.DeleteTimerQueue_defects]), missing [break]s
    ([Sysinfo.processor_features_spec]) and others.

    ** Configuration and limits

    Modelled is the configuration for Linux on 64 bits (with 32-bit pointers too
    where the code distinguishes them): poll, eventfd, timerfd, POSIX timers,
    pipe semaphores; in CpuFeatures and Sysinfo also Android's. Assertions are
    on. Of the branches for other systems, those for Windows in file.c, sleep.c,
    barrier.c, winsock.c and the 64-bit compare-and-swap, and the replacement of
    pthread_mutex_timedlock, are modelled. Not modelled are the branches for
    macOS, the installation of the handler of SIGALRM (a sigaction),
    StartTimerQueueThread (which initialises pthread objects and starts the
    thread of [TimerThread]), the replacement of clock_gettime on macOS
    (floating-point arithmetic), UziFile_Seek (a call of the C
    library), the headers that only declare, the tests, and failures of pthread
    calls on the library's own mutexes. *)

From stdpp Require Export base list numbers gmap.
From Stdlib Require Export ZArith Lia.

#[export] Set Default Goal Selector "!".

(** ** Machine integers

    A [w]-bit C integer is a [Z]; [wrap w] is the reduction of unsigned
    arithmetic and [swrap w] the two's-complement reduction of signed
    conversions. *)

Open Scope Z_scope.

Definition wrap (w z : Z) : Z := z mod 2 ^ w.
Definition swrap (w z : Z) : Z := (z + 2 ^ (w - 1)) mod 2 ^ w - 2 ^ (w - 1).

Abbreviation u8 := (wrap 8).
Abbreviation u16 := (wrap 16).
Abbreviation u32 := (wrap 32).
Abbreviation u64 := (wrap 64).
Abbreviation s32 := (swrap 32).
Abbreviation s64 := (swrap 64).

(** A value is representable in [w] unsigned bits. *)
Definition urange (w z : Z) : Prop := 0 <= z < 2 ^ w.
Definition srange (w z : Z) : Prop := - 2 ^ (w - 1) <= z < 2 ^ (w - 1).

Create HintDb cint.

Lemma wrap_id w z : urange w z → wrap w z = z.
Proof. apply Z.mod_small. Qed.

Lemma swrap_id w z : 0 < w → srange w z → swrap w z = z.
Proof.
  unfold swrap, srange. intros Hw Hr.
  assert (H2 : 2 ^ w = 2 * 2 ^ (w - 1)).
  { rewrite <- Z.pow_succ_r by lia. f_equal. lia. }
  rewrite Z.mod_small; lia.
Qed.

Lemma wrap_range w z : 0 <= w → urange w (wrap w z).
Proof. intros Hw. apply Z.mod_pos_bound. by apply Z.pow_pos_nonneg. Qed.

#[export] Hint Resolve wrap_range : cint.

(** [lia] reasons about divisions by constants. *)
Ltac Zify.zify_post_hook ::= Z.to_euclidean_division_equations.

(** Evaluate the literal powers of two of a goal, then linear arithmetic. *)
Ltac pow2_lit :=
  repeat match goal with
  | |- context [Z.pow 2 (Zpos ?p)] =>
      let v := eval vm_compute in (Z.pow 2 (Zpos p)) in change (Z.pow 2 (Zpos p)) with v
  | H : context [Z.pow 2 (Zpos ?p)] |- _ =>
      let v := eval vm_compute in (Z.pow 2 (Zpos p)) in change (Z.pow 2 (Zpos p)) with v in H
  end.

Ltac zlia := unfold urange, srange in *; cbv [Z.sub] in *; cbn [Z.add Z.opp Pos.add Pos.succ] in *; pow2_lit; lia.

(** Turn boolean comparisons on [Z] into propositions and split the tests of
    the goal. *)
Ltac zbool :=
  rewrite ?andb_true_iff, ?orb_true_iff, ?andb_false_iff, ?orb_false_iff, ?negb_true_iff,
    ?negb_false_iff, ?Z.leb_le, ?Z.ltb_lt, ?Z.eqb_eq, ?Z.leb_gt, ?Z.ltb_ge, ?Z.eqb_neq in *.

Ltac case_if :=
  match goal with
  | |- context [if ?b then _ else _] =>
      lazymatch b with
      | context [if _ then _ else _] => fail
      | context [match _ with _ => _ end] => fail
      | _ => let E := fresh "E" in destruct b eqn:E
      end
  end.

(** A decidable closed proposition, by evaluation. *)
Ltac by_decision := refine (bool_decide_unpack _ _); vm_compute; exact I.

(** Exhaustive check of a decidable property on a bounded interval. *)
Definition forall_below (n : nat) (p : Z → bool) : bool := forallb (λ i, p (Z.of_nat i)) (seq 0 n).

Lemma forall_below_spec n p : forall_below n p = true → ∀ z, 0 <= z < Z.of_nat n → p z = true.
Proof.
  unfold forall_below. rewrite forallb_forall. intros H z Hz.
  specialize (H (Z.to_nat z)). rewrite Z2Nat.id in H by lia.
  apply H, in_seq. lia.
Qed.

(** ** Executions

    The result of running C code: a value, undefined behaviour (an access
    outside an object, a null dereference) or a loop that ran out of the fuel
    given to the model. *)

Inductive res (A : Type) : Type :=
  | Ok (a : A)
  | UB
  | NoFuel.
Arguments Ok {A} a.
Arguments UB {A}.
Arguments NoFuel {A}.

#[export] Instance res_ret : MRet res := λ A a, Ok a.
#[export] Instance res_bind : MBind res := λ A B f m,
  match m with Ok a => f a | UB => UB | NoFuel => NoFuel end.

Lemma bind_Ok {A B} (f : A → res B) a : (Ok a ≫= f) = f a.
Proof. done. Qed.

Lemma bind_inv {A B} (f : A → res B) m b :
  (m ≫= f) = Ok b → ∃ a, m = Ok a ∧ f a = Ok b.
Proof. destruct m; cbn; naive_solver. Qed.

(** [x] runs to a value satisfying [Q]: no undefined behaviour, no divergence. *)
Definition runs {A} (x : res A) (Q : A → Prop) : Prop := ∃ a, x = Ok a ∧ Q a.

Lemma runs_bind {A B} (m : res A) (f : A → res B) P Q :
  runs m P → (∀ a, P a → runs (f a) Q) → runs (m ≫= f) Q.
Proof. intros (a & -> & Ha) Hf. exact (Hf a Ha). Qed.

Lemma runs_mono {A} (m : res A) (P Q : A → Prop) : runs m P → (∀ a, P a → Q a) → runs m Q.
Proof. intros (a & -> & Ha) HPQ. exists a. auto. Qed.

Lemma runs_ok {A} (a : A) (Q : A → Prop) : Q a → runs (Ok a) Q.
Proof. exists a. auto. Qed.

(** A C loop: [body] returns the next state ([inl]) or leaves the loop
    ([inr], by [break], [return] or a false condition). *)
Fixpoint loop {S R} (fuel : nat) (body : S → res (S + R)) (s : S) : res R :=
  match fuel with
  | O => NoFuel
  | Datatypes.S n =>
      b ← body s;
      match b with
      | inl s' => loop n body s'
      | inr r => Ok r
      end
  end.

(** Total correctness of a loop: an invariant, a decreasing measure. *)
Lemma loop_total {S R} (body : S → res (S + R)) (I : S → Prop) (m : S → nat) (Q : R → Prop) :
  (∀ s, I s → runs (body s) (λ b,
     match b with inl s' => I s' ∧ (m s' < m s)%nat | inr r => Q r end)) →
  ∀ fuel s, I s → (m s < fuel)%nat → runs (loop fuel body s) Q.
Proof.
  intros Hb fuel. induction fuel as [|n IH]; intros s HI Hm; [lia|].
  destruct (Hb s HI) as ([s'|r] & E & HQ); cbn; rewrite E; cbn.
  - destruct HQ as [HI' Hlt]. apply IH; [done|lia].
  - by exists r.
Qed.

Lemma loop_unfold {S R} n (body : S → res (S + R)) s s' : body s = Ok (inl s') → loop (Datatypes.S n) body s = loop n body s'.
Proof. intros H. cbn. by rewrite H. Qed.

Lemma loop_exit {S R} n (body : S → res (S + R)) s r : body s = Ok (inr r) → loop (Datatypes.S n) body s = Ok r.
Proof. intros H. cbn. by rewrite H. Qed.

(** More fuel never changes a result. *)
Lemma loop_fuel_mono {S R} (body : S → res (S + R)) n m s r :
  loop n body s = Ok r → (n ≤ m)%nat → loop m body s = Ok r.
Proof.
  revert m s. induction n as [|n IH]; intros [|m] s H Hle; cbn in *; try done; try lia.
  destruct (body s) as [[s'|r']| |]; cbn in *; try done. apply IH; [done|lia].
Qed.

(** ** Arrays

    An array object is a list; an access outside it is undefined. *)

Definition rd {A} (l : list A) (i : Z) : res A :=
  if i <? 0 then UB else match l !! Z.to_nat i with Some x => Ok x | None => UB end.

Definition wr {A} (l : list A) (i : Z) (x : A) : res (list A) :=
  if (i <? 0) || (Z.of_nat (length l) <=? i) then UB else Ok (<[Z.to_nat i := x]> l).

Lemma rd_lookup {A} (l : list A) i x : 0 <= i → l !! Z.to_nat i = Some x → rd l i = Ok x.
Proof. intros Hi Hx. unfold rd. destruct (Z.ltb_spec i 0); [lia|]. by rewrite Hx. Qed.

Lemma rd_app_mid {A} (l k : list A) x i : i = Z.of_nat (length l) → rd (l ++ x :: k) i = Ok x.
Proof.
  intros ->. apply rd_lookup; [lia|]. rewrite Nat2Z.id. by apply list_lookup_middle.
Qed.

Lemma rd_runs {A} (l : list A) i (P : A → Prop) :
  Forall P l → 0 <= i < Z.of_nat (length l) → runs (rd l i) P.
Proof.
  intros HP Hi. destruct (lookup_lt_is_Some_2 l (Z.to_nat i)) as [x Hx]; [lia|].
  exists x. split; [apply rd_lookup; [lia|done]|]. by eapply Forall_lookup_1.
Qed.

Lemma wr_ok {A} (l : list A) i x : 0 <= i < Z.of_nat (length l) → wr l i x = Ok (<[Z.to_nat i := x]> l).
Proof.
  intros Hi. unfold wr. destruct (Z.ltb_spec i 0), (Z.leb_spec (Z.of_nat (length l)) i); cbn; done || lia.
Qed.

Lemma wr_app_mid {A} (l k : list A) x y i :
  i = Z.of_nat (length l) → wr (l ++ x :: k) i y = Ok (l ++ y :: k).
Proof.
  intros ->. assert (length l < length (l ++ x :: k))%nat by (rewrite length_app; cbn; lia).
  rewrite wr_ok by lia. rewrite Nat2Z.id, insert_app_r_alt, Nat.sub_diag by lia. done.
Qed.

(** The same accesses, relative to a window of the array. *)
Lemma rd_window {A} (l m r : list A) p i : p = Z.of_nat (length l) → 0 <= i < Z.of_nat (length m) →
  rd (l ++ m ++ r) (p + i) = rd m i.
Proof.
  intros -> Hi. unfold rd. destruct (Z.ltb_spec i 0), (Z.ltb_spec (Z.of_nat (length l) + i) 0); try lia.
  rewrite lookup_app_r by lia. rewrite lookup_app_l by lia.
  by replace (Z.to_nat (Z.of_nat (length l) + i) - length l)%nat with (Z.to_nat i) by lia.
Qed.

Lemma wr_window {A} (l m r : list A) p i x : p = Z.of_nat (length l) → 0 <= i < Z.of_nat (length m) →
  wr (l ++ m ++ r) (p + i) x = Ok (l ++ <[Z.to_nat i := x]> m ++ r).
Proof.
  intros -> Hi. rewrite wr_ok by (rewrite ?length_app; lia). f_equal.
  rewrite insert_app_r_alt by lia. rewrite insert_app_l by lia.
  by replace (Z.to_nat (Z.of_nat (length l) + i) - length l)%nat with (Z.to_nat i) by lia.
Qed.

(** The elements of [l] at positions [a <= i < b]. *)
Definition zslice {A} (l : list A) (a b : Z) : list A := take (Z.to_nat (b - a)) (drop (Z.to_nat a) l).

Lemma zslice_nil {A} (l : list A) a : zslice l a a = [].
Proof. unfold zslice. by rewrite Z.sub_diag. Qed.

Lemma zslice_app {A} (l : list A) a b c : 0 <= a → a <= b → b <= c →
  zslice l a c = zslice l a b ++ zslice l b c.
Proof.
  intros. unfold zslice.
  replace (Z.to_nat (c - a)) with (Z.to_nat (b - a) + Z.to_nat (c - b))%nat by lia.
  rewrite <- (take_drop (Z.to_nat (b - a)) (drop (Z.to_nat a) l)) at 1.
  rewrite drop_drop. replace (Z.to_nat a + Z.to_nat (b - a))%nat with (Z.to_nat b) by lia.
  rewrite take_app. rewrite take_take, Nat.min_r by lia. f_equal.
  rewrite length_take, length_drop.
  destruct (Nat.le_gt_cases (Z.to_nat (b - a)) (length l - Z.to_nat a)).
  - f_equal. lia.
  - rewrite !(nil_length_inv (drop (Z.to_nat b) l)) by (rewrite length_drop; lia). by rewrite !take_nil.
Qed.

Lemma zslice_window {A} (l m r : list A) a b : a = Z.of_nat (length l) → b = a + Z.of_nat (length m) →
  zslice (l ++ m ++ r) a b = m.
Proof.
  intros -> ->. unfold zslice. rewrite Nat2Z.id, drop_app_length.
  replace (Z.to_nat _) with (length m) by lia. by rewrite take_app_length.
Qed.

(** [l] with the elements from position [t] replaced by [x]. *)
Definition splice {A} (l : list A) (t : Z) (x : list A) : list A :=
  take (Z.to_nat t) l ++ x ++ drop (Z.to_nat t + length x) l.

Lemma splice_nil {A} (l : list A) t : splice l t [] = l.
Proof. unfold splice. cbn. rewrite Nat.add_0_r. apply take_drop. Qed.

Lemma splice_length {A} (l : list A) t x : 0 <= t → t + Z.of_nat (length x) <= Z.of_nat (length l) →
  length (splice l t x) = length l.
Proof. intros. unfold splice. rewrite !length_app, length_take, length_drop. lia. Qed.

Lemma splice_splice {A} (l : list A) t x y : 0 <= t → t + Z.of_nat (length x) <= Z.of_nat (length l) →
  splice (splice l t x) (t + Z.of_nat (length x)) y = splice l t (x ++ y).
Proof.
  intros. unfold splice. assert (length (take (Z.to_nat t) l) = Z.to_nat t) by (rewrite length_take; lia).
  rewrite (app_assoc (take _ l) x).
  rewrite take_app_length', drop_app_ge by (rewrite length_app; lia).
  rewrite drop_drop, !length_app, <- !app_assoc. do 4 f_equal. lia.
Qed.

(** The window of [l] that a splice overwrites. *)
Lemma splice_window {A} (l : list A) t n : 0 <= t → t + Z.of_nat n <= Z.of_nat (length l) →
  ∃ p g r, l = p ++ g ++ r ∧ Z.of_nat (length p) = t ∧ length g = n ∧
    ∀ x, length x = n → splice l t x = p ++ x ++ r.
Proof.
  intros. exists (take (Z.to_nat t) l), (take n (drop (Z.to_nat t) l)), (drop n (drop (Z.to_nat t) l)).
  rewrite !take_drop, !length_take, length_drop. repeat split; try lia.
  intros x <-. unfold splice. by rewrite drop_drop.
Qed.

(** Splitting a list at a position. *)
Lemma split_at {A} (l : list A) (n : nat) : (n ≤ length l)%nat →
  ∃ a b, l = a ++ b ∧ length a = n.
Proof. intros H. exists (take n l), (drop n l). rewrite take_drop, length_take. split; [done|lia]. Qed.

(** *** Searching *)

(** [memchr]: the first position in [p, limit) that holds [c]. *)
Fixpoint memchr_from (l : list Z) (c p : Z) : option Z :=
  match l with [] => None | x :: l => if x =? c then Some p else memchr_from l c (p + 1) end.
Definition memchr (buf : list Z) (p c limit : Z) : option Z := memchr_from (zslice buf p limit) c p.

Lemma memchr_from_app l r c p : c ∉ l → memchr_from (l ++ r) c p = memchr_from r c (p + Z.of_nat (length l)).
Proof.
  revert p. induction l as [|x l IH]; intros p Hc; [cbn; f_equal; lia|]. apply not_elem_of_cons in Hc as [Hx Hl]. cbn.
  destruct (Z.eqb_spec x c); [congruence|]. rewrite IH by done. f_equal. lia.
Qed.

Lemma memchr_app pre l c : memchr (pre ++ l) (Z.of_nat (length pre)) c (Z.of_nat (length (pre ++ l))) = memchr_from l c (Z.of_nat (length pre)).
Proof.
  unfold memchr. f_equal. replace (pre ++ l) with (pre ++ l ++ []) by (by rewrite app_nil_r).
  apply zslice_window; [done|]. rewrite !length_app. cbn. lia.
Qed.

(** ** Heaps

    Objects of one type, by address; an access to an address without an object
    (the null pointer, a freed object) is undefined. *)

Definition get {A} (h : gmap Z A) (p : Z) : res A := match h !! p with Some x => Ok x | None => UB end.

Definition upd {A} (f : A → A) (h : gmap Z A) (p : Z) : res (gmap Z A) :=
  match h !! p with Some _ => Ok (alter f p h) | None => UB end.

Lemma get_ok {A} (h : gmap Z A) p x : h !! p = Some x → get h p = Ok x.
Proof. intros E. unfold get. by rewrite E. Qed.

Lemma upd_ok {A} (f : A → A) (h : gmap Z A) p : is_Some (h !! p) → upd f h p = Ok (alter f p h).
Proof. intros [x E]. unfold upd. by rewrite E. Qed.

(** ** Sums over a list *)

Lemma sum_insert {A} (f : A → nat) l i x y : l !! i = Some x →
  (sum_list_with f (<[i := y]> l) + f x = sum_list_with f l + f y)%nat.
Proof.
  revert i. induction l as [|z l IH]; intros [|i] Hi; try done.
  - injection Hi as ->. cbn. lia.
  - specialize (IH _ Hi). change (<[S i := y]> (z :: l)) with (z :: <[i := y]> l). cbn [sum_list_with]. lia.
Qed.

Lemma sum_lookup {A} (f : A → nat) l i x : l !! i = Some x → (f x ≤ sum_list_with f l)%nat.
Proof. revert i. induction l as [|z l IH]; intros [|i] Hi; try done; cbn in *; [simplify_eq; lia|]. specialize (IH _ Hi). lia. Qed.

Lemma sum_lookup_two {A} (f : A → nat) l i j x y : i ≠ j → l !! i = Some x → l !! j = Some y →
  (f x + f y ≤ sum_list_with f l)%nat.
Proof.
  revert i j. induction l as [|z l IH]; intros [|i] [|j] Hij Hi Hj; try done; cbn in *; simplify_eq.
  - pose proof (sum_lookup f _ _ _ Hj). lia.
  - pose proof (sum_lookup f _ _ _ Hi). lia.
  - assert (i ≠ j) by congruence. specialize (IH i j ltac:(done) Hi Hj). lia.
Qed.

Lemma sum_bound {A} (f : A → nat) (b : nat) l : (∀ i x, l !! i = Some x → f x ≤ b)%nat →
  (sum_list_with f l ≤ length l * b)%nat.
Proof.
  induction l as [|z l IH]; intros H; cbn; [lia|]. pose proof (H 0%nat z eq_refl).
  assert (sum_list_with f l ≤ length l * b)%nat by (apply IH; intros i x Hi; by apply (H (S i))). lia.
Qed.

(** ** Transition systems *)

Section Reachability.
Context {S : Type} (init : S → Prop) (step : S → S → Prop).

Inductive reachable : S → Prop :=
  | reach_init s : init s → reachable s
  | reach_step s s' : reachable s → step s s' → reachable s'.

(** Rule induction: an inductive invariant holds in every reachable state. *)
Lemma reachable_inv (I : S → Prop) :
  (∀ s, init s → I s) → (∀ s s', I s → step s s' → I s') → ∀ s, reachable s → I s.
Proof. intros Hi Hs s H. induction H; eauto. Qed.
End Reachability.

(** ** Traces and simulation

    Steps that may show an event to the callers. *)

Section Traces.
Context {E : Type}.

Inductive traces {S : Type} (step : S → option E → S → Prop) : S → list E → S → Prop :=
  | trace_nil s : traces step s [] s
  | trace_cons s o s' es s'' : step s o s' → traces step s' es s'' → traces step s (option_list o ++ es) s''.

(** Every step of the first system is a step of the second with the same
    event, or shows none and leaves the second where it is: whatever the first
    shows, the second can show. *)
Lemma forward_simulation {S T : Type} (step1 : S → option E → S → Prop) (step2 : T → option E → T → Prop)
    (R : S → T → Prop) :
  (∀ s o s' t, step1 s o s' → R s t → ∃ t', (step2 t o t' ∨ o = None ∧ t' = t) ∧ R s' t') →
  ∀ s es s' t, traces step1 s es s' → R s t → ∃ t', traces step2 t es t' ∧ R s' t'.
Proof.
  intros Hsim s es s' t H. revert t. induction H as [s|s o s' es s'' Hst _ IH]; intros t HR.
  - exists t. split; [constructor|done].
  - destruct (Hsim _ _ _ _ Hst HR) as (t1 & Ht1 & HR1). destruct (IH _ HR1) as (t2 & Ht2 & HR2).
    exists t2. split; [|done]. destruct Ht1 as [Ht1|[-> ->]]; [by econstructor|done].
Qed.

(** The steps of an executable machine whose actions satisfy [ok], and what a
    list of actions shows. *)
Context {S A : Type} (ok : A → Prop) (act : S → A → option (res S)) (event : S → A → option E).

Definition act_seen (s : S) (o : option E) (s' : S) : Prop := ∃ a, ok a ∧ act s a = Some (Ok s') ∧ o = event s a.

Fixpoint acts_seen (s : S) (acts : list A) : option (list E * S) :=
  match acts with
  | [] => Some ([], s)
  | a :: acts' =>
      match act s a with
      | Some (Ok s') => match acts_seen s' acts' with Some (es, s2) => Some (option_list (event s a) ++ es, s2) | None => None end
      | _ => None
      end
  end.

Lemma acts_seen_traces acts s es s' : Forall ok acts → acts_seen s acts = Some (es, s') → traces act_seen s es s'.
Proof.
  intros Hp. revert s es. induction Hp as [|a acts Ha _ IH]; intros s es; cbn.
  - intros [= <- <-]. constructor.
  - destruct (act s a) as [[s1| |]|] eqn:Ea; try done.
    destruct (acts_seen s1 acts) as [[es1 s2]|] eqn:Es; [|done]. intros [= <- <-].
    apply (trace_cons _ _ _ s1); [by exists a|by apply IH].
Qed.
End Traces.
