(* ===== verification/Unicode.v ===== *)
(** * Unicode: UTF-8 / UTF-16 conversion (libuzi/unicode.c)

    Buffers are lists of code units addressed by integer positions, so that
    [source], [sourceEnd], [target] and [targetEnd] are the offsets of the C
    pointers in their buffers; [targetEnd = None] is the NULL end pointer of
    the length-computing mode.  A read or a write outside a buffer is [UB].
    [Spec] holds the Unicode encoding forms the converters are compared to. *)

From S2P Require Import Prelude.

(** ** Constants and types *)

Inductive ConversionResult := conversionOK | sourceExhausted | targetExhausted | sourceIllegal.
Inductive ConversionFlags := strictConversion | lenientConversion.

#[export] Instance ConversionResult_eq_dec : EqDecision ConversionResult.
Proof. solve_decision. Defined.
#[export] Instance ConversionFlags_eq_dec : EqDecision ConversionFlags.
Proof. solve_decision. Defined.

Definition UNI_REPLACEMENT_CHAR : Z := 0xFFFD.
Definition UNI_MAX_BMP : Z := 0xFFFF.
Definition UNI_MAX_UTF16 : Z := 0x10FFFF.
Definition halfShift : Z := 10.
Definition halfBase : Z := 0x10000.
Definition halfMask : Z := 0x3FF.
Definition UNI_SUR_HIGH_START : Z := 0xD800.
Definition UNI_SUR_HIGH_END : Z := 0xDBFF.
Definition UNI_SUR_LOW_START : Z := 0xDC00.
Definition UNI_SUR_LOW_END : Z := 0xDFFF.

(** The table, 256 entries in rows of 32. *)
Definition trailingBytesForUTF8 : list Z :=
  replicate 192 0 ++ replicate 32 1 ++ replicate 16 2 ++ replicate 8 3 ++ replicate 4 4 ++ replicate 4 5.

Definition offsetsFromUTF8 : list Z :=
  [0x00000000; 0x00003080; 0x000E2080; 0x03C82080; 0xFA082080; 0x82082080].

Definition firstByteMark : list Z := [0x00; 0x00; 0xC0; 0xE0; 0xF0; 0xF8; 0xFC].

(** What a conversion leaves: its result, the advanced [*sourceStart] and
    [*targetStart], and the target buffer. *)
Record conv := Conv { cv_result : ConversionResult; cv_source : Z; cv_target : Z; cv_dst : list Z }.

(** Loop state: [source], [target] and the target buffer. *)
Record cstate := CState { cs_source : Z; cs_target : Z; cs_dst : list Z }.

(** ** ConvertUTF16toUTF8 *)

Definition is_high (ch : Z) : bool := (UNI_SUR_HIGH_START <=? ch) && (ch <=? UNI_SUR_HIGH_END).
Definition is_low (ch : Z) : bool := (UNI_SUR_LOW_START <=? ch) && (ch <=? UNI_SUR_LOW_END).

(** Read one code point: [inl (ch, source)], or [inr] when the loop breaks. *)
Definition fetch_utf16 (src : list Z) (sourceEnd : Z) (flags : ConversionFlags) (source : Z) :
    res (Z * Z + ConversionResult * Z) :=
  ch ← rd src source;
  let source := source + 1 in
  if is_high ch then
    if source <? sourceEnd then
      ch2 ← rd src source;
      if is_low ch2 then
        Ok (inl (u32 (u32 (Z.shiftl (u32 (ch - UNI_SUR_HIGH_START)) halfShift)
                      + (ch2 - UNI_SUR_LOW_START) + halfBase), source + 1))
      else if bool_decide (flags = strictConversion) then Ok (inr (sourceIllegal, source - 1))
      else Ok (inl (ch, source))
    else Ok (inr (sourceExhausted, source - 1))
  else if bool_decide (flags = strictConversion) then
    if is_low ch then Ok (inr (sourceIllegal, source - 1)) else Ok (inl (ch, source))
  else Ok (inl (ch, source)).

(** [bytesToWrite] and the (possibly replaced) code point. *)
Definition utf8_width (ch : Z) : nat * Z :=
  if ch <? 0x80 then (1%nat, ch)
  else if ch <? 0x800 then (2%nat, ch)
  else if ch <? 0x10000 then (3%nat, ch)
  else if ch <? 0x110000 then (4%nat, ch)
  else (3%nat, UNI_REPLACEMENT_CHAR).

(** The fall-through switch that writes the bytes from the last to the first:
    entered at [case n], it falls through down to [case 1]. *)
Fixpoint put_utf8 (bytesToWrite n : nat) (ch target : Z) (dst : list Z) : res (Z * list Z) :=
  match n with
  | O => Ok (target, dst)
  | 1%nat =>
      mark ← rd firstByteMark (Z.of_nat bytesToWrite);
      dst ← wr dst (target - 1) (u8 (Z.lor ch mark));
      Ok (target - 1, dst)
  | S n' =>
      dst ← wr dst (target - 1) (u8 (Z.land (Z.lor ch 0x80) 0xBF));
      put_utf8 bytesToWrite n' (Z.shiftr ch 6) (target - 1) dst
  end.

(** The switch of the length-computing mode: [--target] once per case. *)
Fixpoint skip_utf8 (n : nat) (target : Z) : Z :=
  match n with O => target | S n' => skip_utf8 n' (target - 1) end.

Definition past_end (target : Z) (targetEnd : option Z) : bool :=
  match targetEnd with None => false | Some e => e <? target end.

Definition utf16_body (src : list Z) (sourceEnd : Z) (targetEnd : option Z) (flags : ConversionFlags)
    (st : cstate) : res (cstate + conv) :=
  let '(CState source target dst) := st in
  if source <? sourceEnd then
    let oldSource := source in
    f ← fetch_utf16 src sourceEnd flags source;
    match f with
    | inr (result, source) => Ok (inr (Conv result source target dst))
    | inl (ch, source) =>
        let '(bytesToWrite, ch) := utf8_width ch in
        let target := target + Z.of_nat bytesToWrite in
        if past_end target targetEnd then
          Ok (inr (Conv targetExhausted oldSource (target - Z.of_nat bytesToWrite) dst))
        else
          '(target, dst) ←
            match targetEnd with
            | Some _ => put_utf8 bytesToWrite bytesToWrite ch target dst
            | None => Ok (skip_utf8 bytesToWrite target, dst)
            end;
          Ok (inl (CState source (target + Z.of_nat bytesToWrite) dst))
    end
  else Ok (inr (Conv conversionOK source target dst)).

(** Each iteration advances [source]: one more than the number of units left
    is enough fuel. *)
Definition conv_fuel (sourceStart sourceEnd : Z) : nat := S (Z.to_nat (sourceEnd - sourceStart)).

Definition ConvertUTF16toUTF8 (src : list Z) (sourceStart sourceEnd : Z) (dst : list Z) (targetStart : Z)
    (targetEnd : option Z) (flags : ConversionFlags) : res conv :=
  loop (conv_fuel sourceStart sourceEnd) (utf16_body src sourceEnd targetEnd flags)
    (CState sourceStart targetStart dst).

Arguments ConvertUTF16toUTF8 : simpl never.

(** ** isLegalUTF8 *)

(** The tests of the fall-through switch on [length]; [true] is reaching the
    code after the switch. *)
Definition legal_case1 (b0 : Z) : bool := negb ((0x80 <=? b0) && (b0 <? 0xC2)).

Definition legal_case2 (b0 a : Z) : bool :=
  if 0xBF <? a then false
  else if b0 =? 0xE0 then negb (a <? 0xA0)
  else if b0 =? 0xED then negb (0x9F <? a)
  else if b0 =? 0xF0 then negb (a <? 0x90)
  else if b0 =? 0xF4 then negb (0x8F <? a)
  else negb (a <? 0x80).

Definition legal_trail (a : Z) : bool := negb ((a <? 0x80) || (0xBF <? a)).

Definition isLegalUTF8 (src : list Z) (source length : Z) : res bool :=
  match length with
  | 1 | 2 | 3 | 4 =>
      ok4 ← (if length =? 4 then a ← rd src (source + 3); Ok (legal_trail a) else Ok true);
      if negb ok4 then Ok false else
      ok3 ← (if 3 <=? length then a ← rd src (source + 2); Ok (legal_trail a) else Ok true);
      if negb ok3 then Ok false else
      ok2 ← (if 2 <=? length then a ← rd src (source + 1); b0 ← rd src source; Ok (legal_case2 b0 a)
             else Ok true);
      if negb ok2 then Ok false else
      b0 ← rd src source;
      if negb (legal_case1 b0) then Ok false else
      Ok (negb (0xF4 <? b0))
  | _ => Ok false
  end.

Definition isLegalUTF8Sequence (src : list Z) (source sourceEnd : Z) : res bool :=
  b0 ← rd src source;
  t ← rd trailingBytesForUTF8 b0;
  let length := t + 1 in
  if sourceEnd <? source + length then Ok false else isLegalUTF8 src source length.

(** ** ConvertUTF8toUTF16 *)

(** The fall-through accumulation, entered at [case n]: every case but the
    last one shifts. *)
Fixpoint get_utf8 (n : nat) (src : list Z) (source ch : Z) : res (Z * Z) :=
  b ← rd src source;
  let ch := u32 (ch + b) in
  match n with
  | O => Ok (ch, source + 1)
  | S n' => get_utf8 n' src (source + 1) (u32 (Z.shiftl ch 6))
  end.

Definition full (target : Z) (targetEnd : option Z) : bool :=
  match targetEnd with None => false | Some e => e <=? target end.

(** [*target++ = x], or [target++] in the length-computing mode. *)
Definition put16 (targetEnd : option Z) (x target : Z) (dst : list Z) : res (Z * list Z) :=
  match targetEnd with
  | Some _ => dst ← wr dst target x; Ok (target + 1, dst)
  | None => Ok (target + 1, dst)
  end.

(** The rest of an iteration, once [ch] is decoded; [back] is the source
    position of the sequence. *)
Definition emit16 (te : option Z) (flags : ConversionFlags) (ch source back target : Z) (dst : list Z) :
    res (cstate + conv) :=
  if full target te then Ok (inr (Conv targetExhausted back target dst))
  else if ch <=? UNI_MAX_BMP then
    if (UNI_SUR_HIGH_START <=? ch) && (ch <=? UNI_SUR_LOW_END) then
      if bool_decide (flags = strictConversion) then Ok (inr (Conv sourceIllegal back target dst))
      else
        '(target, dst) ← put16 te UNI_REPLACEMENT_CHAR target dst;
        Ok (inl (CState source target dst))
    else
      '(target, dst) ← put16 te (u16 ch) target dst;
      Ok (inl (CState source target dst))
  else if UNI_MAX_UTF16 <? ch then
    if bool_decide (flags = strictConversion) then Ok (inr (Conv sourceIllegal back target dst))
    else
      '(target, dst) ← put16 te UNI_REPLACEMENT_CHAR target dst;
      Ok (inl (CState source target dst))
  else if full (target + 1) te then Ok (inr (Conv targetExhausted back target dst))
  else
    let ch := u32 (ch - halfBase) in
    '(target, dst) ← put16 te (u16 (Z.shiftr ch halfShift + UNI_SUR_HIGH_START)) target dst;
    '(target, dst) ← put16 te (u16 (Z.land ch halfMask + UNI_SUR_LOW_START)) target dst;
    Ok (inl (CState source target dst)).

Definition utf8_body (src : list Z) (sourceEnd : Z) (targetEnd : option Z) (flags : ConversionFlags)
    (st : cstate) : res (cstate + conv) :=
  let '(CState source target dst) := st in
  if source <? sourceEnd then
    b0 ← rd src source;
    extraBytesToRead ← rd trailingBytesForUTF8 b0;
    if sourceEnd <=? source + extraBytesToRead then
      Ok (inr (Conv sourceExhausted source target dst))
    else
    legal ← isLegalUTF8 src source (extraBytesToRead + 1);
    if negb legal then Ok (inr (Conv sourceIllegal source target dst)) else
    '(ch, source) ← get_utf8 (Z.to_nat extraBytesToRead) src source 0;
    off ← rd offsetsFromUTF8 extraBytesToRead;
    let ch := u32 (ch - off) in
    let back := source - (extraBytesToRead + 1) in
    emit16 targetEnd flags ch source back target dst
  else Ok (inr (Conv conversionOK source target dst)).

Definition ConvertUTF8toUTF16 (src : list Z) (sourceStart sourceEnd : Z) (dst : list Z) (targetStart : Z)
    (targetEnd : option Z) (flags : ConversionFlags) : res conv :=
  loop (conv_fuel sourceStart sourceEnd) (utf8_body src sourceEnd targetEnd flags)
    (CState sourceStart targetStart dst).

Arguments ConvertUTF8toUTF16 : simpl never.

(** ** Uzi Unicode API *)

(** [while ( *p) p++]: the offset of the first zero unit of the object; running
    off its end is undefined. *)
Fixpoint unit_strlen (l : list Z) : res Z :=
  match l with
  | [] => UB
  | x :: l' => if x =? 0 then Ok 0 else n ← unit_strlen l'; Ok (n + 1)
  end.

(** The NULL test comes first: a null pointer has length 0. *)
Definition uzi_wcslen (str : option (list Z)) : res Z :=
  match str with None => Ok 0 | Some l => unit_strlen l end.

(** The C entry points return the length and leave the target buffer. *)
Definition UziUtf8toUtf16 (src : list Z) (cchSrc : Z) (dst : list Z) (cchDst : Z) : res (Z * list Z) :=
  cchSrc ← (if cchSrc =? -1 then n ← unit_strlen src; Ok (s32 (n + 1)) else Ok cchSrc);
  r ← (if cchDst =? 0 then ConvertUTF8toUTF16 src 0 cchSrc dst 0 None strictConversion
       else ConvertUTF8toUTF16 src 0 cchSrc dst 0 (Some cchDst) strictConversion);
  let length := s32 (cv_target r) in
  Ok (if bool_decide (cv_result r = conversionOK) then length else 0, cv_dst r).

Definition UziUtf16toUtf8 (src : list Z) (cchSrc : Z) (dst : list Z) (cchDst : Z) : res (Z * list Z) :=
  cchSrc ← (if cchSrc =? -1 then n ← uzi_wcslen (Some src); Ok (s32 (n + 1)) else Ok cchSrc);
  r ← (if cchDst =? 0 then ConvertUTF16toUTF8 src 0 cchSrc dst 0 None strictConversion
       else ConvertUTF16toUTF8 src 0 cchSrc dst 0 (Some cchDst) strictConversion);
  let length := s32 (cv_target r) in
  Ok (if bool_decide (cv_result r = conversionOK) then length else 0, cv_dst r).

(** ** The Unicode encoding forms *)

Module Spec.

(** Unicode scalar values: code points that are not surrogates. *)
Definition scalar (c : Z) : Prop := 0 <= c < 0x110000 ∧ ¬ (0xD800 <= c <= 0xDFFF).

Definition utf8_enc (c : Z) : list Z :=
  if c <? 0x80 then [c]
  else if c <? 0x800 then [0xC0 + c / 64; 0x80 + c mod 64]
  else if c <? 0x10000 then [0xE0 + c / 4096; 0x80 + (c / 64) mod 64; 0x80 + c mod 64]
  else [0xF0 + c / 262144; 0x80 + (c / 4096) mod 64; 0x80 + (c / 64) mod 64; 0x80 + c mod 64].

Definition utf16_enc (c : Z) : list Z :=
  if c <? 0x10000 then [c]
  else [0xD800 + (c - 0x10000) / 1024; 0xDC00 + (c - 0x10000) mod 1024].

Definition utf8_text (cs : list Z) : list Z := concat (utf8_enc <$> cs).
Definition utf16_text (cs : list Z) : list Z := concat (utf16_enc <$> cs).

(** The byte sequences [isLegalUTF8] lets through, with the value decoded from
    them: the well-formed ones, and those whose second byte is an ASCII byte
    after the lead bytes ED and F4 (the inner switch replaces the lower bound
    0x80 of these two leads by their upper bound alone). *)
Inductive accepts : list Z → Z → Prop :=
  | acc_wf c : scalar c → accepts (utf8_enc c) c
  | acc_ED a b : 0 <= a < 0x80 → 0x80 <= b <= 0xBF →
      accepts [0xED; a; b] (0xD000 + (a - 0x80) * 64 + (b - 0x80))
  | acc_F4 a b d : 0 <= a < 0x80 → 0x80 <= b <= 0xBF → 0x80 <= d <= 0xBF →
      accepts [0xF4; a; b; d] (0x100000 + (a - 0x80) * 4096 + (b - 0x80) * 64 + (d - 0x80)).

End Spec.
Import Spec.

(** ** Bit-level lemmas *)

Lemma cont_byte c : 0 <= c → u8 (Z.land (Z.lor c 0x80) 0xBF) = 0x80 + c mod 64.
Proof.
  intros Hc.
  assert (E : Z.land (Z.lor c 0x80) 0xBF = Z.land (Z.lor (c mod 2 ^ 8) 0x80) 0xBF).
  { apply Z.bits_inj'. intros n Hn. rewrite !Z.land_spec, !Z.lor_spec.
    destruct (Z.lt_ge_cases n 8).
    - by rewrite Z.mod_pow2_bits_low.
    - rewrite (Z.bits_above_log2 0xBF) by (cbn; lia). by rewrite !andb_false_r. }
  rewrite E. replace (c mod 64) with ((c mod 2 ^ 8) mod 64).
  2:{ symmetry. change 64 with (2 ^ 6). change (2 ^ 8) with (2 ^ 6 * 2 ^ 2).
      rewrite Z.rem_mul_r by lia. rewrite Z.mul_comm, Z.mod_add, Z.mod_mod by lia. done. }
  assert (Hr : 0 <= c mod 2 ^ 8 < Z.of_nat 256) by (apply Z.mod_pos_bound; lia).
  apply Z.eqb_eq. revert Hr. generalize (c mod 2 ^ 8). intros z Hz.
  refine (forall_below_spec 256 (λ z, u8 (Z.land (Z.lor z 0x80) 0xBF) =? 0x80 + z mod 64) _ z Hz).
  vm_compute. done.
Qed.

Lemma lead_byte (bits : nat) mark x :
  forall_below bits (λ x, u8 (Z.lor x mark) =? mark + x) = true →
  0 <= x < Z.of_nat bits → u8 (Z.lor x mark) = mark + x.
Proof. intros H Hx. apply Z.eqb_eq. exact (forall_below_spec _ _ H x Hx). Qed.

Lemma trailing_spec b : 0 <= b < 256 →
  rd trailingBytesForUTF8 b =
    Ok (if b <? 0xC0 then 0 else if b <? 0xE0 then 1 else if b <? 0xF0 then 2
        else if b <? 0xF8 then 3 else if b <? 0xFC then 4 else 5).
Proof.
  intros Hb.
  assert (H : match rd trailingBytesForUTF8 b with
              | Ok t => t =? (if b <? 0xC0 then 0 else if b <? 0xE0 then 1 else if b <? 0xF0 then 2
                              else if b <? 0xF8 then 3 else if b <? 0xFC then 4 else 5)
              | _ => false end = true).
  { revert b Hb. apply (forall_below_spec 256). vm_compute. done. }
  destruct (rd _ b); try done. apply Z.eqb_eq in H. by subst.
Qed.

(** ** Writing one code point *)

Lemma utf8_enc_length c : length (utf8_enc c) =
  if c <? 0x80 then 1%nat else if c <? 0x800 then 2%nat else if c <? 0x10000 then 3%nat else 4%nat.
Proof. unfold utf8_enc. by repeat case_if. Qed.

Lemma utf16_enc_length c : length (utf16_enc c) = if c <? 0x10000 then 1%nat else 2%nat.
Proof. unfold utf16_enc. by case_if. Qed.

Lemma utf8_enc_pos c : (1 ≤ length (utf8_enc c))%nat.
Proof. rewrite utf8_enc_length. repeat case_if; lia. Qed.

Lemma utf16_enc_pos c : (1 ≤ length (utf16_enc c))%nat.
Proof. rewrite utf16_enc_length. repeat case_if; lia. Qed.

Lemma utf8_width_enc c : 0 <= c < 0x110000 → utf8_width c = (length (utf8_enc c), c).
Proof. intros Hc. rewrite utf8_enc_length. unfold utf8_width. repeat case_if; zbool; done || lia. Qed.

Lemma put_utf8_SS b n ch target dst :
  put_utf8 b (S (S n)) ch target dst =
  (wr dst (target - 1) (u8 (Z.land (Z.lor ch 0x80) 0xBF)) ≫= put_utf8 b (S n) (Z.shiftr ch 6) (target - 1)).
Proof. done. Qed.

(** One write of the fall-through switch, inside the window [g] it fills. *)
Lemma put_utf8_cont b n c (d1 g d2 : list Z) p :
  p = Z.of_nat (length d1) → 0 <= c → (S (S n) ≤ length g)%nat →
  put_utf8 b (S (S n)) c (p + Z.of_nat (S (S n))) (d1 ++ g ++ d2) =
  put_utf8 b (S n) (c / 64) (p + Z.of_nat (S n)) (d1 ++ <[S n := 0x80 + c mod 64]> g ++ d2).
Proof.
  intros -> Hc Hg. rewrite put_utf8_SS.
  replace (Z.of_nat (length d1) + Z.of_nat (S (S n)) - 1) with (Z.of_nat (length d1) + Z.of_nat (S n)) by lia.
  rewrite wr_window by (done || lia). rewrite cont_byte, Nat2Z.id by done.
  rewrite Z.shiftr_div_pow2 by lia. done.
Qed.

Lemma put_utf8_lead b c mark (d1 g d2 : list Z) p :
  p = Z.of_nat (length d1) → (1 ≤ length g)%nat → rd firstByteMark (Z.of_nat b) = Ok mark →
  u8 (Z.lor c mark) = mark + c →
  put_utf8 b 1 c (p + 1) (d1 ++ g ++ d2) = Ok (p, d1 ++ <[O := mark + c]> g ++ d2).
Proof.
  intros -> Hg Hm Hb. cbn [put_utf8]. rewrite Hm, bind_Ok, Hb.
  replace (Z.of_nat (length d1) + 1 - 1) with (Z.of_nat (length d1) + 0) by lia.
  rewrite wr_window by (done || lia). rewrite bind_Ok. f_equal. f_equal. lia.
Qed.

(** Side conditions of the two lemmas above; [k] bounds the lead payload. *)
Ltac put_side k :=
  first [done | rewrite ?length_insert; cbn [length]; lia
        | apply (lead_byte k); [by vm_compute | rewrite ?Z.div_div by lia; lia]].

Lemma put_utf8_enc c (d1 g d2 : list Z) p :
  0 <= c < 0x110000 → p = Z.of_nat (length d1) → length g = length (utf8_enc c) →
  put_utf8 (length g) (length g) c (p + Z.of_nat (length g)) (d1 ++ g ++ d2)
    = Ok (p, d1 ++ utf8_enc c ++ d2).
Proof.
  intros Hc Hp Hg. assert (Hl := Hg). rewrite utf8_enc_length in Hl. unfold utf8_enc in *.
  destruct (Z.ltb_spec c 0x80); [|destruct (Z.ltb_spec c 0x800); [|destruct (Z.ltb_spec c 0x10000)]];
    rewrite Hl; repeat (destruct g as [|? g]; [discriminate|]); destruct g; try discriminate.
  - change (Z.of_nat 1) with 1.
    rewrite (put_utf8_lead _ _ 0) by put_side 128%nat. done.
  - rewrite put_utf8_cont by put_side 0%nat. change (Z.of_nat 1) with 1.
    rewrite (put_utf8_lead _ _ 0xC0) by put_side 32%nat. done.
  - rewrite !put_utf8_cont by put_side 0%nat. change (Z.of_nat 1) with 1.
    rewrite (put_utf8_lead _ _ 0xE0) by put_side 16%nat.
    cbn. by rewrite Z.div_div by lia.
  - rewrite !put_utf8_cont by put_side 0%nat. change (Z.of_nat 1) with 1.
    rewrite (put_utf8_lead _ _ 0xF0) by put_side 8%nat.
    cbn. by rewrite !Z.div_div by lia.
Qed.

Lemma skip_utf8_sub n target : skip_utf8 n target = target - Z.of_nat n.
Proof. revert target. induction n as [|n IH]; intros t; cbn [skip_utf8]; [|rewrite IH]; lia. Qed.

(** ** UTF-16 to UTF-8: what one iteration does *)

(** The code points an iteration accepts: scalar values in strict mode, and
    unpaired surrogates too in lenient mode. *)
Definition code_point (flags : ConversionFlags) (c : Z) : Prop :=
  match flags with strictConversion => scalar c | lenientConversion => 0 <= c < 0x110000 end.

(** Why an iteration leaves the loop at [source]. *)
Definition stops16 (flags : ConversionFlags) (src : list Z) (source sourceEnd : Z) (r : ConversionResult) : Prop :=
  match r with
  | conversionOK => sourceEnd <= source
  | sourceExhausted => source + 1 = sourceEnd ∧ ∃ u, rd src source = Ok u ∧ is_high u = true
  | sourceIllegal => source < sourceEnd ∧ flags = strictConversion ∧ ∃ u, rd src source = Ok u ∧
      (is_low u = true ∨
       is_high u = true ∧ source + 1 < sourceEnd ∧ ∃ v, rd src (source + 1) = Ok v ∧ is_low v = false)
  | targetExhausted => False
  end.

(** One fetch: a code point whose encoding is the units consumed, or the
    reason for stopping. *)
Definition fetched16 (flags : ConversionFlags) (src : list Z) (source sourceEnd : Z)
    (f : Z * Z + ConversionResult * Z) : Prop :=
  match f with
  | inl (c, source') => code_point flags c ∧ source' = source + Z.of_nat (length (utf16_enc c)) ∧
      source' <= sourceEnd ∧ zslice src source source' = utf16_enc c
  | inr (r, source') => source' = source ∧ r ≠ conversionOK ∧ stops16 flags src source sourceEnd r
  end.

Lemma zslice_one (l : list Z) i u : 0 <= i → l !! Z.to_nat i = Some u → zslice l i (i + 1) = [u].
Proof.
  intros Hi Hu. unfold zslice. replace (Z.to_nat (i + 1 - i)) with 1%nat by lia.
  by rewrite (drop_S l u (Z.to_nat i) Hu).
Qed.

Lemma zslice_two (l : list Z) i u v : 0 <= i → l !! Z.to_nat i = Some u → l !! Z.to_nat (i + 1) = Some v →
  zslice l i (i + 2) = [u; v].
Proof.
  intros Hi Hu Hv. rewrite (zslice_app l i (i + 1)) by lia. rewrite (zslice_one l i u) by done.
  replace (i + 2) with (i + 1 + 1) by lia. by rewrite (zslice_one l (i + 1) v) by (done || lia).
Qed.

Lemma utf16_enc_pair u v : is_high u = true → is_low v = true →
  utf16_enc ((u - 0xD800) * 1024 + (v - 0xDC00) + 0x10000) = [u; v] ∧
  0x10000 <= (u - 0xD800) * 1024 + (v - 0xDC00) + 0x10000 < 0x110000.
Proof.
  unfold is_high, is_low, UNI_SUR_HIGH_START, UNI_SUR_HIGH_END, UNI_SUR_LOW_START, UNI_SUR_LOW_END.
  intros Hu Hv. zbool. unfold utf16_enc. case_if; zbool; [lia|]. split; [|lia].
  rewrite Z.add_simpl_r. f_equal; [|f_equal]; lia.
Qed.

Lemma pair_value u v : is_high u = true → is_low v = true →
  u32 (u32 (Z.shiftl (u32 (u - UNI_SUR_HIGH_START)) halfShift) + (v - UNI_SUR_LOW_START) + halfBase) =
  (u - 0xD800) * 1024 + (v - 0xDC00) + 0x10000.
Proof.
  unfold is_high, is_low, UNI_SUR_HIGH_START, UNI_SUR_HIGH_END, UNI_SUR_LOW_START, UNI_SUR_LOW_END,
    halfShift, halfBase.
  intros Hu Hv. zbool. rewrite (wrap_id 32 (u - _)) by (unfold urange; lia).
  rewrite Z.shiftl_mul_pow2 by lia. change (2 ^ 10) with 1024.
  rewrite !wrap_id by (unfold urange; rewrite ?wrap_id by (unfold urange; lia); lia). lia.
Qed.

Lemma fetch_utf16_spec flags src source sourceEnd :
  Forall (urange 16) src → 0 <= source < sourceEnd → sourceEnd <= Z.of_nat (length src) →
  runs (fetch_utf16 src sourceEnd flags source) (fetched16 flags src source sourceEnd).
Proof.
  intros Hsrc Hs He. unfold fetch_utf16.
  destruct (lookup_lt_is_Some_2 src (Z.to_nat source)) as [u Hu]; [lia|].
  assert (Hur := Forall_lookup_1 _ _ _ _ Hsrc Hu). unfold urange in Hur.
  rewrite (rd_lookup src source u), bind_Ok by (done || lia).
  assert (Hone := zslice_one src source u ltac:(lia) Hu).
  assert (Hself : code_point flags u → source + 1 <= sourceEnd →
            fetched16 flags src source sourceEnd (inl (u, source + 1))).
  { intros Hc Hle. cbn. unfold utf16_enc. destruct (Z.ltb_spec u 0x10000); [|lia]. by rewrite Hone. }
  assert (Hlen : 0 <= u < 0x110000) by lia.
  destruct (is_high u) eqn:Eh.
  - destruct (Z.ltb_spec (source + 1) sourceEnd) as [Hlt|Hge].
    + destruct (lookup_lt_is_Some_2 src (Z.to_nat (source + 1))) as [v Hv]; [lia|].
      rewrite (rd_lookup src (source + 1) v), bind_Ok by (done || lia).
      destruct (is_low v) eqn:El.
      * rewrite pair_value by done. destruct (utf16_enc_pair u v Eh El) as [Henc Hrng].
        apply runs_ok. cbn. rewrite Henc. cbn [length].
        replace (source + 1 + 1) with (source + 2) by lia. rewrite (zslice_two src source u v) by (done || lia).
        repeat split; try lia. destruct flags; cbn; unfold scalar; lia.
      * case_bool_decide; apply runs_ok.
        -- cbn. rewrite Z.add_simpl_r. repeat split; try done; try lia. exists u. rewrite (rd_lookup _ _ u) by (done || lia).
           split; [done|]. right. repeat split; try done. exists v. by rewrite (rd_lookup _ _ v) by (done || lia).
        -- destruct flags; [done|]. apply Hself; [done|lia].
    + apply runs_ok. cbn. rewrite Z.add_simpl_r. repeat split; try done; try lia. exists u. by rewrite (rd_lookup _ _ u) by (done || lia).
  - case_bool_decide as Ef; [destruct (is_low u) eqn:El|]; apply runs_ok.
    + cbn. rewrite Z.add_simpl_r. repeat split; try done; try lia. exists u. rewrite (rd_lookup _ _ u) by (done || lia). auto.
    + apply Hself; [|lia]. subst flags. split; [lia|].
      unfold is_high, is_low, UNI_SUR_HIGH_START, UNI_SUR_HIGH_END, UNI_SUR_LOW_START, UNI_SUR_LOW_END in *. zbool. lia.
    + destruct flags; [done|]. apply Hself; [done|lia].
Qed.

(** ** The two converters, specified *)

(** The target buffer after writing [x] at [t] (untouched when only the length
    is computed), and the room the caller grants. *)
Definition dst_after (targetEnd : option Z) (dst : list Z) (t : Z) (x : list Z) : list Z :=
  match targetEnd with Some _ => splice dst t x | None => dst end.

Definition room (targetEnd : option Z) (dst : list Z) (t : Z) : Prop :=
  match targetEnd with Some e => t <= e <= Z.of_nat (length dst) | None => True end.

Lemma dst_after_app te dst t x y : 0 <= t → room te dst (t + Z.of_nat (length x)) →
  dst_after te (dst_after te dst t x) (t + Z.of_nat (length x)) y = dst_after te dst t (x ++ y).
Proof. destruct te as [e|]; [|done]. cbn. intros. apply splice_splice; lia. Qed.

Lemma past_end_room te dst t t0 : room te dst t0 → past_end t te = false → room te dst t.
Proof. destruct te; [|done]. cbn. intros. zbool. lia. Qed.

(** The text converted so far, and why the conversion stopped. *)
Definition text16_to_8 flags src s source dst t te target dst' (cs : list Z) : Prop :=
  Forall (code_point flags) cs ∧ zslice src s source = utf16_text cs ∧
  target = t + Z.of_nat (length (utf8_text cs)) ∧ dst' = dst_after te dst t (utf8_text cs).

Definition stopped16_to_8 flags src source sourceEnd te target (r : ConversionResult) : Prop :=
  match r with
  | targetExhausted => ∃ e c rest, te = Some e ∧ code_point flags c ∧
      zslice src source sourceEnd = utf16_enc c ++ rest ∧ e < target + Z.of_nat (length (utf8_enc c))
  | _ => stops16 flags src source sourceEnd r
  end.

Lemma code_point_range flags c : code_point flags c → 0 <= c < 0x110000.
Proof. destruct flags; cbn; unfold scalar; lia. Qed.

Lemma text_snoc (enc : Z → list Z) cs c : concat (enc <$> (cs ++ [c])) = concat (enc <$> cs) ++ enc c.
Proof. rewrite fmap_app, concat_app. cbn. by rewrite app_nil_r. Qed.

Lemma put_utf8_room te dst t c : 0 <= t → 0 <= c < 0x110000 →
  room te dst (t + Z.of_nat (length (utf8_enc c))) →
  match te with
  | Some _ => put_utf8 (length (utf8_enc c)) (length (utf8_enc c)) c (t + Z.of_nat (length (utf8_enc c))) dst
  | None => Ok (skip_utf8 (length (utf8_enc c)) (t + Z.of_nat (length (utf8_enc c))), dst)
  end = Ok (t, dst_after te dst t (utf8_enc c)).
Proof.
  intros Ht Hc Hroom. destruct te as [e|]; cbn in *.
  - destruct (splice_window dst t (length (utf8_enc c))) as (p & g & q & -> & Hp & Hg & Hs); [lia|lia|].
    rewrite Hs by done. rewrite <- Hg. apply put_utf8_enc; [done|lia|done].
  - by rewrite skip_utf8_sub, Z.add_simpl_r.
Qed.

Section Utf16ToUtf8.
Context (flags : ConversionFlags) (src : list Z) (s sourceEnd : Z) (dst : list Z) (t : Z) (te : option Z).
Hypothesis (Hunits : Forall (urange 16) src) (Hs : 0 <= s <= sourceEnd)
  (He : sourceEnd <= Z.of_nat (length src)) (Ht : 0 <= t) (Hroom : room te dst t).

Definition inv16 (st : cstate) : Prop :=
  s <= cs_source st <= sourceEnd ∧ room te dst (cs_target st) ∧
  ∃ cs, text16_to_8 flags src s (cs_source st) dst t te (cs_target st) (cs_dst st) cs.

Definition post16 (r : conv) : Prop :=
  s <= cv_source r <= sourceEnd ∧ room te dst (cv_target r) ∧
  (∃ cs, text16_to_8 flags src s (cv_source r) dst t te (cv_target r) (cv_dst r) cs) ∧
  stopped16_to_8 flags src (cv_source r) sourceEnd te (cv_target r) (cv_result r).

Lemma utf16_body_spec st : inv16 st →
  runs (utf16_body src sourceEnd te flags st) (λ b, match b with
    | inl st' => inv16 st' ∧
        (Z.to_nat (sourceEnd - cs_source st') < Z.to_nat (sourceEnd - cs_source st))%nat
    | inr r => post16 r end).
Proof.
  destruct st as [source target dst']. intros (Hsrc & Hr & cs & Hcs & Hsl & Htg & Hd). cbn in Hsrc, Hr, Hsl, Htg, Hd.
  unfold utf16_body. destruct (Z.ltb_spec source sourceEnd) as [Hlt|Hge].
  2:{ apply runs_ok. repeat split; cbn; try lia; try done. by exists cs. }
  apply (runs_bind _ _ (fetched16 flags src source sourceEnd)); [apply fetch_utf16_spec; done || lia|].
  intros [[c source']|[r source']] Hf; cbn in Hf.
  2:{ destruct Hf as (-> & Hne & Hst). apply runs_ok. repeat split; cbn; try lia; try done; [by exists cs|].
      by destruct r. }
  destruct Hf as (Hc & -> & Hle & Hw). assert (Hcr := code_point_range _ _ Hc). assert (Hpos := utf16_enc_pos c).
  rewrite utf8_width_enc by done. cbn beta iota zeta.
  destruct (past_end _ te) eqn:Ep.
  - apply runs_ok. rewrite Z.add_simpl_r. repeat split; cbn; try lia; try done; [by exists cs|].
    destruct te as [e|]; [|done]. cbn in Ep. zbool.
    exists e, c, (zslice src (source + Z.of_nat (length (utf16_enc c))) sourceEnd).
    repeat split; try done. etransitivity; [eapply zslice_app | by rewrite Hw]; lia.
  - assert (Hr2 := past_end_room _ _ _ _ Hr Ep).
    assert (Hd2 : length dst' = length dst).
    { subst dst'. destruct te as [e|]; [|done]. cbn in *. apply splice_length; lia. }
    rewrite put_utf8_room by (try done; try lia; destruct te; cbn in *; lia).
    rewrite bind_Ok. apply runs_ok. repeat split; cbn; try lia; try done.
    exists (cs ++ [c]). split; [by apply Forall_app_2; [|apply Forall_singleton]|].
    unfold utf8_text, utf16_text in *. rewrite !text_snoc.
    rewrite (zslice_app src s source) by lia. rewrite Hsl, Hw. split; [done|].
    rewrite length_app. split; [lia|]. subst target dst'. apply dst_after_app; done.
Qed.

Lemma ConvertUTF16toUTF8_total : runs (ConvertUTF16toUTF8 src s sourceEnd dst t te flags) post16.
Proof.
  unfold ConvertUTF16toUTF8.
  apply (loop_total _ inv16 (λ st, Z.to_nat (sourceEnd - cs_source st)) post16 utf16_body_spec).
  - repeat split; cbn; try lia; try done. exists []. split; [constructor|].
    split; [by rewrite zslice_nil|]. split; [cbn; lia|]. destruct te; cbn; by rewrite ?splice_nil.
  - unfold conv_fuel. cbn. lia.
Qed.
End Utf16ToUtf8.

(** ** Reading one UTF-8 sequence *)

(** [isLegalUTF8] on the sequence itself. *)
Definition legal_list (bs : list Z) : bool :=
  match bs with
  | [b0] => legal_case1 b0 && negb (0xF4 <? b0)
  | [b0; a] => legal_case2 b0 a && legal_case1 b0 && negb (0xF4 <? b0)
  | [b0; a; b] => legal_trail b && legal_case2 b0 a && legal_case1 b0 && negb (0xF4 <? b0)
  | [b0; a; b; d] => legal_trail d && legal_trail b && legal_case2 b0 a && legal_case1 b0 && negb (0xF4 <? b0)
  | _ => false
  end.

(** The value the accumulation and the offset table compute. *)
Definition utf8_value (bs : list Z) : Z :=
  match bs with
  | [a] => a
  | [a; b] => (a - 0xC0) * 64 + (b - 0x80)
  | [a; b; c] => (a - 0xE0) * 4096 + (b - 0x80) * 64 + (c - 0x80)
  | [a; b; c; d] => (a - 0xF0) * 262144 + (b - 0x80) * 4096 + (c - 0x80) * 64 + (d - 0x80)
  | _ => 0
  end.

Lemma rd_zslice (l : list Z) a b (i : nat) x : 0 <= a → zslice l a b !! i = Some x → rd l (a + Z.of_nat i) = Ok x.
Proof.
  unfold zslice. intros Ha Hx. apply lookup_take_Some in Hx as [Hx _]. rewrite lookup_drop in Hx.
  apply rd_lookup; [lia|]. by replace (Z.to_nat (a + Z.of_nat i)) with (Z.to_nat a + i)%nat by lia.
Qed.

Lemma zslice_bytes w (l : list Z) a b : Forall (urange w) l → Forall (urange w) (zslice l a b).
Proof. intros H. apply Forall_take, Forall_drop, H. Qed.

Lemma zslice_length {A} (l : list A) a b : 0 <= a <= b → b <= Z.of_nat (length l) →
  Z.of_nat (length (zslice l a b)) = b - a.
Proof. intros. unfold zslice. rewrite length_take, length_drop. lia. Qed.

Ltac rd_bytes Hbs :=
  repeat match goal with
  | |- context [rd ?src (?s + ?k)] =>
      first [ rewrite (rd_zslice src s _ (Z.to_nat k) _ ltac:(lia) ltac:(rewrite Hbs; reflexivity))
            | let E := fresh in
              assert (E := rd_zslice src s _ (Z.to_nat k) _ ltac:(lia) ltac:(rewrite Hbs; reflexivity));
              cbn [Z.to_nat Pos.to_nat Pos.iter_op Nat.add Init.Nat.add Z.of_nat Pos.of_succ_nat Pos.succ] in E;
              rewrite E; clear E ]
  end.

Lemma isLegalUTF8_list src source bs :
  0 <= source → zslice src source (source + Z.of_nat (length bs)) = bs → (1 ≤ length bs)%nat →
  isLegalUTF8 src source (Z.of_nat (length bs)) = Ok (legal_list bs).
Proof.
  intros Hs Hbs Hl.
  assert (R : ∀ i x, bs !! i = Some x → rd src (source + Z.of_nat i) = Ok x).
  { intros i x Hx. eapply rd_zslice; [done|]. by rewrite Hbs. }
  destruct bs as [|b0 [|a [|b [|d [|e bs]]]]]; cbn in Hl; [lia|..].
  1-4: unfold isLegalUTF8; assert (R0 := R 0%nat b0 eq_refl); rewrite Z.add_0_r in R0;
    try (assert (R1 := R 1%nat a eq_refl)); try (assert (R2 := R 2%nat b eq_refl));
    try (assert (R3 := R 3%nat d eq_refl));
    change (Z.of_nat 1) with 1 in *; change (Z.of_nat 2) with 2 in *; change (Z.of_nat 3) with 3 in *;
    change (Z.of_nat 4) with 4 in *; cbn; rewrite ?R3, ?R2, ?R1, ?R0; cbn;
    repeat (case_match; cbn; rewrite ?R1, ?R0; cbn);
    repeat match goal with b := _ : bool |- _ => clear b | H : negb _ = true |- _ => apply negb_true_iff in H
           | H : negb _ = false |- _ => apply negb_false_iff in H end;
    f_equal; repeat match goal with H : _ = _ :> bool |- _ => rewrite H; clear H end; cbn; done.
  unfold isLegalUTF8. cbn [length].
  destruct (Z.of_nat (S (S (S (S (S (length bs))))))) as [|p|p] eqn:E; try done.
  repeat (destruct p as [p|p|]; try lia; try done).
Qed.

Lemma accepts_eq bs c c' : accepts bs c → c = c' → accepts bs c'.
Proof. by intros H <-. Qed.

Lemma accepts_scalar bs c : accepts bs c → scalar c.
Proof. destruct 1; unfold scalar in *; lia. Qed.

Lemma accepts_legal bs c : accepts bs c → legal_list bs = true ∧ (1 ≤ length bs)%nat.
Proof.
  destruct 1 as [c [Hc Hns]|a b Ha Hb|a b d Ha Hb Hd].
  - split; [|apply utf8_enc_pos]. unfold utf8_enc. repeat case_if; zbool; cbn;
      unfold legal_trail, legal_case2, legal_case1; repeat case_if; zbool; lia.
  - split; [|cbn; lia]. cbn. unfold legal_trail, legal_case2, legal_case1. repeat case_if; zbool; lia.
  - split; [|cbn; lia]. cbn. unfold legal_trail, legal_case2, legal_case1. repeat case_if; zbool; lia.
Qed.

(** Unfold the byte tests of a hypothesis. *)
Ltac legal_cases H :=
  cbn in H; unfold legal_trail, legal_case2, legal_case1 in H;
  repeat match type of H with context [if ?b then _ else _] => destruct b eqn:? end; zbool.

(** The sequence has the length its lead byte announces. *)
Definition sized (bs : list Z) : Prop :=
  ∃ b0 bs', bs = b0 :: bs' ∧ rd trailingBytesForUTF8 b0 = Ok (Z.of_nat (length bs) - 1).

Lemma sized_lead b0 bs : sized (b0 :: bs) → 0 <= b0 < 256 →
  Z.of_nat (length bs) = if b0 <? 0xC0 then 0 else if b0 <? 0xE0 then 1 else if b0 <? 0xF0 then 2
                         else if b0 <? 0xF8 then 3 else if b0 <? 0xFC then 4 else 5.
Proof.
  intros (b & bs' & [= <- <-] & H) Hb. rewrite trailing_spec in H by done.
  apply (f_equal (λ r, match r with Ok z => z | _ => 0 end)) in H. rewrite H. cbn [length]. lia.
Qed.

Lemma base64_digits x y z w : 0 <= y < 64 → 0 <= z < 64 → 0 <= w < 64 →
  let v := x * 262144 + y * 4096 + z * 64 + w in
  v / 262144 = x ∧ (v / 4096) mod 64 = y ∧ (v / 64) mod 64 = z ∧ v mod 64 = w.
Proof.
  intros Hy Hz Hw v. assert (H64 : v / 64 = x * 4096 + y * 64 + z) by lia.
  assert (H4096 : v / 4096 = x * 64 + y) by lia. rewrite H64, H4096. lia.
Qed.

Lemma legal_accepts bs : Forall (urange 8) bs → sized bs → legal_list bs = true → accepts bs (utf8_value bs).
Proof.
  intros Hb Hz Hl. unfold urange in Hb. change (2 ^ 8) with 256 in Hb.
  destruct bs as [|b0 [|a [|b [|d [|e bs]]]]]; try discriminate; decompose_Forall_hyps;
    apply sized_lead in Hz; try done; cbn [length] in Hz;
    repeat match type of Hz with context [if ?b then _ else _] => destruct b eqn:? end; zbool; try lia.
  - assert (E : [b0] = utf8_enc b0) by (unfold utf8_enc; legal_cases Hl; case_if; zbool; [done|lia]).
    cbn [utf8_value]. rewrite E. apply acc_wf. unfold scalar. legal_cases Hl; lia.
  - assert (E : [b0; a] = utf8_enc (utf8_value [b0; a])).
    { unfold utf8_enc. cbn [utf8_value]. legal_cases Hl; repeat case_if; zbool; try lia; repeat f_equal; lia. }
    rewrite E at 1. apply acc_wf. unfold scalar. cbn [utf8_value]. legal_cases Hl; lia.
  - destruct (decide (b0 = 0xED ∧ a < 0x80)) as [[-> Ha]|Hne].
    { eapply accepts_eq; [apply acc_ED|]; cbn [utf8_value]; legal_cases Hl; lia. }
    assert (Hv : scalar (utf8_value [b0; a; b]) ∧ 0x800 <= utf8_value [b0; a; b] < 0x10000).
    { unfold scalar. cbn [utf8_value]. legal_cases Hl; lia. }
    assert (E : [b0; a; b] = utf8_enc (utf8_value [b0; a; b])).
    { unfold utf8_enc. repeat case_if; zbool; try lia. cbn [utf8_value] in *.
      legal_cases Hl; repeat f_equal; lia. }
    rewrite E at 1. apply acc_wf, Hv.
  - destruct (decide (b0 = 0xF4 ∧ a < 0x80)) as [[-> Ha]|Hne].
    { eapply accepts_eq; [apply acc_F4|]; cbn [utf8_value]; legal_cases Hl; lia. }
    assert (Hv : 0x10000 <= utf8_value [b0; a; b; d] < 0x110000).
    { cbn [utf8_value]. legal_cases Hl; lia. }
    assert (E : [b0; a; b; d] = utf8_enc (utf8_value [b0; a; b; d])).
    { unfold utf8_enc. repeat case_if; zbool; try lia. cbn [utf8_value] in *.
      destruct (base64_digits (b0 - 0xF0) (a - 0x80) (b - 0x80) (d - 0x80)) as (-> & -> & -> & ->);
        legal_cases Hl; repeat f_equal; lia. }
    rewrite E at 1. apply acc_wf. unfold scalar. cbn [utf8_value] in Hv. lia.
Qed.

Lemma get_utf8_S n src source ch b : rd src source = Ok b → 0 <= ch → 0 <= b → (ch + b) * 64 < 2 ^ 32 →
  get_utf8 (S n) src source ch = get_utf8 n src (source + 1) ((ch + b) * 64).
Proof.
  intros Hb Hc Hb0 Hlt. cbn [get_utf8]. rewrite Hb, bind_Ok. change (2 ^ 32) with 4294967296 in Hlt.
  rewrite (wrap_id 32 (ch + b)) by (unfold urange; lia).
  rewrite Z.shiftl_mul_pow2 by lia. change (2 ^ 6) with 64. by rewrite wrap_id by (unfold urange; lia).
Qed.

Lemma get_utf8_O src source ch b : rd src source = Ok b → 0 <= ch + b < 2 ^ 32 →
  get_utf8 0 src source ch = Ok (ch + b, source + 1).
Proof. intros Hb Hlt. cbn [get_utf8]. rewrite Hb, bind_Ok. by rewrite wrap_id. Qed.

(** Accumulation and offset give [utf8_value] on every legal sequence. *)
Lemma get_utf8_value src source bs :
  0 <= source → Forall (urange 8) bs → sized bs →
  zslice src source (source + Z.of_nat (length bs)) = bs → legal_list bs = true →
  ∃ acc off, get_utf8 (length bs - 1) src source 0 = Ok (acc, source + Z.of_nat (length bs)) ∧
    rd offsetsFromUTF8 (Z.of_nat (length bs) - 1) = Ok off ∧ u32 (acc - off) = utf8_value bs.
Proof.
  intros Hs Hb Hz Hbs Hl. pose proof (legal_accepts _ Hb Hz Hl) as Hacc. unfold urange in Hb.
  apply accepts_scalar in Hacc as [Hv _].
  assert (R : ∀ i x, bs !! i = Some x → rd src (source + Z.of_nat i) = Ok x).
  { intros i x Hx. eapply rd_zslice; [done|]. by rewrite Hbs. }
  destruct bs as [|b0 [|a [|b [|d [|e bs]]]]]; try discriminate;
    repeat match goal with H : Forall _ (_ :: _) |- _ => apply Forall_cons_1 in H as [? H] end.
  1-4: assert (R0 := R 0%nat b0 eq_refl); rewrite Z.add_0_r in R0;
    try (assert (R1 := R 1%nat a eq_refl)); try (assert (R2 := R 2%nat b eq_refl));
    try (assert (R3 := R 3%nat d eq_refl)); clear R Hbs; cbn [length]; cbn [utf8_value] in *;
    change (Z.of_nat 1) with 1 in *; change (Z.of_nat 2) with 2 in *; change (Z.of_nat 3) with 3 in *;
    change (Z.of_nat 4) with 4 in *.
  1-4: change (1 - 1)%nat with 0%nat; change (2 - 1)%nat with 1%nat; change (3 - 1)%nat with 2%nat;
    change (4 - 1)%nat with 3%nat.
  1: exists b0, 0. 2: exists (b0 * 64 + a), 0x3080. 3: exists ((b0 * 64 + a) * 64 + b), 0xE2080.
  4: exists (((b0 * 64 + a) * 64 + b) * 64 + d), 0x3C82080.
  all: repeat (erewrite get_utf8_S by (rewrite ?Z.add_0_l, <- ?Z.add_assoc; first [eassumption | lia]));
    rewrite ?Z.add_0_l, <- ?Z.add_assoc.
  all: erewrite get_utf8_O by (rewrite ?Z.add_0_l, <- ?Z.add_assoc; first [eassumption | lia]); rewrite ?Z.add_0_l, <- ?Z.add_assoc.
  all: repeat split; cbn [utf8_value] in *; rewrite wrap_id; unfold urange; lia.
Qed.

(** ** UTF-8 to UTF-16: what one iteration does *)

(** Why an iteration leaves the loop: [extra] is the number of trailing bytes
    the byte at [source] announces. *)
Definition stopped8_to_16 src source sourceEnd te target (r : ConversionResult) : Prop :=
  match r with
  | conversionOK => sourceEnd <= source
  | _ => source < sourceEnd ∧ ∃ b0 extra, rd src source = Ok b0 ∧ rd trailingBytesForUTF8 b0 = Ok extra ∧
      match r with
      | sourceExhausted => sourceEnd <= source + extra
      | sourceIllegal => source + extra < sourceEnd ∧
          ∀ c, ¬ accepts (zslice src source (source + extra + 1)) c
      | _ => source + extra < sourceEnd ∧ ∃ e c, te = Some e ∧
          accepts (zslice src source (source + extra + 1)) c ∧ e < target + Z.of_nat (length (utf16_enc c))
      end
  end.

Definition text8_to_16 src s source dst t te target dst' (bss : list (list Z)) (cs : list Z) : Prop :=
  Forall2 accepts bss cs ∧ zslice src s source = concat bss ∧
  target = t + Z.of_nat (length (utf16_text cs)) ∧ dst' = dst_after te dst t (utf16_text cs).

Lemma splice_one {A} (l : list A) t x : 0 <= t < Z.of_nat (length l) → wr l t x = Ok (splice l t [x]).
Proof.
  intros Ht. destruct (splice_window l t 1) as (p & g & q & -> & <- & Hg & Hs); [lia|lia|].
  rewrite Hs by done. destruct g as [|y [|]]; try discriminate. by apply wr_app_mid.
Qed.

Lemma put16_dst_after te dst t x : 0 <= t → room te dst (t + 1) →
  put16 te x t dst = Ok (t + 1, dst_after te dst t [x]).
Proof.
  intros Ht Hr. unfold put16, dst_after. destruct te as [e|]; [|done]. cbn in Hr.
  by rewrite splice_one by lia.
Qed.

(** The halves of a surrogate pair, as the converter computes them. *)
Lemma pair_units c : scalar c → 0x10000 <= c →
  utf16_enc c = [u16 (Z.shiftr (u32 (c - halfBase)) halfShift + UNI_SUR_HIGH_START);
                 u16 (Z.land (u32 (c - halfBase)) halfMask + UNI_SUR_LOW_START)].
Proof.
  unfold scalar, utf16_enc, halfBase, halfShift, halfMask, UNI_SUR_HIGH_START, UNI_SUR_LOW_START.
  intros [Hc _] Hge. case_if; zbool; [lia|]. rewrite (wrap_id 32) by (unfold urange; lia).
  rewrite Z.shiftr_div_pow2 by lia. change 0x3FF with (Z.ones 10). rewrite Z.land_ones by lia.
  change (2 ^ 10) with 1024. rewrite !wrap_id by (unfold urange; lia). f_equal; [|f_equal]; lia.
Qed.

Lemma full_room te dst t t0 : room te dst t0 → full t te = false → room te dst (t + 1) ∨ t < t0.
Proof. destruct te as [e|]; cbn; [|auto]. intros. zbool. lia. Qed.

Lemma emit16_scalar te flags c source back target dst :
  scalar c → 0 <= target → room te dst target →
  (∃ e, te = Some e ∧ e < target + Z.of_nat (length (utf16_enc c)) ∧
     emit16 te flags c source back target dst = Ok (inr (Conv targetExhausted back target dst))) ∨
  (room te dst (target + Z.of_nat (length (utf16_enc c))) ∧
   emit16 te flags c source back target dst =
     Ok (inl (CState source (target + Z.of_nat (length (utf16_enc c))) (dst_after te dst target (utf16_enc c))))).
Proof.
  intros [Hc Hns] Ht Hr. unfold emit16, UNI_MAX_BMP, UNI_SUR_HIGH_START, UNI_SUR_LOW_END, UNI_MAX_UTF16.
  rewrite utf16_enc_length. destruct (full target te) eqn:Ef.
  { left. destruct te as [e|]; [|done]. exists e. cbn in Ef. zbool. repeat split. case_if; lia. }
  assert (Hr1 : room te dst (target + 1)) by (destruct (full_room _ _ _ _ Hr Ef); [done|lia]).
  destruct (Z.leb_spec c 0xFFFF) as [Hle|Hgt].
  - right. destruct (Z.leb_spec 0xD800 c), (Z.leb_spec c 0xDFFF); cbn [andb]; try lia.
    all: rewrite put16_dst_after by done; rewrite bind_Ok; rewrite wrap_id by (unfold urange; lia);
      unfold utf16_enc; case_if; zbool; try lia; done.
  - destruct (Z.ltb_spec 0x10FFFF c); [lia|]. destruct (Z.ltb_spec c 0x10000); [lia|].
    destruct (full (target + 1) te) eqn:Ef2.
    { left. destruct te as [e|]; [|done]. exists e. cbn in Ef2. zbool. repeat split. lia. }
    assert (Hr2 : room te dst (target + 1 + 1)) by (destruct (full_room _ _ _ _ Hr1 Ef2); [done|lia]).
    right. replace (target + Z.of_nat 2) with (target + 1 + 1) by lia. split; [done|].
    change 0xD800 with UNI_SUR_HIGH_START. rewrite put16_dst_after, bind_Ok by done.
    assert (Hd : room te (dst_after te dst target [u16 (Z.shiftr (u32 (c - halfBase)) halfShift + UNI_SUR_HIGH_START)]) (target + 1 + 1)).
    { destruct te as [e|]; [|done]. cbn in *. rewrite splice_length by (cbn; lia). done. }
    rewrite put16_dst_after, bind_Ok by (done || lia). do 3 f_equal.
    rewrite pair_units by (done || lia). apply (dst_after_app te dst target [_]); done.
Qed.

Section Utf8ToUtf16.
Context (flags : ConversionFlags) (src : list Z) (s sourceEnd : Z) (dst : list Z) (t : Z) (te : option Z).
Hypothesis (Hunits : Forall (urange 8) src) (Hs : 0 <= s <= sourceEnd)
  (He : sourceEnd <= Z.of_nat (length src)) (Ht : 0 <= t) (Hroom : room te dst t).

Definition inv8 (st : cstate) : Prop :=
  s <= cs_source st <= sourceEnd ∧ room te dst (cs_target st) ∧
  ∃ bss cs, text8_to_16 src s (cs_source st) dst t te (cs_target st) (cs_dst st) bss cs.

Definition post8 (r : conv) : Prop :=
  s <= cv_source r <= sourceEnd ∧ room te dst (cv_target r) ∧
  (∃ bss cs, text8_to_16 src s (cv_source r) dst t te (cv_target r) (cv_dst r) bss cs) ∧
  stopped8_to_16 src (cv_source r) sourceEnd te (cv_target r) (cv_result r).

(** The sequence at [source] is legal exactly when some value is decoded. *)
Lemma legal_at source b0 extra :
  s <= source → rd src source = Ok b0 → rd trailingBytesForUTF8 b0 = Ok extra → 0 <= extra →
  source + extra < sourceEnd →
  ∃ bs, zslice src source (source + extra + 1) = bs ∧ Z.of_nat (length bs) = extra + 1 ∧ sized bs ∧
    Forall (urange 8) bs ∧ isLegalUTF8 src source (extra + 1) = Ok (legal_list bs).
Proof.
  intros Hsrc Hb0 Hex Hpos Hlt. exists (zslice src source (source + extra + 1)).
  assert (Hl : Z.of_nat (length (zslice src source (source + extra + 1))) = extra + 1).
  { rewrite zslice_length by lia. lia. }
  split_and!; try done; [|by apply zslice_bytes|].
  - destruct (zslice src source (source + extra + 1)) as [|b bs] eqn:E; [cbn in Hl; lia|].
    assert (Hb : rd src (source + Z.of_nat 0) = Ok b) by (apply (rd_zslice _ _ (source + extra + 1)); [lia|by rewrite E]).
    rewrite Z.add_0_r, Hb0 in Hb. injection Hb as ->. exists b, bs. split; [done|]. rewrite Hex. f_equal. lia.
  - rewrite <- Hl. apply isLegalUTF8_list; [lia| |lia]. f_equal. lia.
Qed.

Lemma utf8_body_spec st : inv8 st →
  runs (utf8_body src sourceEnd te flags st) (λ b, match b with
    | inl st' => inv8 st' ∧
        (Z.to_nat (sourceEnd - cs_source st') < Z.to_nat (sourceEnd - cs_source st))%nat
    | inr r => post8 r end).
Proof.
  destruct st as [source target dst']. intros (Hsrc & Hr & bss & cs & Htxt). cbn in Hsrc, Hr, Htxt.
  assert (Hstop : ∀ r, stopped8_to_16 src source sourceEnd te target r → post8 (Conv r source target dst')).
  { intros r Hst. split_and!; cbn; try done; try lia. by exists bss, cs. }
  destruct Htxt as (Hacc & Hsl & Htg & Hd).
  unfold utf8_body. destruct (Z.ltb_spec source sourceEnd) as [Hlt|Hge].
  2:{ apply runs_ok, Hstop. cbn. lia. }
  destruct (rd_runs src source (urange 8)) as (b0 & Hb0 & Hb0r); [done|lia|].
  unfold urange in Hb0r. rewrite Hb0, bind_Ok. pose proof (trailing_spec b0 Hb0r) as Hex.
  set (extra := if b0 <? 0xC0 then 0 else _) in Hex. rewrite Hex, bind_Ok.
  assert (Hex0 : 0 <= extra) by (unfold extra; repeat case_if; lia). clearbody extra.
  destruct (Z.leb_spec sourceEnd (source + extra)) as [Hle|Hgt].
  { apply runs_ok, Hstop. split; [done|]. exists b0, extra. done. }
  destruct (legal_at source b0 extra) as (bs & Hbs & Hlen & Hz & Hb & ->); [done || lia..|].
  rewrite bind_Ok. destruct (legal_list bs) eqn:El; cbn [negb].
  2:{ apply runs_ok, Hstop. split; [done|]. exists b0, extra. split_and!; try done.
      intros c Hc. rewrite Hbs in Hc. apply accepts_legal in Hc as [Hc _]. congruence. }
  pose proof (legal_accepts bs Hb Hz El) as Hc. pose proof (accepts_scalar _ _ Hc) as Hscal.
  destruct (get_utf8_value src source bs) as (acc & off & Hget & Hoff & Hval); try done; [lia|by rewrite Hlen, Z.add_assoc|].
  replace (Z.to_nat extra) with (length bs - 1)%nat by lia. rewrite Hget, bind_Ok.
  replace (Z.of_nat (length bs) - 1) with extra in Hoff by lia. rewrite Hoff, bind_Ok, Hval. cbn zeta.
  replace (source + Z.of_nat (length bs) - (extra + 1)) with source by lia.
  assert (Hd2 : length dst' = length dst).
  { subst dst'. destruct te as [e|]; [|done]. cbn in *. apply splice_length; lia. }
  destruct (emit16_scalar te flags (utf8_value bs) (source + Z.of_nat (length bs)) source target dst')
    as [(e & He2 & Hlt2 & ->)|[Hroom2 ->]]; try done; try lia.
  { destruct te; [|done]. cbn in *. lia. }
  { apply runs_ok, Hstop. split; [done|]. exists b0, extra. split_and!; try done. exists e, (utf8_value bs). by rewrite Hbs. }
  assert (Hroom3 : room te dst (target + Z.of_nat (length (utf16_enc (utf8_value bs))))).
  { destruct te; [|done]. cbn in *. lia. }
  apply runs_ok. split; [|cbn; lia]. split_and!; cbn; try lia; try done.
  exists (bss ++ [bs]), (cs ++ [utf8_value bs]). split; [by apply Forall2_app; [|constructor]|].
  unfold utf16_text in *. rewrite text_snoc, concat_app. cbn. rewrite app_nil_r.
  rewrite (zslice_app src s source) by lia. rewrite Hsl. split.
  { f_equal. by rewrite Hlen, Z.add_assoc. }
  rewrite length_app. split; [lia|]. subst target dst'. apply dst_after_app; done.
Qed.

Lemma ConvertUTF8toUTF16_total : runs (ConvertUTF8toUTF16 src s sourceEnd dst t te flags) post8.
Proof.
  unfold ConvertUTF8toUTF16.
  apply (loop_total _ inv8 (λ st, Z.to_nat (sourceEnd - cs_source st)) post8 utf8_body_spec).
  - split_and!; cbn; try lia; try done. exists [], []. split; [constructor|].
    split; [by rewrite zslice_nil|]. split; [cbn; lia|]. destruct te; cbn; by rewrite ?splice_nil.
  - unfold conv_fuel. cbn. lia.
Qed.
End Utf8ToUtf16.

(** ** Unique decoding *)

Lemma utf16_enc_prefix c c' x y : scalar c → scalar c' →
  utf16_enc c ++ x = utf16_enc c' ++ y → c = c' ∧ x = y.
Proof.
  intros [Hc Hns] [Hc' Hns']. unfold utf16_enc. repeat case_if; zbool; cbn; intros [=]; subst; try lia; auto.
  split; [lia|done].
Qed.

Lemma utf8_enc_value c : 0 <= c < 0x110000 → utf8_value (utf8_enc c) = c.
Proof. intros Hc. unfold utf8_enc. repeat case_if; zbool; cbn; lia. Qed.

Lemma accepts_value bs c : accepts bs c → utf8_value bs = c.
Proof.
  destruct 1; cbn; [|lia..]. apply utf8_enc_value. unfold scalar in *. lia.
Qed.

Lemma accepts_sized bs c : accepts bs c → sized bs.
Proof.
  destruct 1 as [c [Hc Hns]|a b Ha Hb|a b d Ha Hb Hd]; unfold sized.
  2-3: eexists _, _; split; [done|vm_compute; done].
  rewrite utf8_enc_length. unfold utf8_enc.
  repeat case_if; zbool; try lia; eexists _, _; (split; [done|]); rewrite trailing_spec by lia; f_equal;
    repeat case_if; zbool; lia.
Qed.

Lemma accepts_prefix bs bs' c c' x y : accepts bs c → accepts bs' c' →
  bs ++ x = bs' ++ y → bs = bs' ∧ c = c' ∧ x = y.
Proof.
  intros H H' E. destruct (accepts_sized _ _ H) as (b & k & -> & Hl).
  destruct (accepts_sized _ _ H') as (b' & k' & -> & Hl').
  injection E as -> E. rewrite Hl in Hl'. injection Hl' as Hl'. cbn [length] in Hl'.
  apply app_inj_1 in E as [-> ->]; [|lia]. split_and!; try done.
  apply accepts_value in H, H'. congruence.
Qed.

Lemma text16_prefix cs cs' x : Forall scalar cs → Forall scalar cs' → utf16_text cs = utf16_text cs' ++ x →
  ∃ k, cs = cs' ++ k ∧ x = utf16_text k.
Proof.
  intros Hcs Hcs'. revert cs Hcs. induction Hcs' as [|c' cs' Hc' Hcs' IH]; intros cs Hcs E.
  - exists cs. by rewrite E.
  - destruct Hcs as [|c cs Hc Hcs].
    { unfold utf16_text in E. cbn in E. pose proof (utf16_enc_pos c'). destruct (utf16_enc c'); cbn in *; [lia|done]. }
    unfold utf16_text in E. cbn in E. rewrite <- app_assoc in E.
    apply utf16_enc_prefix in E as [-> E]; try done. destruct (IH cs Hcs E) as (k & -> & ->). by exists k.
Qed.

Lemma text8_prefix cs bss cs' x : Forall scalar cs → Forall2 accepts bss cs' → utf8_text cs = concat bss ++ x →
  ∃ k, cs = cs' ++ k ∧ x = utf8_text k.
Proof.
  intros Hcs Hacc. revert cs Hcs. induction Hacc as [|bs c' bss cs' Hc' Hacc IH]; intros cs Hcs E.
  - exists cs. by rewrite E.
  - destruct Hcs as [|c cs Hc Hcs].
    { destruct (accepts_sized _ _ Hc') as (? & ? & -> & _). done. }
    unfold utf8_text in E. cbn in E. rewrite <- app_assoc in E.
    apply (accepts_prefix _ _ c c') in E as (_ & -> & E); try done; [|by constructor].
    destruct (IH cs Hcs E) as (k & -> & ->). by exists k.
Qed.

Lemma rd_of_zslice (l : list Z) a b x k : 0 <= a → zslice l a b = x :: k → rd l a = Ok x.
Proof. intros Ha E. rewrite <- (Z.add_0_r a). apply (rd_zslice l a b 0%nat); [done|by rewrite E]. Qed.

(** In front of a scalar value the strict conversion only stops for lack of
    room. *)
Lemma next16_stop src source sourceEnd te target r c rest :
  0 <= source → sourceEnd <= Z.of_nat (length src) → scalar c →
  zslice src source sourceEnd = utf16_enc c ++ rest →
  stopped16_to_8 strictConversion src source sourceEnd te target r →
  r = targetExhausted ∧ ∃ e, te = Some e ∧ e < target + Z.of_nat (length (utf8_enc c)).
Proof.
  intros Hs He Hc Hz Hst. pose proof (utf16_enc_pos c) as Hpos.
  assert (Hlt : source < sourceEnd).
  { destruct (Z.lt_ge_cases source sourceEnd); [done|]. unfold zslice in Hz.
    replace (Z.to_nat (sourceEnd - source)) with 0%nat in Hz by lia. cbn in Hz.
    destruct (utf16_enc c); cbn in *; [lia|done]. }
  pose proof Hc as [Hcr Hns]. assert (Hl := zslice_length src source sourceEnd ltac:(lia) He).
  rewrite Hz, length_app in Hl.
  destruct r; cbn in Hst.
  - lia.
  - destruct Hst as (Hend & u & Hu & Hh). exfalso.
    unfold utf16_enc in Hz, Hl. destruct (Z.ltb_spec c 0x10000); cbn in Hz, Hl; [|lia].
    apply rd_of_zslice in Hz; [|done]. rewrite Hu in Hz. injection Hz as ->.
    unfold is_high, UNI_SUR_HIGH_START, UNI_SUR_HIGH_END in Hh. zbool. lia.
  - destruct Hst as (e & c' & rest' & -> & Hc' & Hz' & Hlt'). rewrite Hz in Hz'.
    apply utf16_enc_prefix in Hz' as [<- _]; [|done..]. eauto.
  - destruct Hst as (_ & _ & u & Hu & Hbad). exfalso. unfold is_high, is_low, UNI_SUR_HIGH_START,
      UNI_SUR_HIGH_END, UNI_SUR_LOW_START, UNI_SUR_LOW_END in Hbad.
    assert (Hu' := Hz). unfold utf16_enc in Hu'. destruct (Z.ltb_spec c 0x10000); cbn in Hu'; apply rd_of_zslice in Hu' as Hu2; try done;
      rewrite Hu in Hu2; injection Hu2 as ->; zbool; destruct Hbad as [Hlow|(Hhigh & Hlt2 & v & Hv & Hnl)]; try lia.
    assert (Hv' : rd src (source + Z.of_nat 1) = Ok (0xDC00 + (c - 0x10000) mod 1024)).
    { apply (rd_zslice _ _ sourceEnd); [done|]. by rewrite Hu'. }
    change (Z.of_nat 1) with 1 in Hv'. rewrite Hv in Hv'. injection Hv' as ->. zbool. lia.
Qed.

Lemma next8_stop src source sourceEnd te target r c rest :
  0 <= source → sourceEnd <= Z.of_nat (length src) → scalar c →
  zslice src source sourceEnd = utf8_enc c ++ rest →
  stopped8_to_16 src source sourceEnd te target r →
  r = targetExhausted ∧ ∃ e, te = Some e ∧ e < target + Z.of_nat (length (utf16_enc c)).
Proof.
  intros Hs He Hc Hz Hst. pose proof (acc_wf c Hc) as Ha.
  destruct (accepts_sized _ _ Ha) as (b & k & Hb & Hex). rewrite Hb in Hz, Hex.
  assert (Hlt : source < sourceEnd).
  { destruct (Z.lt_ge_cases source sourceEnd); [done|]. unfold zslice in Hz.
    by replace (Z.to_nat (sourceEnd - source)) with 0%nat in Hz by lia. }
  assert (Hl := zslice_length src source sourceEnd ltac:(lia) He). rewrite Hz, length_app in Hl.
  assert (Hrd : rd src source = Ok b) by (by eapply rd_of_zslice).
  assert (Hpre : zslice src source (source + (Z.of_nat (length (b :: k)) - 1) + 1) = b :: k).
  { assert (Hz' := Hz). rewrite (zslice_app src source (source + (Z.of_nat (length (b :: k)) - 1) + 1)) in Hz' by lia.
    apply app_inj_1 in Hz' as [? _]; [done|]. apply Nat2Z.inj. rewrite zslice_length by lia. lia. }
  destruct r; cbv beta iota delta [stopped8_to_16] in Hst; [lia|..]; destruct Hst as (_ & b' & ex & Hb' & Hex' & Hst);
    rewrite Hrd in Hb'; injection Hb' as <-; rewrite Hex in Hex'; injection Hex' as <-.
  - exfalso. cbn [length] in Hl. lia.
  - cbn [length] in Hpre. destruct Hst as (_ & e & c' & -> & Hc' & Hlt'). rewrite Hpre, <- Hb in Hc'.
    apply accepts_value in Hc', Ha. split; [done|]. exists e. split; [done|]. congruence.
  - cbn [length] in Hpre. destruct Hst as (_ & Hno). exfalso. apply (Hno c). rewrite Hpre, <- Hb. done.
Qed.

(** ** Whole-text conversions *)

Lemma scalar_units c : scalar c → Forall (urange 16) (utf16_enc c).
Proof. intros [Hc Hns]. unfold utf16_enc, urange. case_if; zbool; repeat constructor; lia. Qed.

Lemma scalar_bytes c : scalar c → Forall (urange 8) (utf8_enc c).
Proof. intros [Hc Hns]. unfold utf8_enc, urange. repeat case_if; zbool; repeat constructor; lia. Qed.

Lemma text_units (w : Z) (enc : Z → list Z) cs :
  (∀ c, scalar c → Forall (urange w) (enc c)) → Forall scalar cs → Forall (urange w) (concat (enc <$> cs)).
Proof. intros H Hcs. induction Hcs; cbn; [constructor|]. apply Forall_app_2; auto. Qed.

Definition fits (te : option Z) (n : Z) : Prop := match te with Some e => n <= e | None => True end.

Lemma text8_app cs k : utf8_text (cs ++ k) = utf8_text cs ++ utf8_text k.
Proof. unfold utf8_text. by rewrite fmap_app, concat_app. Qed.
Lemma text16_app cs k : utf16_text (cs ++ k) = utf16_text cs ++ utf16_text k.
Proof. unfold utf16_text. by rewrite fmap_app, concat_app. Qed.

Lemma text8_cons c k : utf8_text (c :: k) = utf8_enc c ++ utf8_text k.
Proof. done. Qed.
Lemma text16_cons c k : utf16_text (c :: k) = utf16_enc c ++ utf16_text k.
Proof. done. Qed.

(** Well-formed text that fits is converted whole. *)
Lemma convert16_text src s e dst t te cs :
  Forall (urange 16) src → 0 <= s <= e → e <= Z.of_nat (length src) → 0 <= t → room te dst t →
  Forall scalar cs → zslice src s e = utf16_text cs → fits te (t + Z.of_nat (length (utf8_text cs))) →
  ConvertUTF16toUTF8 src s e dst t te strictConversion =
    Ok (Conv conversionOK e (t + Z.of_nat (length (utf8_text cs))) (dst_after te dst t (utf8_text cs))).
Proof.
  intros Hu Hs He Ht Hr Hcs Hz Hfit.
  destruct (ConvertUTF16toUTF8_total strictConversion src s e dst t te) as (r & -> & H); try done.
  destruct H as (Hsrc & _ & (cs' & Hcs' & Hz' & Htg & Hd) & Hst). destruct r as [res source target dst'].
  cbn in *. rewrite (zslice_app src s source) in Hz by lia. rewrite Hz' in Hz. symmetry in Hz.
  destruct (text16_prefix cs cs' _ Hcs Hcs' Hz) as ([|c k] & -> & Hk).
  - rewrite app_nil_r in *. assert (Hend : source = e).
    { assert (Hl := zslice_length src source e ltac:(lia) He). rewrite Hk in Hl. change (Z.of_nat 0 = e - source) in Hl. lia. }
    subst source. f_equal. f_equal; try done. destruct res; cbn in Hst; try done; try lia.
    destruct Hst as (? & c & rest & -> & Hc & Hz2 & _). rewrite zslice_nil in Hz2.
    pose proof (utf16_enc_pos c). destruct (utf16_enc c); cbn in *; [lia|done].
  - exfalso. apply Forall_app in Hcs as [_ Hcs]. apply Forall_cons_1 in Hcs as [Hc _].
    rewrite text16_cons in Hk. destruct (next16_stop src source e te target res c (utf16_text k)) as (_ & x & -> & Hlt);
      [lia|done..|].
    cbn in Hfit. rewrite text8_app, text8_cons, !length_app in Hfit. lia.
Qed.

Lemma convert8_text flags src s e dst t te cs :
  Forall (urange 8) src → 0 <= s <= e → e <= Z.of_nat (length src) → 0 <= t → room te dst t →
  Forall scalar cs → zslice src s e = utf8_text cs → fits te (t + Z.of_nat (length (utf16_text cs))) →
  ConvertUTF8toUTF16 src s e dst t te flags =
    Ok (Conv conversionOK e (t + Z.of_nat (length (utf16_text cs))) (dst_after te dst t (utf16_text cs))).
Proof.
  intros Hu Hs He Ht Hr Hcs Hz Hfit.
  destruct (ConvertUTF8toUTF16_total flags src s e dst t te) as (r & -> & H); try done.
  destruct H as (Hsrc & _ & (bss & cs' & Hacc & Hz' & Htg & Hd) & Hst). destruct r as [res source target dst'].
  cbn [cv_source cv_target cv_dst cv_result] in *. rewrite (zslice_app src s source) in Hz by lia. rewrite Hz' in Hz. symmetry in Hz.
  destruct (text8_prefix cs bss cs' _ Hcs Hacc Hz) as ([|c k] & -> & Hk).
  - rewrite app_nil_r in *. assert (Hend : source = e).
    { assert (Hl := zslice_length src source e ltac:(lia) He). rewrite Hk in Hl. change (Z.of_nat 0 = e - source) in Hl. lia. }
    subst source. f_equal. f_equal; try done.
    destruct res; cbv beta iota delta [stopped8_to_16] in Hst; [done|destruct Hst as [? _]; lia..].
  - exfalso. apply Forall_app in Hcs as [_ Hcs]. apply Forall_cons_1 in Hcs as [Hc _].
    rewrite text8_cons in Hk. destruct (next8_stop src source e te target res c (utf8_text k)) as (_ & x & -> & Hlt);
      [lia|done..|].
    cbn in Hfit. rewrite text16_app, text16_cons, !length_app in Hfit. lia.
Qed.

(** The strict conversion succeeds only on well-formed text. *)
Lemma converted16_text src s e dst t te r :
  Forall (urange 16) src → 0 <= s <= e → e <= Z.of_nat (length src) → 0 <= t → room te dst t →
  ConvertUTF16toUTF8 src s e dst t te strictConversion = Ok r → cv_result r = conversionOK →
  ∃ cs, Forall scalar cs ∧ zslice src s e = utf16_text cs ∧ cv_target r = t + Z.of_nat (length (utf8_text cs)).
Proof.
  intros Hu Hs He Ht Hr Hrun Hok.
  destruct (ConvertUTF16toUTF8_total strictConversion src s e dst t te) as (r' & E & H); try done.
  rewrite Hrun in E. injection E as <-. destruct H as (Hsrc & _ & (cs & Hcs & Hz & Htg & _) & Hst).
  rewrite Hok in Hst. cbn in Hst. exists cs. replace e with (cv_source r) by lia. done.
Qed.

(** Terminators *)
Lemma unit_strlen_app l k : Forall (λ x, x ≠ 0) l → unit_strlen (l ++ 0 :: k) = Ok (Z.of_nat (length l)).
Proof.
  intros H. induction H as [|x l Hx _ IH]; [done|]. cbn [app unit_strlen]. destruct (Z.eqb_spec x 0); [done|].
  rewrite IH, bind_Ok. f_equal. cbn [length]. lia.
Qed.

Lemma utf8_enc_nonzero c : scalar c → c ≠ 0 → Forall (λ x, x ≠ 0) (utf8_enc c).
Proof. intros [Hc _] Hne. unfold utf8_enc. repeat case_if; zbool; repeat constructor; lia. Qed.

Lemma utf16_enc_nonzero c : scalar c → c ≠ 0 → Forall (λ x, x ≠ 0) (utf16_enc c).
Proof. intros [Hc _] Hne. unfold utf16_enc. repeat case_if; zbool; repeat constructor; lia. Qed.

Lemma text_nonzero (enc : Z → list Z) cs :
  (∀ c, scalar c → c ≠ 0 → Forall (λ x, x ≠ 0) (enc c)) → Forall scalar cs → Forall (λ c, c ≠ 0) cs →
  Forall (λ x, x ≠ 0) (concat (enc <$> cs)).
Proof.
  intros H Hcs. induction Hcs as [|c cs Hc Hcs IH]; intros Hnz; cbn; [constructor|].
  apply Forall_cons_1 in Hnz as [Hnz Hnzs]. apply Forall_app_2; auto.
Qed.

Lemma zslice_prefix {A} (m r : list A) : zslice (m ++ r) 0 (Z.of_nat (length m)) = m.
Proof. apply (zslice_window [] m r); [done|lia]. Qed.

Lemma splice_at_0 {A} (l x : list A) : splice l 0 x = x ++ drop (length x) l.
Proof. done. Qed.

(** A whole call of the two entry points on well-formed text. *)
Lemma UziUtf16toUtf8_text src cch cs k dst :
  Forall (urange 16) src → Forall scalar cs → src = utf16_text cs ++ k → cch = Z.of_nat (length (utf16_text cs)) →
  0 < Z.of_nat (length (utf8_text cs)) <= Z.of_nat (length dst) → Z.of_nat (length dst) < 2 ^ 31 →
  UziUtf16toUtf8 src cch dst (Z.of_nat (length dst)) =
    Ok (Z.of_nat (length (utf8_text cs)), utf8_text cs ++ drop (length (utf8_text cs)) dst).
Proof.
  intros Hu Hcs -> -> Hd Hlt. unfold UziUtf16toUtf8. destruct (Z.eqb_spec (Z.of_nat (length (utf16_text cs))) (-1)); [lia|].
  rewrite bind_Ok. destruct (Z.eqb_spec (Z.of_nat (length dst)) 0); [lia|].
  rewrite (convert16_text _ _ _ _ _ _ cs); try done; cbn; try lia.
  - cbn. rewrite swrap_id by (unfold srange; lia). done.
  - rewrite length_app. lia.
  - apply zslice_prefix.
Qed.

Lemma UziUtf8toUtf16_text src cch cs k dst :
  Forall (urange 8) src → Forall scalar cs → src = utf8_text cs ++ k → cch = Z.of_nat (length (utf8_text cs)) →
  0 < Z.of_nat (length (utf16_text cs)) <= Z.of_nat (length dst) → Z.of_nat (length dst) < 2 ^ 31 →
  UziUtf8toUtf16 src cch dst (Z.of_nat (length dst)) =
    Ok (Z.of_nat (length (utf16_text cs)), utf16_text cs ++ drop (length (utf16_text cs)) dst).
Proof.
  intros Hu Hcs -> -> Hd Hlt. unfold UziUtf8toUtf16. destruct (Z.eqb_spec (Z.of_nat (length (utf8_text cs))) (-1)); [lia|].
  rewrite bind_Ok. destruct (Z.eqb_spec (Z.of_nat (length dst)) 0); [lia|].
  rewrite (convert8_text _ _ _ _ _ _ _ cs); try done; cbn; try lia.
  - cbn. rewrite swrap_id by (unfold srange; lia). done.
  - rewrite length_app. lia.
  - apply zslice_prefix.
Qed.

(** [cchSrc = -1] counts up to and including the terminator. *)
Lemma UziUtf16toUtf8_nul l k dst cap : Forall (λ x, x ≠ 0) l → Z.of_nat (length l) + 1 < 2 ^ 31 →
  UziUtf16toUtf8 (l ++ 0 :: k) (-1) dst cap = UziUtf16toUtf8 (l ++ 0 :: k) (Z.of_nat (length l) + 1) dst cap.
Proof.
  intros Hl Hlt. unfold UziUtf16toUtf8, uzi_wcslen. cbn [Z.eqb Pos.eqb]. rewrite unit_strlen_app by done.
  rewrite !bind_Ok. rewrite swrap_id by (unfold srange; lia).
  by destruct (Z.eqb_spec (Z.of_nat (length l) + 1) (-1)); [lia|].
Qed.

Lemma UziUtf8toUtf16_nul l k dst cap : Forall (λ x, x ≠ 0) l → Z.of_nat (length l) + 1 < 2 ^ 31 →
  UziUtf8toUtf16 (l ++ 0 :: k) (-1) dst cap = UziUtf8toUtf16 (l ++ 0 :: k) (Z.of_nat (length l) + 1) dst cap.
Proof.
  intros Hl Hlt. unfold UziUtf8toUtf16. cbn [Z.eqb Pos.eqb]. rewrite unit_strlen_app by done.
  rewrite !bind_Ok. rewrite swrap_id by (unfold srange; lia).
  by destruct (Z.eqb_spec (Z.of_nat (length l) + 1) (-1)); [lia|].
Qed.

(** A code point takes at most three bytes per UTF-16 unit. *)
Lemma text8_le_text16 cs : (length (utf8_text cs) ≤ 3 * length (utf16_text cs))%nat.
Proof.
  induction cs as [|c cs IH]; [done|]. rewrite text8_cons, text16_cons, !length_app.
  assert (length (utf8_enc c) ≤ 3 * length (utf16_enc c))%nat; [|lia].
  rewrite utf8_enc_length, utf16_enc_length. repeat case_if; zbool; lia.
Qed.

Lemma text16_unique cs cs' : Forall scalar cs → Forall scalar cs' → utf16_text cs = utf16_text cs' → cs = cs'.
Proof.
  intros Hcs Hcs' E. rewrite <- (app_nil_r (utf16_text cs')) in E.
  destruct (text16_prefix cs cs' [] Hcs Hcs' E) as ([|c k] & -> & Hk); [by rewrite app_nil_r|].
  rewrite text16_cons in Hk. pose proof (utf16_enc_pos c). destruct (utf16_enc c); cbn in *; [lia|done].
Qed.

(** ** Properties *)

(** C1: UTF-16 to UTF-8 conversion, in both modes (writing and length-computing)
    and under both flags: it never leaves its buffers and terminates; the units
    consumed are the UTF-16 form of a sequence of code points, exactly whose
    UTF-8 form is written at the target, leaving the rest of the buffer
    untouched; and it stops at the end of the source, at a truncated pair, at an
    unpaired surrogate (strict mode) or at a code point that does not fit. *)
Theorem utf16_to_utf8_spec flags src s e dst t te :
  Forall (urange 16) src → 0 <= s <= e → e <= Z.of_nat (length src) → 0 <= t → room te dst t →
  ∃ r cs, ConvertUTF16toUTF8 src s e dst t te flags = Ok r ∧
    s <= cv_source r <= e ∧ room te dst (cv_target r) ∧
    Forall (code_point flags) cs ∧ zslice src s (cv_source r) = utf16_text cs ∧
    cv_target r = t + Z.of_nat (length (utf8_text cs)) ∧ cv_dst r = dst_after te dst t (utf8_text cs) ∧
    stopped16_to_8 flags src (cv_source r) e te (cv_target r) (cv_result r).
Proof.
  intros Hu Hs He Ht Hr.
  destruct (ConvertUTF16toUTF8_total flags src s e dst t te) as (r & Hrun & Hsrc & Hroom & (cs & H) & Hst); try done.
  exists r, cs. destruct H as (? & ? & ? & ?). done.
Qed.

Lemma utf16_to_utf8_spec_witness :
  ∃ r cs, ConvertUTF16toUTF8 [0x41; 0xD83D; 0xDE00; 0xDC00] 0 4 [1; 2; 3; 4; 5; 6; 7] 0 (Some 7) strictConversion = Ok r ∧
    0 <= cv_source r <= 4 ∧ room (Some 7) [1; 2; 3; 4; 5; 6; 7] (cv_target r) ∧
    Forall (code_point strictConversion) cs ∧ zslice [0x41; 0xD83D; 0xDE00; 0xDC00] 0 (cv_source r) = utf16_text cs ∧
    cv_target r = 0 + Z.of_nat (length (utf8_text cs)) ∧
    cv_dst r = dst_after (Some 7) [1; 2; 3; 4; 5; 6; 7] 0 (utf8_text cs) ∧
    stopped16_to_8 strictConversion [0x41; 0xD83D; 0xDE00; 0xDC00] (cv_source r) 4 (Some 7) (cv_target r) (cv_result r).
Proof.
  apply (utf16_to_utf8_spec strictConversion _ 0 4 _ 0 (Some 7)); unfold urange; cbn; try lia.
  repeat constructor; lia.
Defined.

(** C2: UTF-8 to UTF-16 conversion, in both modes and under both flags: it never
    leaves its buffers and terminates; the bytes consumed split into sequences
    that [isLegalUTF8] accepts, and exactly the UTF-16 form of the decoded
    scalar values is written; it stops at the end of the source, at a sequence
    cut by the end, at a sequence that is not accepted, or when the units of the
    next scalar value do not fit. *)
Theorem utf8_to_utf16_spec flags src s e dst t te :
  Forall (urange 8) src → 0 <= s <= e → e <= Z.of_nat (length src) → 0 <= t → room te dst t →
  ∃ r bss cs, ConvertUTF8toUTF16 src s e dst t te flags = Ok r ∧
    s <= cv_source r <= e ∧ room te dst (cv_target r) ∧
    Forall2 accepts bss cs ∧ zslice src s (cv_source r) = concat bss ∧ Forall scalar cs ∧
    cv_target r = t + Z.of_nat (length (utf16_text cs)) ∧ cv_dst r = dst_after te dst t (utf16_text cs) ∧
    stopped8_to_16 src (cv_source r) e te (cv_target r) (cv_result r).
Proof.
  intros Hu Hs He Ht Hr.
  destruct (ConvertUTF8toUTF16_total flags src s e dst t te) as (r & Hrun & Hsrc & Hroom & (bss & cs & H) & Hst); try done.
  exists r, bss, cs. destruct H as (Ha & ? & ? & ?). split_and!; try done; try lia.
  clear -Ha. induction Ha; constructor; [by eapply accepts_scalar|done].
Qed.

Lemma utf8_to_utf16_spec_witness :
  ∃ r bss cs, ConvertUTF8toUTF16 [0x41; 0xE2; 0x82; 0xAC; 0x80] 0 5 [1; 2; 3] 0 (Some 3) strictConversion = Ok r ∧
    0 <= cv_source r <= 5 ∧ room (Some 3) [1; 2; 3] (cv_target r) ∧
    Forall2 accepts bss cs ∧ zslice [0x41; 0xE2; 0x82; 0xAC; 0x80] 0 (cv_source r) = concat bss ∧ Forall scalar cs ∧
    cv_target r = 0 + Z.of_nat (length (utf16_text cs)) ∧
    cv_dst r = dst_after (Some 3) [1; 2; 3] 0 (utf16_text cs) ∧
    stopped8_to_16 [0x41; 0xE2; 0x82; 0xAC; 0x80] (cv_source r) 5 (Some 3) (cv_target r) (cv_result r).
Proof.
  apply (utf8_to_utf16_spec strictConversion _ 0 5 _ 0 (Some 3)); unfold urange; cbn; try lia.
  repeat constructor; lia.
Defined.

(** C11: [isLegalUTF8], on a sequence of the length its lead byte announces,
    accepts exactly the UTF-8 encodings of scalar values and the ill-formed
    sequences ED/F4 followed by an ASCII byte. *)
Theorem isLegalUTF8_accepts src source bs :
  0 <= source → zslice src source (source + Z.of_nat (length bs)) = bs → Forall (urange 8) bs → sized bs →
  ∃ b, isLegalUTF8 src source (Z.of_nat (length bs)) = Ok b ∧ (b = true ↔ ∃ c, accepts bs c).
Proof.
  intros Hs Hbs Hb Hz. exists (legal_list bs). split.
  - apply isLegalUTF8_list; [done..|]. destruct Hz as (? & ? & -> & _). cbn. lia.
  - split; [intros H; eexists; by apply legal_accepts|]. intros [c Hc]. by eapply accepts_legal.
Qed.

Lemma isLegalUTF8_accepts_witness :
  ∃ b, isLegalUTF8 [0; 0xED; 0x41; 0x80] 1 3 = Ok b ∧ (b = true ↔ ∃ c, accepts [0xED; 0x41; 0x80] c).
Proof.
  apply (isLegalUTF8_accepts [0; 0xED; 0x41; 0x80] 1 [0xED; 0x41; 0x80]); unfold urange; try lia.
  - reflexivity.
  - repeat constructor; lia.
  - exists 0xED, [0x41; 0x80]. split; [reflexivity|vm_compute; reflexivity].
Defined.

(** C12: Round trip of zero-terminated text through the API: converting UTF-16 to
    UTF-8 and back with [cchSrc = -1] yields the UTF-8 form with its terminator,
    then the original units with their terminator. *)
Theorem utf16_utf8_roundtrip cs junk d8 d16 :
  Forall scalar cs → Forall (λ c, c ≠ 0) cs → Forall (urange 16) junk → Forall (urange 8) d8 →
  Z.of_nat (length (utf8_text cs)) + 1 <= Z.of_nat (length d8) → Z.of_nat (length d8) < 2 ^ 31 →
  Z.of_nat (length (utf16_text cs)) + 1 <= Z.of_nat (length d16) → Z.of_nat (length d16) < 2 ^ 31 →
  ∃ d8' d16',
    UziUtf16toUtf8 (utf16_text cs ++ 0 :: junk) (-1) d8 (Z.of_nat (length d8)) =
      Ok (Z.of_nat (length (utf8_text cs)) + 1, d8') ∧
    take (length (utf8_text cs) + 1) d8' = utf8_text cs ++ [0] ∧
    UziUtf8toUtf16 d8' (-1) d16 (Z.of_nat (length d16)) =
      Ok (Z.of_nat (length (utf16_text cs)) + 1, d16') ∧
    take (length (utf16_text cs) + 1) d16' = utf16_text cs ++ [0].
Proof.
  intros Hcs Hnz Hj Hd8 H8 H8' H16 H16'.
  assert (Hcs0 : Forall scalar (cs ++ [0])) by (apply Forall_app_2; [done|constructor; [unfold scalar; lia|constructor]]).
  assert (E8 : utf8_text (cs ++ [0]) = utf8_text cs ++ [0]) by (by rewrite text8_app).
  assert (E16 : utf16_text (cs ++ [0]) = utf16_text cs ++ [0]) by (by rewrite text16_app).
  assert (Hu16 : Forall (urange 16) (utf16_text cs ++ 0 :: junk)).
  { apply Forall_app_2; [by apply (text_units _ utf16_enc), Hcs; apply scalar_units|constructor; [unfold urange; lia|done]]. }
  set (d8' := utf8_text (cs ++ [0]) ++ drop (length (utf8_text (cs ++ [0]))) d8).
  exists d8', (utf16_text (cs ++ [0]) ++ drop (length (utf16_text (cs ++ [0]))) d16).
  assert (L8 : length (utf8_text (cs ++ [0])) = (length (utf8_text cs) + 1)%nat) by (rewrite E8, length_app; done).
  assert (L16 : length (utf16_text (cs ++ [0])) = (length (utf16_text cs) + 1)%nat) by (rewrite E16, length_app; done).
  split_and!.
  - rewrite UziUtf16toUtf8_nul by (try lia; by apply (text_nonzero utf16_enc), Hnz; [apply utf16_enc_nonzero|]).
    rewrite (UziUtf16toUtf8_text _ _ (cs ++ [0]) junk); try done; try lia.
    + f_equal. f_equal. lia.
    + rewrite E16, <- app_assoc. done.
  - unfold d8'. rewrite <- E8. by rewrite take_app_length' by lia.
  - unfold d8'. rewrite E8, <- app_assoc. cbn [app].
    rewrite UziUtf8toUtf16_nul by (try lia; by apply (text_nonzero utf8_enc), Hnz; [apply utf8_enc_nonzero|]).
    rewrite (UziUtf8toUtf16_text _ _ (cs ++ [0]) (drop (length (utf8_text cs ++ [0])) d8)); try done; try lia.
    + f_equal. f_equal. lia.
    + apply Forall_app_2; [by apply (text_units _ utf8_enc), Hcs; apply scalar_bytes|].
      constructor; [unfold urange; lia|by apply Forall_drop].
    + rewrite E8, <- app_assoc. done.
  - rewrite <- E16. by rewrite take_app_length' by lia.
Qed.

Lemma utf16_utf8_roundtrip_witness :
  let cs := [0x20AC; 0x1F600] in let d8 := replicate 9 1 in let d16 := replicate 5 1 in
  ∃ d8' d16',
    UziUtf16toUtf8 (utf16_text cs ++ 0 :: [7]) (-1) d8 (Z.of_nat (length d8)) =
      Ok (Z.of_nat (length (utf8_text cs)) + 1, d8') ∧
    take (length (utf8_text cs) + 1) d8' = utf8_text cs ++ [0] ∧
    UziUtf8toUtf16 d8' (-1) d16 (Z.of_nat (length d16)) =
      Ok (Z.of_nat (length (utf16_text cs)) + 1, d16') ∧
    take (length (utf16_text cs) + 1) d16' = utf16_text cs ++ [0].
Proof.
  intros cs d8 d16. apply (utf16_utf8_roundtrip cs [7] d8 d16).
  - repeat constructor; unfold scalar; lia.
  - repeat constructor; lia.
  - repeat constructor; unfold urange; lia.
  - repeat constructor; unfold urange; lia.
  - vm_compute. discriminate.
  - vm_compute. reflexivity.
  - vm_compute. discriminate.
  - vm_compute. reflexivity.
Defined.

(** Probe, allocate, convert: when the call with [cchDst = 0] answers [n > 0],
    it leaves the buffer alone, a call with a capacity of at least [n] answers
    [n] too and writes [n] bytes only, and one with a smaller capacity answers 0. *)
Theorem utf16_to_utf8_probe src cch d0 n d0' dst cap :
  Forall (urange 16) src → 0 <= cch <= Z.of_nat (length src) → 3 * cch < 2 ^ 31 →
  UziUtf16toUtf8 src cch d0 0 = Ok (n, d0') → 0 < n → 0 < cap <= Z.of_nat (length dst) →
  d0' = d0 ∧ ∃ dst', length dst' = length dst ∧
    (n <= cap → UziUtf16toUtf8 src cch dst cap = Ok (n, dst') ∧ drop (Z.to_nat n) dst' = drop (Z.to_nat n) dst) ∧
    (cap < n → UziUtf16toUtf8 src cch dst cap = Ok (0, dst')).
Proof.
  intros Hu Hcch Hsmall Hprobe Hn Hcap. unfold UziUtf16toUtf8 in *.
  destruct (Z.eqb_spec cch (-1)); [lia|]. rewrite bind_Ok in Hprobe |- *. cbn [Z.eqb] in Hprobe.
  apply bind_inv in Hprobe as (r & Hrun & Hret). injection Hret as Hret Hd.
  case_bool_decide as Hok; [|lia].
  destruct (converted16_text src 0 cch d0 0 None r) as (cs & Hcs & Hz & Htg); try done; try lia.
  rewrite Z.add_0_l in Htg.
  assert (Hr2 : ConvertUTF16toUTF8 src 0 cch d0 0 None strictConversion =
            Ok (Conv conversionOK cch (Z.of_nat (length (utf8_text cs))) d0)).
  { rewrite (convert16_text _ _ _ _ _ _ cs) by (done || lia || (cbn; lia)). done. }
  rewrite Hrun in Hr2. injection Hr2 as ->. cbn [cv_result cv_target cv_dst] in *. subst d0'. split; [done|].
  assert (Hb : Z.of_nat (length (utf8_text cs)) < 2 ^ 31).
  { pose proof (text8_le_text16 cs) as Hle. rewrite <- Hz in Hle.
    assert (Hl := zslice_length src 0 cch ltac:(lia) ltac:(lia)). lia. }
  rewrite swrap_id in Hret by (unfold srange; lia). subst n.
  destruct (Z.eqb_spec cap 0); [lia|].
  destruct (ConvertUTF16toUTF8_total strictConversion src 0 cch dst 0 (Some cap)) as (r & Hrun2 & Hsrc & Hroom & (cs2 & H2) & Hst);
    try done; cbn; try lia.
  destruct H2 as (Hcs2 & Hz2 & Htg2 & Hd2). rewrite Z.add_0_l in Htg2. cbn in Hroom.
  exists (cv_dst r). split.
  { rewrite Hd2. cbn. apply splice_length; lia. }
  rewrite Hrun2, bind_Ok. split.
  - intros Hfit. rewrite (convert16_text _ _ _ _ _ _ cs) in Hrun2 by (done || lia || (cbn; lia)).
    injection Hrun2 as <-. cbn. rewrite swrap_id by (unfold srange; lia). split; [done|].
    rewrite splice_at_0, Nat2Z.id. by rewrite drop_app_length.
  - intros Hlt. case_bool_decide as Hok2; [|done].
    destruct (converted16_text src 0 cch dst 0 (Some cap) r) as (cs3 & Hcs3 & Hz3 & Htg3); try done; cbn; try lia.
    assert (cs3 = cs) as -> by (apply text16_unique; congruence). lia.
Qed.

Lemma utf16_to_utf8_probe_witness :
  [9; 9] = [9; 9] ∧ ∃ dst', length dst' = 6%nat ∧
    (4 <= 5 → UziUtf16toUtf8 [0x41; 0x20AC] 2 (replicate 6 9) 5 = Ok (4, dst') ∧ drop 4 dst' = [9; 9]) ∧
    (5 < 4 → UziUtf16toUtf8 [0x41; 0x20AC] 2 (replicate 6 9) 5 = Ok (0, dst')).
Proof.
  apply (utf16_to_utf8_probe [0x41; 0x20AC] 2 [9; 9] 4 [9; 9] (replicate 6 9) 5).
  - repeat constructor; unfold urange; lia.
  - cbn. lia.
  - lia.
  - vm_compute. reflexivity.
  - lia.
  - cbn. lia.
Defined.

(** The strict conversion accepts ill-formed UTF-8: ED 41 80 is not the
    encoding of any code point, yet it is converted to the unit C040. *)
Theorem ill_formed_utf8_accepted :
  (∀ c, scalar c → utf8_enc c ≠ [0xED; 0x41; 0x80]) ∧
  UziUtf8toUtf16 [0xED; 0x41; 0x80] 3 [0] 1 = Ok (1, [0xC040]).
Proof.
  split; [|by vm_compute]. intros c [Hc _] E. apply (f_equal utf8_value) in E as Hv.
  rewrite utf8_enc_value in Hv by done. cbn in Hv. subst c. vm_compute in E. discriminate.
Qed.
