(* ===== verification/Interlocked.v ===== *)
(** Linked lists and atomic operations (src/libuzi/interlocked.c).

    The circular doubly-linked lists on a heap of entries, the singly-linked
    lists, the lock-free stack ([SLIST_HEADER]) as a small-step machine for any
    number of threads, and the 32-bit atomic operations. *)

From stdpp Require Import list gmap.
From S2P Require Import Prelude.

Set Warnings "-clear-no-such-hyp".

(** ** Doubly-linked lists *)

Record LIST_ENTRY := ListEntry { Flink : Z; Blink : Z }.
Abbreviation dheap := (gmap Z LIST_ENTRY).

Definition with_Flink (v : Z) (e : LIST_ENTRY) : LIST_ENTRY := ListEntry v (Blink e).
Definition with_Blink (v : Z) (e : LIST_ENTRY) : LIST_ENTRY := ListEntry (Flink e) v.

Definition get_Flink (h : dheap) (p : Z) : res Z := e ← get h p; Ok (Flink e).
Definition get_Blink (h : dheap) (p : Z) : res Z := e ← get h p; Ok (Blink e).
Definition set_Flink (h : dheap) (p v : Z) : res dheap := upd (with_Flink v) h p.
Definition set_Blink (h : dheap) (p v : Z) : res dheap := upd (with_Blink v) h p.

Definition InitializeListHead (h : dheap) (ListHead : Z) : res dheap :=
  h ← set_Blink h ListHead ListHead;
  set_Flink h ListHead ListHead.

Definition IsListEmpty (h : dheap) (ListHead : Z) : res bool :=
  f ← get_Flink h ListHead;
  Ok (f =? ListHead).

Definition RemoveEntryList (h : dheap) (Entry : Z) : res (dheap * bool) :=
  OldFlink ← get_Flink h Entry;
  OldBlink ← get_Blink h Entry;
  h ← set_Blink h OldFlink OldBlink;
  h ← set_Flink h OldBlink OldFlink;
  Ok (h, OldFlink =? OldBlink).

Definition InsertHeadList (h : dheap) (ListHead Entry : Z) : res dheap :=
  OldFlink ← get_Flink h ListHead;
  h ← set_Flink h Entry OldFlink;
  h ← set_Blink h Entry ListHead;
  h ← set_Blink h OldFlink Entry;
  set_Flink h ListHead Entry.

Definition RemoveHeadList (h : dheap) (ListHead : Z) : res (dheap * Z) :=
  Entry ← get_Flink h ListHead;
  Flink' ← get_Flink h Entry;
  h ← set_Flink h ListHead Flink';
  h ← set_Blink h Flink' ListHead;
  Ok (h, Entry).

Definition InsertTailList (h : dheap) (ListHead Entry : Z) : res dheap :=
  OldBlink ← get_Blink h ListHead;
  h ← set_Flink h Entry ListHead;
  h ← set_Blink h Entry OldBlink;
  h ← set_Flink h OldBlink Entry;
  set_Blink h ListHead Entry.

Definition RemoveTailList (h : dheap) (ListHead : Z) : res (dheap * Z) :=
  Entry ← get_Blink h ListHead;
  Blink' ← get_Blink h Entry;
  h ← set_Blink h ListHead Blink';
  h ← set_Flink h Blink' ListHead;
  Ok (h, Entry).

Definition AppendTailList (h : dheap) (ListHead ListToAppend : Z) : res dheap :=
  ListEnd ← get_Blink h ListHead;
  last ← get_Blink h ListHead;
  h ← set_Flink h last ListToAppend;
  tail ← get_Blink h ListToAppend;
  h ← set_Blink h ListHead tail;
  tail ← get_Blink h ListToAppend;
  h ← set_Flink h tail ListHead;
  set_Blink h ListToAppend ListEnd.

(** *** Rings

    [ring h head l]: the entries [l] in order, linked both ways through [head]. *)

Definition fl (h : dheap) (p : Z) : option Z := Flink <$> h !! p.
Definition bl (h : dheap) (p : Z) : option Z := Blink <$> h !! p.

(** [a], then the entries [l], then [b]: each points to the next and back. *)
Fixpoint chain (h : dheap) (a : Z) (l : list Z) (b : Z) : Prop :=
  match l with
  | [] => fl h a = Some b ∧ bl h b = Some a
  | x :: l => fl h a = Some x ∧ bl h x = Some a ∧ chain h x l b
  end.

Definition ring (h : dheap) (head : Z) (l : list Z) : Prop :=
  NoDup (head :: l) ∧ chain h head l head.

(** Entries outside [l] are untouched. *)
Definition unchanged_but (l : list Z) (h h' : dheap) : Prop := ∀ p, p ∉ l → h' !! p = h !! p.

Lemma get_Flink_ok h p v : fl h p = Some v → get_Flink h p = Ok v.
Proof. unfold fl, get_Flink. intros (e & He & ->)%fmap_Some. by rewrite (get_ok _ _ _ He). Qed.

Lemma get_Blink_ok h p v : bl h p = Some v → get_Blink h p = Ok v.
Proof. unfold bl, get_Blink. intros (e & He & ->)%fmap_Some. by rewrite (get_ok _ _ _ He). Qed.

Lemma fl_is_Some h p v : fl h p = Some v → is_Some (h !! p).
Proof. unfold fl. destruct (h !! p); naive_solver. Qed.

Lemma bl_is_Some h p v : bl h p = Some v → is_Some (h !! p).
Proof. unfold bl. destruct (h !! p); naive_solver. Qed.

Lemma fl_set_Flink h p v q : is_Some (h !! p) →
  fl (alter (with_Flink v) p h) q = if decide (p = q) then Some v else fl h q.
Proof.
  intros [e He]. unfold fl. destruct (decide (p = q)) as [->|].
  - by rewrite lookup_alter_eq, He.
  - by rewrite lookup_alter_ne.
Qed.

Lemma bl_set_Blink h p v q : is_Some (h !! p) →
  bl (alter (with_Blink v) p h) q = if decide (p = q) then Some v else bl h q.
Proof.
  intros [e He]. unfold bl. destruct (decide (p = q)) as [->|].
  - by rewrite lookup_alter_eq, He.
  - by rewrite lookup_alter_ne.
Qed.

Lemma fl_set_Blink h p v q : fl (alter (with_Blink v) p h) q = fl h q.
Proof.
  unfold fl. destruct (decide (p = q)) as [->|]; [|by rewrite lookup_alter_ne].
  rewrite lookup_alter_eq. by destruct (h !! q).
Qed.

Lemma bl_set_Flink h p v q : bl (alter (with_Flink v) p h) q = bl h q.
Proof.
  unfold bl. destruct (decide (p = q)) as [->|]; [|by rewrite lookup_alter_ne].
  rewrite lookup_alter_eq. by destruct (h !! q).
Qed.

Lemma chain_app h a l1 x l2 b : chain h a (l1 ++ x :: l2) b ↔ chain h a l1 x ∧ chain h x l2 b.
Proof. revert a. induction l1 as [|y l1 IH]; intros a; cbn; [tauto|]. rewrite IH. tauto. Qed.

Lemma last_cons_default (a x : Z) l : List.last (x :: l) a = List.last l x.
Proof. revert a x. induction l as [|y l IH]; intros a x; [done|]. change (List.last (y :: l) a = List.last (y :: l) x). by rewrite !IH. Qed.

(** The successor of the first entry and the predecessor of the last one. *)
Lemma chain_first h a l b : chain h a l b → fl h a = Some (hd b l).
Proof. destruct l; cbn; tauto. Qed.

Lemma chain_last h a l b : chain h a l b → bl h b = Some (List.last l a).
Proof.
  revert a. induction l as [|x l IH]; intros a; cbn [chain]; [tauto|].
  intros (_ & _ & H). by rewrite (IH _ H), last_cons_default.
Qed.

Lemma chain_dom h a l b x : chain h a l b → x ∈ a :: l → is_Some (h !! x).
Proof.
  revert a. induction l as [|y l IH]; intros a; cbn [chain].
  - intros [H _] ->%list_elem_of_singleton. by eapply fl_is_Some.
  - intros (H1 & _ & H) [->|Hx]%elem_of_cons; [by eapply fl_is_Some|by eapply IH].
Qed.

(** *** Rewiring a chain *)

(** [h'] has the links of [h] except the two given ones on each side. *)
Definition fl_upd (h h' : dheap) (c : list (Z * Z)) : Prop :=
  ∀ q, fl h' q = foldr (λ p r, if decide (p.1 = q) then Some p.2 else r) (fl h q) c.
Definition bl_upd (h h' : dheap) (c : list (Z * Z)) : Prop :=
  ∀ q, bl h' q = foldr (λ p r, if decide (p.1 = q) then Some p.2 else r) (bl h q) c.

Lemma chain_frame h h' a l b :
  (∀ q, q ∈ a :: l → fl h' q = fl h q) → (∀ q, q ∈ l ++ [b] → bl h' q = bl h q) →
  chain h a l b → chain h' a l b.
Proof.
  revert a. induction l as [|x l IH]; intros a Hf Hb; cbn.
  - rewrite Hf, Hb by (cbn; constructor). done.
  - rewrite Hf, Hb by (cbn; constructor). intros (? & ? & ?). split_and!; [done..|].
    apply IH; [|..|done]; intros q Hq; [apply Hf|apply Hb]; by constructor.
Qed.

(** Memberships in lists, split into elementary (dis)equalities. *)
Ltac elems :=
  repeat match goal with
  | H : _ ∉ _ :: _ |- _ => apply not_elem_of_cons in H; destruct H
  | H : _ ∉ _ ++ _ |- _ => apply not_elem_of_app in H; destruct H
  | H : _ ∈ _ :: _ |- _ => apply elem_of_cons in H; destruct H
  | H : _ ∈ _ ++ _ |- _ => apply elem_of_app in H; destruct H
  | H : _ ∈ [] |- _ => by apply not_elem_of_nil in H
  | H : NoDup (_ :: _) |- _ => apply NoDup_cons in H; destruct H
  | H : _ ∧ _ |- _ => destruct H
  | |- _ ∉ _ :: _ => apply not_elem_of_cons; split
  | |- _ ∉ _ ++ _ => apply not_elem_of_app; split
  | |- NoDup (_ :: _) => apply NoDup_cons; split
  end; subst; try done; try congruence; try (intro; subst; done).

(** Resolve the tests of [fl_upd] and [bl_upd] at an address. *)
Ltac links H := rewrite H; cbn; repeat case_decide; subst; try done; try congruence.

Lemma last_elem (l : list Z) s : List.last l s = s ∨ List.last l s ∈ l.
Proof.
  destruct (decide (l = [])) as [->|Hne]; [by left|right]. rewrite (app_removelast_last s Hne) at 2.
  rewrite elem_of_app. right. by constructor.
Qed.

Lemma hd_elem (l : list Z) t : hd t l = t ∨ hd t l ∈ l.
Proof. destruct l; [by left|right; by constructor]. Qed.

Lemma chain_insert h h' s l1 l2 t e : chain h s (l1 ++ l2) t → NoDup (s :: l1 ++ l2) →
  t ∉ e :: l1 ++ l2 → e ∉ s :: l1 ++ l2 →
  fl_upd h h' [(e, hd t l2); (List.last l1 s, e)] → bl_upd h h' [(e, List.last l1 s); (hd t l2, e)] →
  chain h' s (l1 ++ e :: l2) t.
Proof.
  revert s. induction l1 as [|y l1 IH]; intros s Hc Hnd Ht He Hf Hb.
  - cbn in *. split; [links Hf; elems|]. split; [links Hb|].
    destruct l2 as [|x l2]; cbn in *; [split; [links Hf|links Hb; elems]|].
    destruct Hc as (_ & _ & Hc). split; [links Hf|]. split; [links Hb; elems|].
    apply (chain_frame h); [|..|done]; intros q Hq; [links Hf; elems|links Hb; elems].
  - rewrite last_cons_default in *. cbn in Hc, Hnd, Ht, He |- *. destruct Hc as (H1 & H2 & Hc).
    destruct (last_elem l1 y), (hd_elem l2 t); split_and!;
      try (rewrite <- H1; links Hf; elems); try (rewrite <- H2; links Hb; elems); apply IH; elems.
Qed.

Lemma chain_remove h h' s l1 l2 t e : chain h s (l1 ++ e :: l2) t → NoDup (s :: l1 ++ e :: l2) →
  t ∉ l1 ++ e :: l2 →
  fl_upd h h' [(List.last l1 s, hd t l2)] → bl_upd h h' [(hd t l2, List.last l1 s)] →
  chain h' s (l1 ++ l2) t.
Proof.
  revert s. induction l1 as [|y l1 IH]; intros s Hc Hnd Ht Hf Hb.
  - cbn in *. destruct Hc as (H1 & H2 & Hc).
    destruct l2 as [|x l2]; cbn in *; [split; [links Hf|links Hb; elems]|].
    destruct Hc as (H3 & H4 & Hc). split; [links Hf|]. split; [links Hb; elems|].
    apply (chain_frame h); [|..|done]; intros q Hq; [links Hf; elems|links Hb; elems].
  - rewrite last_cons_default in *. cbn in Hc, Hnd, Ht |- *. destruct Hc as (H1 & H2 & Hc).
    destruct (last_elem l1 y), (hd_elem l2 t); split_and!;
      try (rewrite <- H1; links Hf; elems); try (rewrite <- H2; links Hb; elems); apply IH; elems.
Qed.

(** The last link of a chain sent to another entry. *)
Lemma chain_retarget h h' s l t t' : chain h s l t → NoDup (s :: l) → t ∉ l → t' ∉ l →
  (∀ q, q ∈ s :: l → fl h' q = if decide (List.last l s = q) then Some t' else fl h q) →
  (∀ q, q ∈ l ++ [t'] → bl h' q = if decide (t' = q) then Some (List.last l s) else bl h q) →
  chain h' s l t'.
Proof.
  revert s. induction l as [|y l IH]; intros s Hc Hnd Ht Ht' Hf Hb.
  - cbn in *. rewrite Hf, Hb by constructor. repeat case_decide; done.
  - rewrite last_cons_default in *. cbn in Hc. destruct Hc as (H1 & H2 & Hc).
    cbn. destruct (last_elem l y); split_and!.
    all: try (rewrite <- H1, Hf by constructor; case_decide; elems).
    all: try (rewrite <- H2, Hb by constructor; case_decide; elems).
    all: apply IH; elems; intros q Hq; [apply Hf|apply Hb]; by constructor.
Qed.

(** *** The operations on rings *)

Lemma ring_links h head l1 l2 : ring h head (l1 ++ l2) →
  fl h (List.last l1 head) = Some (hd head l2) ∧ bl h (hd head l2) = Some (List.last l1 head).
Proof.
  intros [_ Hc]. revert Hc. generalize head at 1 3 6. induction l1 as [|x l1 IH]; intros s Hc.
  - destruct l2; cbn in *; tauto.
  - rewrite last_cons_default. apply IH. cbn in Hc. tauto.
Qed.

Lemma ring_dom h head l x : ring h head l → x ∈ head :: l → is_Some (h !! x).
Proof. intros [_ Hc]. by apply (chain_dom h head l head). Qed.

(** Run a sequence of field writes, then look at the result. *)
Ltac set_fields := unfold set_Flink, set_Blink; rewrite ?bind_Ok;
  repeat (rewrite upd_ok by (rewrite ?lookup_alter_is_Some; eauto); rewrite ?bind_Ok).

Ltac field_at := intros q; cbn [foldr fst snd];
  repeat first [rewrite bl_set_Flink | rewrite fl_set_Blink
    | rewrite fl_set_Flink by (rewrite ?lookup_alter_is_Some; eauto)
    | rewrite bl_set_Blink by (rewrite ?lookup_alter_is_Some; eauto)];
  repeat case_decide; subst; done || congruence.

Ltac untouched := intros q Hq; cbn [fst snd]; elems; rewrite ?lookup_alter_ne by congruence; try done.

Lemma ring_insert h head l1 l2 e a b : ring h head (l1 ++ l2) → e ∉ head :: l1 ++ l2 → is_Some (h !! e) →
  a = List.last l1 head → b = hd head l2 → ∀ h',
  fl_upd h h' [(e, b); (a, e)] → bl_upd h h' [(e, a); (b, e)] → ring h' head (l1 ++ e :: l2).
Proof.
  intros [Hnd Hc] He Hs -> -> h' Hf Hb. split.
  - apply NoDup_cons. apply NoDup_cons in Hnd as [Hh Hl]. split; [set_solver|].
    apply NoDup_app in Hl as (? & Hd & ?). apply NoDup_app. repeat split; [done|set_solver|].
    apply NoDup_cons. set_solver.
  - apply (chain_insert h); [done..| | |done|done]; elems.
Qed.

Lemma ring_remove h head l1 l2 e a b : ring h head (l1 ++ e :: l2) →
  a = List.last l1 head → b = hd head l2 → ∀ h',
  fl_upd h h' [(a, b)] → bl_upd h h' [(b, a)] → ring h' head (l1 ++ l2).
Proof.
  intros [Hnd Hc] -> -> h' Hf Hb. split.
  - apply NoDup_cons. apply NoDup_cons in Hnd as [Hh Hl]. split; [set_solver|].
    apply NoDup_app in Hl as (? & Hd & Hl). apply NoDup_cons in Hl. apply NoDup_app. set_solver.
  - apply (chain_remove h _ _ _ _ _ e); [done..| |done|done]. elems.
Qed.

Lemma InsertHeadList_ring h head l e : ring h head l → e ∉ head :: l → is_Some (h !! e) →
  runs (InsertHeadList h head e) (λ h', ring h' head (e :: l) ∧ unchanged_but (e :: head :: l) h h').
Proof.
  intros Hr He Hs. destruct (ring_links h head [] l Hr) as [H1 H2]. cbn in H1, H2.
  assert (Hh := ring_dom _ _ _ head Hr (list_elem_of_here _ _)).
  assert (Hx := bl_is_Some _ _ _ H2). assert (hd head l ≠ e) by (destruct (hd_elem l head); elems).
  assert (head ≠ e) by elems. unfold InsertHeadList. rewrite (get_Flink_ok _ _ _ H1), bind_Ok. set_fields.
  apply runs_ok. split; [|destruct (hd_elem l head); untouched].
  apply (ring_insert h head [] l e head (hd head l)); [done..| |]; field_at.
Qed.

Lemma InsertTailList_ring h head l e : ring h head l → e ∉ head :: l → is_Some (h !! e) →
  runs (InsertTailList h head e) (λ h', ring h' head (l ++ [e]) ∧ unchanged_but (e :: head :: l) h h').
Proof.
  intros Hr He Hs. destruct (ring_links h head l []) as [H1 H2]; [by rewrite app_nil_r|]. cbn in H1, H2.
  assert (Hh := ring_dom _ _ _ head Hr (list_elem_of_here _ _)).
  assert (Hx := fl_is_Some _ _ _ H1). assert (List.last l head ≠ e) by (destruct (last_elem l head); elems).
  assert (head ≠ e) by elems. unfold InsertTailList. rewrite (get_Blink_ok _ _ _ H2), bind_Ok. set_fields.
  apply runs_ok. split; [|destruct (last_elem l head); untouched].
  apply (ring_insert h head l [] e (List.last l head) head); [by rewrite app_nil_r|rewrite app_nil_r; elems|done..| |]; field_at.
Qed.

(** Around an entry the neighbours coincide only when it is alone. *)
Lemma neighbours_meet (head : Z) (l1 l2 : list Z) : NoDup (head :: l1 ++ l2) →
  hd head l2 = List.last l1 head ↔ l1 ++ l2 = [].
Proof.
  intros [Hh Hl]%NoDup_cons. apply NoDup_app in Hl as (_ & Hdis & _). split; [|by intros [-> ->]%app_nil].
  intros E. destruct (last_elem l1 head) as [H1|H1], (hd_elem l2 head) as [H2|H2].
  - destruct l2 as [|x l2]; cbn in *; [|set_solver]. destruct l1 as [|y l1] using rev_ind; [done|].
    rewrite last_last in H1. set_solver.
  - rewrite E, H1 in H2. elems.
  - rewrite <- E, H2 in H1. elems.
  - rewrite E in H2. by destruct (Hdis _ H1).
Qed.

Lemma ring_NoDup_remove h head l1 l2 e : ring h head (l1 ++ e :: l2) → NoDup (head :: l1 ++ l2).
Proof.
  intros [[Hh Hl]%NoDup_cons _]. apply NoDup_app in Hl as (? & Hd & [? ?]%NoDup_cons).
  apply NoDup_cons. split; [set_solver|]. apply NoDup_app. set_solver.
Qed.

Lemma RemoveEntryList_ring h head l1 l2 e : ring h head (l1 ++ e :: l2) →
  runs (RemoveEntryList h e) (λ r, ring r.1 head (l1 ++ l2) ∧
    r.2 = bool_decide (l1 ++ l2 = []) ∧ unchanged_but (head :: l1 ++ l2) h r.1).
Proof.
  intros Hr. destruct (ring_links _ _ _ _ Hr) as [H1 H2]. cbn in H2.
  destruct (ring_links h head (l1 ++ [e]) l2) as [H3 H4]; [by rewrite <- app_assoc|].
  rewrite last_last in H3, H4. assert (Ha := fl_is_Some _ _ _ H1). assert (Hb := bl_is_Some _ _ _ H4).
  unfold RemoveEntryList. rewrite (get_Flink_ok _ _ _ H3), bind_Ok, (get_Blink_ok _ _ _ H2), bind_Ok. set_fields.
  apply runs_ok. cbn [fst snd]. split; [|split].
  - apply (ring_remove h head l1 l2 e (List.last l1 head) (hd head l2)); [done..| |]; field_at.
  - rewrite <- (bool_decide_ext _ _ (neighbours_meet _ _ _ (ring_NoDup_remove _ _ _ _ _ Hr))).
    apply eq_bool_prop_intro. rewrite bool_decide_spec, Is_true_true. apply Z.eqb_eq.
  - destruct (last_elem l1 head), (hd_elem l2 head); untouched.
Qed.

Lemma RemoveHeadList_ring h head e l : ring h head (e :: l) →
  runs (RemoveHeadList h head) (λ r, ring r.1 head l ∧ r.2 = e ∧ unchanged_but (head :: l) h r.1).
Proof.
  intros Hr. destruct (ring_links h head [] (e :: l) Hr) as [H1 H2]. cbn in H1, H2.
  destruct (ring_links h head [e] l Hr) as [H3 H4]. cbn in H3, H4.
  assert (Ha := fl_is_Some _ _ _ H1). assert (Hb := bl_is_Some _ _ _ H4).
  unfold RemoveHeadList. rewrite (get_Flink_ok _ _ _ H1), bind_Ok, (get_Flink_ok _ _ _ H3), bind_Ok. set_fields.
  apply runs_ok. cbn [fst snd]. split; [|split; [done|destruct (hd_elem l head); untouched]].
  apply (ring_remove h head [] l e head (hd head l)); [done..| |]; field_at.
Qed.

Lemma RemoveTailList_ring h head e l : ring h head (l ++ [e]) →
  runs (RemoveTailList h head) (λ r, ring r.1 head l ∧ r.2 = e ∧ unchanged_but (head :: l) h r.1).
Proof.
  intros Hr. destruct (ring_links h head (l ++ [e]) []) as [H1 H2]; [by rewrite app_nil_r|].
  destruct (ring_links h head l [e] Hr) as [H3 H4]. rewrite last_last in H1, H2. cbn in H1, H2, H3, H4.
  assert (Ha := fl_is_Some _ _ _ H3). assert (Hb := bl_is_Some _ _ _ H2).
  unfold RemoveTailList. rewrite (get_Blink_ok _ _ _ H2), bind_Ok, (get_Blink_ok _ _ _ H4), bind_Ok. set_fields.
  apply runs_ok. cbn [fst snd]. split; [|split; [done|destruct (last_elem l head); untouched]].
  pose proof (ring_remove h head l [] e (List.last l head) head Hr eq_refl eq_refl) as Hrem.
  rewrite app_nil_r in Hrem. apply Hrem; field_at.
Qed.

(** Removing from an empty list answers the head itself and changes nothing. *)
Lemma Remove_empty_ring h head : ring h head [] →
  runs (RemoveHeadList h head) (λ r, ring r.1 head [] ∧ r.2 = head ∧ unchanged_but [head] h r.1) ∧
  runs (RemoveTailList h head) (λ r, ring r.1 head [] ∧ r.2 = head ∧ unchanged_but [head] h r.1).
Proof.
  intros Hr. destruct (ring_links h head [] [] Hr) as [H1 H2]. cbn in H1, H2. assert (Ha := fl_is_Some _ _ _ H1).
  unfold RemoveHeadList, RemoveTailList.
  rewrite !(get_Blink_ok _ _ _ H2), !(get_Flink_ok _ _ _ H1), !bind_Ok.
  rewrite !(get_Blink_ok _ _ _ H2), !(get_Flink_ok _ _ _ H1), !bind_Ok. set_fields.
  split; apply runs_ok; (split; [|split; [done|untouched]]).
  all: split; [apply Hr|]; cbn.
  all: rewrite ?fl_set_Blink, ?bl_set_Flink; rewrite ?fl_set_Blink, ?bl_set_Flink, ?fl_set_Flink, ?bl_set_Blink, ?fl_set_Flink by (rewrite ?lookup_alter_is_Some; done).
  all: by rewrite !decide_True.
Qed.

Lemma InitializeListHead_ring h head : is_Some (h !! head) →
  runs (InitializeListHead h head) (λ h', ring h' head [] ∧ unchanged_but [head] h h').
Proof.
  intros Ha. unfold InitializeListHead. set_fields. apply runs_ok. split; [|untouched].
  split; [apply NoDup_singleton|]. cbn.
  rewrite bl_set_Flink, fl_set_Flink, bl_set_Blink by (rewrite ?lookup_alter_is_Some; done).
  by rewrite !decide_True.
Qed.

Lemma IsListEmpty_ring h head l : ring h head l → IsListEmpty h head = Ok (bool_decide (l = [])).
Proof.
  intros Hr. destruct (ring_links h head [] l Hr) as [H1 _]. cbn in H1. unfold IsListEmpty.
  rewrite (get_Flink_ok _ _ _ H1), bind_Ok. f_equal. destruct Hr as [[Hh _]%NoDup_cons _].
  apply eq_bool_prop_intro. rewrite bool_decide_spec, Is_true_true, Z.eqb_eq. destruct l; cbn in *; set_solver.
Qed.

Lemma ring_append h head l a m : ring h head l → ring h a m → NoDup (head :: l ++ a :: m) → ∀ h',
  fl_upd h h' [(List.last m a, head); (List.last l head, a)] →
  bl_upd h h' [(a, List.last l head); (head, List.last m a)] → ring h' head (l ++ a :: m).
Proof.
  intros [_ Hl] [_ Hm] Hnd h' Hf Hb. split; [done|]. apply chain_app.
  apply NoDup_cons in Hnd as [Hh Hnd]. apply NoDup_app in Hnd as (Hndl & Hdis & [Ha Hndm]%NoDup_cons).
  elems. assert (a ∉ l) by (intros Hal; apply (Hdis a Hal); constructor).
  assert (Hdm : ∀ x, x ∈ l → x ∈ m → False) by (intros x Hx Hx'; apply (Hdis x Hx); by constructor).
  split.
  - apply (chain_retarget h _ _ _ head); [done|constructor; done|done..| |]; intros q Hq.
    + rewrite Hf. cbn. destruct (last_elem m a); repeat case_decide; elems; exfalso; eauto.
    + rewrite Hb. cbn. repeat case_decide; elems.
  - apply (chain_retarget h _ _ _ a); [done|constructor; done|done..| |]; intros q Hq.
    + rewrite Hf. cbn. destruct (last_elem l head); repeat case_decide; elems; exfalso; eauto.
    + rewrite Hb. cbn. repeat case_decide; elems.
Qed.

(** appending a circular list (given by its first entry) to a list: the
    entries of both, in order, in one ring, the rest of the heap untouched. *)
Theorem AppendTailList_spec h head l a m : ring h head l → ring h a m → NoDup (head :: l ++ a :: m) →
  runs (AppendTailList h head a) (λ h', ring h' head (l ++ a :: m) ∧
    unchanged_but (head :: a :: l ++ m) h h').
Proof.
  intros Hl Hm Hnd.
  destruct (ring_links h head l []) as [H1 H2]; [by rewrite app_nil_r|].
  destruct (ring_links h a m []) as [H3 H4]; [by rewrite app_nil_r|]. cbn in H1, H2, H3, H4.
  assert (Hh := bl_is_Some _ _ _ H2). assert (Ha := bl_is_Some _ _ _ H4).
  assert (Hx := fl_is_Some _ _ _ H1). assert (Hy := fl_is_Some _ _ _ H3).
  assert (head ≠ a) by (pose proof Hnd as [Hhd _]%NoDup_cons; elems).
  unfold AppendTailList. rewrite !(get_Blink_ok _ _ _ H2), !bind_Ok. set_fields.
  assert (Hb1 : bl (alter (with_Flink a) (List.last l head) h) a = Some (List.last m a)) by (by rewrite bl_set_Flink).
  rewrite (get_Blink_ok _ _ _ Hb1), bind_Ok. set_fields.
  assert (Hb2 : bl (alter (with_Blink (List.last m a)) head (alter (with_Flink a) (List.last l head) h)) a
    = Some (List.last m a)).
  { rewrite bl_set_Blink by (by rewrite lookup_alter_is_Some). case_decide; [congruence|done]. }
  rewrite (get_Blink_ok _ _ _ Hb2), bind_Ok. set_fields.
  apply runs_ok. split.
  - apply (ring_append h head l a m); [done..| |]; field_at.
  - destruct (last_elem l head), (last_elem m a); untouched.
Qed.

(** *** The lists as a deque

    A list operation, its abstract meaning on the sequence of entries and its
    execution on the heap. *)

Inductive list_op : Type :=
  | OpIsEmpty
  | OpInsertHead (Entry : Z)
  | OpInsertTail (Entry : Z)
  | OpRemoveHead
  | OpRemoveTail
  | OpRemoveEntry (Entry : Z).

(** What an operation answers: a boolean, an entry, nothing. *)
Inductive list_ans : Type :=
  | AnsBool (b : bool)
  | AnsEntry (e : Z)
  | AnsVoid.

Definition exec_op (head : Z) (h : dheap) (o : list_op) : res (dheap * list_ans) :=
  match o with
  | OpIsEmpty => b ← IsListEmpty h head; Ok (h, AnsBool b)
  | OpInsertHead e => h ← InsertHeadList h head e; Ok (h, AnsVoid)
  | OpInsertTail e => h ← InsertTailList h head e; Ok (h, AnsVoid)
  | OpRemoveHead => r ← RemoveHeadList h head; Ok (r.1, AnsEntry r.2)
  | OpRemoveTail => r ← RemoveTailList h head; Ok (r.1, AnsEntry r.2)
  | OpRemoveEntry e => r ← RemoveEntryList h e; Ok (r.1, AnsBool r.2)
  end.

(** The specification: [None] when the caller breaks the contract (an entry
    inserted twice, or removed while not in the list). *)
Definition deque_op (pool : gset Z) (head : Z) (l : list Z) (o : list_op) : option (list Z * list_ans) :=
  match o with
  | OpIsEmpty => Some (l, AnsBool (bool_decide (l = [])))
  | OpInsertHead e => if decide (e ∈ pool ∧ e ∉ head :: l) then Some (e :: l, AnsVoid) else None
  | OpInsertTail e => if decide (e ∈ pool ∧ e ∉ head :: l) then Some (l ++ [e], AnsVoid) else None
  | OpRemoveHead => Some (tail l, AnsEntry (hd head l))
  | OpRemoveTail => Some (removelast l, AnsEntry (List.last l head))
  | OpRemoveEntry e => if decide (e ∈ l) then
      let l' := filter (λ x, x ≠ e) l in Some (l', AnsBool (bool_decide (l' = []))) else None
  end.

Fixpoint exec_ops (head : Z) (h : dheap) (os : list list_op) : res (dheap * list list_ans) :=
  match os with
  | [] => Ok (h, [])
  | o :: os => r ← exec_op head h o; q ← exec_ops head r.1 os; Ok (q.1, r.2 :: q.2)
  end.

Fixpoint deque_ops (pool : gset Z) (head : Z) (l : list Z) (os : list list_op) : option (list Z * list list_ans) :=
  match os with
  | [] => Some (l, [])
  | o :: os => r ← deque_op pool head l o; q ← deque_ops pool head r.1 os; Some (q.1, r.2 :: q.2)
  end.

Definition pool_in (pool : gset Z) (h : dheap) : Prop := ∀ e, e ∈ pool → is_Some (h !! e).

Lemma pool_kept pool h h' head l' X : pool_in pool h → ring h' head l' → unchanged_but X h h' →
  (∀ x, x ∈ X → x ∈ head :: l') → pool_in pool h'.
Proof.
  intros Hp Hr Hu HX e He. destruct (decide (e ∈ X)) as [Hin|Hout].
  - by apply (ring_dom _ _ _ _ Hr), HX.
  - rewrite Hu by done. by apply Hp.
Qed.

Lemma filter_not_in (e : Z) (l : list Z) : e ∉ l → filter (λ x, x ≠ e) l = l.
Proof.
  induction l as [|x l IH]; intros He; [done|]. elems. rewrite filter_cons_True by done. by rewrite IH.
Qed.

Lemma filter_split (e : Z) (l1 l2 : list Z) : NoDup (l1 ++ e :: l2) → filter (λ x, x ≠ e) (l1 ++ e :: l2) = l1 ++ l2.
Proof.
  intros (_ & Hd & [Hl2 _]%NoDup_cons)%NoDup_app.
  rewrite filter_app, filter_cons_False by naive_solver.
  rewrite !filter_not_in; [done..|]. intros H. apply (Hd e H). constructor.
Qed.

(** One operation: same answer, the ring of the new sequence, every entry of
    the pool still allocated. *)
Lemma exec_op_refines pool h head l o l' a : pool_in pool h → ring h head l →
  deque_op pool head l o = Some (l', a) →
  runs (exec_op head h o) (λ r, ring r.1 head l' ∧ r.2 = a ∧ pool_in pool r.1).
Proof.
  intros Hp Hr Ho. destruct o; cbn in Ho |- *.
  - injection Ho as <- <-. rewrite (IsListEmpty_ring _ _ _ Hr), bind_Ok. by apply runs_ok.
  - case_decide as Hc; [|done]. destruct Hc. injection Ho as <- <-.
    eapply runs_bind; [apply InsertHeadList_ring; eauto|]. intros h' [? ?]. apply runs_ok. split_and!; [done..|].
    eapply pool_kept; [done..|]. intros x Hx. rewrite !elem_of_cons in *. tauto.
  - case_decide as Hc; [|done]. destruct Hc. injection Ho as <- <-.
    eapply runs_bind; [apply InsertTailList_ring; eauto|]. intros h' [? ?]. apply runs_ok. split_and!; [done..|].
    eapply pool_kept; [done..|]. intros x Hx. rewrite !elem_of_cons, elem_of_app, list_elem_of_singleton in *. tauto.
  - injection Ho as <- <-. destruct l as [|e l]; cbn [tail hd].
    + eapply runs_bind; [by apply Remove_empty_ring|]. intros r (? & -> & ?). apply runs_ok.
      split_and!; [done..|]. by eapply pool_kept.
    + eapply runs_bind; [by apply RemoveHeadList_ring|]. intros r (? & -> & ?). apply runs_ok.
      split_and!; [done..|]. by eapply pool_kept.
  - injection Ho as <- <-. destruct l as [|e l] using rev_ind; rewrite ?removelast_last, ?last_last; cbn [removelast List.last].
    + eapply runs_bind; [by apply Remove_empty_ring|]. intros r (? & -> & ?). apply runs_ok.
      split_and!; [done..|]. by eapply pool_kept.
    + eapply runs_bind; [by apply RemoveTailList_ring|]. intros r (? & -> & ?). apply runs_ok.
      split_and!; [done..|]. by eapply pool_kept.
  - case_decide as Hc; [|done]. injection Ho as <- <-. apply list_elem_of_split in Hc as (l1 & l2 & ->).
    rewrite filter_split by apply (NoDup_cons_1_2 _ _ (proj1 Hr)).
    eapply runs_bind; [by apply RemoveEntryList_ring|]. intros r (? & -> & ?). apply runs_ok.
    split_and!; [done..|]. by eapply pool_kept.
Qed.

(** C13: the doubly-linked list implements a deque: any sequence of operations
    allowed by the caller's contract runs on the heap without undefined
    behaviour, answers what the deque answers and leaves the ring of the
    deque's contents. *)
Theorem dlist_refines_deque pool h head l os l' ans :
  pool_in pool h → ring h head l → deque_ops pool head l os = Some (l', ans) →
  runs (exec_ops head h os) (λ r, ring r.1 head l' ∧ r.2 = ans).
Proof.
  revert h l l' ans. induction os as [|o os IH]; intros h l l' ans Hp Hr Ho; cbn in Ho |- *.
  - injection Ho as <- <-. by apply runs_ok.
  - destruct (deque_op pool head l o) as [[l1 a]|] eqn:E1; cbn in Ho; [|done].
    destruct (deque_ops pool head l1 os) as [[l2 as']|] eqn:E2; cbn in Ho; [|done]. injection Ho as <- <-.
    eapply runs_bind; [by eapply exec_op_refines|]. intros r1 (Hr1 & <- & Hp1).
    eapply runs_bind; [by eapply IH|]. intros r2 (Hr2 & <-). by apply runs_ok.
Qed.

Definition dlist_example : dheap := list_to_map [(1, ListEntry 1 1); (2, ListEntry 0 0); (3, ListEntry 0 0)].

Lemma dlist_refines_deque_witness :
  pool_in {[2; 3]} dlist_example ∧ ring dlist_example 1 [] ∧
  deque_ops {[2; 3]} 1 [] [OpInsertHead 2; OpInsertTail 3; OpRemoveEntry 2; OpRemoveTail; OpIsEmpty]
    = Some ([], [AnsVoid; AnsVoid; AnsBool false; AnsEntry 3; AnsBool true]) ∧
  runs (exec_ops 1 dlist_example [OpInsertHead 2; OpInsertTail 3; OpRemoveEntry 2; OpRemoveTail; OpIsEmpty])
    (λ r, ring r.1 1 [] ∧ r.2 = [AnsVoid; AnsVoid; AnsBool false; AnsEntry 3; AnsBool true]).
Proof.
  assert (H1 : pool_in {[2; 3]} dlist_example).
  { intros e He. apply elem_of_union in He as [->%elem_of_singleton| ->%elem_of_singleton]; by eexists. }
  assert (H2 : ring dlist_example 1 []) by (split; [apply NoDup_singleton|done]).
  assert (H3 : deque_ops {[2; 3]} 1 [] [OpInsertHead 2; OpInsertTail 3; OpRemoveEntry 2; OpRemoveTail; OpIsEmpty]
    = Some ([], [AnsVoid; AnsVoid; AnsBool false; AnsEntry 3; AnsBool true])) by (vm_compute; reflexivity).
  split_and!; [exact H1|exact H2|exact H3|].
  exact (dlist_refines_deque {[2; 3]} dlist_example 1 [] _ _ _ H1 H2 H3).
Defined.

Lemma AppendTailList_spec_witness :
  let h : dheap := list_to_map [(1, ListEntry 2 2); (2, ListEntry 1 1); (3, ListEntry 4 4); (4, ListEntry 3 3)] in
  ring h 1 [2] ∧ ring h 3 [4] ∧ NoDup (1 :: [2] ++ 3 :: [4]) ∧
  runs (AppendTailList h 1 3) (λ h', ring h' 1 [2; 3; 4] ∧ unchanged_but [1; 3; 2; 4] h h').
Proof.
  intros h. assert (H1 : ring h 1 [2]) by (split; [by_decision|cbn [chain]; split_and!; reflexivity]).
  assert (H2 : ring h 3 [4]) by (split; [by_decision|cbn [chain]; split_and!; reflexivity]).
  assert (H3 : NoDup (1 :: [2] ++ 3 :: [4])) by by_decision.
  split_and!; [exact H1|exact H2|exact H3|]. exact (AppendTailList_spec h 1 [2] 3 [4] H1 H2 H3).
Defined.

(** ** Singly-linked lists *)

(** Entries by address, each with its [Next]; 0 is the null pointer. *)
Abbreviation nheap := (gmap Z Z).

Definition PushEntryList (h : nheap) (ListHead Entry : Z) : res nheap :=
  next ← get h ListHead;
  h ← upd (λ _, next) h Entry;
  upd (λ _, Entry) h ListHead.

Definition PopEntryList (h : nheap) (ListHead : Z) : res (nheap * Z) :=
  FirstEntry ← get h ListHead;
  if FirstEntry =? 0 then Ok (h, FirstEntry)
  else
    next ← get h FirstEntry;
    h ← upd (λ _, next) h ListHead;
    Ok (h, FirstEntry).

(** The entries reached from [p]. *)
Fixpoint slist (h : nheap) (p : Z) (l : list Z) : Prop :=
  match l with
  | [] => p = 0
  | x :: l => p = x ∧ x ≠ 0 ∧ ∃ n, h !! x = Some n ∧ slist h n l
  end.

(** ** Atomic operations

    A cell is its value; an operation answers the new value of the cell and
    its result. *)

Definition InterlockedCompareExchange64 (Destination Exchange Comperand : Z) : Z * Z :=
  (if Destination =? Comperand then Exchange else Destination, Destination).
Definition InterlockedCompareExchange (Destination Exchange Comperand : Z) : Z * Z :=
  (if Destination =? Comperand then Exchange else Destination, Destination).
Definition InterlockedCompareExchangePointer (Destination Exchange Comperand : Z) : Z * Z :=
  (if Destination =? Comperand then Exchange else Destination, Destination).

Definition InterlockedIncrement (Addend : Z) : Z * Z := let v := s32 (Addend + 1) in (v, v).
Definition InterlockedDecrement (Addend : Z) : Z * Z := let v := s32 (Addend - 1) in (v, v).
Definition InterlockedExchangeAdd (Addend Value : Z) : Z * Z := (s32 (Addend + Value), Addend).

(** [*Target] is read before the compare-and-swap: [others] is what the other
    threads do to the cell in between. *)
Definition InterlockedExchange (others : Z → Z) (Target Value : Z) : Z * Z :=
  let comperand := Target in
  let Target := others Target in
  (if Target =? comperand then Value else Target, Target).

(** Without interference the value is exchanged; when another thread changes
    the cell in between, the value is not stored although the call returns. *)
Lemma InterlockedExchange_spec others Target Value :
  InterlockedExchange others Target Value =
    if decide (others Target = Target) then (Value, Target) else (others Target, others Target).
Proof.
  unfold InterlockedExchange. case_decide as E; [by rewrite E, Z.eqb_refl|].
  by rewrite (proj2 (Z.eqb_neq _ _) E).
Qed.

Lemma InterlockedExchange_lost : InterlockedExchange (λ v, (InterlockedIncrement v).1) 0 5 = (1, 1).
Proof. reflexivity. Qed.

(** An increment and a decrement of a 32-bit cell undo each other, also across
    the ends of the range. *)
Lemma Increment_Decrement v : srange 32 v →
  (InterlockedDecrement (InterlockedIncrement v).1).1 = v.
Proof. unfold srange. intros Hv. cbn. unfold swrap. zlia. Qed.

(** ** The lock-free stack

    [ptr_bits] is the width of a pointer, 32 or 64 (with [_WIN64] undefined, as
    on every system but 64-bit Windows). The header is a union of the 64-bit
    [Alignment] with the pointer, the depth and the sequence number: with
    32-bit pointers it covers the three fields, with 64-bit pointers the pointer
    alone. *)

Record SLIST_HEADER := SListHeader { Next : Z; Depth : Z; Sequence : Z }.

Definition Alignment (ptr_bits : Z) (h : SLIST_HEADER) : Z :=
  if ptr_bits =? 32 then Next h + Depth h * 2 ^ 32 + Sequence h * 2 ^ 48 else Next h.

Definition set_Alignment (ptr_bits v : Z) (h : SLIST_HEADER) : SLIST_HEADER :=
  if ptr_bits =? 32 then SListHeader (v mod 2 ^ 32) ((v / 2 ^ 32) mod 2 ^ 16) (v / 2 ^ 48)
  else SListHeader v (Depth h) (Sequence h).

Definition InitializeSListHead (ptr_bits : Z) (h : SLIST_HEADER) : SLIST_HEADER :=
  set_Alignment ptr_bits 0 h.

Definition QueryDepthSList (h : SLIST_HEADER) : Z := Depth h.

Definition InterlockedPushListSListEx (h : SLIST_HEADER) (List ListEnd Count : Z) : Z := 0.

(** Where a thread is in a stack operation: before reading the header, before
    accessing the entry's [Next], before the compare-and-swap, returned. *)
Inductive spc : Type :=
  | PushRead (ListEntry : Z)
  | PushLink (ListEntry : Z) (old : SLIST_HEADER)
  | PushCas (ListEntry : Z) (old : SLIST_HEADER)
  | PushRet (r : Z)
  | PopRead
  | PopLink (old : SLIST_HEADER)
  | PopCas (old : SLIST_HEADER) (next : Z)
  | PopRet (r : Z)
  | FlushTest
  | FlushRead
  | FlushCas (old : SLIST_HEADER)
  | FlushRet (r : Z).

(** The compare-and-swap on the header: the new header and whether it took. *)
Definition cas_header (ptr_bits : Z) (h old new : SLIST_HEADER) : SLIST_HEADER * bool :=
  let r := InterlockedCompareExchange64 (Alignment ptr_bits h) (Alignment ptr_bits new) (Alignment ptr_bits old) in
  (set_Alignment ptr_bits r.1 h, r.2 =? Alignment ptr_bits old).

(** One access of a thread to the shared state. *)
Definition sl_step (ptr_bits : Z) (st : SLIST_HEADER * nheap * spc) : res (SLIST_HEADER * nheap * spc) :=
  let '(h, nx, pc) := st in
  match pc with
  | PushRead e => Ok (h, nx, PushLink e h)
  | PushLink e old => nx ← upd (λ _, Next old) nx e; Ok (h, nx, PushCas e old)
  | PushCas e old =>
      let r := cas_header ptr_bits h old (SListHeader e (u16 (Depth old + 1)) (u16 (Sequence old + 1))) in
      Ok (r.1, nx, if r.2 then PushRet (Next old) else PushRead e)
  | PopRead => Ok (h, nx, if Next h =? 0 then PopRet 0 else PopLink h)
  | PopLink old => next ← get nx (Next old); Ok (h, nx, PopCas old next)
  | PopCas old next =>
      let r := cas_header ptr_bits h old (SListHeader next (u16 (Depth old - 1)) (u16 (Sequence old + 1))) in
      Ok (r.1, nx, if r.2 then PopRet (Next old) else PopRead)
  | FlushTest => Ok (h, nx, if QueryDepthSList h =? 0 then FlushRet 0 else FlushRead)
  | FlushRead => Ok (h, nx, FlushCas h)
  | FlushCas old =>
      let r := cas_header ptr_bits h old (SListHeader 0 0 (u16 (Sequence old + 1))) in
      Ok (r.1, nx, if r.2 then FlushRet (Next old) else FlushRead)
  | PushRet _ | PopRet _ | FlushRet _ => Ok (h, nx, pc)
  end.

Definition returned (pc : spc) : option Z :=
  match pc with PushRet r | PopRet r | FlushRet r => Some r | _ => None end.

(** A call run alone: the accesses of the thread until it returns. *)
Definition sl_call (ptr_bits : Z) (h : SLIST_HEADER) (nx : nheap) (pc : spc) : res (SLIST_HEADER * nheap * Z) :=
  loop 5 (λ st, match returned st.2 with
                | Some r => Ok (inr (st.1, r))
                | None => st ← sl_step ptr_bits st; Ok (inl st) end) (h, nx, pc).

Definition InterlockedPushEntrySList ptr_bits h nx (ListEntry : Z) := sl_call ptr_bits h nx (PushRead ListEntry).
Definition InterlockedPopEntrySList ptr_bits h nx := sl_call ptr_bits h nx PopRead.
Definition InterlockedFlushSList ptr_bits h nx := sl_call ptr_bits h nx FlushTest.

Arguments cas_header : simpl never.
Arguments wrap : simpl never.

(** *** Header arithmetic *)

Definition ptr_width (ptr_bits : Z) : Prop := ptr_bits = 32 ∨ ptr_bits = 64.

Definition wf_header (ptr_bits : Z) (h : SLIST_HEADER) : Prop :=
  urange ptr_bits (Next h) ∧ urange 16 (Depth h) ∧ urange 16 (Sequence h).

Lemma wf_intro W n d s : urange W n → urange 16 d → urange 16 s → wf_header W (SListHeader n d s).
Proof. by split. Qed.

Lemma u16_range z : urange 16 (u16 z).
Proof. by apply wrap_range. Qed.

Lemma null_range W : ptr_width W → urange W 0.
Proof. by intros [-> | ->]. Qed.
Lemma zero16_range : urange 16 0.
Proof. done. Qed.
#[export] Hint Resolve u16_range wf_intro null_range zero16_range : cint.

Lemma set_Alignment_new W h new : ptr_width W → wf_header W new →
  set_Alignment W (Alignment W new) h =
    if decide (W = 32) then new else SListHeader (Next new) (Depth h) (Sequence h).
Proof.
  intros [-> | ->] (Hn & Hd & Hs); unfold set_Alignment, Alignment; cbn [Z.eqb Pos.eqb decide]; [|by rewrite decide_False].
  rewrite decide_True by done. destruct new as [n d s]; cbn [Next Depth Sequence] in *. f_equal; zlia.
Qed.

Lemma Alignment_Next W h1 h2 : ptr_width W → wf_header W h1 → wf_header W h2 →
  Alignment W h1 = Alignment W h2 → Next h1 = Next h2.
Proof.
  intros [-> | ->] (Hn & Hd & Hs) (Hn' & Hd' & Hs'); unfold Alignment; cbn [Z.eqb Pos.eqb]; [zlia|done].
Qed.

Lemma cas_header_fresh W h new : ptr_width W → wf_header W new →
  cas_header W h h new = (if decide (W = 32) then new else SListHeader (Next new) (Depth h) (Sequence h), true).
Proof.
  intros HW Hn. unfold cas_header, InterlockedCompareExchange64. cbn [fst snd].
  by rewrite Z.eqb_refl, set_Alignment_new.
Qed.

Lemma cas_header_spec W h old new : ptr_width W → wf_header W h → wf_header W old → wf_header W new →
  (cas_header W h old new).2 = true ∧ Next h = Next old ∧ Next (cas_header W h old new).1 = Next new ∧
    wf_header W (cas_header W h old new).1 ∨
  (cas_header W h old new).2 = false ∧ (cas_header W h old new).1 = h.
Proof.
  intros HW Hh Ho Hn. unfold cas_header, InterlockedCompareExchange64. cbn [fst snd].
  destruct (Z.eqb_spec (Alignment W h) (Alignment W old)) as [E|E]; [left|right]; (split; [done|]).
  - rewrite set_Alignment_new by done. split; [by apply (Alignment_Next W)|]. destruct Hn as (? & ? & ?), Hh as (? & ? & ?).
    by case_decide.
  - unfold set_Alignment, Alignment. destruct HW as [-> | ->]; cbn [Z.eqb Pos.eqb]; [|by destruct h].
    destruct h as [n d s], Hh as (Hn1 & Hd1 & Hs1). cbn [Next Depth Sequence] in *. f_equal; zlia.
Qed.

(** *** Lists of entries *)

Lemma slist_frame nx p l e f : e ∉ l → slist nx p l → slist (alter f e nx) p l.
Proof.
  revert p. induction l as [|x l IH]; intros p He; cbn; [done|]. elems.
  intros (-> & Hx & n & Hn & Hl). split_and!; [done..|]. exists n. rewrite lookup_alter_ne by done. auto.
Qed.

Lemma slist_cons nx p e l : e ≠ 0 → e ∉ l → is_Some (nx !! e) → slist nx p l →
  slist (alter (λ _, p) e nx) e (e :: l).
Proof.
  intros He Hin [v Hv] Hl. cbn. split_and!; [done..|]. exists p.
  rewrite lookup_alter_eq, Hv. split; [done|]. by apply slist_frame.
Qed.

Lemma slist_hd nx p l : slist nx p l → p = hd 0 l.
Proof. destruct l; cbn; tauto. Qed.

Lemma slist_nil nx l : slist nx 0 l → l = [].
Proof. destruct l; [done|]. cbn. intros (<- & ? & _). done. Qed.

Lemma head_popped nx p l next : p ≠ 0 → slist nx p l → nx !! p = Some next →
  ∃ rest, l = p :: rest ∧ slist nx next rest.
Proof.
  intros Hp Hl Hn. destruct l as [|x rest]; [done|]. destruct Hl as (-> & _ & n & Hx & Hs). simplify_eq. by exists rest.
Qed.

(** *** Calls run alone *)

(** The depth the header shows: with 64-bit pointers the compare-and-swap never
    writes the field. *)
Definition shown_depth (ptr_bits : Z) (l : list Z) : Z := if decide (ptr_bits = 32) then Z.of_nat (length l) else 0.

Definition sl_holds (ptr_bits : Z) (pool l : list Z) (st : SLIST_HEADER * nheap) : Prop :=
  wf_header ptr_bits st.1 ∧ slist st.2 (Next st.1) l ∧ NoDup l ∧ l ⊆ pool ∧ Depth st.1 = shown_depth ptr_bits l ∧
  Z.of_nat (length l) < 2 ^ 16 ∧ (∀ e, e ∈ pool → 0 < e < 2 ^ ptr_bits ∧ is_Some (st.2 !! e)).

Inductive sl_op : Type :=
  | SlPush (e : Z)
  | SlPop
  | SlFlush
  | SlDepth.

Definition sl_exec (ptr_bits : Z) (st : SLIST_HEADER * nheap) (o : sl_op) : res (SLIST_HEADER * nheap * Z) :=
  match o with
  | SlPush e => InterlockedPushEntrySList ptr_bits st.1 st.2 e
  | SlPop => InterlockedPopEntrySList ptr_bits st.1 st.2
  | SlFlush => InterlockedFlushSList ptr_bits st.1 st.2
  | SlDepth => Ok (st, QueryDepthSList st.1)
  end.

Definition stack_op (ptr_bits : Z) (pool l : list Z) (o : sl_op) : option (list Z * Z) :=
  match o with
  | SlPush e => if decide ((e ∈ pool ∧ e ∉ l) ∧ Z.of_nat (length l) + 1 < 2 ^ 16) then Some (e :: l, hd 0 l) else None
  | SlPop => Some (tail l, hd 0 l)
  | SlFlush => if decide (shown_depth ptr_bits l = 0) then Some (l, 0) else Some ([], hd 0 l)
  | SlDepth => Some (l, shown_depth ptr_bits l)
  end.

Fixpoint sl_execs ptr_bits st (os : list sl_op) : res (SLIST_HEADER * nheap * list Z) :=
  match os with
  | [] => Ok (st, [])
  | o :: os => r ← sl_exec ptr_bits st o; q ← sl_execs ptr_bits r.1 os; Ok (q.1, r.2 :: q.2)
  end.

Fixpoint stack_ops ptr_bits pool (l : list Z) (os : list sl_op) : option (list Z * list Z) :=
  match os with
  | [] => Some (l, [])
  | o :: os => r ← stack_op ptr_bits pool l o; q ← stack_ops ptr_bits pool r.1 os; Some (q.1, r.2 :: q.2)
  end.

Lemma hd_range W (pool l : list Z) (nx : nheap) : ptr_width W → l ⊆ pool →
  (∀ e, e ∈ pool → 0 < e < 2 ^ W ∧ is_Some (nx !! e)) → urange W (hd (A:=Z) 0 l).
Proof.
  intros HW Hl Hp. destruct l as [|x l]; cbn [hd]; [auto with cint|].
  destruct (Hp x); [apply Hl; constructor|]. unfold urange. lia.
Qed.

Lemma sl_push_ok W pool l st e : ptr_width W → sl_holds W pool l st → e ∈ pool → e ∉ l →
  Z.of_nat (length l) + 1 < 2 ^ 16 →
  runs (InterlockedPushEntrySList W st.1 st.2 e) (λ r, sl_holds W pool (e :: l) r.1 ∧ r.2 = hd 0 l).
Proof.
  destruct st as [h nx]. intros HW ((Hn & Hd & Hs) & Hl & Hnd & Hsub & Hdep & Hlen & Hpool) He Hel Hlen'. cbn [fst snd] in *.
  destruct (Hpool e He) as [Her [v Hv]]. unfold InterlockedPushEntrySList, sl_call. cbn.
  rewrite upd_ok by eauto. cbn.
  assert (Hnew : wf_header W (SListHeader e (u16 (Depth h + 1)) (u16 (Sequence h + 1)))).
  { apply wf_intro; auto with cint. unfold urange. lia. }
  rewrite cas_header_fresh by done. cbn. apply runs_ok. cbn [fst snd].
  split; [|by apply (slist_hd nx)]. split; [|split; [|split_and!]]; cbn [fst snd].
  - case_decide; [done|]. repeat split; cbn; try done; unfold urange in *; lia.
  - assert (Hns := slist_cons nx (Next h) e l (ltac:(lia)) Hel (ex_intro _ _ Hv) Hl). by case_decide.
  - by constructor.
  - intros x [-> | Hx]%elem_of_cons; auto.
  - unfold shown_depth in *. case_decide; cbn [Depth length]; [|done]. rewrite Hdep. rewrite wrap_id; unfold urange; lia.
  - cbn [length]. lia.
  - intros x Hx. rewrite lookup_alter_is_Some. by apply Hpool.
Qed.

Lemma sl_pop_ok W pool l st : ptr_width W → sl_holds W pool l st →
  runs (InterlockedPopEntrySList W st.1 st.2) (λ r, sl_holds W pool (tail l) r.1 ∧ r.2 = hd 0 l).
Proof.
  destruct st as [h nx]. intros HW Hst. pose proof Hst as ((Hn & Hd & Hs) & Hl & Hnd & Hsub & Hdep & Hlen & Hpool).
  cbn [fst snd] in *. unfold InterlockedPopEntrySList, sl_call. cbn.
  destruct l as [|x l]; cbn in Hl.
  - rewrite Hl. cbn. by apply runs_ok.
  - destruct Hl as (Hx & Hx0 & n & Hnx & Hl). rewrite Hx, (proj2 (Z.eqb_neq x 0)) by done. cbn.
    rewrite Hx, (get_ok _ _ _ Hnx). cbn. assert (Hr := slist_hd _ _ _ Hl).
    assert (Hsub' : l ⊆ pool) by (intros y Hy; apply Hsub; by constructor).
    assert (Hrng := hd_range W pool l nx HW Hsub' Hpool).
    rewrite cas_header_fresh by (rewrite ?Hr; auto with cint).
    cbn. apply runs_ok. cbn [fst snd]. split; [|done]. apply NoDup_cons in Hnd as [_ Hnd].
    cbn [length] in Hlen. split; [|split; [|split_and!]]; cbn [fst snd]; try done.
    + rewrite Hr. case_decide; apply wf_intro; auto with cint.
    + by case_decide.
    + unfold shown_depth in *. cbn [length] in *. case_decide; cbn [Depth]; [|done]. rewrite wrap_id; unfold urange; lia.
    + lia.
Qed.

Lemma sl_flush_ok W pool l st : ptr_width W → sl_holds W pool l st →
  runs (InterlockedFlushSList W st.1 st.2) (λ r,
    if decide (shown_depth W l = 0) then sl_holds W pool l r.1 ∧ r.2 = 0
    else sl_holds W pool [] r.1 ∧ r.2 = hd 0 l).
Proof.
  destruct st as [h nx]. intros HW Hst. pose proof Hst as ((Hn & Hd & Hs) & Hl & Hnd & Hsub & Hdep & Hlen & Hpool).
  cbn [fst snd] in *. unfold InterlockedFlushSList, sl_call. cbn. unfold QueryDepthSList.
  case_decide as Es; rewrite Hdep.
  - rewrite Es. cbn. by apply runs_ok.
  - rewrite (proj2 (Z.eqb_neq _ 0)) by done. cbn.
    assert (HW32 : W = 32) by (unfold shown_depth in Es; by case_decide). subst W.
    rewrite cas_header_fresh by auto with cint.
    rewrite decide_True by done. cbn. apply runs_ok. cbn [fst snd]. split; [|by apply (slist_hd nx)].
    split; [|split_and!]; cbn; try done; try apply NoDup_nil_2; try apply list_subseteq_nil.
    auto with cint.
Qed.

(** a single thread's pushes, pops, flushes and depth queries behave as a
    stack whose depth is shown (and whose flush works) only when pointers have
    32 bits. *)
Theorem slist_refines_stack W pool l st os l' ans : ptr_width W → sl_holds W pool l st →
  stack_ops W pool l os = Some (l', ans) →
  runs (sl_execs W st os) (λ r, sl_holds W pool l' r.1 ∧ r.2 = ans).
Proof.
  intros HW. revert st l l' ans. induction os as [|o os IH]; intros st l l' ans Hst Ho; cbn in Ho |- *.
  - injection Ho as <- <-. by apply runs_ok.
  - destruct (stack_op W pool l o) as [[l1 a]|] eqn:E1; cbn in Ho; [|done].
    destruct (stack_ops W pool l1 os) as [[l2 as']|] eqn:E2; cbn in Ho; [|done]. injection Ho as <- <-.
    apply (runs_bind _ _ (λ r, sl_holds W pool l1 r.1 ∧ r.2 = a)).
    + destruct o; cbn in E1 |- *.
      * case_decide as Hc; [|done]. destruct Hc as ((? & ?) & ?). injection E1 as <- <-. by apply sl_push_ok.
      * injection E1 as <- <-. by apply sl_pop_ok.
      * assert (Hf := sl_flush_ok W pool l st HW Hst). case_decide; by injection E1 as <- <-.
      * injection E1 as <- <-. apply runs_ok. split; [done|]. apply Hst.
    + intros r1 (Hr1 & <-). eapply runs_bind; [by eapply IH|]. intros r2 (Hr2 & <-). by apply runs_ok.
Qed.

Definition slist_example : SLIST_HEADER * nheap :=
  (InitializeSListHead 64 (SListHeader 7 0 0), list_to_map [(16, 0); (32, 0)]).

Lemma slist_refines_stack_witness :
  let os := [SlPush 16; SlPush 32; SlDepth; SlFlush; SlPop] in
  ptr_width 64 ∧ sl_holds 64 [16; 32] [] slist_example ∧
  stack_ops 64 [16; 32] [] os = Some ([16], [0; 16; 0; 0; 32]) ∧
  runs (sl_execs 64 slist_example os) (λ r, sl_holds 64 [16; 32] [16] r.1 ∧ r.2 = [0; 16; 0; 0; 32]).
Proof.
  intros os. assert (H1 : ptr_width 64) by by right.
  assert (H2 : sl_holds 64 [16; 32] [] slist_example).
  { split; [|split_and!]; try done; [constructor|apply list_subseteq_nil|].
    intros e He. elems; (split; [lia|by eexists]). }
  assert (H3 : stack_ops 64 [16; 32] [] os = Some ([16], [0; 16; 0; 0; 32])) by (vm_compute; reflexivity).
  split_and!; [exact H1|exact H2|exact H3|]. exact (slist_refines_stack 64 [16; 32] [] slist_example os _ _ H1 H2 H3).
Defined.

(** *** Any number of threads

    The threads' positions, and the entries no operation holds ([free]): a push
    takes its entry from them, a pop that returned gives its entry back. *)

Record sl_system := SlSystem {
  sl_header : SLIST_HEADER;
  sl_next : nheap;
  sl_pcs : list (option spc);
  sl_free : list Z }.

Inductive sl_action : Type :=
  | CallPush (i : nat) (e : Z)
  | CallPop (i : nat)
  | Run (i : nat)
  | Return (i : nat).

Definition remove_entry (e : Z) (l : list Z) : list Z := filter (λ x, x ≠ e) l.

(** [None]: the action is not possible; [UB]: the thread's access is undefined. *)
Definition sl_act (ptr_bits : Z) (s : sl_system) (a : sl_action) : option (res sl_system) :=
  match a with
  | CallPush i e =>
      match sl_pcs s !! i with
      | Some None => if decide (e ∈ sl_free s) then
          Some (Ok (SlSystem (sl_header s) (sl_next s) (<[i := Some (PushRead e)]> (sl_pcs s)) (remove_entry e (sl_free s))))
        else None
      | _ => None
      end
  | CallPop i =>
      match sl_pcs s !! i with
      | Some None => Some (Ok (SlSystem (sl_header s) (sl_next s) (<[i := Some PopRead]> (sl_pcs s)) (sl_free s)))
      | _ => None
      end
  | Run i =>
      match sl_pcs s !! i with
      | Some (Some pc) => Some (
          r ← sl_step ptr_bits (sl_header s, sl_next s, pc);
          let '(h, nx, pc') := r in Ok (SlSystem h nx (<[i := Some pc']> (sl_pcs s)) (sl_free s)))
      | _ => None
      end
  | Return i =>
      match sl_pcs s !! i with
      | Some (Some (PopRet r)) =>
          Some (Ok (SlSystem (sl_header s) (sl_next s) (<[i := None]> (sl_pcs s)) (if r =? 0 then sl_free s else r :: sl_free s)))
      | Some (Some (PushRet r)) => Some (Ok (SlSystem (sl_header s) (sl_next s) (<[i := None]> (sl_pcs s)) (sl_free s)))
      | _ => None
      end
  end.

Fixpoint sl_acts (ptr_bits : Z) (s : sl_system) (acts : list sl_action) : option (res sl_system) :=
  match acts with
  | [] => Some (Ok s)
  | a :: acts => match sl_act ptr_bits s a with Some (Ok s') => sl_acts ptr_bits s' acts | r => r end
  end.

(** Every thread may push; thread 0 alone pops. *)
Definition one_popper (a : sl_action) : Prop := match a with CallPop i => i = O | _ => True end.

Definition sl_trans (ptr_bits : Z) (s s' : sl_system) : Prop :=
  ∃ a, one_popper a ∧ sl_act ptr_bits s a = Some (Ok s').

Definition sl_start (pool : list Z) (threads : nat) (nx : nheap) (s : sl_system) : Prop :=
  s = SlSystem (SListHeader 0 0 0) nx (replicate threads None) pool.

(** The entry a thread's operation holds: being pushed, or popped. *)
Definition held (pc : option spc) : list Z :=
  match pc with
  | Some (PushRead e) | Some (PushLink e _) | Some (PushCas e _) => [e]
  | Some (PopRet r) => if r =? 0 then [] else [r]
  | _ => []
  end.

(** What is known at each position: a pushed entry points to the header that
    was read; the entry a pop saw is still on the list and its successor is
    what was read. *)
Definition pc_ok (ptr_bits : Z) (nx : nheap) (l : list Z) (i : nat) (pc : option spc) : Prop :=
  match pc with
  | Some (PushLink e old) => wf_header ptr_bits old
  | Some (PushCas e old) => wf_header ptr_bits old ∧ nx !! e = Some (Next old)
  | Some PopRead => i = O
  | Some (PopLink old) => i = O ∧ wf_header ptr_bits old ∧ Next old ∈ l
  | Some (PopCas old next) => i = O ∧ wf_header ptr_bits old ∧ Next old ∈ l ∧ nx !! Next old = Some next
  | Some (PopRet _) => i = O
  | Some (FlushTest | FlushRead | FlushCas _ | FlushRet _) => False
  | _ => True
  end.

Definition sl_inv (ptr_bits : Z) (pool : list Z) (s : sl_system) (l : list Z) : Prop :=
  wf_header ptr_bits (sl_header s) ∧ slist (sl_next s) (Next (sl_header s)) l ∧
  l ++ concat (held <$> sl_pcs s) ++ sl_free s ≡ₚ pool ∧
  (∀ e, e ∈ pool → is_Some (sl_next s !! e)) ∧
  (∀ i pc, sl_pcs s !! i = Some pc → pc_ok ptr_bits (sl_next s) l i pc).

Lemma held_split (pcs : list (option spc)) i pc : pcs !! i = Some pc → ∃ R : list Z,
  concat (held <$> pcs) ≡ₚ held pc ++ R ∧
  (∀ pc', concat (held <$> <[i := pc']> pcs) ≡ₚ held pc' ++ R) ∧
  (∀ j pcj, j ≠ i → pcs !! j = Some pcj → held pcj ⊆ R).
Proof.
  intros Hi. exists (concat (held <$> take i pcs) ++ concat (held <$> drop (S i) pcs)).
  assert (Hlt := lookup_lt_Some _ _ _ Hi). split_and!.
  - rewrite <- (take_drop_middle _ _ _ Hi) at 1. rewrite fmap_app, concat_app, fmap_cons. cbn [concat].
    by rewrite Permutation_app_swap_app.
  - intros pc'. rewrite insert_take_drop by done. rewrite fmap_app, concat_app, fmap_cons. cbn [concat].
    by rewrite Permutation_app_swap_app.
  - intros j pcj Hj Hpj x Hx. apply elem_of_app. destruct (decide (j < i)%nat); [left|right];
      apply list_elem_of_In, in_concat; exists (held pcj); (split; [|by apply list_elem_of_In]);
      apply list_elem_of_In, list_elem_of_fmap; exists pcj; (split; [done|]).
    + apply list_elem_of_lookup. exists j. by rewrite lookup_take_lt.
    + apply list_elem_of_lookup. exists (j - S i)%nat. rewrite lookup_drop.
      by replace (S i + (j - S i))%nat with j by lia.
Qed.

Lemma pc_ok_mono W nx nx' l l' j pc : pc_ok W nx l j pc →
  (∀ e, e ∈ held pc → nx' !! e = nx !! e) → (j = O → ∀ x, x ∈ l → x ∈ l' ∧ nx' !! x = nx !! x) →
  pc_ok W nx' l' j pc.
Proof.
  intros H Hh Hl. destruct pc as [[]|]; cbn in *; try done.
  - destruct H as [? H]. split; [done|]. rewrite Hh; [done|constructor].
  - destruct H as (-> & ? & H). split_and!; [done..|]. by apply Hl.
  - destruct H as (-> & ? & H & E). destruct (Hl eq_refl _ H) as [? ->]. done.
Qed.

(** The effect of one thread's access on the invariant. *)
Lemma sl_inv_update W pool h nx pcs free l i pc h' nx' pc' free' l' :
  NoDup pool → sl_inv W pool (SlSystem h nx pcs free) l → pcs !! i = Some pc →
  wf_header W h' → slist nx' (Next h') l' →
  (∀ R, l ++ held pc ++ R ++ free ≡ₚ pool → l' ++ held pc' ++ R ++ free' ≡ₚ pool) →
  (∀ e, is_Some (nx !! e) → is_Some (nx' !! e)) → (∀ e, e ∉ held pc → nx' !! e = nx !! e) →
  (i ≠ O → l ⊆ l') → pc_ok W nx' l' i pc' →
  sl_inv W pool (SlSystem h' nx' (<[i := pc']> pcs) free') l'.
Proof.
  intros Hnd (_ & _ & Hperm & Hal & Hpc) Hi Hwf Hsl HR Hdom Hnx Hsub Hok. cbn [sl_header sl_next sl_pcs sl_free] in *.
  destruct (held_split _ _ _ Hi) as (R & HR1 & HR2 & HR3).
  assert (Hp2 : l ++ held pc ++ R ++ free ≡ₚ pool) by (rewrite <- Hperm, HR1; by rewrite <- !app_assoc).
  split; [done|]. split; [done|]. split; [|split; [by eauto|]]; cbn [sl_header sl_next sl_pcs sl_free].
  - rewrite HR2, <- (HR _ Hp2). by rewrite <- !app_assoc.
  - rewrite <- Hp2 in Hnd. apply NoDup_app in Hnd as (_ & Hd1 & Hnd). apply NoDup_app in Hnd as (_ & Hd2 & _).
    intros j pcj Hj. apply list_lookup_insert_Some in Hj as [(<- & <- & _)|[Hne Hj]]; [done|].
    apply (pc_ok_mono W nx nx' l); [by apply Hpc|..].
    + intros e He. apply Hnx. intros He2. apply (Hd2 e He2), elem_of_app. left. by apply (HR3 j pcj).
    + intros -> x Hx. split; [by apply Hsub|]. apply Hnx. intros He2. apply (Hd1 x Hx), elem_of_app. by left.
Qed.

Lemma remove_entry_perm e (l : list Z) : NoDup l → e ∈ l → e :: remove_entry e l ≡ₚ l.
Proof.
  intros Hnd (l1 & l2 & ->)%list_elem_of_split. unfold remove_entry. rewrite filter_split by done.
  by rewrite Permutation_middle.
Qed.

Definition good_pool (ptr_bits : Z) (pool : list Z) : Prop :=
  NoDup pool ∧ (∀ e, e ∈ pool → 0 < e < 2 ^ ptr_bits).

Lemma pool_range W pool (l : list Z) : ptr_width W → good_pool W pool → l ⊆ pool → urange W (hd 0 l).
Proof.
  intros HW [_ Hr] Hl. destruct l as [|x l]; cbn [hd]; [auto with cint|].
  assert (0 < x < 2 ^ W) by (apply Hr, Hl; constructor). unfold urange. lia.
Qed.

(** The accesses of a push and of a pop, each defined and keeping the
    invariant. *)
Inductive stack_call : Type :=
  | Pushing (e : Z)
  | Pushed (r : Z)
  | Popping
  | Popped (r : Z).

(** Where the caller of an operation sees it: not done yet, or done with an
    answer. *)
Definition call_of (pc : spc) : stack_call :=
  match pc with
  | PushRead e | PushLink e _ | PushCas e _ => Pushing e
  | PushRet r => Pushed r
  | PopRead | PopLink _ | PopCas _ _ | FlushTest | FlushRead | FlushCas _ => Popping
  | PopRet r | FlushRet r => Popped r
  end.

(** What one access may do to the list: nothing, or the whole operation. *)
Inductive stack_commit : list Z → stack_call → list Z → stack_call → Prop :=
  | commit_none l c : stack_commit l c l c
  | commit_push l e : stack_commit l (Pushing e) (e :: l) (Pushed (hd 0 l))
  | commit_pop l : stack_commit l Popping (tail l) (Popped (hd 0 l)).

Section ThreadStep.
Context (W : Z) (pool : list Z) (HW : ptr_width W) (Hgood : good_pool W pool).
Context (h : SLIST_HEADER) (nx : nheap) (pcs : list (option spc)) (free l : list Z) (i : nat).
Hypothesis (Hinv : sl_inv W pool (SlSystem h nx pcs free) l).

Definition step_ok (pc : spc) : Prop :=
  runs (sl_step W (h, nx, pc)) (λ r, ∃ l', stack_commit l (call_of pc) l' (call_of r.2) ∧
    sl_inv W pool (SlSystem r.1.1 r.1.2 (<[i := Some r.2]> pcs) free) l').

(** The invariant after an access of thread [i]. *)
Lemma step_update pc h' nx' pc' l' : pcs !! i = Some (Some pc) → stack_commit l (call_of pc) l' (call_of pc') →
  wf_header W h' → slist nx' (Next h') l' →
  (∀ R, l ++ held (Some pc) ++ R ++ free ≡ₚ pool → l' ++ held (Some pc') ++ R ++ free ≡ₚ pool) →
  (∀ e, is_Some (nx !! e) → is_Some (nx' !! e)) → (∀ e, e ∉ held (Some pc) → nx' !! e = nx !! e) →
  (i ≠ O → l ⊆ l') → pc_ok W nx' l' i (Some pc') →
  ∃ l', stack_commit l (call_of pc) l' (call_of pc') ∧
    sl_inv W pool (SlSystem h' nx' (<[i := Some pc']> pcs) free) l'.
Proof.
  intros Hi Hc. intros. exists l'. split; [done|].
  by apply (sl_inv_update W pool h nx pcs free l i (Some pc) _ _ _ _ _ (proj1 Hgood) Hinv Hi).
Qed.

Lemma listed_in_pool x : x ∈ l → x ∈ pool.
Proof. destruct Hinv as (_ & _ & Hp & _). intros Hx. rewrite <- Hp, elem_of_app. by left. Qed.

Lemma held_in_pool pc x : pcs !! i = Some pc → x ∈ held pc → x ∈ pool ∧ x ∉ l.
Proof.
  intros Hi Hx. destruct Hinv as (_ & _ & Hp & _), Hgood as [Hnd _]. cbn [sl_pcs sl_free] in Hp.
  destruct (held_split _ _ _ Hi) as (R0 & HR1 & _ & _). rewrite HR1 in Hp. split.
  - rewrite <- Hp, !elem_of_app. tauto.
  - rewrite <- Hp in Hnd. apply NoDup_app in Hnd as (_ & Hd & _).
    intros Hl. apply (Hd x Hl). rewrite !elem_of_app. tauto.
Qed.

Lemma push_link_step e old : pcs !! i = Some (Some (PushLink e old)) → step_ok (PushLink e old).
Proof.
  intros Hi. pose proof Hinv as (Hwf & Hsl & _ & Hal & Hpc). cbn [sl_header sl_next sl_pcs sl_free] in *.
  destruct (held_in_pool _ e Hi) as [He Hel]; [constructor|]. assert (Hok := Hpc _ _ Hi). cbn in Hok.
  unfold step_ok, sl_step. rewrite upd_ok, bind_Ok by auto. apply runs_ok. cbn [fst snd].
  apply (step_update _ _ _ _ l Hi); try done.
  - constructor.
  - by apply slist_frame.
  - intros x. by rewrite lookup_alter_is_Some.
  - intros x Hx. rewrite lookup_alter_ne; [done|]. cbn [held] in Hx. elems.
  - split; [done|]. destruct (Hal _ He) as [v Hv]. by rewrite lookup_alter_eq, Hv.
Qed.

Lemma push_cas_step e old : pcs !! i = Some (Some (PushCas e old)) → step_ok (PushCas e old).
Proof.
  intros Hi. pose proof Hinv as (Hwf & Hsl & _ & Hal & Hpc). cbn [sl_header sl_next sl_pcs sl_free] in *.
  destruct (held_in_pool _ e Hi) as [He Hel]; [constructor|]. destruct (Hpc _ _ Hi) as [Hold Hnext].
  assert (Her := proj2 Hgood e He).
  assert (Hnew : wf_header W (SListHeader e (u16 (Depth old + 1)) (u16 (Sequence old + 1)))).
  { apply wf_intro; auto with cint. unfold urange. lia. }
  unfold step_ok, sl_step. apply runs_ok. cbn [fst snd].
  destruct (cas_header_spec W h old _ HW Hwf Hold Hnew) as [(-> & Hh & Hn & Hwf')|(-> & ->)]; cbn [Next] in *.
  - apply (step_update _ _ _ _ (e :: l) Hi); try done.
    + rewrite <- Hh, (slist_hd _ _ _ Hsl). constructor.
    + rewrite Hn. split_and!; [done|lia|]. exists (Next old). by rewrite <- Hh at 2.
    + intros R HR. rewrite <- HR. cbn [held app]. by rewrite Permutation_middle.
    + intros _ x Hx. by constructor.
  - apply (step_update _ _ _ _ l Hi); try done. constructor.
Qed.

Lemma pop_link_step old : pcs !! i = Some (Some (PopLink old)) → step_ok (PopLink old).
Proof.
  intros Hi. pose proof Hinv as (Hwf & Hsl & _ & Hal & Hpc). cbn [sl_header sl_next sl_pcs sl_free] in *.
  destruct (Hpc _ _ Hi) as (Hi0 & Hold & Hin). destruct (Hal _ (listed_in_pool _ Hin)) as [n Hn].
  unfold step_ok, sl_step. rewrite (get_ok _ _ _ Hn), bind_Ok. apply runs_ok. cbn [fst snd].
  apply (step_update _ _ _ _ l Hi); try done. constructor.
Qed.

Lemma pop_cas_step old next : pcs !! i = Some (Some (PopCas old next)) → step_ok (PopCas old next).
Proof.
  intros Hi. pose proof Hinv as (Hwf & Hsl & _ & Hal & Hpc). cbn [sl_header sl_next sl_pcs sl_free] in *.
  destruct (Hpc _ _ Hi) as (Hi0 & Hold & Hin & Hnext). assert (Hor := proj2 Hgood _ (listed_in_pool _ Hin)).
  assert (Hnx : urange W next).
  { apply list_elem_of_split in Hin as (l1 & l2 & El). assert (Hl2 : l2 ⊆ pool).
    { intros x Hx. apply listed_in_pool. rewrite El, elem_of_app, elem_of_cons. auto. }
    rewrite El in Hsl. clear -HW Hgood Hl2 Hsl Hnext. revert Hsl. generalize (Next h).
    induction l1 as [|y l1 IH]; intros p; cbn.
    - intros (_ & _ & n & Hn & Hs). assert (n = next) as -> by congruence.
      rewrite (slist_hd _ _ _ Hs). by apply (pool_range W pool).
    - intros (_ & _ & n & _ & Hs). by eapply IH. }
  assert (Hnew : wf_header W (SListHeader next (u16 (Depth old - 1)) (u16 (Sequence old + 1)))) by auto with cint.
  unfold step_ok, sl_step. apply runs_ok. cbn [fst snd].
  destruct (cas_header_spec W h old _ HW Hwf Hold Hnew) as [(-> & Hh & Hn & Hwf')|(-> & ->)]; cbn [Next] in *.
  - destruct (head_popped nx (Next h) l next) as (rest & El & Hs); [rewrite Hh; lia|done|congruence|].
    apply (step_update _ _ _ _ rest Hi); try done.
    + rewrite El, <- Hh. constructor.
    + by rewrite Hn.
    + intros R HR. rewrite <- HR, El, Hh. cbn [held app]. rewrite (proj2 (Z.eqb_neq (Next old) 0)) by lia. cbn [app].
      symmetry. apply Permutation_middle.
  - apply (step_update _ _ _ _ l Hi); try done. constructor.
Qed.

Lemma run_step pc : pcs !! i = Some (Some pc) → step_ok pc.
Proof.
  intros Hi. pose proof Hinv as (Hwf & Hsl & _ & Hal & Hpc). cbn [sl_header sl_next sl_pcs sl_free] in *.
  assert (Hok := Hpc _ _ Hi). destruct pc as [e|e old|e old|r| |old|old next|r| | |old|r]; cbn in Hok; try done.
  1,4,8: apply runs_ok, (step_update _ _ _ _ l Hi); try done; constructor.
  - by apply push_link_step.
  - by apply push_cas_step.
  - apply runs_ok. cbn [fst snd]. rewrite (slist_hd _ _ _ Hsl). destruct (Z.eqb_spec (hd 0 l) 0) as [E|E].
    + assert (El : l = []) by (apply (slist_nil nx); by rewrite <- E, <- (slist_hd _ _ _ Hsl)).
      apply (step_update _ _ _ _ l Hi); try done. rewrite El. exact (commit_pop []).
    + apply (step_update _ _ _ _ l Hi); try done; [constructor|].
      split_and!; [done..|]. rewrite (slist_hd _ _ _ Hsl). destruct l; [done|constructor].
  - by apply pop_link_step.
  - by apply pop_cas_step.
Qed.
End ThreadStep.

(** *** The atomic stack

    The same calls on a stack whose operations happen at once, at some moment
    between the call and the return. *)

Inductive sl_event : Type :=
  | PushCalled (i : nat) (e : Z)
  | PopCalled (i : nat)
  | Returned (i : nat) (r : Z).

(** The items, and the calls that are running. *)
Definition atomic_stack : Type := list Z * list (option stack_call).

Definition answer_of (c : stack_call) : option Z := match c with Pushed r | Popped r => Some r | _ => None end.

Inductive atomic_step : atomic_stack → option sl_event → atomic_stack → Prop :=
  | at_push_call l cs i e : cs !! i = Some None →
      atomic_step (l, cs) (Some (PushCalled i e)) (l, <[i := Some (Pushing e)]> cs)
  | at_pop_call l cs i : cs !! i = Some None →
      atomic_step (l, cs) (Some (PopCalled i)) (l, <[i := Some Popping]> cs)
  | at_push l cs i e : cs !! i = Some (Some (Pushing e)) →
      atomic_step (l, cs) None (e :: l, <[i := Some (Pushed (hd 0 l))]> cs)
  | at_pop l cs i : cs !! i = Some (Some Popping) →
      atomic_step (l, cs) None (tail l, <[i := Some (Popped (hd 0 l))]> cs)
  | at_return l cs i c r : cs !! i = Some (Some c) → answer_of c = Some r →
      atomic_step (l, cs) (Some (Returned i r)) (l, <[i := None]> cs).

(** What the callers see of an action. *)
Definition event_of (s : sl_system) (a : sl_action) : option sl_event :=
  match a with
  | CallPush i e => Some (PushCalled i e)
  | CallPop i => Some (PopCalled i)
  | Run _ => None
  | Return i =>
      match sl_pcs s !! i with
      | Some (Some pc) => Returned i <$> returned pc
      | _ => None
      end
  end.

Definition sl_step_seen (ptr_bits : Z) : sl_system → option sl_event → sl_system → Prop :=
  act_seen one_popper (sl_act ptr_bits) event_of.

(** The stack with items [l] and the calls that the threads of [s] run. *)
Definition calls_of (pcs : list (option spc)) : list (option stack_call) := (λ pc : option spc, call_of <$> pc) <$> pcs.
Definition stack_of (s : sl_system) (l : list Z) : atomic_stack := (l, calls_of (sl_pcs s)).

Lemma calls_lookup pcs i pc : pcs !! i = Some pc → calls_of pcs !! i = Some (call_of <$> pc).
Proof. intros Hi. unfold calls_of. by rewrite list_lookup_fmap, Hi. Qed.

Lemma calls_insert pcs i pc : calls_of (<[i := pc]> pcs) = <[i := call_of <$> pc]> (calls_of pcs).
Proof. unfold calls_of. by rewrite list_fmap_insert. Qed.

Lemma commit_step (pcs : list (option spc)) i pc pc' l l' : pcs !! i = Some (Some pc) →
  stack_commit l (call_of pc) l' (call_of pc') →
  atomic_step (l, calls_of pcs) None (l', calls_of (<[i := Some pc']> pcs)) ∨
  (l', calls_of (<[i := Some pc']> pcs)) = (l, calls_of pcs).
Proof.
  intros Hi%calls_lookup Hc. rewrite calls_insert. cbn [fmap option_fmap option_map] in *.
  revert Hi. inversion Hc as [? ?|? e|?]; intros Hcs; subst.
  - right. by rewrite list_insert_id.
  - left. by constructor.
  - left. by constructor.
Qed.

Lemma sl_act_inv W pool s l a r : ptr_width W → good_pool W pool → sl_inv W pool s l → one_popper a →
  sl_act W s a = Some r → runs r (λ s', ∃ l', sl_inv W pool s' l' ∧
    (atomic_step (stack_of s l) (event_of s a) (stack_of s' l') ∨
      event_of s a = None ∧ stack_of s' l' = stack_of s l)).
Proof.
  intros HW Hg Hinv Ha. destruct s as [h nx pcs free]. pose proof Hinv as (Hwf & Hsl & Hperm & Hal & Hpc).
  cbn [sl_header sl_next sl_pcs sl_free] in *.
  destruct a as [i e|i|i|i]; cbn in Ha |- *; destruct (pcs !! i) as [[pc|]|] eqn:Hi; try done.
  - case_decide as He; [|done]. intros [= <-]. apply runs_ok. exists l. split.
    + apply (sl_inv_update W pool h nx pcs free l i _ _ _ _ _ _ (proj1 Hg) Hinv Hi); try done.
      intros R HR. rewrite <- HR. cbn [held app]. apply Permutation_app_head.
      rewrite Permutation_middle. apply Permutation_app_head, remove_entry_perm; [|done].
      destruct Hg as [Hnd _]. rewrite <- Hperm in Hnd. by apply NoDup_app in Hnd as (_ & _ & (_ & _ & ?)%NoDup_app).
    + left. unfold stack_of. cbn [sl_pcs]. rewrite calls_insert. constructor. by apply calls_lookup in Hi.
  - intros [= <-]. apply runs_ok. exists l. subst i. split.
    + by apply (sl_inv_update W pool h nx pcs free l O _ _ _ _ _ _ (proj1 Hg) Hinv Hi).
    + left. unfold stack_of. cbn [sl_pcs]. rewrite calls_insert. constructor. by apply calls_lookup in Hi.
  - intros [= <-]. eapply runs_bind; [by eapply run_step|]. intros [[h' nx'] pc'] (l' & Hc & Hl').
    apply runs_ok. exists l'. split; [done|].
    destruct (commit_step pcs i pc pc' l l' Hi Hc); [by left|by right].
  - intros Hact. assert (Hret : ∃ r0 free', returned pc = Some r0 ∧ answer_of (call_of pc) = Some r0 ∧
      r = Ok (SlSystem h nx (<[i := None]> pcs) free') ∧
      (∀ R, l ++ held (Some pc) ++ R ++ free ≡ₚ pool → l ++ held None ++ R ++ free' ≡ₚ pool)).
    { destruct pc as [e|e old|e old|r0| |old|old next|r0| | |old|r0]; try done;
        injection Hact as <-; do 2 eexists; split_and!; try done.
      intros R HR. rewrite <- HR. cbn [held]. destruct (r0 =? 0); cbn [app]; [done|].
      apply Permutation_app_head. symmetry. apply Permutation_middle. }
    destruct Hret as (r0 & free' & -> & Han & -> & HR). apply runs_ok. exists l. split.
    + by apply (sl_inv_update W pool h nx pcs free l i _ _ _ _ _ _ (proj1 Hg) Hinv Hi).
    + left. unfold stack_of. cbn [sl_pcs]. rewrite calls_insert. apply calls_lookup in Hi. by econstructor.
Qed.

Lemma sl_start_inv W pool threads nx s : ptr_width W → (∀ e, e ∈ pool → is_Some (nx !! e)) →
  sl_start pool threads nx s → sl_inv W pool s [].
Proof.
  intros HW Hnx ->. split; [apply wf_intro; auto with cint|]. split; [done|]. split; [|split; [done|]]; cbn.
  - replace (concat (held <$> replicate threads None)) with (@nil Z); [done|].
    induction threads as [|n IH]; [done|]. cbn. by rewrite <- IH.
  - intros i pc [-> _]%lookup_replicate. done.
Qed.

(** C8: with any number of threads pushing and one popping, in every reachable
    state: no thread's next access is undefined, the list is well linked, and
    the entries of the pool are, each once, on the list, held by an operation
    or free: none is lost, none is on the list twice. *)
Theorem slist_concurrent W pool threads nx s : ptr_width W → good_pool W pool →
  (∀ e, e ∈ pool → is_Some (nx !! e)) → reachable (sl_start pool threads nx) (sl_trans W) s →
  (∃ l, slist (sl_next s) (Next (sl_header s)) l ∧
    l ++ concat (held <$> sl_pcs s) ++ sl_free s ≡ₚ pool) ∧
  (∀ a, one_popper a → sl_act W s a ≠ Some UB ∧ sl_act W s a ≠ Some NoFuel).
Proof.
  intros HW Hg Hnx Hr. assert (Hinv : ∃ l, sl_inv W pool s l).
  { revert s Hr. apply reachable_inv.
    - intros s Hs. exists []. by eapply sl_start_inv.
    - intros s s' [l Hl] (a & Ha & Hact). destruct (sl_act_inv W pool s l a _ HW Hg Hl Ha Hact) as (s2 & [= <-] & l' & Hs2 & _).
      by exists l'. }
  destruct Hinv as [l Hl]. split.
  - exists l. split; apply Hl.
  - intros a Ha. split; intros E; by destruct (sl_act_inv W pool s l a _ HW Hg Hl Ha E) as (? & ? & _).
Qed.

(** C5: linearizability. What the callers see of the threads' operations on
    the SLIST, one of them popping, is what they can see of an atomic stack:
    each push and each pop takes effect at once between its call and its
    return, and answers the item that was first then (0 when there was none).
    The items of the stack are the entries that can be reached from the
    header. *)
Theorem slist_linearizable W pool threads nx s es s' : ptr_width W → good_pool W pool →
  (∀ e, e ∈ pool → is_Some (nx !! e)) → sl_start pool threads nx s → traces (sl_step_seen W) s es s' →
  ∃ l, traces atomic_step (stack_of s []) es (stack_of s' l) ∧ slist (sl_next s') (Next (sl_header s')) l.
Proof.
  intros HW Hg Hnx Hs Htr. assert (Hinv := sl_start_inv W pool threads nx s HW Hnx Hs).
  destruct (forward_simulation (sl_step_seen W) atomic_step
    (λ s t, ∃ l, sl_inv W pool s l ∧ t = stack_of s l)) with (2 := Htr) (t := stack_of s []) as (t & Ht & l & Hl & ->).
  - intros s1 o s2 t (a & Ha & Hact & ->) (l & Hl & ->).
    destruct (sl_act_inv W pool s1 l a _ HW Hg Hl Ha Hact) as (s3 & [= <-] & l' & Hl' & Hstep).
    exists (stack_of s2 l'). split; [done|by exists l'].
  - by exists [].
  - exists l. split; [done|apply Hl].
Qed.

Definition two_entries : nheap := list_to_map [(16, 0); (32, 0)].
Definition sl_example : sl_system := SlSystem (SListHeader 0 0 0) two_entries [None; None] [16; 32].

Lemma slist_concurrent_witness :
  let s := SlSystem (SListHeader 0 0 0) two_entries [None; Some (PushRead 16)] [32] in
  ptr_width 64 ∧ good_pool 64 [16; 32] ∧ (∀ e, e ∈ [16; 32] → is_Some (two_entries !! e)) ∧
  reachable (sl_start [16; 32] 2 two_entries) (sl_trans 64) s ∧
  (∃ l, slist (sl_next s) (Next (sl_header s)) l ∧
    l ++ concat (held <$> sl_pcs s) ++ sl_free s ≡ₚ [16; 32]) ∧
  (∀ a, one_popper a → sl_act 64 s a ≠ Some UB ∧ sl_act 64 s a ≠ Some NoFuel).
Proof.
  intros s. assert (H1 : ptr_width 64) by by right.
  assert (H2 : good_pool 64 [16; 32]) by (split; [by_decision|intros e He; elems; lia]).
  assert (H3 : ∀ e, e ∈ [16; 32] → is_Some (two_entries !! e)) by (intros e He; elems; by eexists).
  assert (H4 : reachable (sl_start [16; 32] 2 two_entries) (sl_trans 64) s).
  { apply (reach_step _ _ sl_example); [by apply reach_init|]. by exists (CallPush 1 16). }
  split; [exact H1|]. split; [exact H2|]. split; [exact H3|]. split; [exact H4|].
  exact (slist_concurrent 64 [16; 32] 2 two_entries s H1 H2 H3 H4).
Defined.

(** Thread 1 pushes an entry while thread 0 finds the list empty, then pops it. *)
Definition push_pop_schedule : list sl_action :=
  [CallPop 0; CallPush 1 16; Run 1; Run 0; Return 0; CallPop 0; Run 1; Run 1; Run 0; Return 1; Run 0; Run 0; Return 0].

Lemma slist_linearizable_witness :
  let es := [PopCalled 0; PushCalled 1 16; Returned 0 0; PopCalled 0; Returned 1 0; Returned 0 16] in
  let s' := SlSystem (SListHeader 0 0 0) (<[16 := 0]> two_entries) [None; None] [16; 32] in
  ptr_width 64 ∧ good_pool 64 [16; 32] ∧ (∀ e, e ∈ [16; 32] → is_Some (two_entries !! e)) ∧
  sl_start [16; 32] 2 two_entries sl_example ∧ traces (sl_step_seen 64) sl_example es s' ∧
  ∃ l, traces atomic_step (stack_of sl_example []) es (stack_of s' l) ∧ slist (sl_next s') (Next (sl_header s')) l.
Proof.
  intros es s'. assert (H1 : ptr_width 64) by by right.
  assert (H2 : good_pool 64 [16; 32]) by (split; [by_decision|intros e He; elems; lia]).
  assert (H3 : ∀ e, e ∈ [16; 32] → is_Some (two_entries !! e)) by (intros e He; elems; by eexists).
  assert (H4 : sl_start [16; 32] 2 two_entries sl_example) by done.
  assert (H5 : traces (sl_step_seen 64) sl_example es s').
  { apply (acts_seen_traces _ _ _ push_pop_schedule); [repeat constructor|vm_compute; reflexivity]. }
  split_and!; [exact H1|exact H2|exact H3|exact H4|exact H5|].
  exact (slist_linearizable 64 [16; 32] 2 two_entries sl_example es s' H1 H2 H3 H4 H5).
Defined.

(** Two threads pop: thread 0 is stopped before its compare-and-swap while
    thread 1 pops both entries and pushes the first one back. *)
Definition whole_call (i : nat) (c : sl_action) : list sl_action := [c; Run i; Run i; Run i; Return i].
Definition aba_schedule : list sl_action :=
  whole_call 0 (CallPush 0 32) ++ whole_call 0 (CallPush 0 16) ++ [CallPop 0; Run 0; Run 0] ++
  whole_call 1 (CallPop 1) ++ whole_call 1 (CallPop 1) ++ whole_call 1 (CallPush 1 16) ++ [Run 0].

(** with two threads popping and 64-bit pointers, an entry that was popped
    and given back to the client ends up on the list (the compare-and-swap sees
    the pointer alone); with 32-bit pointers the sequence number makes the same
    compare-and-swap fail. *)
Theorem slist_two_poppers :
  (∃ s, sl_acts 64 sl_example aba_schedule = Some (Ok s) ∧ Next (sl_header s) = 32 ∧ 32 ∈ sl_free s) ∧
  (∃ s, sl_acts 32 sl_example aba_schedule = Some (Ok s) ∧ Next (sl_header s) = 16 ∧
    sl_pcs s !! 0%nat = Some (Some PopRead)).
Proof.
  split; eexists; (split; [vm_compute; reflexivity|]); cbn; (split; [done|]); [constructor|done].
Qed.

(** Push and pop of the plain singly-linked list. *)
Lemma PushEntryList_spec h head e p l : head ≠ e → h !! head = Some p → slist h p l → head ∉ l → e ∉ l → e ≠ 0 →
  is_Some (h !! e) → runs (PushEntryList h head e) (λ h', h' !! head = Some e ∧ slist h' e (e :: l)).
Proof.
  intros Hne Hp Hl Hh He He0 Hs. unfold PushEntryList. rewrite (get_ok _ _ _ Hp), bind_Ok.
  rewrite upd_ok, bind_Ok, upd_ok by (rewrite ?lookup_alter_is_Some; eauto). apply runs_ok. split.
  - by rewrite lookup_alter_eq, lookup_alter_ne, Hp.
  - apply slist_frame; [elems|]. by apply slist_cons.
Qed.

Lemma PopEntryList_spec h head p l : h !! head = Some p → slist h p l → head ∉ l →
  runs (PopEntryList h head) (λ r, r.2 = hd 0 l ∧ ∃ p', r.1 !! head = Some p' ∧ slist r.1 p' (tail l)).
Proof.
  intros Hp Hl Hh. unfold PopEntryList. rewrite (get_ok _ _ _ Hp), bind_Ok. destruct l as [|x l]; cbn in Hl.
  - rewrite Hl in *. cbn. apply runs_ok. split; [done|]. by exists 0.
  - destruct Hl as (-> & Hx & n & Hn & Hl). rewrite (proj2 (Z.eqb_neq x 0)) by done.
    rewrite (get_ok _ _ _ Hn), bind_Ok, upd_ok, bind_Ok by eauto. apply runs_ok. cbn. split; [done|].
    exists n. rewrite lookup_alter_eq, Hp. split; [done|]. elems. by apply slist_frame.
Qed.
