(* ===== verification/Cas64.v ===== *)
(** The 64-bit compare-and-swap without the processor's instruction
    (src/libuzi/interlocked.c): under a static pthread mutex (Android, GCC
    without an 8-byte compare-and-swap), or under a Windows mutex that the first
    caller creates.

    Any number of threads, one access to the shared state at a time, are shown
    to implement the atomic operation of Interlocked.v. *)

From stdpp Require Import list gmap.
From S2P Require Import Prelude Interlocked.

Set Warnings "-clear-no-such-hyp".

(** ** The machine *)

(** Where a call is: in [static_mutex_lock] (test of the pointer, creation,
    publication, wait), reading, comparing, storing, releasing, returned.
    [locked] is the local variable of that name. *)
Inductive cpc : Type :=
  | CTest
  | CCreate
  | CPublish (handle : Z)
  | CWait
  | CRead (locked : bool)
  | CCompare (locked : bool) (previousValue : Z)
  | CStore (locked : bool) (previousValue : Z)
  | CRelease (locked : bool) (previousValue : Z)
  | CRet (previousValue : Z).

(** A call with its arguments. *)
Record cas_call := CasCall { Exchange : Z; Comperand : Z; c_pc : cpc }.
Definition at_pc (pc : cpc) (c : cas_call) : cas_call := CasCall (Exchange c) (Comperand c) pc.

(** The destination, the static pointer (0: null), the holder of each open
    mutex, and the calls of the threads. *)
Record cas_system := CasSystem {
  cell : Z;
  static_mutex : Z;
  mutexes : gmap Z (option nat);
  calls : list (option cas_call) }.

(** [RunCas i hd]: the next access of thread [i]; [hd] is what CreateMutex
    answers, 0 on failure. *)
Inductive cas_action : Type :=
  | CallCas (i : nat) (exchange comperand : Z)
  | RunCas (i : nat) (hd : Z)
  | ReturnCas (i : nat).

Definition set_cell v (s : cas_system) : cas_system := CasSystem v (static_mutex s) (mutexes s) (calls s).
Definition set_static v (s : cas_system) : cas_system := CasSystem (cell s) v (mutexes s) (calls s).
Definition set_mutexes m (s : cas_system) : cas_system := CasSystem (cell s) (static_mutex s) m (calls s).
Definition set_calls l (s : cas_system) : cas_system := CasSystem (cell s) (static_mutex s) (mutexes s) l.

(** One access: the shared state and the position after it; [None]: the thread
    is blocked. *)
Definition cas_step (i : nat) (hd : Z) (s : cas_system) (c : cas_call) : option (res (cas_system * cpc)) :=
  match c_pc c with
  | CTest => Some (Ok (s, if static_mutex s =? 0 then CCreate else CWait))
  | CCreate =>
      if hd =? 0 then Some (Ok (s, CRead false))
      else match mutexes s !! hd with
        | Some _ => None
        | None => Some (Ok (set_mutexes (<[hd := None]> (mutexes s)) s, CPublish hd))
        end
  | CPublish h =>
      let r := InterlockedCompareExchangePointer (static_mutex s) h 0 in
      if negb (r.2 =? 0) then
        match mutexes s !! h with
        | Some _ => Some (Ok (set_mutexes (delete h (mutexes s)) (set_static r.1 s), CWait))
        | None => Some UB
        end
      else Some (Ok (set_static r.1 s, CWait))
  | CWait =>
      match mutexes s !! static_mutex s with
      | None => Some UB
      | Some (Some _) => None
      | Some None => Some (Ok (set_mutexes (<[static_mutex s := Some i]> (mutexes s)) s, CRead true))
      end
  | CRead lk => Some (Ok (s, CCompare lk (cell s)))
  | CCompare lk v => Some (Ok (s, if cell s =? Comperand c then CStore lk v else CRelease lk v))
  | CStore lk v => Some (Ok (set_cell (Exchange c) s, CRelease lk v))
  | CRelease lk v =>
      if lk : bool then
        match mutexes s !! static_mutex s with
        | Some _ => Some (Ok (set_mutexes (<[static_mutex s := None]> (mutexes s)) s, CRet v))
        | None => Some UB
        end
      else Some (Ok (s, CRet v))
  | CRet v => Some (Ok (s, CRet v))
  end.

(** [entry]: where a call begins, [CTest] in the Windows version and [CWait] in
    the pthread version, whose mutex exists from the start. *)
Definition cas_act (entry : cpc) (s : cas_system) (a : cas_action) : option (res cas_system) :=
  match a with
  | CallCas i exchange comperand =>
      match calls s !! i with
      | Some None => Some (Ok (set_calls (<[i := Some (CasCall exchange comperand entry)]> (calls s)) s))
      | _ => None
      end
  | RunCas i hd =>
      match calls s !! i with
      | Some (Some c) =>
          match cas_step i hd s c with
          | Some r => Some (q ← r; Ok (set_calls (<[i := Some (at_pc q.2 c)]> (calls q.1)) q.1))
          | None => None
          end
      | _ => None
      end
  | ReturnCas i =>
      match calls s !! i with
      | Some (Some (CasCall _ _ (CRet _))) => Some (Ok (set_calls (<[i := None]> (calls s)) s))
      | _ => None
      end
  end.

(** The mutex can be created. *)
Definition creates (a : cas_action) : Prop := match a with RunCas _ hd => hd ≠ 0 | _ => True end.

(** ** The atomic cell *)

Inductive cas_event : Type :=
  | CasCalled (i : nat) (exchange comperand : Z)
  | CasReturned (i : nat) (previousValue : Z).

Inductive atomic_call : Type :=
  | CasPending (exchange comperand : Z)
  | CasDone (previousValue : Z).

Definition atomic_cell : Type := Z * list (option atomic_call).

(** The operation happens at once, between its call and its return. *)
Inductive cell_step : atomic_cell → option cas_event → atomic_cell → Prop :=
  | cell_call v cs i exchange comperand : cs !! i = Some None →
      cell_step (v, cs) (Some (CasCalled i exchange comperand)) (v, <[i := Some (CasPending exchange comperand)]> cs)
  | cell_cas v cs i exchange comperand : cs !! i = Some (Some (CasPending exchange comperand)) →
      let r := InterlockedCompareExchange64 v exchange comperand in
      cell_step (v, cs) None (r.1, <[i := Some (CasDone r.2)]> cs)
  | cell_return v cs i r : cs !! i = Some (Some (CasDone r)) →
      cell_step (v, cs) (Some (CasReturned i r)) (v, <[i := None]> cs).

Definition cas_event_of (s : cas_system) (a : cas_action) : option cas_event :=
  match a with
  | CallCas i exchange comperand => Some (CasCalled i exchange comperand)
  | RunCas _ _ => None
  | ReturnCas i => match calls s !! i with Some (Some (CasCall _ _ (CRet v))) => Some (CasReturned i v) | _ => None end
  end.

Definition cas_step_seen (entry : cpc) : cas_system → option cas_event → cas_system → Prop :=
  act_seen creates (cas_act entry) cas_event_of.

(** A call has happened once its value is stored or known to differ. *)
Definition atomic_of (c : cas_call) : atomic_call :=
  match c_pc c with
  | CRelease _ v | CRet v => CasDone v
  | _ => CasPending (Exchange c) (Comperand c)
  end.

Definition cell_of (s : cas_system) : atomic_cell := (cell s, (λ c : option cas_call, atomic_of <$> c) <$> calls s).

(** ** The invariant *)

Definition critical (pc : cpc) : bool :=
  match pc with CRead _ | CCompare _ _ | CStore _ _ | CRelease _ _ => true | _ => false end.

(** What is known at each position. *)
Definition call_ok (s : cas_system) (i : nat) (c : cas_call) : Prop :=
  match c_pc c with
  | CTest | CCreate => True
  | CPublish h => h ≠ 0 ∧ mutexes s !! h = Some None ∧ static_mutex s ≠ h
  | CWait => static_mutex s ≠ 0
  | CRead lk => lk = true ∧ mutexes s !! static_mutex s = Some (Some i)
  | CCompare lk v => lk = true ∧ mutexes s !! static_mutex s = Some (Some i) ∧ v = cell s
  | CStore lk v => lk = true ∧ mutexes s !! static_mutex s = Some (Some i) ∧ v = cell s ∧ v = Comperand c
  | CRelease lk v => lk = true ∧ mutexes s !! static_mutex s = Some (Some i)
  | CRet v => True
  end.

Definition own_handle (c : cas_call) : option Z := match c_pc c with CPublish h => Some h | _ => None end.

Definition cas_inv (s : cas_system) : Prop :=
  (static_mutex s ≠ 0 → is_Some (mutexes s !! static_mutex s)) ∧ mutexes s !! 0 = None ∧
  (∀ i c, calls s !! i = Some (Some c) → call_ok s i c) ∧
  (∀ i j c c', i ≠ j → calls s !! i = Some (Some c) → calls s !! j = Some (Some c') →
    is_Some (own_handle c) → own_handle c ≠ own_handle c') ∧
  (∀ i, mutexes s !! static_mutex s = Some (Some i) → ∃ c, calls s !! i = Some (Some c) ∧ critical (c_pc c) = true).

Lemma call_ok_calls l s i c : call_ok (set_calls l s) i c ↔ call_ok s i c.
Proof. done. Qed.

Lemma call_ok_frame s s' j c : call_ok s j c →
  (∀ h, own_handle c = Some h → mutexes s' !! h = mutexes s !! h ∧ static_mutex s' ≠ h) →
  (static_mutex s ≠ 0 → static_mutex s' ≠ 0) →
  (mutexes s !! static_mutex s = Some (Some j) → mutexes s' !! static_mutex s' = Some (Some j) ∧ cell s' = cell s) →
  call_ok s' j c.
Proof.
  destruct c as [e p pc]. unfold call_ok, own_handle. cbn. destruct pc as [| |h| |lk|lk v|lk v|lk v|v]; intros Hc Ho Hs Hh; try done.
  - destruct Hc as (? & ? & ?), (Ho h eq_refl) as [-> ?]. done.
  - by apply Hs.
  - destruct Hc as (? & Hc). by destruct (Hh Hc).
  - destruct Hc as (? & Hc & ->). by destruct (Hh Hc) as [? ->].
  - destruct Hc as (? & Hc & -> & E). destruct (Hh Hc) as [? ->]. done.
  - destruct Hc as (? & Hc). by destruct (Hh Hc).
Qed.

Definition wf_mutexes (s : cas_system) : Prop :=
  (static_mutex s ≠ 0 → is_Some (mutexes s !! static_mutex s)) ∧ mutexes s !! 0 = None.

(** What an access of thread [i] may do to the others. *)
Definition harmless (s : cas_system) (i : nat) (s' : cas_system) : Prop :=
  ∀ j c, j ≠ i → calls s !! j = Some (Some c) → call_ok s j c → call_ok s' j c.

Lemma cas_inv_update s i c s' c' : cas_inv s → calls s !! i = Some c → calls s' = calls s → wf_mutexes s' → harmless s i s' →
  (∀ c0, c' = Some c0 → call_ok s' i c0 ∧
    (∀ h j cj, own_handle c0 = Some h → j ≠ i → calls s !! j = Some (Some cj) → own_handle cj ≠ Some h)) →
  (∀ j, mutexes s' !! static_mutex s' = Some (Some j) →
    if decide (j = i) then ∃ c0, c' = Some c0 ∧ critical (c_pc c0) = true else mutexes s !! static_mutex s = Some (Some j)) →
  cas_inv (set_calls (<[i := c']> (calls s')) s').
Proof.
  intros (_ & _ & Hok & Hd & Hin) Hi Hcalls [W1 W2] Hharm Hc' Hin'. split; [done|]. split; [done|]. cbn [calls set_calls]. rewrite Hcalls.
  assert (Hlook : ∀ j cj, <[i := c']> (calls s) !! j = Some (Some cj) → j = i ∧ c' = Some cj ∨ j ≠ i ∧ calls s !! j = Some (Some cj)).
  { intros j cj Hj. apply list_lookup_insert_Some in Hj as [(<- & -> & _)|[Hne Hj]]; [by left|by right]. }
  split_and!.
  - intros j cj [[-> E]|[Hne Hj]]%Hlook; [by destruct (Hc' cj E)|]. by apply (Hharm j cj Hne Hj), Hok.
  - intros j k cj ck Hjk [[-> E]|[Hne Hj]]%Hlook [[-> E']|[Hne' Hk]]%Hlook [h Hh]; try done.
    + destruct (Hc' cj E) as [_ Hx]. rewrite Hh. intros Heq. by apply (Hx h k ck Hh Hne' Hk).
    + destruct (Hc' ck E') as [_ Hx]. rewrite Hh. intros Heq. by apply (Hx h j cj (eq_sym Heq) Hne Hj).
    + apply (Hd j k cj ck Hjk Hj Hk). by eexists.
  - intros j Hj. specialize (Hin' j Hj). case_decide as E.
    + subst j. destruct Hin' as (c0 & -> & Hc0). exists c0. split; [|done]. apply list_lookup_insert_eq. by eapply lookup_lt_Some.
    + rewrite list_lookup_insert_ne by done. by apply Hin.
Qed.

(** What an access does to the atomic cell: nothing, or the operation. *)
Definition cas_commit (v : Z) (c : atomic_call) (v' : Z) (c' : atomic_call) : Prop :=
  (v', c') = (v, c) ∨ ∃ exchange comperand, c = CasPending exchange comperand ∧
    let r := InterlockedCompareExchange64 v exchange comperand in v' = r.1 ∧ c' = CasDone r.2.

(** ** The steps *)

Section Step.
Context (s : cas_system) (i : nat) (c : cas_call) (Hinv : cas_inv s) (Hi : calls s !! i = Some (Some c)).

Definition step_post (q : cas_system * cpc) : Prop :=
  calls q.1 = calls s ∧ cas_inv (set_calls (<[i := Some (at_pc q.2 c)]> (calls q.1)) q.1) ∧
  cas_commit (cell s) (atomic_of c) (cell q.1) (atomic_of (at_pc q.2 c)).

Lemma static_pos : is_Some (mutexes s !! static_mutex s) → static_mutex s ≠ 0.
Proof. intros [x Hx] E. destruct Hinv as (_ & H0 & _). rewrite E in Hx. congruence. Qed.

Lemma mine : call_ok s i c.
Proof. destruct Hinv as (_ & _ & Hok & _). by apply Hok. Qed.

Lemma inside : mutexes s !! static_mutex s = Some (Some i) → critical (c_pc c) = true.
Proof. intros H. destruct Hinv as (_ & _ & _ & _ & Hin). destruct (Hin i H) as (c' & Hc' & Hcr). congruence. Qed.

(** Accesses to the thread's own variables, or reads. *)
Lemma stay pc : call_ok s i (at_pc pc c) → own_handle (at_pc pc c) = None →
  (critical (c_pc c) = true → critical pc = true) →
  cas_commit (cell s) (atomic_of c) (cell s) (atomic_of (at_pc pc c)) → step_post (s, pc).
Proof.
  intros Hok Ho Hcr Hcom. split; [done|]. split; [|done]. pose proof Hinv as (H1 & H2 & _).
  apply (cas_inv_update s i (Some c)); [done|done|done|done|by intros j cj _ _| |].
  - intros c0 [= <-]. split; [done|]. intros h j cj Hx. congruence.
  - intros j Hj. case_decide as E; [|done]. subst j. eexists. split; [done|]. by apply Hcr, inside.
Qed.

Lemma create_mutex_ok hd : c_pc c = CCreate → hd ≠ 0 → mutexes s !! hd = None →
  step_post (set_mutexes (<[hd := None]> (mutexes s)) s, CPublish hd).
Proof.
  intros Hpc Hhd Hfresh. split; [done|]. split; [|left; cbn; unfold atomic_of; by rewrite Hpc]. pose proof Hinv as (H1 & H2 & Hok & _).
  assert (Hst : static_mutex s ≠ hd) by (intros E; destruct (H1 ltac:(congruence)) as [x Hx]; congruence).
  apply (cas_inv_update s i (Some c)); [done|done|done| | | |].
  - split; cbn; [|by rewrite lookup_insert_ne]. intros H. destruct (H1 H). rewrite lookup_insert_ne by done. by eexists.
  - intros j cj Hne Hj Hcj. apply (call_ok_frame s); [done| |done|]; cbn.
    + intros h Hh. assert (mutexes s !! h = Some None ∧ static_mutex s ≠ h) as [? ?].
      { revert Hcj Hh. unfold call_ok, own_handle. destruct (c_pc cj); try done. intros (_ & ? & ?) [= <-]. done. }
      split; [|done]. rewrite lookup_insert_ne; [done|]. intros <-. congruence.
    + intros H. by rewrite lookup_insert_ne.
  - intros c0 [= <-]. split; [unfold call_ok; cbn; by rewrite lookup_insert_eq|]. intros h j cj [= <-] Hne Hj Heq.
    pose proof (Hok j cj Hj) as Hcj. revert Hcj Heq. unfold call_ok, own_handle. destruct (c_pc cj); try done. intros (_ & ? & _) [= ->]. congruence.
  - cbn. intros j Hj. rewrite lookup_insert_ne in Hj by done. case_decide as E; [subst j|done].
    apply inside in Hj. by rewrite Hpc in Hj.
Qed.

Lemma publish_ok h : c_pc c = CPublish h →
  runs (match (InterlockedCompareExchangePointer (static_mutex s) h 0) with (v, old) =>
    if negb (old =? 0) then
      match mutexes s !! h with
      | Some _ => Ok (set_mutexes (delete h (mutexes s)) (set_static v s), CWait)
      | None => UB
      end
    else Ok (set_static v s, CWait) end) step_post.
Proof.
  intros Hpc. pose proof mine as Hme. unfold call_ok in Hme. rewrite Hpc in Hme. destruct Hme as (Hh0 & Hh & Hsh).
  pose proof Hinv as (H1 & H2 & Hok & Hd & _). unfold InterlockedCompareExchangePointer.
  assert (Hown : ∀ j cj h', j ≠ i → calls s !! j = Some (Some cj) → own_handle cj = Some h' → h' ≠ h).
  { intros j cj h' Hne Hj Hcj ->. apply (Hd i j c cj); [done|done|done|..]; unfold own_handle at 1; rewrite Hpc; [by eexists|by rewrite Hcj]. }
  assert (Hcom : cas_commit (cell s) (atomic_of c) (cell s) (atomic_of (at_pc CWait c))) by (left; unfold atomic_of; cbn; by rewrite Hpc).
  destruct (Z.eqb_spec (static_mutex s) 0) as [E0|E0]; cbn [fst snd negb].
  - apply runs_ok. split; [done|]. split; [|done].
    apply (cas_inv_update s i (Some c)); [done|done|done| | | |].
    + split; cbn; [intros _; by eexists|done].
    + intros j cj Hne Hj Hcj. apply (call_ok_frame s); [done| |done|]; cbn.
      * intros h' Hh'. split; [done|]. intros ->. by apply (Hown j cj h' Hne Hj).
      * rewrite E0, H2. done.
    + intros c0 [= <-]. done.
    + cbn. intros j Hj. congruence.
  - rewrite Hh. apply runs_ok. split; [done|]. split; [|done].
    apply (cas_inv_update s i (Some c)); [done|done|done| | | |].
    + split; cbn; [intros H; rewrite lookup_delete_ne by done; by apply H1|by rewrite lookup_delete_ne].
    + intros j cj Hne Hj Hcj. apply (call_ok_frame s); [done| |done|]; cbn.
      * intros h' Hh'. pose proof (Hown j cj h' Hne Hj Hh') as Hx. rewrite lookup_delete_ne by done. split; [done|].
        revert Hcj Hh'. unfold call_ok, own_handle. destruct (c_pc cj); try done. intros (_ & _ & ?) [= <-]. done.
      * intros H. by rewrite lookup_delete_ne.
    + intros c0 [= <-]. done.
    + cbn. intros j Hj. rewrite lookup_delete_ne in Hj by done. case_decide as E; [subst j|done].
      apply inside in Hj. by rewrite Hpc in Hj.
Qed.

(** Taking and giving back the mutex: nobody else is inside. *)
Lemma mutex_ok pc o o' : mutexes s !! static_mutex s = Some o → (o = None ∨ o = Some i) →
  let s' := set_mutexes (<[static_mutex s := o']> (mutexes s)) s in
  call_ok s' i (at_pc pc c) → own_handle (at_pc pc c) = None → (o' = None ∨ o' = Some i ∧ critical pc = true) →
  cas_commit (cell s) (atomic_of c) (cell s) (atomic_of (at_pc pc c)) → step_post (s', pc).
Proof.
  intros Ho Hoi s' Hok Hown Ho' Hcom. split; [done|]. split; [|done]. pose proof Hinv as (H1 & H2 & Hoks & _).
  assert (Hs0 : static_mutex s ≠ 0) by (apply static_pos; eauto).
  apply (cas_inv_update s i (Some c)); [done|done|done| | | |].
  - split; cbn; [intros _; rewrite lookup_insert_eq; by eexists|by rewrite lookup_insert_ne].
  - intros j cj Hne Hj Hcj. apply (call_ok_frame s); [done| |done|]; cbn.
    + intros h Hh. assert (Hsh : static_mutex s ≠ h); [|split; [by rewrite lookup_insert_ne|done]].
      revert Hcj Hh. unfold call_ok, own_handle. destruct (c_pc cj); try done. intros (_ & _ & ?) [= <-]. done.
    + rewrite Ho. destruct Hoi as [->| ->]; intros [= ?]; congruence.
  - intros c0 [= <-]. split; [done|]. intros h j cj Hx. congruence.
  - cbn. intros j. rewrite lookup_insert_eq. destruct Ho' as [->|[-> Hcr]]; [done|]. intros [= ->].
    rewrite decide_True by done. by eexists.
Qed.

Lemma store_ok lk v : c_pc c = CStore lk v → step_post (set_cell (Exchange c) s, CRelease lk v).
Proof.
  intros Hpc. pose proof mine as Hme. unfold call_ok in Hme. rewrite Hpc in Hme. destruct Hme as (Hl & Hm & Hv & Hcmp).
  split; [done|]. pose proof Hinv as (H1 & H2 & Hoks & _). split.
  - apply (cas_inv_update s i (Some c)); [done|done|done|done| | |].
    + intros j cj Hne Hj Hcj. apply (call_ok_frame s); [done| |done|]; cbn; [|intros H; congruence].
      intros h Hh. split; [done|]. revert Hcj Hh. unfold call_ok, own_handle. destruct (c_pc cj); try done. intros (_ & _ & ?) [= <-]. done.
    + intros c0 [= <-]. split; [by split|]. intros h j cj Hx. done.
    + intros j Hj. case_decide as E; [|done]. by eexists.
  - right. exists (Exchange c), (Comperand c). unfold atomic_of at 1. rewrite Hpc. split; [done|]. cbn.
    unfold InterlockedCompareExchange64. rewrite <- Hv, Hcmp, Z.eqb_refl. cbn. by rewrite <- Hcmp.
Qed.

Lemma cas_step_ok hd : hd ≠ 0 → ∀ r, cas_step i hd s c = Some r → runs r step_post.
Proof.
  intros Hhd r. pose proof mine as Hme. unfold cas_step. destruct (c_pc c) as [| |h| |lk|lk v|lk v|lk v|v] eqn:Hpc; unfold call_ok in Hme; rewrite Hpc in Hme.
  - intros [= <-]. apply runs_ok. destruct (Z.eqb_spec (static_mutex s) 0); apply stay; try done; try (by rewrite Hpc); left; unfold atomic_of; cbn; by rewrite Hpc.
  - rewrite (proj2 (Z.eqb_neq hd 0)) by done. destruct (mutexes s !! hd) eqn:E; [done|]. intros [= <-]. apply runs_ok. by apply create_mutex_ok.
  - intros Hr. pose proof (publish_ok h Hpc) as Hp. cbv zeta in Hr. destruct (InterlockedCompareExchangePointer _ _ _) as [v old]. cbn [fst snd] in *.
    destruct (negb (old =? 0)); [destruct (mutexes s !! h)|]; by injection Hr as <-.
  - destruct (mutexes s !! static_mutex s) as [[j|]|] eqn:E; [done| |].
    + intros [= <-]. apply runs_ok. apply (mutex_ok (CRead true) None); [done|by left| |done|by right|left; unfold atomic_of; cbn; by rewrite Hpc].
      unfold call_ok. cbn. by rewrite lookup_insert_eq.
    + destruct Hinv as (H1 & _). destruct (H1 Hme). congruence.
  - intros [= <-]. apply runs_ok. apply stay; [|done|done|left; unfold atomic_of; cbn; by rewrite Hpc]. destruct Hme. by split_and!.
  - destruct Hme as (-> & Hm & ->). intros [= <-]. apply runs_ok. destruct (Z.eqb_spec (cell s) (Comperand c)) as [E|E].
    + apply stay; [by split_and!|done|done|left; unfold atomic_of; cbn; by rewrite Hpc].
    + apply stay; [by split|done|done|]. right. exists (Exchange c), (Comperand c). unfold atomic_of. rewrite Hpc. split; [done|]. cbn.
      unfold InterlockedCompareExchange64. by rewrite (proj2 (Z.eqb_neq _ _)).
  - intros [= <-]. apply runs_ok. by apply store_ok.
  - destruct Hme as (-> & Hm). rewrite Hm. intros [= <-]. apply runs_ok. apply (mutex_ok (CRet v) (Some i)); [done|by right|done|done|by left|].
    left. unfold atomic_of. cbn. by rewrite Hpc.
  - intros [= <-]. apply runs_ok. apply stay; [done|done|by rewrite Hpc|left; unfold atomic_of; cbn; by rewrite Hpc].
Qed.
End Step.

(** ** Linearizability *)

Lemma static_kept i hd s c q : cas_step i hd s c = Some (Ok q) → static_mutex s ≠ 0 → static_mutex q.1 ≠ 0.
Proof.
  unfold cas_step, InterlockedCompareExchangePointer. intros H Hs. revert H. rewrite (proj2 (Z.eqb_neq _ 0) Hs). cbn [fst snd].
  repeat case_match; intros [= <-]; done.
Qed.

(** Where calls begin agrees with the mutex there is. *)
Definition entry_ok (entry : cpc) (s : cas_system) : Prop := entry = CTest ∨ entry = CWait ∧ static_mutex s ≠ 0.

Definition cas_start (entry : cpc) (v : Z) (threads : nat) (s : cas_system) : Prop :=
  ∃ h m, s = CasSystem v h m (replicate threads None) ∧
    (entry = CTest ∧ h = 0 ∧ m = ∅ ∨ entry = CWait ∧ h ≠ 0 ∧ m = {[h := None]}).

Lemma cas_start_inv entry v n s : cas_start entry v n s → cas_inv s ∧ entry_ok entry s.
Proof.
  intros (h & m & -> & H). assert (Hn : ∀ i c, replicate n (@None cas_call) !! i ≠ Some (Some c)).
  { intros i c Hi. by apply lookup_replicate in Hi as [? _]. }
  split; [|destruct H as [(-> & _)|(-> & ? & _)]; [by left|by right]]. split_and!; cbn.
  - destruct H as [(_ & -> & _)|(_ & _ & ->)]; [done|]. intros _. rewrite lookup_singleton_eq. by eexists.
  - destruct H as [(_ & _ & ->)|(_ & ? & ->)]; [done|]. by rewrite lookup_singleton_ne.
  - intros i c Hi. by destruct (Hn i c).
  - intros i j c c' _ Hi. by destruct (Hn i c).
  - destruct H as [(_ & -> & ->)|(_ & _ & ->)]; [done|]. intros i. by rewrite lookup_singleton_eq.
Qed.

Definition cell_moves (s : cas_system) (o : option cas_event) (s' : cas_system) : Prop :=
  cell_step (cell_of s) o (cell_of s') ∨ o = None ∧ cell_of s' = cell_of s.

Lemma cell_of_lookup s i c : calls s !! i = Some c → (cell_of s).2 !! i = Some (atomic_of <$> c).
Proof. intros H. cbn. by rewrite list_lookup_fmap, H. Qed.

Lemma cas_commit_moves s i c s' c' : calls s !! i = Some (Some c) → calls s' = calls s →
  cas_commit (cell s) (atomic_of c) (cell s') (atomic_of c') → cell_moves s None (set_calls (<[i := Some c']> (calls s')) s').
Proof.
  intros Hi Hcalls Hcom. pose proof (cell_of_lookup s i _ Hi) as Hl. unfold cell_moves, cell_of in *. cbn in *.
  rewrite Hcalls, list_fmap_insert. cbn. destruct Hcom as [[= -> ->]|(ex & co & Hc & -> & ->)].
  - right. split; [done|]. f_equal. by apply list_insert_id.
  - left. apply cell_cas. by rewrite <- Hc.
Qed.

Lemma cas_act_inv entry s a r : cas_inv s → entry_ok entry s → creates a → cas_act entry s a = Some r →
  ∃ s', r = Ok s' ∧ (cas_inv s' ∧ entry_ok entry s') ∧ cell_moves s (cas_event_of s a) s'.
Proof.
  intros Hinv He Ha Hact. pose proof Hinv as (H1 & H2 & _ & _ & Hin). destruct a as [i ex co|i hd|i]; cbn in Hact |- *.
  - destruct (calls s !! i) as [[c|]|] eqn:Hi; [done| |done]. injection Hact as <-. eexists. split; [done|]. split.
    + split; [|done]. apply (cas_inv_update s i None); [done|done|done|done|by intros j cj _ _| |].
      * intros c0 [= <-]. unfold call_ok. cbn. destruct He as [->|[-> ?]]; done.
      * intros j Hj. case_decide as E; [|done]. subst j. destruct (Hin i Hj) as (? & ? & _). congruence.
    + left. pose proof (cell_of_lookup s i _ Hi) as Hl. unfold cell_of in *. cbn in *. rewrite list_fmap_insert. cbn.
      replace (atomic_of (CasCall ex co entry)) with (CasPending ex co) by (destruct He as [->|[-> _]]; done). by apply cell_call.
  - destruct (calls s !! i) as [[c|]|] eqn:Hi; [|done|done]. destruct (cas_step i hd s c) as [r0|] eqn:Hst; [|done].
    destruct (cas_step_ok s i c Hinv Hi hd Ha r0 Hst) as (q & -> & Hcalls & Hq & Hcom). injection Hact as <-.
    eexists. split; [done|]. split; [split; [done|]|by apply (cas_commit_moves s i c)].
    destruct He as [->|[-> Hs0]]; [by left|right]. split; [done|]. by apply (static_kept i hd s c q).
  - destruct (calls s !! i) as [[[ex co pc]|]|] eqn:Hi; [|done|done]. destruct pc as [| | | | | | | |v]; try done. injection Hact as <-.
    eexists. split; [done|]. split.
    + split; [|done]. apply (cas_inv_update s i (Some (CasCall ex co (CRet v)))); [done|done|done|done|by intros j cj _ _|done|].
      intros j Hj. case_decide as E; [|done]. subst j. destruct (Hin i Hj) as (? & ? & Hcr). rewrite Hi in H. injection H as <-. done.
    + left. pose proof (cell_of_lookup s i _ Hi) as Hl. unfold cell_of in *. cbn in *. rewrite list_fmap_insert. cbn. by apply cell_return.
Qed.

(** A thread inside the lock is never blocked, and one outside only by one
    inside. *)
Lemma cas_progress entry s i c : cas_inv s → calls s !! i = Some (Some c) →
  ∃ a s', creates a ∧ (∀ j ex co, a ≠ CallCas j ex co) ∧ cas_act entry s a = Some (Ok s').
Proof.
  intros Hinv Hi. assert (Hrun : ∀ j cj hd r, calls s !! j = Some (Some cj) → hd ≠ 0 → cas_step j hd s cj = Some r →
    ∃ a s', creates a ∧ (∀ j ex co, a ≠ CallCas j ex co) ∧ cas_act entry s a = Some (Ok s')).
  { intros j cj hd r Hj Hhd Hst. destruct (cas_step_ok s j cj Hinv Hj hd Hhd r Hst) as (q & -> & _).
    exists (RunCas j hd). eexists. split; [done|]. split; [done|]. cbn. by rewrite Hj, Hst. }
  pose proof Hinv as (H1 & _ & Hok & _ & Hin). assert (Hcrit : ∀ j cj, calls s !! j = Some (Some cj) → critical (c_pc cj) = true →
    is_Some (cas_step j 1 s cj)).
  { intros j cj Hj Hc. pose proof (Hok j cj Hj) as Hcj. unfold call_ok in Hcj. unfold cas_step.
    destruct (c_pc cj); try done; [by eexists..|]. destruct Hcj as [-> ->]. by eexists. }
  assert (Hone : (1 : Z) ≠ 0) by done.
  destruct (critical (c_pc c)) eqn:Hc; [destruct (Hcrit i c Hi Hc) as [r Hr]; by apply (Hrun i c 1 r)|].
  pose proof (Hok i c Hi) as Hci. unfold call_ok in Hci. destruct (c_pc c) as [| |h| |lk|lk v|lk v|lk v|v] eqn:Hpc; try done.
  - eapply (Hrun i c 1); [done|done|]. unfold cas_step. by rewrite Hpc.
  - set (hd := fresh (dom (mutexes s) ∪ {[0]})). assert (Hf : hd ∉ dom (mutexes s) ∪ {[0]}) by apply is_fresh.
    assert (Hhd : hd ≠ 0) by set_solver. eapply (Hrun i c hd); [done|done|]. unfold cas_step. rewrite Hpc.
    rewrite (proj2 (Z.eqb_neq hd 0)) by done. rewrite (not_elem_of_dom_1 (mutexes s) hd) by set_solver. done.
  - destruct (cas_step i 1 s c) as [r|] eqn:Hst; [by apply (Hrun i c 1 r)|]. unfold cas_step in Hst. rewrite Hpc in Hst. cbv zeta in Hst.
    destruct Hci as (_ & Hh & _). rewrite Hh in Hst. by destruct (negb _).
  - destruct (H1 Hci) as [[j|] Hj].
    + destruct (Hin j Hj) as (cj & Hcj & Hcr). destruct (Hcrit j cj Hcj Hcr) as [r Hr]. by apply (Hrun j cj 1 r).
    + eapply (Hrun i c 1); [done|done|]. unfold cas_step. by rewrite Hpc, Hj.
  - eapply (Hrun i c 1); [done|done|]. unfold cas_step. by rewrite Hpc.
Qed.

(** C23: the compare-and-swap under a mutex. What the callers of any number of
    threads see, whether the mutex exists from the start (pthread) or is
    created by whoever comes first (Windows, when creations do not fail), is
    what they can see of a cell whose compare-and-swap happens at once between
    the call and the return; the cell holds what the atomic one holds, no
    mutex that does not exist is used, and as long as a call is open some
    thread can take a step. *)
Theorem cas64_linearizable entry v threads s es s' : cas_start entry v threads s →
  traces (cas_step_seen entry) s es s' →
  (∃ cs, traces cell_step (v, replicate threads None) es (cell s', cs)) ∧
  (∀ a, creates a → cas_act entry s' a ≠ Some UB) ∧
  (∀ i c, calls s' !! i = Some (Some c) →
    ∃ a s2, creates a ∧ (∀ j ex co, a ≠ CallCas j ex co) ∧ cas_act entry s' a = Some (Ok s2)).
Proof.
  intros Hs Htr. assert (Hinv := cas_start_inv _ _ _ _ Hs).
  destruct (forward_simulation (cas_step_seen entry) cell_step (λ s t, (cas_inv s ∧ entry_ok entry s) ∧ t = cell_of s))
    with (2 := Htr) (t := cell_of s) as (t & Ht & [Hinv' He'] & ->); [|done|].
  - intros s1 o s2 t (a & Ha & Hact & ->) ([Hi1 He1] & ->).
    destruct (cas_act_inv entry s1 a _ Hi1 He1 Ha Hact) as (s3 & [= <-] & Hi2 & Hmv). by exists (cell_of s2).
  - assert (Hcell : cell_of s = (v, replicate threads None)).
    { destruct Hs as (h & m & -> & _). unfold cell_of. cbn. by rewrite fmap_replicate. }
    rewrite Hcell in Ht. split; [eexists; exact Ht|]. split; [|by intros i c Hi; apply (cas_progress entry s' i c)].
    intros a Ha E. by destruct (cas_act_inv entry s' a _ Hinv' He' Ha E) as (? & ? & _).
Qed.

(** Two threads of the Windows version race to create the mutex: thread 1
    publishes its own first, thread 0 closes the one it created, waits while
    thread 1 stores, and finds the value changed. *)
Definition race_schedule : list cas_action :=
  [CallCas 0 1 0; CallCas 1 2 0; RunCas 0 5; RunCas 1 5; RunCas 0 5; RunCas 1 6; RunCas 1 7; RunCas 0 7; RunCas 1 7;
   RunCas 1 7; RunCas 1 7; RunCas 1 7; RunCas 1 7; ReturnCas 1; RunCas 0 7; RunCas 0 7; RunCas 0 7; RunCas 0 7; ReturnCas 0].

Lemma cas64_linearizable_witness :
  let s := CasSystem 0 0 ∅ (replicate 2 None) in
  let s' := CasSystem 2 6 {[6 := None]} (replicate 2 None) in
  let es := [CasCalled 0 1 0; CasCalled 1 2 0; CasReturned 1 0; CasReturned 0 2] in
  cas_start CTest 0 2 s ∧ traces (cas_step_seen CTest) s es s' ∧
  (∃ cs, traces cell_step (0, replicate 2 None) es (2, cs)).
Proof.
  intros s s' es. assert (H1 : cas_start CTest 0 2 s) by (exists 0, ∅; split; [done|by left]).
  assert (H2 : traces (cas_step_seen CTest) s es s').
  { apply (acts_seen_traces _ _ _ race_schedule); [repeat constructor; done|vm_compute; reflexivity]. }
  split; [exact H1|]. split; [exact H2|]. exact (proj1 (cas64_linearizable CTest 0 2 s es s' H1 H2)).
Defined.

(** When the mutex cannot be created the code only prints a warning: two
    threads then both find the value 0 and both are told that they replaced
    it. *)
Definition unlocked_schedule : list cas_action :=
  [CallCas 0 1 0; CallCas 1 2 0; RunCas 0 0; RunCas 0 0; RunCas 1 0; RunCas 1 0; RunCas 0 0; RunCas 1 0; RunCas 0 0; RunCas 1 0;
   RunCas 0 0; RunCas 1 0; RunCas 0 0; RunCas 1 0; ReturnCas 0; ReturnCas 1].

Lemma cas64_unlocked : acts_seen (cas_act CTest) cas_event_of (CasSystem 0 0 ∅ (replicate 2 None)) unlocked_schedule =
  Some ([CasCalled 0 1 0; CasCalled 1 2 0; CasReturned 0 0; CasReturned 1 0], CasSystem 2 0 ∅ (replicate 2 None)).
Proof. vm_compute. reflexivity. Qed.
