(* ===== verification/Critical.v ===== *)
(** Critical sections (src/libuzi/critical.c and the wrappers of uzi.c).

    The calls are small-step machines, one shared access per step, so that any
    number of threads interleave; [run_call] runs one of them alone. The last
    part is the [Lock] interface the clients of a critical section are proved
    against. *)

From stdpp Require Import list gmap.
From S2P Require Import Prelude Interlocked.

(** The fields of [RTL_CRITICAL_SECTION]; [LockSemaphore] is the semaphore's
    value, [None] for a null pointer, [Some FREED] for a pointer to memory that
    was freed. *)
Record CRITICAL_SECTION := CS {
  LockCount : Z;
  RecursionCount : Z;
  OwningThread : Z;
  LockSemaphore : option Z;
  SpinCount : Z }.

Definition FREED : Z := -1.

Lemma not_freed (n : nat) : (Z.of_nat n =? FREED) = false.
Proof. unfold FREED. by destruct (Z.eqb_spec (Z.of_nat n) (-1)); [lia|]. Qed.

Definition set_LockCount v (c : CRITICAL_SECTION) : CRITICAL_SECTION :=
  CS v (RecursionCount c) (OwningThread c) (LockSemaphore c) (SpinCount c).
Definition set_RecursionCount v (c : CRITICAL_SECTION) : CRITICAL_SECTION :=
  CS (LockCount c) v (OwningThread c) (LockSemaphore c) (SpinCount c).
Definition set_OwningThread v (c : CRITICAL_SECTION) : CRITICAL_SECTION :=
  CS (LockCount c) (RecursionCount c) v (LockSemaphore c) (SpinCount c).
Definition set_LockSemaphore v (c : CRITICAL_SECTION) : CRITICAL_SECTION :=
  CS (LockCount c) (RecursionCount c) (OwningThread c) v (SpinCount c).
Definition set_SpinCount v (c : CRITICAL_SECTION) : CRITICAL_SECTION :=
  CS (LockCount c) (RecursionCount c) (OwningThread c) (LockSemaphore c) v.

(** ** Set-up and tear-down *)

(** [dwNumberOfProcessors] is what [GetNativeSystemInfo] reports. The new
    section and the previous count. *)
Definition SetCriticalSectionSpinCount (dwNumberOfProcessors : Z) (c : CRITICAL_SECTION) (dwSpinCount : Z) : CRITICAL_SECTION * Z :=
  let dwPreviousSpinCount := SpinCount c in
  let dwSpinCount := if negb (dwSpinCount =? 0) then if dwNumberOfProcessors <? 2 then 0 else dwSpinCount else dwSpinCount in
  (set_SpinCount dwSpinCount c, u32 dwPreviousSpinCount).

(** [malloc_ok] and [sem_init_ok]: whether the allocation and [sem_init] succeed.
    When [sem_init] fails the memory is freed and the pointer stays. *)
Definition InitializeCriticalSectionEx (malloc_ok sem_init_ok : bool) (dwNumberOfProcessors : Z)
    (c : CRITICAL_SECTION) (dwSpinCount Flags : Z) : CRITICAL_SECTION * bool :=
  if negb (Flags =? 0) then (c, false)
  else
    let c := CS (-1) 0 0 None 0 in
    if negb malloc_ok then (c, false)
    else if negb sem_init_ok then (set_LockSemaphore (Some FREED) c, false)
    else ((SetCriticalSectionSpinCount dwNumberOfProcessors (set_LockSemaphore (Some 0) c) dwSpinCount).1, true).

Definition InitializeCriticalSection m s p c : CRITICAL_SECTION := (InitializeCriticalSectionEx m s p c 0 0).1.
Definition InitializeCriticalSectionAndSpinCount m s p c dwSpinCount : CRITICAL_SECTION * bool :=
  InitializeCriticalSectionEx m s p c dwSpinCount 0.

(** Destroying and freeing what was freed before is undefined. *)
Definition DeleteCriticalSection (c : CRITICAL_SECTION) : res CRITICAL_SECTION :=
  let c := CS (-1) 0 0 (LockSemaphore c) 0 in
  match LockSemaphore c with
  | Some n => if n =? FREED then UB else Ok (set_LockSemaphore None c)
  | None => Ok c
  end.

Definition UziInitCS m s p c spinCount flags : CRITICAL_SECTION * bool :=
  let spinCount := if spinCount =? 0 then 4000 else spinCount in
  InitializeCriticalSectionEx m s p c spinCount flags.

(** The thread id is the low half of [pthread_self()]. *)
Definition GetCurrentThreadId (pthread_self : Z) : Z := Z.land (u32 pthread_self) 0xffffffff.

(** ** The calls as machines *)

(** Who called [TryEnterCriticalSection]: the client, or [EnterCriticalSection]
    with the spins it has left. *)
Inductive try_caller : Type :=
  | ByClient
  | ByEnter (SpinCount : Z).

Inductive cs_pc : Type :=
  | EnterStart                      (** reads SpinCount *)
  | TryCas (k : try_caller)         (** compare-and-swap of LockCount *)
  | TryOwner (k : try_caller)       (** reads OwningThread *)
  | TryRec                          (** RecursionCount++ *)
  | TryInc                          (** InterlockedIncrement of LockCount *)
  | SpinTest (SpinCount : Z)        (** the loop's condition *)
  | SpinCas (SpinCount : Z)
  | EnterInc                        (** InterlockedIncrement of LockCount *)
  | EnterOwner
  | EnterRec
  | EnterWait                       (** sem_wait *)
  | OwnRec                          (** RecursionCount = 1 *)
  | OwnThread                       (** OwningThread = this thread *)
  | LeaveDec                        (** --RecursionCount *)
  | LeaveClear                      (** OwningThread = NULL *)
  | LeaveUnlock                     (** InterlockedDecrement of LockCount *)
  | LeavePost                       (** sem_post *)
  | LeaveDecLock
  | EnterRet (b : bool)
  | LeaveRet.

(** Signed 32-bit arithmetic outside the [Interlocked] calls: an overflow is
    undefined. *)
Definition sadd (a b : Z) : res Z :=
  if (- 2 ^ 31 <=? a + b) && (a + b <? 2 ^ 31) then Ok (a + b) else UB.

(** One access of the thread [me]; [None]: it is blocked in [sem_wait]. *)
Definition cs_step (me : Z) (c : CRITICAL_SECTION) (pc : cs_pc) : res (option (CRITICAL_SECTION * cs_pc)) :=
  match pc with
  | EnterStart =>
      let spin := u32 (SpinCount c) in
      Ok (Some (c, if negb (spin =? 0) then TryCas (ByEnter spin) else SpinTest spin))
  | TryCas k =>
      let r := InterlockedCompareExchange (LockCount c) 0 (-1) in
      Ok (Some (set_LockCount r.1 c, if r.2 =? -1 then OwnRec else TryOwner k))
  | TryOwner k =>
      Ok (Some (c, if OwningThread c =? me then TryRec
                   else match k with ByClient => EnterRet false | ByEnter spin => SpinTest spin end))
  | TryRec => v ← sadd (RecursionCount c) 1; Ok (Some (set_RecursionCount v c, TryInc))
  | TryInc => Ok (Some (set_LockCount (InterlockedIncrement (LockCount c)).1 c, EnterRet true))
  | SpinTest spin =>
      Ok (Some (c, if spin =? 0 then EnterInc else if LockCount c <? 1 then SpinCas (spin - 1) else EnterInc))
  | SpinCas spin =>
      let r := InterlockedCompareExchange (LockCount c) 0 (-1) in
      Ok (Some (set_LockCount r.1 c, if r.2 =? -1 then OwnRec else SpinTest spin))
  | EnterInc =>
      let r := InterlockedIncrement (LockCount c) in
      Ok (Some (set_LockCount r.1 c, if negb (r.2 =? 0) then EnterOwner else OwnRec))
  | EnterOwner => Ok (Some (c, if OwningThread c =? me then EnterRec else EnterWait))
  | EnterRec => v ← sadd (RecursionCount c) 1; Ok (Some (set_RecursionCount v c, EnterRet true))
  | EnterWait =>
      match LockSemaphore c with
      | None => UB
      | Some n => if n =? FREED then UB else Ok (if 0 <? n then Some (set_LockSemaphore (Some (n - 1)) c, OwnRec) else None)
      end
  | OwnRec => Ok (Some (set_RecursionCount 1 c, OwnThread))
  | OwnThread => Ok (Some (set_OwningThread me c, EnterRet true))
  | LeaveDec =>
      v ← sadd (RecursionCount c) (-1);
      Ok (Some (set_RecursionCount v c, if v <? 1 then LeaveClear else LeaveDecLock))
  | LeaveClear => Ok (Some (set_OwningThread 0 c, LeaveUnlock))
  | LeaveUnlock =>
      let r := InterlockedDecrement (LockCount c) in
      Ok (Some (set_LockCount r.1 c, if 0 <=? r.2 then LeavePost else LeaveRet))
  | LeavePost =>
      match LockSemaphore c with
      | None => UB
      | Some n => if n =? FREED then UB else Ok (Some (set_LockSemaphore (Some (n + 1)) c, LeaveRet))
      end
  | LeaveDecLock => Ok (Some (set_LockCount (InterlockedDecrement (LockCount c)).1 c, LeaveRet))
  | EnterRet b => Ok (Some (c, EnterRet b))
  | LeaveRet => Ok (Some (c, LeaveRet))
  end.

(** A call run alone, until it returns; a call that blocks for ever has no
    result ([NoFuel]). *)
Definition run_call (fuel : nat) (me : Z) (c : CRITICAL_SECTION) (pc : cs_pc) : res (CRITICAL_SECTION * bool) :=
  loop fuel (λ st, match st.2 with
    | EnterRet b => Ok (inr (st.1, b))
    | LeaveRet => Ok (inr (st.1, true))
    | pc => r ← cs_step me st.1 pc; Ok (inl (default st r))
    end) (c, pc).

(** Enough accesses for a call: each spin takes two of them. *)
Definition cs_fuel (c : CRITICAL_SECTION) : nat := 2 * Z.to_nat (SpinCount c) + 10.

Definition EnterCriticalSection (me : Z) (c : CRITICAL_SECTION) : res CRITICAL_SECTION :=
  r ← run_call (cs_fuel c) me c EnterStart; Ok r.1.
Definition TryEnterCriticalSection (me : Z) (c : CRITICAL_SECTION) : res (CRITICAL_SECTION * bool) :=
  run_call (cs_fuel c) me c (TryCas ByClient).
Definition LeaveCriticalSection (me : Z) (c : CRITICAL_SECTION) : res CRITICAL_SECTION :=
  r ← run_call (cs_fuel c) me c LeaveDec; Ok r.1.

Definition UziEnterCS := EnterCriticalSection.
Definition UziTryEnterCS := TryEnterCriticalSection.
Definition UziLeaveCS := LeaveCriticalSection.
Definition UziDeleteCS := DeleteCriticalSection.

(** Arithmetic that stays in range. *)
Lemma InterlockedIncrement_in v : - 2 ^ 31 <= v → v + 1 <= 2 ^ 31 - 1 → InterlockedIncrement v = (v + 1, v + 1).
Proof. intros. unfold InterlockedIncrement. rewrite swrap_id; [done|lia|]. zlia. Qed.

Lemma InterlockedDecrement_in v : - 2 ^ 31 <= v - 1 → v <= 2 ^ 31 - 1 → InterlockedDecrement v = (v - 1, v - 1).
Proof. intros. unfold InterlockedDecrement. rewrite swrap_id; [done|lia|]. zlia. Qed.

Lemma sadd_ok a b : - 2 ^ 31 <= a + b < 2 ^ 31 → sadd a b = Ok (a + b).
Proof. intros H. unfold sadd. by rewrite (proj2 (Z.leb_le _ _)), (proj2 (Z.ltb_lt _ _)) by lia. Qed.

(** ** Any number of threads *)

Ltac tests := repeat match goal with
  | |- context [?a =? ?b] => destruct (Z.eqb_spec a b)
  | H : context [?a =? ?b] |- _ => destruct (Z.eqb_spec a b)
  end.

(** A thread: where it is in a call ([None]: in none) and how many sections it
    had entered and not left when the call began. *)
Record cs_thread := CsThread { t_pc : option cs_pc; t_depth : nat }.
Record cs_system := CsSystem { s_cs : CRITICAL_SECTION; s_threads : list cs_thread }.

Inductive cs_action : Type :=
  | CallEnter (i : nat)
  | CallTryEnter (i : nat)
  | CallLeave (i : nat)
  | RunThread (i : nat)
  | ReturnCall (i : nat).

Section System.
(** The thread ids, and how deep a thread nests its calls. *)
Context (tid : nat → Z) (max_depth n_threads : nat).

Definition set_thread (s : cs_system) (c : CRITICAL_SECTION) (i : nat) (t : cs_thread) : cs_system :=
  CsSystem c (<[i := t]> (s_threads s)).

(** The client leaves only what it has entered. *)
Definition cs_act (s : cs_system) (a : cs_action) : option (res cs_system) :=
  match a with
  | CallEnter i | CallTryEnter i =>
      match s_threads s !! i with
      | Some (CsThread None d) =>
          if decide (d < max_depth)%nat
          then Some (Ok (set_thread s (s_cs s) i
            (CsThread (Some (match a with CallEnter _ => EnterStart | _ => TryCas ByClient end)) d))) else None
      | _ => None
      end
  | CallLeave i =>
      match s_threads s !! i with
      | Some (CsThread None d) =>
          if decide (0 < d)%nat then Some (Ok (set_thread s (s_cs s) i (CsThread (Some LeaveDec) d))) else None
      | _ => None
      end
  | RunThread i =>
      match s_threads s !! i with
      | Some (CsThread (Some pc) d) =>
          match cs_step (tid i) (s_cs s) pc with
          | Ok (Some (c, pc')) => Some (Ok (set_thread s c i (CsThread (Some pc') d)))
          | Ok None => None
          | UB => Some UB
          | NoFuel => Some NoFuel
          end
      | _ => None
      end
  | ReturnCall i =>
      match s_threads s !! i with
      | Some (CsThread (Some (EnterRet b)) d) =>
          Some (Ok (set_thread s (s_cs s) i (CsThread None (if b then S d else d))))
      | Some (CsThread (Some LeaveRet) d) => Some (Ok (set_thread s (s_cs s) i (CsThread None (pred d))))
      | _ => None
      end
  end.

Fixpoint cs_acts (s : cs_system) (acts : list cs_action) : option (res cs_system) :=
  match acts with
  | [] => Some (Ok s)
  | a :: acts => match cs_act s a with Some (Ok s') => cs_acts s' acts | r => r end
  end.

Definition cs_trans (s s' : cs_system) : Prop := ∃ a, cs_act s a = Some (Ok s').

(** Every thread starts outside an initialised section. *)
Definition cs_start (s : cs_system) : Prop :=
  ∃ processors spin c0, s = CsSystem (InitializeCriticalSectionEx true true processors c0 spin 0).1
    (replicate n_threads (CsThread None 0)).

(** *** What a thread contributes to the section's fields *)

(** Its part of [LockCount + 1]. *)
Definition counted (t : cs_thread) : nat :=
  match t_pc t with
  | Some (EnterOwner | EnterRec | EnterWait | OwnRec | OwnThread | EnterRet true) => S (t_depth t)
  | Some (LeavePost | LeaveRet) => pred (t_depth t)
  | _ => t_depth t
  end.

(** 1 when it has acquired the section and not yet handed it over. *)
Definition acquired (t : cs_thread) : nat :=
  match t_pc t with
  | Some (OwnRec | OwnThread | EnterRet true | LeavePost) => 1
  | Some LeaveRet => Nat.min 1 (pred (t_depth t))
  | _ => Nat.min 1 (t_depth t)
  end.

Lemma acquired_le t : (acquired t ≤ 1)%nat.
Proof. clear tid max_depth n_threads. destruct t as [[[| | | | | | | | | | | | | | | | | |[]|]|] d]; cbn -[Nat.min]; lia. Qed.

(** The section's [OwningThread] is this thread. *)
Definition recorded (t : cs_thread) : bool :=
  match t_pc t with
  | Some (OwnRec | OwnThread | LeaveUnlock | LeavePost) => false
  | _ => (acquired t =? 1)%nat
  end.

(** [RecursionCount], when the thread is recorded or about to be. *)
Definition recursion (t : cs_thread) : Z :=
  match t_pc t with
  | Some (TryInc | EnterRet true | OwnThread) => Z.of_nat (S (t_depth t))
  | Some (LeaveClear | LeaveDecLock | LeaveRet) => Z.of_nat (pred (t_depth t))
  | _ => Z.of_nat (t_depth t)
  end.

Definition counts_recursion (t : cs_thread) : bool :=
  match t_pc t with Some OwnThread => true | _ => recorded t end.

Definition position_ok (t : cs_thread) : Prop :=
  (t_depth t ≤ max_depth)%nat ∧
  match t_pc t with
  | None => True
  | Some (TryRec | TryInc | EnterRec) => (0 < t_depth t < max_depth)%nat
  | Some (EnterWait | OwnRec | OwnThread) => t_depth t = 0%nat ∧ (0 < max_depth)%nat
  | Some (LeaveDec | LeaveRet) => (0 < t_depth t)%nat
  | Some (LeaveClear | LeaveUnlock | LeavePost) => t_depth t = 1%nat
  | Some LeaveDecLock => (1 < t_depth t)%nat
  | Some _ => (t_depth t < max_depth)%nat
  end.

Definition unlocked (c : CRITICAL_SECTION) : nat := if LockCount c =? -1 then 1 else 0.

Record cs_inv (s : cs_system) : Prop := {
  inv_threads : length (s_threads s) = n_threads;
  inv_position : ∀ i t, s_threads s !! i = Some t → position_ok t;
  inv_count : LockCount (s_cs s) = Z.of_nat (sum_list_with counted (s_threads s)) - 1;
  inv_token : ∃ n, LockSemaphore (s_cs s) = Some (Z.of_nat n) ∧
    (sum_list_with acquired (s_threads s) + n + unlocked (s_cs s) = 1)%nat;
  inv_owner : ∀ i t, s_threads s !! i = Some t → recorded t = true → OwningThread (s_cs s) = tid i;
  inv_recursion : ∀ i t, s_threads s !! i = Some t → counts_recursion t = true → RecursionCount (s_cs s) = recursion t;
  inv_no_owner : OwningThread (s_cs s) ≠ 0 → ∃ i t, s_threads s !! i = Some t ∧ recorded t = true }.

Lemma recorded_acquired t : counts_recursion t = true → acquired t = 1%nat.
Proof. destruct t as [[[]|] d]; cbn; try done; apply Nat.eqb_eq. Qed.

Lemma recorded_counts t : recorded t = true → counts_recursion t = true.
Proof. by destruct t as [[[]|] d]. Qed.

(** The effect of one access of thread [i] on the invariant. *)
Lemma cs_inv_update s c i t t' : cs_inv s → s_threads s !! i = Some t →
  position_ok t' →
  LockCount c - LockCount (s_cs s) = Z.of_nat (counted t') - Z.of_nat (counted t) →
  (∀ n, LockSemaphore (s_cs s) = Some (Z.of_nat n) → ∃ n', LockSemaphore c = Some (Z.of_nat n') ∧
    (acquired t' + n' + unlocked c = acquired t + n + unlocked (s_cs s))%nat) →
  (recorded t' = true → OwningThread c = tid i) →
  (counts_recursion t' = true → RecursionCount c = recursion t') →
  (OwningThread c ≠ 0 → recorded t' = true ∨ OwningThread c = OwningThread (s_cs s) ∧ recorded t = false) →
  (OwningThread c = OwningThread (s_cs s) ∧ RecursionCount c = RecursionCount (s_cs s) ∨
    acquired t = 1%nat ∨ acquired t' = 1%nat) →
  cs_inv (set_thread s c i t').
Proof.
  intros [Hlen Hpos Hcnt (n & Hn & Htok) Hown Hrec Hno] Hi Hp Hl Hs Ho Hr Ho2 Hf.
  destruct (Hs n Hn) as (n' & Hn' & Hacq).
  assert (Hc := sum_insert counted _ _ _ t' Hi). assert (Ha := sum_insert acquired _ _ _ t' Hi).
  assert (Hlt := lookup_lt_Some _ _ _ Hi).
  assert (Hothers : ∀ j u, j ≠ i → s_threads s !! j = Some u → counts_recursion u = true →
    OwningThread c = OwningThread (s_cs s) ∧ RecursionCount c = RecursionCount (s_cs s)).
  { intros j u Hj Hu Hru. apply recorded_acquired in Hru. destruct Hf as [Hf|[Hf|Hf]]; [done|exfalso..].
    - pose proof (sum_lookup_two acquired _ _ _ _ _ Hj Hu Hi). lia.
    - assert (Hj' : <[i := t']> (s_threads s) !! j = Some u) by (by rewrite list_lookup_insert_ne).
      assert (Hi' : <[i := t']> (s_threads s) !! i = Some t') by (by rewrite list_lookup_insert_eq).
      pose proof (sum_lookup_two acquired _ _ _ _ _ Hj Hj' Hi'). lia. }
  split; cbn [set_thread s_cs s_threads].
  - by rewrite length_insert.
  - intros j u [(<- & <- & _)|[Hne Hj]]%list_lookup_insert_Some; [done|]. by eapply Hpos.
  - lia.
  - exists n'. split; [done|]. lia.
  - intros j u [(<- & <- & _)|[Hne Hj]]%list_lookup_insert_Some Hru; [by apply Ho|].
    destruct (Hothers j u) as [-> _]; [done..|by apply recorded_counts|]. by eapply Hown.
  - intros j u [(<- & <- & _)|[Hne Hj]]%list_lookup_insert_Some Hru; [by apply Hr|].
    destruct (Hothers j u) as [_ ->]; [done..|]. by eapply Hrec.
  - intros Hne. destruct (Ho2 Hne) as [Ht|[E Ht]].
    + exists i, t'. by rewrite list_lookup_insert_eq.
    + rewrite E in Hne. destruct (Hno Hne) as (j & u & Hj & Hu). exists j, u. split; [|done].
      rewrite list_lookup_insert_ne; [done|]. intros ->. congruence.
Qed.

Lemma counted_bound t : position_ok t → (counted t ≤ max_depth)%nat.
Proof. destruct t as [[[| | | | | | | | | | | | | | | | | |[]|]|] d]; unfold position_ok, counted; cbn; lia. Qed.

Hypothesis (Htid0 : ∀ i, (i < n_threads)%nat → tid i ≠ 0)
  (Htid : ∀ i j, (i < n_threads)%nat → (j < n_threads)%nat → tid i = tid j → i = j)
  (Hmax : Z.of_nat n_threads * Z.of_nat max_depth < 2 ^ 31).

(** The lock count after an access that leaves every thread in order fits. *)
Lemma LockCount_bound s i t t' : cs_inv s → s_threads s !! i = Some t → position_ok t' →
  Z.of_nat (sum_list_with counted (s_threads s)) - Z.of_nat (counted t) + Z.of_nat (counted t') <= 2 ^ 31 - 1.
Proof.
  intros Hinv Hi Hp. pose proof (sum_insert counted _ _ _ t' Hi).
  assert (sum_list_with counted (<[i := t']> (s_threads s)) ≤ n_threads * max_depth)%nat; [|lia].
  rewrite <- (inv_threads _ Hinv), <- (length_insert (s_threads s) i t'). apply sum_bound.
  intros j u [(<- & <- & _)|[Hne Hj]]%list_lookup_insert_Some; apply counted_bound; [done|].
  by eapply (inv_position _ Hinv).
Qed.

(** The section records the thread exactly when it compares equal. *)
Lemma owner_test s i t : cs_inv s → s_threads s !! i = Some t →
  recorded t = false → OwningThread (s_cs s) ≠ tid i.
Proof.
  intros Hinv Hi Hr E. assert (Hlt := lookup_lt_Some _ _ _ Hi). rewrite (inv_threads _ Hinv) in Hlt.
  destruct (inv_no_owner _ Hinv) as (j & u & Hj & Hu); [by rewrite E; apply Htid0|].
  assert (Hj' := lookup_lt_Some _ _ _ Hj). rewrite (inv_threads _ Hinv) in Hj'.
  rewrite (inv_owner _ Hinv _ _ Hj Hu) in E. apply Htid in E; [|done..]. subst j. congruence.
Qed.

(** A thread that moves on without touching the section. *)
Lemma cs_inv_move s i t t' : cs_inv s → s_threads s !! i = Some t → position_ok t' →
  counted t' = counted t → acquired t' = acquired t → recorded t' = recorded t →
  counts_recursion t' = counts_recursion t → recursion t' = recursion t → cs_inv (set_thread s (s_cs s) i t').
Proof.
  intros Hinv Hi Hp Hc Ha Hr Hcr Hrec. apply (cs_inv_update _ _ _ _ _ Hinv Hi); try done; try lia.
  - intros n Hn. exists n. split; [done|lia].
  - rewrite Hr. apply (inv_owner _ Hinv i t Hi).
  - rewrite Hcr, Hrec. apply (inv_recursion _ Hinv i t Hi).
  - rewrite Hr. destruct (recorded t) eqn:E; [by left|by right].
Qed.

Lemma set_LockCount_same c : set_LockCount (LockCount c) c = c.
Proof. by destruct c. Qed.

(** What the invariant says about the thread that runs. *)
Lemma cs_thread_facts s i t : cs_inv s → s_threads s !! i = Some t →
  position_ok t ∧ LockCount (s_cs s) + 1 >= Z.of_nat (counted t) ∧
  (acquired t + unlocked (s_cs s) ≤ 1)%nat ∧
  (counts_recursion t = true → RecursionCount (s_cs s) = recursion t) ∧
  (∀ t', position_ok t' → LockCount (s_cs s) + 1 - Z.of_nat (counted t) + Z.of_nat (counted t') <= 2 ^ 31 - 1).
Proof.
  intros Hinv Hi. pose proof (inv_token _ Hinv) as (n & _ & Htok). pose proof (inv_count _ Hinv).
  pose proof (sum_lookup counted _ _ _ Hi). pose proof (sum_lookup acquired _ _ _ Hi).
  split_and!; [apply (inv_position _ Hinv i t Hi)|lia|lia|apply (inv_recursion _ Hinv i t Hi)|].
  intros t' Hp. pose proof (LockCount_bound _ _ _ t' Hinv Hi Hp). lia.
Qed.

Lemma min_pos d : (0 < d)%nat → Nat.min 1 d = 1%nat.
Proof. lia. Qed.

(** The unlocked section: nobody has acquired it, nobody is counted. *)
Lemma unlocked_facts s i t : cs_inv s → s_threads s !! i = Some t → LockCount (s_cs s) = -1 →
  counted t = 0%nat ∧ acquired t = 0%nat.
Proof.
  intros Hinv Hi E. destruct (cs_thread_facts _ _ _ Hinv Hi) as (_ & Hc & Ha & _). unfold unlocked in Ha.
  rewrite E in *. cbn in Ha. lia.
Qed.

Definition run_ok (s : cs_system) (i : nat) (pc : cs_pc) (d : nat) : Prop :=
  match cs_step (tid i) (s_cs s) pc with
  | Ok (Some (c, pc')) => cs_inv (set_thread s c i (CsThread (Some pc') d))
  | Ok None => True
  | _ => False
  end.

(** The compare-and-swap on the lock count: taken, or without effect. *)
Lemma cas_lock s i pc pc_fail d : cs_inv s → s_threads s !! i = Some (CsThread (Some pc) d) →
  counted (CsThread (Some pc) d) = d → acquired (CsThread (Some pc) d) = Nat.min 1 d → (d < max_depth)%nat →
  cs_inv (set_thread s (s_cs s) i (CsThread (Some pc_fail) d)) →
  let r := InterlockedCompareExchange (LockCount (s_cs s)) 0 (-1) in
  cs_inv (set_thread s (set_LockCount r.1 (s_cs s)) i (CsThread (Some (if r.2 =? -1 then OwnRec else pc_fail)) d)).
Proof.
  intros Hinv Hi Hc Ha Hd Hfail. cbn. destruct (Z.eqb_spec (LockCount (s_cs s)) (-1)) as [E|E].
  2:{ by rewrite set_LockCount_same. }
  destruct (unlocked_facts _ _ _ Hinv Hi E) as [H1 H2]. rewrite Hc in H1. subst d.
  apply (cs_inv_update _ _ _ _ _ Hinv Hi); try done.
  - split; cbn; [lia|]. split; [done|lia].
  - cbn [set_LockCount LockCount]. rewrite Hc, E. done.
  - intros n Hn. exists n. split; [done|]. unfold unlocked. rewrite H2, E. cbn. lia.
  - intros Hne. right. split; [done|]. destruct (recorded _) eqn:Er; [|done].
    apply recorded_counts, recorded_acquired in Er. congruence.
  - by left.
Qed.

Ltac position Hinv Hi :=
  destruct (cs_thread_facts _ _ _ Hinv Hi) as (Hpos & Hcnt & Hacq & Hrec & Hbound);
  unfold position_ok in Hpos; cbn in Hpos, Hcnt, Hacq, Hrec.

(** The conditions of [cs_inv_update], by computation and arithmetic. *)
Ltac update Hinv Hi :=
  apply (cs_inv_update _ _ _ _ _ Hinv Hi); try done; unfold position_ok; cbn; try lia;
  try apply (inv_owner _ Hinv _ _ Hi); try apply (inv_recursion _ Hinv _ _ Hi);
  try (intros _; match goal with |- ?b = true ∨ _ => by destruct b; [left|right] end);
  try (by left); try (by right); try (right; by left); try (right; by right);
  try (let m := fresh "m" in let Hm := fresh "Hm" in
       intros m Hm; exists m; split; [done|]; unfold unlocked in *; cbn in *; tests; lia).

Ltac moves Hinv Hi := apply (cs_inv_move _ _ _ _ Hinv Hi); try done; unfold position_ok; cbn; try lia.

Lemma run_try s i k d : cs_inv s → s_threads s !! i = Some (CsThread (Some (TryCas k)) d) → run_ok s i (TryCas k) d.
Proof.
  intros Hinv Hi. position Hinv Hi. unfold run_ok, cs_step. apply (cas_lock _ _ _ _ _ Hinv Hi); try done; [lia|].
  moves Hinv Hi.
Qed.

Lemma run_spin_cas s i n d : cs_inv s → s_threads s !! i = Some (CsThread (Some (SpinCas n)) d) → run_ok s i (SpinCas n) d.
Proof.
  intros Hinv Hi. position Hinv Hi. unfold run_ok, cs_step. apply (cas_lock _ _ _ _ _ Hinv Hi); try done; [lia|].
  moves Hinv Hi.
Qed.

Lemma run_try_owner s i k d : cs_inv s → s_threads s !! i = Some (CsThread (Some (TryOwner k)) d) →
  run_ok s i (TryOwner k) d.
Proof.
  intros Hinv Hi. position Hinv Hi. unfold run_ok, cs_step. destruct (Z.eqb_spec (OwningThread (s_cs s)) (tid i)) as [E|E].
  - destruct (decide (d = 0)%nat) as [->|Hd]; [by destruct (owner_test _ _ _ Hinv Hi)|]. moves Hinv Hi.
  - destruct k; moves Hinv Hi.
Qed.

Lemma run_enter_owner s i d : cs_inv s → s_threads s !! i = Some (CsThread (Some EnterOwner) d) →
  run_ok s i EnterOwner d.
Proof.
  intros Hinv Hi. position Hinv Hi. unfold run_ok, cs_step. destruct (Z.eqb_spec (OwningThread (s_cs s)) (tid i)) as [E|E].
  - destruct (decide (d = 0)%nat) as [->|Hd]; [by destruct (owner_test _ _ _ Hinv Hi)|]. moves Hinv Hi.
  - destruct (decide (d = 0)%nat) as [->|Hd]; [moves Hinv Hi|]. destruct E. apply (inv_owner _ Hinv _ _ Hi).
    unfold recorded. cbn [t_pc acquired t_depth]. rewrite min_pos; [done|lia].
Qed.

Lemma run_enter_inc s i d : cs_inv s → s_threads s !! i = Some (CsThread (Some EnterInc) d) → run_ok s i EnterInc d.
Proof.
  intros Hinv Hi. position Hinv Hi. unfold run_ok, cs_step.
  assert (Hb := Hbound (CsThread (Some EnterOwner) d)). cbn in Hb. unfold position_ok in Hb. cbn in Hb.
  rewrite InterlockedIncrement_in by lia. cbn [fst snd]. destruct (Z.eqb_spec (LockCount (s_cs s) + 1) 0) as [E|E]; cbn [negb].
  - destruct (unlocked_facts _ _ _ Hinv Hi) as [H1 H2]; [lia|]. cbn in H1. subst d.
    update Hinv Hi.
  - update Hinv Hi.
Qed.

Lemma run_enter_wait s i d : cs_inv s → s_threads s !! i = Some (CsThread (Some EnterWait) d) → run_ok s i EnterWait d.
Proof.
  intros Hinv Hi. position Hinv Hi. destruct Hpos as (_ & -> & Hd). unfold run_ok, cs_step.
  destruct (inv_token _ Hinv) as (n & Hn & _). rewrite Hn, not_freed. destruct (Z.ltb_spec 0 (Z.of_nat n)) as [Hlt|Hlt]; [|done].
  update Hinv Hi. intros m Hm. rewrite Hn in Hm. simplify_eq. exists (pred m). split; [f_equal; lia|].
  unfold unlocked. cbn. lia.
Qed.

(** Taking ownership. *)
Lemma run_own s i pc d : pc = OwnRec ∨ pc = OwnThread → cs_inv s → s_threads s !! i = Some (CsThread (Some pc) d) → run_ok s i pc d.
Proof.
  intros Hpc Hinv Hi. position Hinv Hi. destruct Hpc as [-> | ->], Hpos as (_ & -> & Hd); unfold run_ok, cs_step.
  - update Hinv Hi.
  - update Hinv Hi.
Qed.

(** A nested depth fits the recursion count. *)
Lemma depth_range s i t : cs_inv s → s_threads s !! i = Some t → Z.of_nat max_depth < 2 ^ 31.
Proof.
  intros Hinv Hi. apply lookup_lt_Some in Hi. rewrite (inv_threads _ Hinv) in Hi. nia.
Qed.

(** Recursion. *)
Lemma run_rec s i pc d : pc = TryRec ∨ pc = EnterRec → cs_inv s → s_threads s !! i = Some (CsThread (Some pc) d) → run_ok s i pc d.
Proof.
  intros Hpc Hinv Hi. position Hinv Hi. pose proof (depth_range _ _ _ Hinv Hi).
  assert (Hd : (0 < d < max_depth)%nat) by (destruct Hpc as [-> | ->]; cbn in Hpos; lia).
  destruct d as [|d]; [lia|].
  assert (Hr : RecursionCount (s_cs s) = Z.of_nat (S d)) by (destruct Hpc as [-> | ->]; by apply Hrec).
  destruct Hpc as [-> | ->]; unfold run_ok, cs_step; rewrite Hr, sadd_ok by lia; cbn [mbind res_bind].
  - update Hinv Hi.
  - update Hinv Hi.
Qed.

Lemma run_try_inc s i d : cs_inv s → s_threads s !! i = Some (CsThread (Some TryInc) d) → run_ok s i TryInc d.
Proof.
  intros Hinv Hi. position Hinv Hi. unfold run_ok, cs_step. destruct d as [|d]; [lia|].
  assert (Hb := Hbound (CsThread (Some EnterOwner) (S d))). cbn in Hb. unfold position_ok in Hb. cbn in Hb.
  rewrite InterlockedIncrement_in by lia. cbn [fst snd].
  update Hinv Hi.
Qed.

Lemma run_leave_dec s i d : cs_inv s → s_threads s !! i = Some (CsThread (Some LeaveDec) d) → run_ok s i LeaveDec d.
Proof.
  intros Hinv Hi. position Hinv Hi. pose proof (depth_range _ _ _ Hinv Hi). unfold run_ok, cs_step.
  destruct d as [|d]; [lia|]. rewrite (Hrec eq_refl), sadd_ok by lia. cbn [mbind res_bind].
  destruct (Z.ltb_spec (Z.of_nat (S d) + -1) 1).
  - assert (d = 0%nat) as -> by lia. update Hinv Hi.
  - update Hinv Hi.
Qed.

Lemma run_leave_clear s i d : cs_inv s → s_threads s !! i = Some (CsThread (Some LeaveClear) d) → run_ok s i LeaveClear d.
Proof.
  intros Hinv Hi. position Hinv Hi. destruct Hpos as [Hmd ->]. unfold run_ok, cs_step.
  update Hinv Hi.
Qed.

Lemma run_leave_unlock s i d : cs_inv s → s_threads s !! i = Some (CsThread (Some LeaveUnlock) d) → run_ok s i LeaveUnlock d.
Proof.
  intros Hinv Hi. position Hinv Hi. destruct Hpos as [Hmd ->]. unfold run_ok, cs_step.
  assert (Hb := Hbound (CsThread (Some LeaveUnlock) 1)). cbn in Hb. unfold position_ok in Hb. cbn in Hb.
  rewrite InterlockedDecrement_in by lia. cbn [fst snd]. destruct (Z.leb_spec 0 (LockCount (s_cs s) - 1)).
  - update Hinv Hi.
  - update Hinv Hi.
Qed.

Lemma run_leave_post s i d : cs_inv s → s_threads s !! i = Some (CsThread (Some LeavePost) d) → run_ok s i LeavePost d.
Proof.
  intros Hinv Hi. position Hinv Hi. destruct Hpos as [Hmd ->]. unfold run_ok, cs_step.
  destruct (inv_token _ Hinv) as (n & Hn & _). rewrite Hn, not_freed.
  update Hinv Hi. intros m Hm. rewrite Hn in Hm. simplify_eq. exists (S m). split; [f_equal; lia|].
  unfold unlocked. cbn. lia.
Qed.

Lemma run_leave_dec_lock s i d : cs_inv s → s_threads s !! i = Some (CsThread (Some LeaveDecLock) d) → run_ok s i LeaveDecLock d.
Proof.
  intros Hinv Hi. position Hinv Hi. destruct d as [|[|d]]; [lia..|]. unfold run_ok, cs_step.
  assert (Hb := Hbound (CsThread (Some LeaveDecLock) (S (S d)))). cbn in Hb. unfold position_ok in Hb. cbn in Hb.
  rewrite InterlockedDecrement_in by lia. cbn [fst snd].
  update Hinv Hi.
Qed.

(** Every access is defined and keeps the invariant. *)
Lemma cs_run_inv s i pc d : cs_inv s → s_threads s !! i = Some (CsThread (Some pc) d) → run_ok s i pc d.
Proof.
  intros Hinv Hi. destruct pc.
  - position Hinv Hi. unfold run_ok, cs_step. destruct (_ =? 0); cbn [negb]; moves Hinv Hi.
  - by apply run_try.
  - by apply run_try_owner.
  - apply run_rec; auto.
  - by apply run_try_inc.
  - position Hinv Hi. unfold run_ok, cs_step. destruct (_ =? 0); [|destruct (_ <? 1)]; moves Hinv Hi.
  - by apply run_spin_cas.
  - by apply run_enter_inc.
  - by apply run_enter_owner.
  - apply run_rec; auto.
  - by apply run_enter_wait.
  - apply run_own; auto.
  - apply run_own; auto.
  - by apply run_leave_dec.
  - by apply run_leave_clear.
  - by apply run_leave_unlock.
  - by apply run_leave_post.
  - by apply run_leave_dec_lock.
  - position Hinv Hi. unfold run_ok, cs_step. moves Hinv Hi.
  - position Hinv Hi. unfold run_ok, cs_step. moves Hinv Hi.
Qed.
Lemma cs_act_inv s a r : cs_inv s → cs_act s a = Some r → runs r cs_inv.
Proof.
  intros Hinv. destruct a as [i|i|i|i|i]; cbn; destruct (s_threads s !! i) as [[[pc|] d]|] eqn:Hi; try done.
  - case_decide; [|done]. intros [= <-]. apply runs_ok. position Hinv Hi. moves Hinv Hi.
  - case_decide; [|done]. intros [= <-]. apply runs_ok. position Hinv Hi. moves Hinv Hi.
  - case_decide; [|done]. intros [= <-]. apply runs_ok. position Hinv Hi. moves Hinv Hi.
  - pose proof (cs_run_inv s i pc d Hinv Hi) as Hr. unfold run_ok in Hr.
    destruct (cs_step _ _ _) as [[[c pc']|]| |]; try done. intros [= <-]. by apply runs_ok.
  - destruct pc; try done; intros [= <-]; apply runs_ok; position Hinv Hi.
    + destruct b; moves Hinv Hi.
    + destruct d as [|d]; [lia|]. moves Hinv Hi.
Qed.

Lemma cs_start_inv s : cs_start s → cs_inv s.
Proof.
  intros (processors & spin & c0 & ->).
  assert (Hz : ∀ f : cs_thread → nat, f (CsThread None 0) = 0%nat →
    sum_list_with f (replicate n_threads (CsThread None 0)) = 0%nat).
  { intros f Hf. induction n_threads as [|m IH]; [done|]. cbn. rewrite Hf. cbn. apply IH; intros; try apply Htid0; try apply Htid; try lia. }
  split; cbn [s_threads s_cs].
  - apply length_replicate.
  - intros i t [-> _]%lookup_replicate. split; [cbn; lia|done].
  - rewrite Hz by done. done.
  - exists 0%nat. rewrite Hz by done. done.
  - intros i t [-> _]%lookup_replicate. done.
  - intros i t [-> _]%lookup_replicate. done.
  - done.
Qed.

Lemma cs_reachable_inv s : reachable cs_start cs_trans s → cs_inv s.
Proof.
  apply reachable_inv; [apply cs_start_inv|]. intros s1 s2 Hinv [a Ha].
  destruct (cs_act_inv _ _ _ Hinv Ha) as (s3 & [= <-] & H3). done.
Qed.
End System.

(** ** Mutual exclusion

    Thread ids are non-zero and distinct after the truncation to 32 bits, and
    the nesting of all threads together fits the lock count. *)

Definition thread_ids (pthread_self : nat → Z) (n : nat) : Prop :=
  (∀ i, (i < n)%nat → GetCurrentThreadId (pthread_self i) ≠ 0) ∧
  (∀ i j, (i < n)%nat → (j < n)%nat →
     GetCurrentThreadId (pthread_self i) = GetCurrentThreadId (pthread_self j) → i = j).

Abbreviation tid_of f := (λ i, GetCurrentThreadId (f i)).

(** C3: in every interleaving of any number of threads that enter (with or
    without spinning), try to enter, nest and leave: at most one thread has the
    section; the fields name that thread and how deep it is; the lock count is
    the number of entered and waiting calls minus one; no access is undefined
    and no counter overflows. *)
Theorem cs_mutual_exclusion pthread_self max_depth n s : thread_ids pthread_self n →
  Z.of_nat n * Z.of_nat max_depth < 2 ^ 31 → reachable (cs_start n) (cs_trans (tid_of pthread_self) max_depth) s →
  (∀ i j t u, s_threads s !! i = Some t → s_threads s !! j = Some u →
     acquired t = 1%nat → acquired u = 1%nat → i = j) ∧
  (∀ i d, s_threads s !! i = Some (CsThread None d) → (0 < d)%nat →
     OwningThread (s_cs s) = GetCurrentThreadId (pthread_self i) ∧ RecursionCount (s_cs s) = Z.of_nat d) ∧
  LockCount (s_cs s) = Z.of_nat (sum_list_with counted (s_threads s)) - 1 ∧
  (∀ a, cs_act (tid_of pthread_self) max_depth s a ≠ Some UB).
Proof.
  intros [H0 Hinj] Hmax Hr. apply cs_reachable_inv in Hr as Hinv; [|done..]. split_and!.
  - intros i j t u Hi Hj Ht Hu. destruct (decide (i = j)) as [|Hne]; [done|exfalso].
    pose proof (sum_lookup_two acquired _ _ _ _ _ Hne Hi Hj). destruct (inv_token _ _ _ _ Hinv) as (m & _ & Hm). lia.
  - intros i d Hi Hd. assert (recorded (CsThread None d) = true) by (destruct d; [lia|done]). split.
    + by apply (inv_owner _ _ _ _ Hinv i (CsThread None d)).
    + apply (inv_recursion _ _ _ _ Hinv i (CsThread None d)); [done|by apply recorded_counts].
  - apply (inv_count _ _ _ _ Hinv).
  - intros a Ha. by destruct (cs_act_inv (tid_of pthread_self) max_depth n H0 Hinj Hmax s a UB Hinv Ha) as (? & ? & _).
Qed.

Lemma two_thread_ids : thread_ids (λ i, Z.of_nat i + 1) 2.
Proof.
  split; [intros [|[|i]] Hi; try lia; done|].
  intros [|[|i]] [|[|j]] Hi Hj; try lia; done.
Qed.

Definition fresh_cs : CRITICAL_SECTION := CS (-1) 0 0 (Some 0) 0.

Lemma cs_start_example : cs_start 2 (CsSystem fresh_cs [CsThread None 0; CsThread None 0]).
Proof. by exists 1, 0, fresh_cs. Qed.

Lemma cs_mutual_exclusion_witness :
  let s := CsSystem fresh_cs [CsThread (Some EnterStart) 0; CsThread None 0] in
  thread_ids (λ i, Z.of_nat i + 1) 2 ∧ Z.of_nat 2 * Z.of_nat 4 < 2 ^ 31 ∧
  reachable (cs_start 2) (cs_trans (tid_of (λ i, Z.of_nat i + 1)) 4) s ∧
  (∀ i j t u, s_threads s !! i = Some t → s_threads s !! j = Some u →
     acquired t = 1%nat → acquired u = 1%nat → i = j).
Proof.
  intros s. assert (H1 := two_thread_ids). assert (H2 : Z.of_nat 2 * Z.of_nat 4 < 2 ^ 31) by done.
  assert (H3 : reachable (cs_start 2) (cs_trans (tid_of (λ i, Z.of_nat i + 1)) 4) s).
  { apply (reach_step _ _ (CsSystem fresh_cs [CsThread None 0; CsThread None 0])); [apply reach_init, cs_start_example|].
    by exists (CallEnter 0). }
  split; [exact H1|]. split; [exact H2|]. split; [exact H3|].
  exact (proj1 (cs_mutual_exclusion (λ i, Z.of_nat i + 1) 4 2 s H1 H2 H3)).
Defined.

(** C14: no wake-up is lost: while a thread waits for the semaphore, either the
    semaphore is posted and the thread can go on, or another thread has the
    section (and leaving it, or the post it is about to do, wakes one). *)
Theorem cs_no_lost_wakeup pthread_self max_depth n s i d : thread_ids pthread_self n →
  Z.of_nat n * Z.of_nat max_depth < 2 ^ 31 → reachable (cs_start n) (cs_trans (tid_of pthread_self) max_depth) s →
  s_threads s !! i = Some (CsThread (Some EnterWait) d) →
  (∃ s', cs_act (tid_of pthread_self) max_depth s (RunThread i) = Some (Ok s')) ∨
  (∃ j u, j ≠ i ∧ s_threads s !! j = Some u ∧ acquired u = 1%nat).
Proof.
  intros [H0 Hinj] Hmax Hr Hi. apply cs_reachable_inv in Hr as Hinv; [|done..].
  destruct (inv_token _ _ _ _ Hinv) as (m & Hm & Htok). destruct (inv_position _ _ _ _ Hinv _ _ Hi) as (_ & Hd & _). cbn in Hd. subst d.
  destruct m as [|m].
  - right. assert (Hcount := inv_count _ _ _ _ Hinv). pose proof (sum_lookup counted _ _ _ Hi) as Hc. cbn in Hc.
    assert (Hu : unlocked (s_cs s) = 0%nat) by (unfold unlocked; tests; lia).
    assert (Hsum : (0 < sum_list_with acquired (s_threads s))%nat) by lia. clear -Hsum Hi.
    assert (∃ j u, s_threads s !! j = Some u ∧ (0 < acquired u)%nat) as (j & u & Hj & Hu).
    { revert Hsum. generalize (s_threads s). induction l as [|t l IH]; cbn; [lia|]. intros Hsum.
      destruct (decide (0 < acquired t)%nat); [by exists 0%nat, t|]. destruct IH as (j & u & ? & ?); [lia|]. by exists (S j), u. }
    exists j, u. split_and!; [|done|].
    + intros ->. rewrite Hi in Hj. injection Hj as <-. cbn in Hu. lia.
    + pose proof (acquired_le u). lia.
  - left. cbn [cs_act]. rewrite Hi. cbn [cs_step]. rewrite Hm.
    destruct (Z.ltb_spec 0 (Z.of_nat (S m))); [|lia]. by eexists.
Qed.

Lemma cs_acts_reachable tid max_depth n s acts s' : reachable (cs_start n) (cs_trans tid max_depth) s →
  cs_acts tid max_depth s acts = Some (Ok s') → reachable (cs_start n) (cs_trans tid max_depth) s'.
Proof.
  revert s. induction acts as [|a acts IH]; intros s Hs; cbn; [by intros [= <-]|].
  destruct (cs_act tid max_depth s a) as [[s1| |]|] eqn:E; try done.
  apply IH. eapply reach_step; [done|]. by exists a.
Qed.

(** Thread 0 inside, thread 1 waiting. *)
Definition wait_schedule : list cs_action :=
  CallEnter 0 :: replicate 5 (RunThread 0) ++ [ReturnCall 0; CallEnter 1] ++ replicate 4 (RunThread 1).

Lemma cs_no_lost_wakeup_witness :
  let f := λ i : nat, Z.of_nat i + 1 in
  let s := CsSystem (CS 1 1 1 (Some 0) 0) [CsThread None 1; CsThread (Some EnterWait) 0] in
  thread_ids f 2 ∧ Z.of_nat 2 * Z.of_nat 4 < 2 ^ 31 ∧ reachable (cs_start 2) (cs_trans (tid_of f) 4) s ∧
  s_threads s !! 1%nat = Some (CsThread (Some EnterWait) 0) ∧
  ((∃ s', cs_act (tid_of f) 4 s (RunThread 1) = Some (Ok s')) ∨
   (∃ j u, j ≠ 1%nat ∧ s_threads s !! j = Some u ∧ acquired u = 1%nat)).
Proof.
  intros f s. assert (H1 : thread_ids f 2) by apply two_thread_ids. assert (H2 : Z.of_nat 2 * Z.of_nat 4 < 2 ^ 31) by done.
  assert (H3 : reachable (cs_start 2) (cs_trans (tid_of f) 4) s).
  { apply (cs_acts_reachable _ _ _ (CsSystem fresh_cs [CsThread None 0; CsThread None 0]) wait_schedule);
      [apply reach_init, cs_start_example|vm_compute; reflexivity]. }
  assert (H4 : s_threads s !! 1%nat = Some (CsThread (Some EnterWait) 0)) by done.
  split; [exact H1|]. split; [exact H2|]. split; [exact H3|]. split; [exact H4|].
  exact (cs_no_lost_wakeup f 4 2 s 1 0 H1 H2 H3 H4).
Defined.

(** two threads whose [pthread_self()] agree in their low 32 bits are one
    thread to the section: both are inside at the same time. *)
Theorem cs_truncated_ids : ∃ s,
  cs_acts (tid_of (λ i, Z.of_nat i * 2 ^ 32 + 7)) 4 (CsSystem fresh_cs [CsThread None 0; CsThread None 0])
    (CallEnter 0 :: replicate 5 (RunThread 0) ++ [ReturnCall 0; CallEnter 1] ++ replicate 5 (RunThread 1) ++ [ReturnCall 1])
    = Some (Ok s) ∧ s_threads s = [CsThread None 1; CsThread None 1].
Proof. eexists. split; [vm_compute; reflexivity|done]. Qed.

(** ** One thread, and the interface of a lock *)

(** [me] has entered the section [r] times, nobody waits. *)
Definition cs_held (me r : Z) (c : CRITICAL_SECTION) : Prop :=
  LockCount c = r - 1 ∧ RecursionCount c = r ∧ OwningThread c = (if r =? 0 then 0 else me) ∧
  LockSemaphore c = Some 0.

Lemma run_call_step fuel me c pc c' pc' : (∀ b, pc ≠ EnterRet b) → pc ≠ LeaveRet →
  cs_step me c pc = Ok (Some (c', pc')) → run_call (S fuel) me c pc = run_call fuel me c' pc'.
Proof.
  intros H1 H2 E. destruct pc; try (by destruct H2); try (by destruct (H1 _ eq_refl)); unfold run_call; cbn [loop snd fst]; by rewrite E.
Qed.

Lemma run_call_ret fuel me c b : run_call (S fuel) me c (EnterRet b) = Ok (c, b).
Proof. done. Qed.

Lemma run_call_leave fuel me c : run_call (S fuel) me c LeaveRet = Ok (c, true).
Proof. done. Qed.

(** Run the call one access further. *)
Ltac access := erewrite run_call_step; [|done|done|cbn [cs_step]; reflexivity].

Lemma InterlockedCompareExchange_eq d e c : InterlockedCompareExchange d e c = if decide (d = c) then (e, d) else (d, d).
Proof. unfold InterlockedCompareExchange. case_decide as E; [by rewrite (proj2 (Z.eqb_eq d c))|by rewrite (proj2 (Z.eqb_neq d c))]. Qed.

(** Acquiring through the last two accesses. *)
Lemma own_alone fuel me c : run_call (3 + fuel) me c OwnRec =
  Ok (set_OwningThread me (set_RecursionCount 1 c), true).
Proof. cbn [Nat.add]. access. access. apply run_call_ret. Qed.

(** The fast path, shared by [TryEnterCriticalSection] and the spinning
    [EnterCriticalSection]: it succeeds unless another thread has the section. *)
Lemma try_alone fuel me r c k : me ≠ 0 → 0 <= r → r + 1 < 2 ^ 31 → cs_held me r c →
  runs (run_call (5 + fuel) me c (TryCas k)) (λ q, cs_held me (r + 1) q.1 ∧ q.2 = true ∧ SpinCount q.1 = SpinCount c).
Proof.
  intros Hme Hr0 Hr (HL & HR & HO & HS). cbn [Nat.add]. access. rewrite InterlockedCompareExchange_eq.
  destruct (decide (LockCount c = -1)) as [E|E]; cbn [fst snd].
  - rewrite E. cbn [Z.eqb]. replace r with 0 in * by lia. rewrite (own_alone (S fuel)). apply runs_ok. by split.
  - rewrite (proj2 (Z.eqb_neq _ _)) by done. rewrite set_LockCount_same. rewrite (proj2 (Z.eqb_neq r 0)) in HO by lia.
    access. rewrite (proj2 (Z.eqb_eq (OwningThread c) me)) by done.
    erewrite run_call_step; [|done|done|cbn [cs_step]; rewrite HR, sadd_ok by lia; reflexivity].
    erewrite run_call_step; [|done|done|cbn [cs_step LockCount set_RecursionCount]; rewrite InterlockedIncrement_in by lia; reflexivity].
    rewrite run_call_ret. apply runs_ok. cbn. split; [|done]. split_and!; cbn; try done; [lia|].
    by rewrite (proj2 (Z.eqb_neq _ 0)) by lia.
Qed.

Lemma Enter_alone me r c : me ≠ 0 → 0 <= r → r + 1 < 2 ^ 31 → cs_held me r c →
  runs (EnterCriticalSection me c) (cs_held me (r + 1)).
Proof.
  intros Hme Hr0 Hr Hc. pose proof Hc as (HL & HR & HO & HS). unfold EnterCriticalSection, cs_fuel.
  rewrite Nat.add_comm. cbn [Nat.add]. set (fuel := (_ * _)%nat).
  access. destruct (u32 (SpinCount c) =? 0) eqn:Es; cbn [negb].
  2:{ eapply runs_bind; [by apply (try_alone (4 + fuel) me r)|]. intros q [Hq _]. by apply runs_ok. }
  access. rewrite Es. access. rewrite InterlockedIncrement_in by lia. cbn [fst snd].
  destruct (Z.eqb_spec (LockCount c + 1) 0) as [E|E]; cbn [negb].
  - replace r with 0 in * by lia. rewrite (own_alone (4 + fuel)), bind_Ok. apply runs_ok. cbn. by split_and!; cbn; [lia|..].
  - rewrite (proj2 (Z.eqb_neq r 0)) in HO by lia. access. cbn [OwningThread set_LockCount].
    rewrite (proj2 (Z.eqb_eq (OwningThread c) me)) by done.
    erewrite run_call_step; [|done|done|cbn [cs_step RecursionCount set_LockCount]; rewrite HR, sadd_ok by lia; reflexivity].
    rewrite run_call_ret, bind_Ok. apply runs_ok. split_and!; cbn; try done; [lia|].
    by rewrite (proj2 (Z.eqb_neq _ 0)) by lia.
Qed.

Lemma Leave_alone me r c : 0 <= r → r + 1 < 2 ^ 31 → cs_held me (r + 1) c →
  runs (LeaveCriticalSection me c) (cs_held me r).
Proof.
  intros Hr0 Hr (HL & HR & HO & HS). unfold LeaveCriticalSection, cs_fuel.
  rewrite Nat.add_comm. cbn [Nat.add]. set (fuel := (_ * _)%nat). rewrite (proj2 (Z.eqb_neq _ 0)) in HO by lia.
  erewrite run_call_step; [|done|done|cbn [cs_step]; rewrite HR, sadd_ok by lia; reflexivity].
  destruct (Z.ltb_spec (r + 1 + -1) 1).
  - access. erewrite run_call_step; [|done|done|cbn [cs_step LockCount set_RecursionCount set_OwningThread];
      rewrite InterlockedDecrement_in by lia; cbn [fst snd]; rewrite (proj2 (Z.leb_gt _ _)) by lia; reflexivity].
    rewrite run_call_leave, bind_Ok. apply runs_ok. replace r with 0 in * by lia. split_and!; cbn; try done; lia.
  - erewrite run_call_step; [|done|done|cbn [cs_step LockCount set_RecursionCount];
      rewrite InterlockedDecrement_in by lia; reflexivity].
    rewrite run_call_leave, bind_Ok. apply runs_ok. split_and!; cbn; try done; try lia.
    by rewrite (proj2 (Z.eqb_neq _ 0)) by lia.
Qed.

(** What a client relies on: a lock that nests, acquired and released by the
    thread that runs. *)
Class Lock (L : Type) := {
  lock_init : L → L * bool;
  lock_enter : L → res L;
  lock_leave : L → res L;
  lock_delete : L → res L;
  lock_held : Z → L → Prop;
  lock_init_ok : ∀ l, (lock_init l).2 = true → lock_held 0 (lock_init l).1;
  lock_enter_ok : ∀ r l, 0 <= r → r + 1 < 2 ^ 31 → lock_held r l → runs (lock_enter l) (lock_held (r + 1));
  lock_leave_ok : ∀ r l, 0 <= r → r + 1 < 2 ^ 31 → lock_held (r + 1) l → runs (lock_leave l) (lock_held r);
  lock_delete_ok : ∀ l, lock_held 0 l → runs (lock_delete l) (λ _, True) }.

Lemma Init_held m i p c spin flags me : (InitializeCriticalSectionEx m i p c spin flags).2 = true →
  flags = 0 ∧ cs_held me 0 (InitializeCriticalSectionEx m i p c spin flags).1.
Proof.
  unfold InitializeCriticalSectionEx. destruct (Z.eqb_spec flags 0); cbn [negb]; [|done].
  destruct m, i; cbn; try done; by split_and!.
Qed.

(** The critical section as a lock: the running thread, the outcome of the
    allocations and the number of processors are parameters. *)
Program Definition cs_lock (me : Z) (Hme : me ≠ 0) (malloc_ok sem_init_ok : bool) (processors : Z) : Lock CRITICAL_SECTION := {|
  lock_init c := InitializeCriticalSectionAndSpinCount malloc_ok sem_init_ok processors c 4000;
  lock_enter := EnterCriticalSection me;
  lock_leave := LeaveCriticalSection me;
  lock_delete := DeleteCriticalSection;
  lock_held := cs_held me |}.
Next Obligation. intros. by apply Init_held. Qed.
Next Obligation. intros. by apply Enter_alone. Qed.
Next Obligation. intros. by apply Leave_alone. Qed.
Next Obligation. intros me _ _ _ _ c (_ & _ & _ & Hs). unfold DeleteCriticalSection. cbn. rewrite Hs. by apply runs_ok. Qed.

(** A section whose initialisation failed in [sem_init] must not be deleted. *)
Lemma failed_section_delete p c spin : DeleteCriticalSection (InitializeCriticalSectionEx true false p c spin 0).1 = UB.
Proof. done. Qed.

(** a thread alone: entering and trying to enter succeed at once, with or
    without spinning, and nest; leaving undoes one entry and, for the last one,
    unlocks the section. *)
Theorem cs_alone me r c : me ≠ 0 → 0 <= r → r + 1 < 2 ^ 31 → cs_held me r c →
  runs (EnterCriticalSection me c) (λ c1, cs_held me (r + 1) c1 ∧ runs (LeaveCriticalSection me c1) (cs_held me r)) ∧
  runs (TryEnterCriticalSection me c) (λ q, q.2 = true ∧ cs_held me (r + 1) q.1).
Proof.
  intros Hme Hr0 Hr Hc. split.
  - eapply runs_mono; [by apply Enter_alone|]. intros c1 H1. split; [done|]. by apply Leave_alone.
  - unfold TryEnterCriticalSection, cs_fuel. rewrite Nat.add_comm. cbn [Nat.add].
    eapply runs_mono; [by apply (try_alone (5 + _) me r)|]. intros q (? & ? & _). done.
Qed.

Lemma cs_alone_witness :
  let c := (UziInitCS true true 4 fresh_cs 0 0).1 in
  7 ≠ 0 ∧ 0 <= 0 ∧ 0 + 1 < 2 ^ 31 ∧ cs_held 7 0 c ∧
  runs (EnterCriticalSection 7 c) (λ c1, cs_held 7 (0 + 1) c1 ∧ runs (LeaveCriticalSection 7 c1) (cs_held 7 0)) ∧
  runs (TryEnterCriticalSection 7 c) (λ q, q.2 = true ∧ cs_held 7 (0 + 1) q.1).
Proof.
  intros c. assert (H1 : 7 ≠ 0) by lia. assert (H2 : 0 <= 0) by lia. assert (H3 : 0 + 1 < 2 ^ 31) by lia.
  assert (H4 : cs_held 7 0 c) by (by split_and!).
  split; [exact H1|]. split; [exact H2|]. split; [exact H3|]. split; [exact H4|]. exact (cs_alone 7 0 c H1 H2 H3 H4).
Defined.
