(* ===== verification/Dictionary.v ===== *)
(** The list dictionary (src/libuzi/dictionary.c, src/include/uzi/collections.h).

    A dictionary is a singly-linked list of items on a heap, guarded by a lock
    when it is synchronized. The lock is any instance of [Critical.Lock]; the
    objects handed to the free functions are logged. The specification is an
    association list in insertion order. *)

From stdpp Require Import list gmap.
From S2P Require Import Prelude Interlocked Critical.

Set Warnings "-clear-no-such-hyp".

Record wListDictionaryItem := Item { key : Z; value : Z; next : Z }.
Definition set_value v (i : wListDictionaryItem) : wListDictionaryItem := Item (key i) v (next i).
Definition set_next n (i : wListDictionaryItem) : wListDictionaryItem := Item (key i) (value i) n.
Abbreviation iheap := (gmap Z wListDictionaryItem).

Section Dictionary.
Context {L : Type} `{!Lock L}.

(** [fnObjectFree] of the keys and of the values is present or not; the state
    holds the items and the objects freed so far, in order. *)
Record wListDictionary := Dict {
  synchronized : bool;
  lock : L;
  head : Z;
  keyEquals : Z → Z → bool;
  keyFree : bool;
  valueFree : bool;
  items : iheap;
  freed : list Z }.

Definition set_lock lk (d : wListDictionary) : wListDictionary :=
  Dict (synchronized d) lk (head d) (keyEquals d) (keyFree d) (valueFree d) (items d) (freed d).
Definition set_head p (d : wListDictionary) : wListDictionary :=
  Dict (synchronized d) (lock d) p (keyEquals d) (keyFree d) (valueFree d) (items d) (freed d).
Definition set_items h (d : wListDictionary) : wListDictionary :=
  Dict (synchronized d) (lock d) (head d) (keyEquals d) (keyFree d) (valueFree d) h (freed d).
Definition log_free (present : bool) (x : Z) (d : wListDictionary) : wListDictionary :=
  if present then Dict (synchronized d) (lock d) (head d) (keyEquals d) (keyFree d) (valueFree d) (items d) (freed d ++ [x])
  else d.

(** [free(item)]: freeing what is not allocated is undefined. *)
Definition free_item (d : wListDictionary) (p : Z) : res wListDictionary :=
  match items d !! p with Some _ => Ok (set_items (delete p (items d)) d) | None => UB end.

Definition enter_if (d : wListDictionary) : res wListDictionary :=
  if synchronized d then lk ← lock_enter (lock d); Ok (set_lock lk d) else Ok d.
Definition leave_if (d : wListDictionary) : res wListDictionary :=
  if synchronized d then lk ← lock_leave (lock d); Ok (set_lock lk d) else Ok d.

(** The lists are acyclic: one step per item is enough for each loop. *)
Definition walk (d : wListDictionary) : nat := S (S (size (items d))).

(** ** Operations

    A dictionary pointer is [None] when null. *)

Definition count_body (h : iheap) (st : Z * Z) : res (Z * Z + Z) :=
  let '(count, item) := st in
  if item =? 0 then Ok (inr count)
  else count ← sadd count 1; i ← get h item; Ok (inl (count, next i)).

Definition count_items (d : wListDictionary) : res Z := loop (walk d) (count_body (items d)) (0, head d).

Definition ListDictionary_Count (p : option wListDictionary) : res (option wListDictionary * Z) :=
  match p with
  | None => Ok (None, -1)
  | Some d =>
      d ← enter_if d;
      count ← count_items d;
      d ← leave_if d;
      Ok (Some d, count)
  end.

Definition ListDictionary_IsFixedSized (p : option wListDictionary) : bool := false.
Definition ListDictionary_IsReadOnly (p : option wListDictionary) : bool := false.
Definition ListDictionary_IsSynchronized (p : option wListDictionary) : res bool :=
  match p with None => UB | Some d => Ok (synchronized d) end.

Definition ListDictionary_Lock (p : option wListDictionary) : res (option wListDictionary) :=
  match p with None => Ok None | Some d => lk ← lock_enter (lock d); Ok (Some (set_lock lk d)) end.
Definition ListDictionary_Unlock (p : option wListDictionary) : res (option wListDictionary) :=
  match p with None => Ok None | Some d => lk ← lock_leave (lock d); Ok (Some (set_lock lk d)) end.

Definition keys_body (h : iheap) (st : list Z * Z * Z) : res (list Z * Z * Z + list Z) :=
  let '(keys, index, item) := st in
  if item =? 0 then Ok (inr keys)
  else
    i ← get h item;
    keys ← wr keys index (key i);
    index ← sadd index 1;
    Ok (inl (keys, index, next i)).

(** [calloc_ok]: whether the array can be allocated; [ppKeys]: whether the
    caller's pointer is not null. The result and what is stored in [*ppKeys]
    ([None]: nothing, [Some None]: a null pointer). *)
Definition ListDictionary_GetKeys (calloc_ok ppKeys : bool) (p : option wListDictionary)
    : res (option wListDictionary * Z * option (option (list Z))) :=
  if negb ppKeys then Ok (p, -1, None) else
  match p with
  | None => Ok (p, -1, None)
  | Some d =>
      d ← enter_if d;
      count ← count_items d;
      if negb (count =? 0) && negb calloc_ok then d ← leave_if d; Ok (Some d, -1, None)
      else
        keys ← loop (walk d) (keys_body (items d)) (replicate (Z.to_nat count) 0, 0, head d);
        d ← leave_if d;
        Ok (Some d, count, Some (if count =? 0 then None else Some keys))
  end.

Definition last_body (h : iheap) (lastItem : Z) : res (Z + Z) :=
  i ← get h lastItem;
  if next i =? 0 then Ok (inr lastItem) else Ok (inl (next i)).

(** [malloc]: the address of the new item, 0 on failure. *)
Definition ListDictionary_Add (malloc : Z) (p : option wListDictionary) (k v : Z) : res (option wListDictionary * bool) :=
  match p with
  | None => Ok (None, false)
  | Some d =>
      d ← enter_if d;
      r ← (if malloc =? 0 then Ok (d, false)
           else
             let item := malloc in
             let d := set_items (<[item := Item k v 0]> (items d)) d in
             d ← (if head d =? 0 then Ok (set_head item d)
                  else
                    lastItem ← loop (walk d) (last_body (items d)) (head d);
                    h ← upd (set_next item) (items d) lastItem;
                    Ok (set_items h d));
             Ok (d, true));
      let '(d, ret) := r in
      d ← leave_if d;
      Ok (Some d, ret)
  end.

Definition clear_body (st : Z * wListDictionary) : res (Z * wListDictionary + wListDictionary) :=
  let '(item, d) := st in
  if item =? 0 then Ok (inr d)
  else
    i ← get (items d) item;
    let d := log_free (keyFree d) (key i) d in
    let d := log_free (valueFree d) (value i) d in
    d ← free_item d item;
    Ok (inl (next i, d)).

Definition ListDictionary_Clear (p : option wListDictionary) : res (option wListDictionary) :=
  match p with
  | None => Ok None
  | Some d =>
      d ← enter_if d;
      d ← (if negb (head d =? 0) then
             d ← loop (walk d) clear_body (head d, d);
             Ok (set_head 0 d)
           else Ok d);
      d ← leave_if d;
      Ok (Some d)
  end.

(** The search loop of [Contains], [GetItemValue] and [SetItemValue]: the first
    item with an equal key, 0 if there is none. *)
Definition find_body (h : iheap) (keyEquals : Z → Z → bool) (k item : Z) : res (Z + Z) :=
  if item =? 0 then Ok (inr item)
  else i ← get h item; if keyEquals (key i) k then Ok (inr item) else Ok (inl (next i)).

Definition find_item (d : wListDictionary) (k : Z) : res Z :=
  loop (walk d) (find_body (items d) (keyEquals d) k) (head d).

Definition ListDictionary_Contains (p : option wListDictionary) (k : Z) : res (option wListDictionary * bool) :=
  match p with
  | None => Ok (None, false)
  | Some d =>
      d ← enter_if d;
      item ← find_item d k;
      d ← leave_if d;
      Ok (Some d, negb (item =? 0))
  end.

Definition remove_body (d : wListDictionary) (k : Z) (st : Z * Z) : res (Z * Z + wListDictionary * Z) :=
  let '(prevItem, item) := st in
  if item =? 0 then Ok (inr (d, 0))
  else
    i ← get (items d) item;
    if keyEquals d (key i) k then
      d ← (if prevItem =? 0 then Ok (set_head (next i) d)
           else h ← upd (set_next (next i)) (items d) prevItem; Ok (set_items h d));
      i ← get (items d) item;
      d ← free_item d item;
      Ok (inr (d, value i))
    else Ok (inl (item, next i)).

Definition ListDictionary_Remove (p : option wListDictionary) (k : Z) : res (option wListDictionary * Z) :=
  match p with
  | None => Ok (None, 0)
  | Some d =>
      d ← enter_if d;
      r ← loop (walk d) (remove_body d k) (0, head d);
      let '(d, value) := r in
      d ← leave_if d;
      Ok (Some d, value)
  end.

Definition ListDictionary_Remove_Head (p : option wListDictionary) : res (option wListDictionary * Z) :=
  match p with
  | None => Ok (None, 0)
  | Some d =>
      d ← enter_if d;
      r ← (if negb (head d =? 0) then
             let item := head d in
             i ← get (items d) item;
             let d := set_head (next i) d in
             d ← free_item d item;
             Ok (d, value i)
           else Ok (d, 0));
      let '(d, value) := r in
      d ← leave_if d;
      Ok (Some d, value)
  end.

Definition ListDictionary_GetItemValue (p : option wListDictionary) (k : Z) : res (option wListDictionary * Z) :=
  match p with
  | None => Ok (None, 0)
  | Some d =>
      d ← enter_if d;
      item ← (if negb (head d =? 0) then find_item d k else Ok 0);
      value ← (if negb (item =? 0) then i ← get (items d) item; Ok (value i) else Ok 0);
      d ← leave_if d;
      Ok (Some d, value)
  end.

Definition ListDictionary_SetItemValue (p : option wListDictionary) (k v : Z) : res (option wListDictionary * bool) :=
  match p with
  | None => Ok (None, false)
  | Some d =>
      d ← enter_if d;
      r ← (if negb (head d =? 0) then
             item ← find_item d k;
             if negb (item =? 0) then
               i ← get (items d) item;
               let d := log_free (valueFree d) (value i) d in
               h ← upd (set_value v) (items d) item;
               Ok (set_items h d, true)
             else Ok (d, false)
           else Ok (d, false));
      let '(d, status) := r in
      d ← leave_if d;
      Ok (Some d, status)
  end.

Definition default_equal_function (obj1 obj2 : Z) : bool := obj1 =? obj2.

(** [lock0] is the memory of the lock before it is initialised. *)
Definition ListDictionary_New (calloc_ok : bool) (lock0 : L) (sync : bool) : option wListDictionary :=
  if negb calloc_ok then None
  else
    let r := lock_init lock0 in
    if negb r.2 then None
    else Some (Dict sync r.1 0 default_equal_function false false ∅ []).

Definition ListDictionary_Free (p : option wListDictionary) : res (option wListDictionary) :=
  match p with
  | None => Ok None
  | Some _ =>
      p ← ListDictionary_Clear p;
      match p with
      | None => Ok None
      | Some d => l ← lock_delete (lock d); Ok (Some (set_lock l d))
      end
  end.

(** ** Specification

    The pairs of the dictionary in insertion order. *)

Definition pairs := list (Z * Z).

Fixpoint assoc (eq : Z → Z → bool) (k : Z) (l : pairs) : option Z :=
  match l with
  | [] => None
  | (k', v) :: l => if eq k' k then Some v else assoc eq k l
  end.

Fixpoint remove_first (eq : Z → Z → bool) (k : Z) (l : pairs) : pairs :=
  match l with
  | [] => []
  | (k', v) :: l => if eq k' k then l else (k', v) :: remove_first eq k l
  end.

Fixpoint set_first (eq : Z → Z → bool) (k v : Z) (l : pairs) : pairs :=
  match l with
  | [] => []
  | (k', v') :: l => if eq k' k then (k', v) :: l else (k', v') :: set_first eq k v l
  end.

(** The list from [p] to [q]: addresses with their pairs. *)
Fixpoint seg (h : iheap) (p : Z) (l : list (Z * (Z * Z))) (q : Z) : Prop :=
  match l with
  | [] => p = q
  | (a, (k, v)) :: l => p = a ∧ a ≠ 0 ∧ ∃ n, h !! a = Some (Item k v n) ∧ seg h n l q
  end.

(** The items of the heap are those of the list, no other: nothing leaks. *)
Definition represents (d : wListDictionary) (l : list (Z * (Z * Z))) : Prop :=
  seg (items d) (head d) l 0 ∧ NoDup l.*1 ∧ dom (items d) = list_to_set l.*1.

(** The pairs, the freed objects, how often the running thread has the lock. *)
Definition models (d : wListDictionary) (l : pairs) (fr : list Z) (r : Z) : Prop :=
  (∃ al, represents d al ∧ al.*2 = l) ∧ freed d = fr ∧ lock_held r (lock d).

Definition same_setup (d d' : wListDictionary) : Prop :=
  synchronized d' = synchronized d ∧ keyEquals d' = keyEquals d ∧ keyFree d' = keyFree d ∧ valueFree d' = valueFree d.

(** *** Lists of items *)

Lemma seg_frame h h' p l q : (∀ x, x ∈ l.*1 → h' !! x = h !! x) → seg h p l q → seg h' p l q.
Proof.
  revert p. induction l as [|[a [k v]] l IH]; intros p Hf; cbn; [done|].
  intros (-> & Ha & n & Hn & Hl). split_and!; [done..|]. exists n. rewrite Hf by constructor. split; [done|].
  apply IH; [|done]. intros x Hx. apply Hf. by constructor.
Qed.

Lemma seg_app h p l1 l2 q : seg h p (l1 ++ l2) q ↔ ∃ m, seg h p l1 m ∧ seg h m l2 q.
Proof.
  revert p. induction l1 as [|[a [k v]] l1 IH]; intros p; cbn.
  - split; [by eauto|by intros (m & -> & ?)].
  - split.
    + intros (-> & ? & n & Hn & (m & H1 & H2)%IH). exists m. eauto 10.
    + intros (m & (-> & ? & n & Hn & H1) & H2). split_and!; [done..|]. exists n. split; [done|]. apply IH. eauto.
Qed.

(** Redirecting the last item of a segment. *)
Lemma seg_retarget h p l b kv q q' : seg h p (l ++ [(b, kv)]) q → NoDup (l ++ [(b, kv)]).*1 →
  seg (alter (set_next q') b h) p (l ++ [(b, kv)]) q'.
Proof.
  destruct kv as [k v]. intros (m & H1 & H2)%seg_app Hnd. apply seg_app. exists m.
  rewrite fmap_app in Hnd. apply NoDup_app in Hnd as (_ & Hd & _). split.
  - apply (seg_frame h); [|done]. intros x Hx. apply lookup_alter_ne. intros ->. apply (Hd x Hx). constructor.
  - destruct H2 as (-> & Hb & n & Hn & _). split_and!; [done..|]. exists q'. by rewrite lookup_alter_eq, Hn.
Qed.

Lemma represents_size d l : represents d l → size (items d) = length l.
Proof. intros (_ & Hnd & Hdom). rewrite <- size_dom, Hdom, size_list_to_set by done. apply length_fmap. Qed.

Lemma represents_walk d l : represents d l → (length l < walk d)%nat.
Proof. intros H. unfold walk. rewrite (represents_size d l H). lia. Qed.

Lemma log_free_eq b x d : log_free b x d = Dict (synchronized d) (lock d) (head d) (keyEquals d) (keyFree d) (valueFree d)
  (items d) (freed d ++ if b then [x] else []).
Proof. destruct b; cbn; [done|]. rewrite app_nil_r. by destruct d. Qed.

(** *** Loops *)

(** One more step of a loop on a non-empty segment. *)
Ltac item_step Hn Ha := cbn [loop]; unfold count_body, keys_body, find_body, clear_body, last_body;
  rewrite ?(proj2 (Z.eqb_neq _ 0) Ha), ?(get_ok _ _ _ Hn), ?bind_Ok.

Lemma count_loop h l : ∀ fuel p c, seg h p l 0 → (length l < fuel)%nat → 0 <= c → c + Z.of_nat (length l) < 2 ^ 31 →
  loop fuel (count_body h) (c, p) = Ok (c + Z.of_nat (length l)).
Proof.
  induction l as [|[a [k v]] l IH]; intros [|fuel] p c Hl Hf Hc Hb; cbn [length] in *; try lia; cbn in Hl.
  - subst p. cbn. by rewrite Z.add_0_r.
  - destruct Hl as (-> & Ha & n & Hn & Hl). item_step Hn Ha. rewrite sadd_ok, bind_Ok by lia.
    item_step Hn Ha. cbn [next]. fold (count_body h). rewrite IH by (done || lia). f_equal. lia.
Qed.

Lemma keys_loop h l : ∀ fuel p ks1 ks2, seg h p l 0 → (length l < fuel)%nat → length ks2 = length l →
  Z.of_nat (length ks1) + Z.of_nat (length l) < 2 ^ 31 →
  loop fuel (keys_body h) (ks1 ++ ks2, Z.of_nat (length ks1), p) = Ok (ks1 ++ l.*2.*1).
Proof.
  induction l as [|[a [k v]] l IH]; intros [|fuel] p ks1 ks2 Hl Hf Hk Hb; cbn [length] in *; try lia; cbn in Hl.
  - subst p. destruct ks2; [done|by cbn in Hk].
  - destruct Hl as (-> & Ha & n & Hn & Hl). destruct ks2 as [|x ks2]; [done|]. cbn [length] in Hk.
    item_step Hn Ha. rewrite wr_app_mid, bind_Ok, sadd_ok, !bind_Ok by lia. cbn [key next]. fold (keys_body h).
    replace (ks1 ++ k :: ks2) with ((ks1 ++ [k]) ++ ks2) by (by rewrite <- app_assoc).
    replace (Z.of_nat (length ks1) + 1) with (Z.of_nat (length (ks1 ++ [k]))) by (rewrite length_app; cbn; lia).
    rewrite IH by (done || rewrite ?length_app; cbn; lia). by rewrite <- app_assoc.
Qed.

(** The address of the first item with an equal key, 0 if there is none. *)
Fixpoint addr_of (eq : Z → Z → bool) (k : Z) (l : list (Z * (Z * Z))) : Z :=
  match l with
  | [] => 0
  | (a, (k', _)) :: l => if eq k' k then a else addr_of eq k l
  end.

Lemma find_loop h eq k l : ∀ fuel p, seg h p l 0 → (length l < fuel)%nat →
  loop fuel (find_body h eq k) p = Ok (addr_of eq k l).
Proof.
  induction l as [|[a [k' v]] l IH]; intros [|fuel] p Hl Hf; cbn [length] in *; try lia; cbn in Hl.
  - by subst p.
  - destruct Hl as (-> & Ha & n & Hn & Hl). item_step Hn Ha. cbn [key next addr_of]. fold (find_body h eq k).
    destruct (eq k' k); rewrite bind_Ok; [done|]. by apply IH; [|lia].
Qed.

Lemma last_loop h l b kv : ∀ fuel p, seg h p (l ++ [(b, kv)]) 0 → (length l < fuel)%nat →
  loop fuel (last_body h) p = Ok b.
Proof.
  destruct kv as [kb vb]. induction l as [|[a [k v]] l IH]; intros [|fuel] p Hl Hf; cbn [length] in *; try lia; cbn in Hl.
  - destruct Hl as (-> & Ha & n & Hn & ->). by item_step Hn Ha.
  - destruct Hl as (-> & Ha & n & Hn & Hl). item_step Hn Ha. cbn [next]. fold (last_body h).
    rewrite (proj2 (Z.eqb_neq n 0)); [by apply IH; [|lia]|]. by destruct l as [|[? [? ?]] l]; cbn in Hl; destruct Hl as (-> & ? & _).
Qed.

(** What [Clear] hands to the free functions. *)
Definition objects (d : wListDictionary) (l : pairs) : list Z :=
  flat_map (λ x, (if keyFree d then [x.1] else []) ++ (if valueFree d then [x.2] else [])) l.

Lemma clear_loop l : ∀ fuel p d, seg (items d) p l 0 → NoDup l.*1 → (length l < fuel)%nat →
  ∃ h, loop fuel clear_body (p, d) = Ok (Dict (synchronized d) (lock d) (head d) (keyEquals d) (keyFree d) (valueFree d)
    h (freed d ++ objects d l.*2)) ∧ dom h = dom (items d) ∖ list_to_set l.*1.
Proof.
  induction l as [|[a [k v]] l IH]; intros [|fuel] p d Hl Hnd Hf; cbn [length] in *; try lia; cbn in Hl.
  - subst p. exists (items d). split; [|set_solver]. cbn. rewrite app_nil_r. by destruct d.
  - destruct Hl as (-> & Ha & n & Hn & Hl). apply NoDup_cons in Hnd as [Hin Hnd]. item_step Hn Ha. cbn [key value next].
    set (d1 := log_free (keyFree d) k d). set (d2 := log_free (valueFree d1) v d1).
    assert (Hd2 : d2 = Dict (synchronized d) (lock d) (head d) (keyEquals d) (keyFree d) (valueFree d) (items d)
      (freed d ++ (if keyFree d then [k] else []) ++ (if valueFree d then [v] else []))).
    { subst d2 d1. unfold log_free. destruct d as [sy lk hd eq [] [] it fr]; cbn; by rewrite ?app_nil_r, <- ?app_assoc. }
    rewrite Hd2. unfold free_item. cbn [items]. rewrite Hn, !bind_Ok. fold clear_body. unfold set_items. cbn [synchronized lock head keyEquals keyFree valueFree freed].
    edestruct (IH fuel n) as (h & -> & Hh); [|done|lia|].
    { apply (seg_frame (items d)); [|done]. intros x Hx. cbn. rewrite lookup_delete_ne; [done|]. by intros ->. }
    exists h. cbn. rewrite <- !app_assoc. split; [done|]. rewrite Hh. cbn. set_solver.
Qed.

(** *** Searching *)

(** Either no key is equal, or the list splits at the first item with an equal
    key. *)
Inductive searched (eq : Z → Z → bool) (k : Z) (l : list (Z * (Z * Z))) : Prop :=
  | not_found : Forall (λ x, eq x.2.1 k = false) l → addr_of eq k l = 0 → assoc eq k l.*2 = None →
      remove_first eq k l.*2 = l.*2 → (∀ w, set_first eq k w l.*2 = l.*2) → searched eq k l
  | found_at l1 a k' v l2 : l = l1 ++ (a, (k', v)) :: l2 → Forall (λ x, eq x.2.1 k = false) l1 → eq k' k = true →
      addr_of eq k l = a → assoc eq k l.*2 = Some v → remove_first eq k l.*2 = l1.*2 ++ l2.*2 →
      (∀ w, set_first eq k w l.*2 = l1.*2 ++ (k', w) :: l2.*2) → searched eq k l.

Lemma search eq k l : searched eq k l.
Proof.
  induction l as [|[a [k' v]] l IH]; [by apply not_found|]. destruct (eq k' k) eqn:E.
  - apply (found_at eq k _ [] a k' v l); cbn; rewrite ?E; done.
  - destruct IH as [H1 H2 H3 H4 H5|l1 a1 k1 v1 l2 -> H1 H2 H3 H4 H5 H6].
    + apply not_found; cbn; rewrite ?E, ?H4; try done; [by constructor|]. intros w. by rewrite H5.
    + apply (found_at eq k _ ((a, (k', v)) :: l1) a1 k1 v1 l2); cbn; rewrite ?E, ?H5; try done; [by constructor|].
      intros w. by rewrite H6.
Qed.

Lemma remove_loop_none d k l : ∀ fuel prev p, seg (items d) p l 0 → (length l < fuel)%nat →
  Forall (λ x, keyEquals d x.2.1 k = false) l → loop fuel (remove_body d k) (prev, p) = Ok (d, 0).
Proof.
  induction l as [|[a [k' v]] l IH]; intros [|fuel] prev p Hl Hf Hk; cbn [length] in *; try lia; cbn in Hl.
  - by subst p.
  - destruct Hl as (-> & Ha & n & Hn & Hl). apply Forall_cons_1 in Hk as [Hk Hks]. cbn in Hk.
    cbn [loop remove_body]. rewrite (proj2 (Z.eqb_neq a 0) Ha), (get_ok _ _ _ Hn), bind_Ok. cbn [key next].
    rewrite Hk, bind_Ok. by apply IH; [|lia|].
Qed.

(** The loop stops at the first equal key, [prevItem] being the item before. *)
Lemma remove_loop_found d k a k' v l2 l1 : ∀ fuel prev p, seg (items d) p (l1 ++ (a, (k', v)) :: l2) 0 →
  (length l1 < fuel)%nat → Forall (λ x, keyEquals d x.2.1 k = false) l1 → keyEquals d k' k = true →
  loop fuel (remove_body d k) (prev, p) =
    (b ← remove_body d k (List.last l1.*1 prev, a); match b with inl _ => NoFuel | inr r => Ok r end).
Proof.
  induction l1 as [|[b [kb vb]] l1 IH]; intros [|fuel] prev p Hl Hf Hk E; cbn [length] in *; try lia.
  - destruct Hl as (-> & Ha & n & Hn & Hl). cbn [fmap list_fmap List.last loop].
    assert (Hin : ∀ st, remove_body d k (prev, a) ≠ Ok (inl st)).
    { intros st. cbn [remove_body]. rewrite (proj2 (Z.eqb_neq a 0) Ha), (get_ok _ _ _ Hn), bind_Ok. cbn [key next]. rewrite E.
      intros (d1 & _ & (i1 & _ & (d2 & _ & Hd)%bind_inv)%bind_inv)%bind_inv. done. }
    by destruct (remove_body d k (prev, a)) as [[st|r]| |] eqn:Er; [destruct (Hin st)|..].
  - destruct Hl as (-> & Hb & n & Hn & Hl). apply Forall_cons_1 in Hk as [Hkb Hks]. cbn in Hkb.
    cbn [fmap list_fmap fst]. rewrite last_cons_default. cbn [loop].
    assert (E1 : remove_body d k (prev, b) = Ok (inl (b, n))).
    { cbn [remove_body]. by rewrite (proj2 (Z.eqb_neq b 0) Hb), (get_ok _ _ _ Hn), bind_Ok; cbn [key next]; rewrite Hkb. }
    rewrite E1, bind_Ok. by apply IH; [|lia|..].
Qed.

(** *** Taking an item out, changing one, adding one *)

Lemma NoDup_mid {A} (l1 l2 : list A) a : NoDup (l1 ++ a :: l2) → NoDup (l1 ++ l2) ∧ a ∉ l1 ++ l2.
Proof.
  intros (H1 & Hd & [Ha H2]%NoDup_cons)%NoDup_app. split; [apply NoDup_app; set_solver|].
  rewrite elem_of_app. intros [H|H]; [|done]. apply (Hd a H). constructor.
Qed.

Lemma cut_head d a k v l2 n : represents d ((a, (k, v)) :: l2) → items d !! a = Some (Item k v n) →
  represents (set_items (delete a (items d)) (set_head n d)) l2.
Proof.
  intros (Hs & Hnd & Hdom) Hn. destruct Hs as (_ & Ha & n' & Hn' & Hs). simplify_eq. apply NoDup_cons in Hnd as [Hin Hnd].
  split_and!; cbn; [|done|].
  - apply (seg_frame (items d)); [|done]. intros x Hx. apply lookup_delete_ne. by intros ->.
  - rewrite dom_delete_L, Hdom. cbn. set_solver.
Qed.

Lemma cut_middle d l1 b kv a k v l2 n : represents d ((l1 ++ [(b, kv)]) ++ (a, (k, v)) :: l2) →
  items d !! a = Some (Item k v n) →
  represents (set_items (delete a (alter (set_next n) b (items d))) d) ((l1 ++ [(b, kv)]) ++ l2).
Proof.
  intros (Hs & Hnd & Hdom) Hn. apply seg_app in Hs as (m & H1 & H2). destruct H2 as (_ & Ha & n' & Hn' & H2).
  rewrite Hn in Hn'. simplify_eq. rewrite fmap_app, fmap_cons in Hnd. pose proof (NoDup_mid _ _ _ Hnd) as [Hnd' Hin].
  rewrite elem_of_app in Hin. cbn in Hin. split_and!; cbn.
  - apply (seg_frame (alter (set_next n') b (items d))).
    { intros x Hx. apply lookup_delete_ne. intros ->. apply Hin. rewrite <- elem_of_app, <- fmap_app. done. }
    apply seg_app. exists n'. split.
    + apply (seg_retarget _ _ _ _ _ m); [done|]. by apply NoDup_app in Hnd' as (? & _ & _).
    + apply (seg_frame (items d)); [|done]. intros x Hx. apply lookup_alter_ne. intros ->.
      apply NoDup_app in Hnd' as (_ & Hd & _). apply (Hd x); [|done]. rewrite fmap_app, elem_of_app. right. constructor.
  - by rewrite fmap_app.
  - rewrite dom_delete_L, dom_alter_L, Hdom. rewrite !fmap_app, !fmap_cons. cbn. set_solver.
Qed.

Lemma change_value d l1 a k v l2 w : represents d (l1 ++ (a, (k, v)) :: l2) →
  represents (set_items (alter (set_value w) a (items d)) d) (l1 ++ (a, (k, w)) :: l2).
Proof.
  intros (Hs & Hnd & Hdom). apply seg_app in Hs as (m & H1 & H2). destruct H2 as (-> & Ha & n & Hn & H2).
  rewrite fmap_app, fmap_cons in Hnd. cbn in Hnd. pose proof (NoDup_mid _ _ _ Hnd) as [_ Hin]. rewrite elem_of_app in Hin.
  split_and!; cbn.
  - apply seg_app. exists a. split; [|split_and!; [done..|exists n; split]].
    + apply (seg_frame (items d)); [|done]. intros x Hx. apply lookup_alter_ne. intros ->. tauto.
    + by rewrite lookup_alter_eq, Hn.
    + apply (seg_frame (items d)); [|done]. intros x Hx. apply lookup_alter_ne. intros ->. tauto.
  - by rewrite fmap_app, fmap_cons.
  - rewrite dom_alter_L, Hdom, !fmap_app, !fmap_cons. done.
Qed.

Lemma add_first d a k v : represents d [] → a ≠ 0 →
  represents (set_head a (set_items (<[a := Item k v 0]> (items d)) d)) [(a, (k, v))].
Proof.
  intros (Hs & Hnd & Hdom) Ha. split_and!; cbn; [|apply NoDup_singleton|].
  - split_and!; [done..|]. exists 0. by rewrite lookup_insert_eq.
  - rewrite dom_insert_L, Hdom. done.
Qed.

Lemma add_last d l b kv a k v : represents d (l ++ [(b, kv)]) → a ≠ 0 → items d !! a = None →
  represents (set_items (alter (set_next a) b (<[a := Item k v 0]> (items d))) d) ((l ++ [(b, kv)]) ++ [(a, (k, v))]).
Proof.
  intros (Hs & Hnd & Hdom) Ha Hnone.
  assert (Hin : a ∉ (l ++ [(b, kv)]).*1).
  { apply not_elem_of_dom in Hnone. rewrite Hdom, elem_of_list_to_set in Hnone. done. }
  assert (Hba : b ≠ a). { intros ->. apply Hin. rewrite fmap_app, elem_of_app. right. constructor. }
  split_and!; cbn.
  - apply seg_app. exists a. split.
    + apply (seg_retarget _ _ _ _ _ 0); [|done]. apply (seg_frame (items d)); [|done].
      intros x Hx. apply lookup_insert_ne. by intros ->.
    + cbn. split_and!; [done..|]. exists 0. rewrite lookup_alter_ne, lookup_insert_eq by done. done.
  - rewrite (fmap_app _ (l ++ _)). apply NoDup_app. cbn. split_and!; [done| |apply NoDup_singleton].
    intros x Hx Hx2. apply list_elem_of_singleton in Hx2. congruence.
  - rewrite dom_alter_L, dom_insert_L, Hdom, (fmap_app _ (l ++ _)), list_to_set_app_L. cbn. set_solver.
Qed.

(** ** Operations as a data type *)

Inductive dict_op : Type :=
  | OpCount | OpGetKeys | OpAdd (k v : Z) | OpClear | OpContains (k : Z)
  | OpRemove (k : Z) | OpRemoveHead | OpGet (k : Z) | OpSet (k v : Z).

Inductive dict_ans : Type :=
  | AnsInt (z : Z)
  | AnsTruth (b : bool)
  | AnsNothing
  | AnsKeys (count : Z) (keys : option (option (list Z))).

(** [malloc] picks an address, not in use, or fails. *)
Context (malloc : iheap → Z) (calloc_ok : bool).

Definition dict_exec (p : option wListDictionary) (o : dict_op) : res (option wListDictionary * dict_ans) :=
  match o with
  | OpCount => r ← ListDictionary_Count p; Ok (r.1, AnsInt r.2)
  | OpGetKeys => r ← ListDictionary_GetKeys calloc_ok true p; Ok (r.1.1, AnsKeys r.1.2 r.2)
  | OpAdd k v =>
      r ← ListDictionary_Add (match p with Some d => malloc (items d) | None => 0 end) p k v; Ok (r.1, AnsTruth r.2)
  | OpClear => p ← ListDictionary_Clear p; Ok (p, AnsNothing)
  | OpContains k => r ← ListDictionary_Contains p k; Ok (r.1, AnsTruth r.2)
  | OpRemove k => r ← ListDictionary_Remove p k; Ok (r.1, AnsInt r.2)
  | OpRemoveHead => r ← ListDictionary_Remove_Head p; Ok (r.1, AnsInt r.2)
  | OpGet k => r ← ListDictionary_GetItemValue p k; Ok (r.1, AnsInt r.2)
  | OpSet k v => r ← ListDictionary_SetItemValue p k v; Ok (r.1, AnsTruth r.2)
  end.

(** The pairs after the operation, the objects it frees and its answer; adding
    and listing the keys may fail for lack of memory. *)
Definition dict_spec (d : wListDictionary) (o : dict_op) (l : pairs) (ans : dict_ans) (l' : pairs) (fr : list Z) : Prop :=
  let eq := keyEquals d in
  match o with
  | OpCount => ans = AnsInt (Z.of_nat (length l)) ∧ l' = l ∧ fr = []
  | OpGetKeys => l' = l ∧ fr = [] ∧
      (ans = AnsKeys (Z.of_nat (length l)) (Some (if bool_decide (l = []) then None else Some l.*1)) ∨
       l ≠ [] ∧ ans = AnsKeys (-1) None)
  | OpAdd k v => fr = [] ∧ (ans = AnsTruth true ∧ l' = l ++ [(k, v)] ∨ ans = AnsTruth false ∧ l' = l)
  | OpClear => ans = AnsNothing ∧ l' = [] ∧ fr = objects d l
  | OpContains k => ans = AnsTruth (bool_decide (is_Some (assoc eq k l))) ∧ l' = l ∧ fr = []
  | OpRemove k => ans = AnsInt (default 0 (assoc eq k l)) ∧ l' = remove_first eq k l ∧ fr = []
  | OpRemoveHead => ans = AnsInt (match l with [] => 0 | x :: _ => x.2 end) ∧ l' = tail l ∧ fr = []
  | OpGet k => ans = AnsInt (default 0 (assoc eq k l)) ∧ l' = l ∧ fr = []
  | OpSet k v => ans = AnsTruth (bool_decide (is_Some (assoc eq k l))) ∧ l' = set_first eq k v l ∧
      fr = if valueFree d then option_list (assoc eq k l) else []
  end.

Lemma enter_ok d r : 0 <= r → r + 1 < 2 ^ 31 → lock_held r (lock d) →
  runs (enter_if d) (λ d', ∃ lk, d' = set_lock lk d ∧ lock_held (if synchronized d then r + 1 else r) lk).
Proof.
  intros Hr0 Hr Hl. unfold enter_if. destruct (synchronized d).
  - eapply runs_bind; [by apply (lock_enter_ok r)|]. intros lk Hlk. apply runs_ok. eauto.
  - apply runs_ok. exists (lock d). by destruct d.
Qed.

Lemma leave_ok d r : 0 <= r → r + 1 < 2 ^ 31 → lock_held (if synchronized d then r + 1 else r) (lock d) →
  runs (leave_if d) (λ d', ∃ lk, d' = set_lock lk d ∧ lock_held r lk).
Proof.
  intros Hr0 Hr Hl. unfold leave_if. destruct (synchronized d).
  - eapply runs_bind; [by apply (lock_leave_ok r)|]. intros lk Hlk. apply runs_ok. eauto.
  - apply runs_ok. exists (lock d). by destruct d.
Qed.

(** The dictionary after an operation. *)
Definition op_post (d : wListDictionary) (r : Z) (o : dict_op) (l : pairs) (fr : list Z)
    (q : option wListDictionary * dict_ans) : Prop :=
  ∃ d' l' fr', q.1 = Some d' ∧ dict_spec d o l q.2 l' fr' ∧ models d' l' (fr ++ fr') r ∧ same_setup d d'.

Section Operations.
Context (d : wListDictionary) (r : Z) (l : pairs) (fr : list Z).
Hypothesis (Hr0 : 0 <= r) (Hr : r + 1 < 2 ^ 31) (Hlen : Z.of_nat (length l) < 2 ^ 31) (Hm : models d l fr r).

(** The first access of every operation: the lock. *)
Ltac locked lk Hlk := eapply runs_bind; [by apply enter_ok; [..|apply Hm]|]; intros ? (lk & -> & Hlk).
Ltac unlocked Hlk := eapply runs_bind; [by apply leave_ok; cbn|]; let lk' := fresh "lk" in intros ? (lk' & -> & ?).

Lemma find_ok lk al k : represents d al → find_item (set_lock lk d) k = Ok (addr_of (keyEquals d) k al).
Proof. intros Hal. apply find_loop; [apply Hal|]. by apply (represents_walk d). Qed.

Lemma runs_wrap {A B} (m : res A) (g : A → B) P : runs m (λ q, P (g q)) → runs (q ← m; Ok (g q)) P.
Proof. intros H. eapply runs_bind; [done|]. intros q Hq. by apply runs_ok. Qed.

(** The end of an operation that leaves the pairs of [al'] and has freed [fr']. *)
Lemma post_intro d' al' fr' o a lk : represents d' al' → dict_spec d o l a al'.*2 fr' →
  freed d' = fr ++ fr' → same_setup d d' → lock_held r lk → op_post d r o l fr (Some (set_lock lk d'), a).
Proof.
  intros Hal Hs Hf Hd Hlk. exists (set_lock lk d'), al'.*2, fr'. split; [done|]. split; [done|].
  split; [|done]. split; [by exists al'|by split].
Qed.

(** Operations that change nothing. *)
Lemma post_same al o a lk lk' : represents d al → l = al.*2 → dict_spec d o l a l [] → lock_held r lk →
  op_post d r o l fr (Some (set_lock lk (set_lock lk' d)), a).
Proof.
  intros Hal Hl Hs Hlk. apply (post_intro (set_lock lk' d) al []); try done; [by subst l|].
  rewrite app_nil_r. apply Hm.
Qed.

Lemma Count_ok : runs (dict_exec (Some d) OpCount) (op_post d r OpCount l fr).
Proof.
  destruct Hm as ((al & Hal & Hl) & Hfr & Hlk0). apply runs_wrap. unfold ListDictionary_Count, count_items.
  assert (Hle : length l = length al) by (by rewrite <- Hl, length_fmap).
  locked lk Hlk. rewrite (count_loop _ al), bind_Ok; [|apply Hal|by apply (represents_walk d)|lia|lia].
  unlocked Hlk. apply runs_ok, (post_same al); [done..| |done]. cbn. by rewrite Hle.
Qed.

Lemma Contains_ok k : runs (dict_exec (Some d) (OpContains k)) (op_post d r (OpContains k) l fr).
Proof.
  destruct Hm as ((al & Hal & Hl) & Hfr & Hlk0). apply runs_wrap. unfold ListDictionary_Contains.
  locked lk Hlk. rewrite (find_ok lk al), bind_Ok by done. unlocked Hlk. apply runs_ok, (post_same al); [done..| |done].
  split; [|done]. cbn [fst snd]. rewrite <- Hl. f_equal.
  destruct (search (keyEquals d) k al) as [_ -> -> _ _|l1 a k' v l2 Hsp _ _ -> -> _ _]; [done|].
  rewrite bool_decide_true by eauto. rewrite (proj2 (Z.eqb_neq a 0)); [done|].
  destruct Hal as (Hs & _). rewrite Hsp in Hs. apply seg_app in Hs as (m & _ & _ & ? & _). done.
Qed.

Lemma head_nonempty al : represents d al → head d = match al with [] => 0 | x :: _ => x.1 end ∧
  (al ≠ [] → head d ≠ 0).
Proof. intros (Hs & _). destruct al as [|[a [k v]] al]; cbn in Hs; [done|]. by destruct Hs as (-> & ? & _). Qed.

Lemma Get_ok k : runs (dict_exec (Some d) (OpGet k)) (op_post d r (OpGet k) l fr).
Proof.
  destruct Hm as ((al & Hal & Hl) & Hfr & Hlk0). apply runs_wrap. unfold ListDictionary_GetItemValue.
  locked lk Hlk. assert (Hfind : (if negb (head (set_lock lk d) =? 0) then find_item (set_lock lk d) k else Ok 0) =
    Ok (addr_of (keyEquals d) k al)).
  { rewrite (find_ok lk al) by done. cbn [head set_lock]. destruct (head_nonempty al Hal) as [Hh Hne].
    destruct (Z.eqb_spec (head d) 0) as [E|E]; [|done]. destruct al; [done|]. by destruct Hne. }
  rewrite Hfind, bind_Ok. destruct (search (keyEquals d) k al) as [_ -> Ha _ _|l1 a k' v l2 Hsp _ _ -> Ha _ _].
  - cbn [Z.eqb negb]. rewrite bind_Ok. unlocked Hlk. apply runs_ok, (post_same al); [done..| |done].
    cbn. by rewrite <- Hl, Ha.
  - destruct Hal as (Hs & Hnd & Hdom). assert (Hs' := Hs). rewrite Hsp in Hs'.
    apply seg_app in Hs' as (m & _ & _ & Hne & n & Hn & _). rewrite (proj2 (Z.eqb_neq a 0)) by done.
    cbn [negb set_lock items]. rewrite (get_ok _ _ _ Hn), !bind_Ok. unlocked Hlk.
    apply runs_ok, (post_same al); [done..| |done]. cbn. by rewrite <- Hl, Ha.
Qed.

Lemma GetKeys_ok : runs (dict_exec (Some d) OpGetKeys) (op_post d r OpGetKeys l fr).
Proof.
  destruct Hm as ((al & Hal & Hl) & Hfr & Hlk0). apply runs_wrap. unfold ListDictionary_GetKeys, count_items.
  assert (Hle : length l = length al) by (by rewrite <- Hl, length_fmap). cbn [negb].
  locked lk Hlk. rewrite (count_loop _ al), bind_Ok; [|apply Hal|by apply (represents_walk d)|lia|lia]. rewrite Z.add_0_l.
  destruct (negb (Z.of_nat (length al) =? 0) && negb calloc_ok) eqn:Ec.
  - unlocked Hlk. apply runs_ok, (post_same al); [done..| |done]. cbn. split_and!; [done..|]. right.
    split; [|done]. intros ->. cbn in Hle. rewrite <- Hle in Ec. done.
  - pose proof (keys_loop (items d) al (walk d) (head d) [] (replicate (Z.to_nat (Z.of_nat (length al))) 0)) as Hk.
    cbn [app length] in Hk. change (Z.of_nat 0) with 0 in Hk. change (walk (set_lock lk d)) with (walk d). cbn [items set_lock head].
    rewrite Hk, bind_Ok; [|apply Hal|by apply (represents_walk d)|rewrite length_replicate; lia|lia].
    unlocked Hlk. apply runs_ok, (post_same al); [done..| |done]. cbn. split_and!; [done..|]. left. rewrite Hle. f_equal.
    f_equal. destruct al as [|x al]; subst l; done.
Qed.

Lemma Clear_ok : runs (dict_exec (Some d) OpClear) (op_post d r OpClear l fr).
Proof.
  destruct Hm as ((al & Hal & Hl) & Hfr & Hlk0). apply runs_wrap. unfold ListDictionary_Clear.
  locked lk Hlk. destruct (head_nonempty al Hal) as [Hh Hne]. cbn [head set_lock].
  destruct (Z.eqb_spec (head d) 0) as [E|E]; cbn [negb].
  - rewrite bind_Ok. unlocked Hlk. assert (al = []) as -> by (destruct al; [done|by destruct Hne]).
    apply runs_ok, (post_same []); [done..| |done]. by subst l.
  - pose proof Hal as (Hs & Hnd & Hdom).
    destruct (clear_loop al (walk d) (head d) (set_lock lk d) Hs Hnd) as (h & Hc & Hh2); [by apply (represents_walk d)|].
    change (walk (set_lock lk d)) with (walk d). cbn [head set_lock] in *. rewrite Hc, !bind_Ok. unlocked Hlk.
    apply runs_ok, (post_intro _ [] (objects d al.*2)); [|by subst l| |done|done].
    + split_and!; [done|constructor|]. cbn. rewrite Hh2. cbn. rewrite Hdom. set_solver.
    + cbn. by rewrite Hfr.
Qed.

Lemma RemoveHead_ok : runs (dict_exec (Some d) OpRemoveHead) (op_post d r OpRemoveHead l fr).
Proof.
  destruct Hm as ((al & Hal & Hl) & Hfr & Hlk0). apply runs_wrap. unfold ListDictionary_Remove_Head.
  locked lk Hlk. destruct (head_nonempty al Hal) as [Hh Hne]. cbn [head set_lock].
  destruct al as [|[a [k v]] al].
  - rewrite Hh. cbn [Z.eqb negb]. rewrite bind_Ok. unlocked Hlk. apply runs_ok, (post_same []); [done..| |done]. by subst l.
  - cbn [fst] in Hh. rewrite (proj2 (Z.eqb_neq (head d) 0)) by (by apply Hne). cbn [negb items set_lock head].
    pose proof Hal as (Hs & _). destruct Hs as (_ & Ha & n & Hn & Hs).
    rewrite Hh, (get_ok _ _ _ Hn), bind_Ok. unfold free_item. cbn [items set_head set_lock value next].
    rewrite Hn, !bind_Ok. unlocked Hlk. apply runs_ok.
    apply (post_intro _ al []); [|by subst l| |done|done].
    + by apply (cut_head _ _ _ _ _ _ Hal).
    + cbn. by rewrite Hfr, app_nil_r.
Qed.

Lemma Set_ok k v : runs (dict_exec (Some d) (OpSet k v)) (op_post d r (OpSet k v) l fr).
Proof.
  destruct Hm as ((al & Hal & Hl) & Hfr & Hlk0). apply runs_wrap. unfold ListDictionary_SetItemValue.
  locked lk Hlk. destruct (head_nonempty al Hal) as [Hh Hne]. cbn [head set_lock].
  destruct (Z.eqb_spec (head d) 0) as [E|E]; cbn [negb].
  - rewrite bind_Ok. unlocked Hlk. assert (al = []) as -> by (destruct al; [done|by destruct Hne]).
    apply runs_ok, (post_same []); [done..| |done]. subst l. cbn. by destruct (valueFree d).
  - rewrite (find_ok lk al), bind_Ok by done.
    destruct (search (keyEquals d) k al) as [_ -> Ha _ Hs|l1 a k' v' l2 Hsp _ _ -> Ha _ Hs].
    + cbn [Z.eqb negb]. rewrite bind_Ok. unlocked Hlk. apply runs_ok, (post_same al); [done..| |done].
      rewrite <- Hl. cbn. rewrite Ha, Hs. cbn. by destruct (valueFree d).
    + pose proof Hal as (Hseg & _). rewrite Hsp in Hseg. apply seg_app in Hseg as (m & _ & -> & Hne' & n & Hn & _).
      rewrite (proj2 (Z.eqb_neq a 0)) by done. cbn [negb items set_lock]. rewrite (get_ok _ _ _ Hn), bind_Ok.
      cbn [value valueFree set_lock]. rewrite log_free_eq.
      cbn [items set_lock]. rewrite upd_ok, !bind_Ok by eauto. unlocked Hlk. apply runs_ok.
      apply (post_intro _ (l1 ++ (a, (k', v)) :: l2) (if valueFree d then [v'] else [])); [| | |done|done].
      * rewrite Hsp in Hal. apply (change_value _ _ _ _ _ _ v Hal).
      * rewrite <- Hl. cbn. rewrite Ha, Hs, fmap_app, fmap_cons. cbn. split_and!; [done..|]. by destruct (valueFree d).
      * cbn. by rewrite Hfr.
Qed.

Lemma Remove_ok k : runs (dict_exec (Some d) (OpRemove k)) (op_post d r (OpRemove k) l fr).
Proof.
  destruct Hm as ((al & Hal & Hl) & Hfr & Hlk0). apply runs_wrap. unfold ListDictionary_Remove.
  locked lk Hlk. destruct (search (keyEquals d) k al) as [Hk _ Ha Hrm _|l1 a k' v' l2 Hsp Hk E _ Ha Hrm _].
  - rewrite (remove_loop_none (set_lock lk d) k al), bind_Ok; [|apply Hal|by apply (represents_walk d)|done].
    unlocked Hlk. apply runs_ok, (post_same al); [done..| |done]. rewrite <- Hl. cbn. by rewrite Ha, Hrm.
  - pose proof Hal as (Hseg & _). rewrite Hsp in Hseg.
    rewrite (remove_loop_found (set_lock lk d) k a k' v' l2 l1); [|done| |done|done].
    2:{ pose proof (represents_walk d al Hal) as Hw. rewrite Hsp, length_app in Hw. cbn [length] in Hw. change (walk (set_lock lk d)) with (walk d). lia. }
    apply seg_app in Hseg as (m & Hs1 & -> & Hne & n & Hn & _). cbn [remove_body items set_lock keyEquals].
    rewrite (proj2 (Z.eqb_neq a 0)), (get_ok _ _ _ Hn), bind_Ok by done. cbn [key next]. rewrite E.
    destruct l1 as [|[b [kb vb]] l1 _] using rev_ind.
    + cbn [fmap list_fmap List.last Z.eqb]. rewrite bind_Ok. cbn [items set_head set_lock].
      rewrite (get_ok _ _ _ Hn), bind_Ok. unfold free_item. cbn [items set_head set_lock value]. rewrite Hn, !bind_Ok.
      unlocked Hlk. apply runs_ok, (post_intro _ l2 []); [|by rewrite <- Hl; cbn; rewrite Ha, Hrm| |done|done].
      * rewrite Hsp in Hal. by apply (cut_head _ _ _ _ _ _ Hal).
      * cbn. by rewrite Hfr, app_nil_r.
    + rewrite fmap_app. cbn [fmap list_fmap fst]. rewrite last_last.
      assert (b ≠ 0 ∧ is_Some (items d !! b) ∧ b ≠ a) as (Hb0 & Hbs & Hba).
      { apply seg_app in Hs1 as (m & _ & -> & Hb & nb & Hnb & _). split_and!; [done|by eexists|]. intros ->.
        destruct Hal as (_ & Hnd & _). rewrite Hsp, fmap_app, fmap_cons in Hnd. apply NoDup_mid in Hnd as [_ Hin].
        apply Hin. rewrite fmap_app, !elem_of_app. left. right. constructor. }
      rewrite (proj2 (Z.eqb_neq b 0)), upd_ok, !bind_Ok by done. cbn [items set_items set_lock].
      assert (Hn2 : alter (set_next n) b (items d) !! a = Some (Item k' v' n)) by (by rewrite lookup_alter_ne).
      rewrite (get_ok _ _ _ Hn2), bind_Ok. unfold free_item. cbn [items set_items set_lock value]. rewrite Hn2, !bind_Ok.
      unlocked Hlk. apply runs_ok.
      apply (post_intro _ ((l1 ++ [(b, (kb, vb))]) ++ l2) []); [| | |done|done].
      * rewrite Hsp in Hal. by apply (cut_middle _ _ _ _ _ _ _ _ _ Hal).
      * rewrite <- Hl. cbn. by rewrite Ha, Hrm, fmap_app.
      * cbn. by rewrite Hfr, app_nil_r.
Qed.

Hypothesis (Hmalloc : malloc (items d) = 0 ∨ malloc (items d) ≠ 0 ∧ items d !! malloc (items d) = None).

Lemma Add_ok k v : runs (dict_exec (Some d) (OpAdd k v)) (op_post d r (OpAdd k v) l fr).
Proof.
  destruct Hm as ((al & Hal & Hl) & Hfr & Hlk0). apply runs_wrap. unfold ListDictionary_Add.
  locked lk Hlk. destruct Hmalloc as [->|[Hne Hfresh]].
  - cbn [Z.eqb]. rewrite bind_Ok. unlocked Hlk. apply runs_ok, (post_same al); [done..| |done].
    split; [done|]. by right.
  - set (a := malloc (items d)) in *. rewrite (proj2 (Z.eqb_neq a 0)) by done. cbn [items set_lock head set_items].
    destruct (head_nonempty al Hal) as [Hh Hne2]. destruct al as [|[b [kb vb]] al _] using rev_ind.
    + rewrite Hh. cbn [Z.eqb]. rewrite !bind_Ok. unlocked Hlk.
      apply runs_ok, (post_intro _ [(a, (k, v))] []); [|by subst l; split; [|left]| |done|done].
      * by apply (add_first d).
      * cbn. by rewrite Hfr, app_nil_r.
    + rewrite (proj2 (Z.eqb_neq (head d) 0)) by (apply Hne2; by destruct al).
      pose proof (add_last d al b (kb, vb) a k v Hal Hne Hfresh) as Hnew.
      pose proof Hal as (Hs & _). assert (Hab : a ∉ (al ++ [(b, (kb, vb))]).*1).
      { destruct Hal as (_ & _ & Hdom). apply not_elem_of_dom in Hfresh. by rewrite Hdom, elem_of_list_to_set in Hfresh. }
      rewrite (last_loop _ al b (kb, vb)), bind_Ok.
      2:{ apply (seg_frame (items d)); [|done]. intros x Hx. rewrite lookup_insert_ne; [done|]. by intros ->. }
      2:{ pose proof (represents_walk d _ Hal) as Hw. rewrite length_app in Hw. cbn [length] in Hw.
          unfold walk in *. cbn [items set_lock set_items]. rewrite map_size_insert_None by done. lia. }
      rewrite upd_ok, !bind_Ok.
      2:{ apply seg_app in Hs as (m & _ & -> & _ & nb & Hnb & _). rewrite lookup_insert_ne; [by eexists|].
          intros ->. apply Hab. rewrite fmap_app, elem_of_app. right. constructor. }
      unlocked Hlk. apply runs_ok.
      apply (post_intro _ ((al ++ [(b, (kb, vb))]) ++ [(a, (k, v))]) []); [done| | |done|done].
      * split; [done|]. left. split; [done|]. rewrite <- Hl. by rewrite (fmap_app _ (al ++ _)).
      * cbn. by rewrite Hfr, app_nil_r.
Qed.
End Operations.

Lemma dict_op_ok d r l fr o : 0 <= r → r + 1 < 2 ^ 31 → Z.of_nat (length l) < 2 ^ 31 → models d l fr r →
  (∀ h, malloc h = 0 ∨ malloc h ≠ 0 ∧ h !! malloc h = None) →
  runs (dict_exec (Some d) o) (op_post d r o l fr).
Proof.
  intros. destruct o; [by apply Count_ok|by apply GetKeys_ok|by apply Add_ok|by apply Clear_ok|by apply Contains_ok
    |by apply Remove_ok|by apply RemoveHead_ok|by apply Get_ok|by apply Set_ok].
Qed.

(** Sequences of operations. *)
Fixpoint dict_execs (p : option wListDictionary) (os : list dict_op) : res (option wListDictionary * list dict_ans) :=
  match os with
  | [] => Ok (p, [])
  | o :: os => r ← dict_exec p o; q ← dict_execs r.1 os; Ok (q.1, r.2 :: q.2)
  end.

Inductive dict_specs (d : wListDictionary) : list dict_op → pairs → list dict_ans → pairs → list Z → Prop :=
  | specs_nil l : dict_specs d [] l [] l []
  | specs_cons o os l a l1 fr1 as' l2 fr2 : dict_spec d o l a l1 fr1 → dict_specs d os l1 as' l2 fr2 →
      dict_specs d (o :: os) l (a :: as') l2 (fr1 ++ fr2).

Lemma spec_setup d d' o l a l' fr : same_setup d d' → dict_spec d' o l a l' fr → dict_spec d o l a l' fr.
Proof. intros (_ & He & Hk & Hv). unfold dict_spec, objects. by rewrite He, Hk, Hv. Qed.

Lemma specs_setup d d' os l as' l' fr : same_setup d d' → dict_specs d' os l as' l' fr → dict_specs d os l as' l' fr.
Proof. intros Hs H. induction H; econstructor; [|done]. by eapply spec_setup. Qed.

Lemma set_first_length eq k v (l : pairs) : length (set_first eq k v l) = length l.
Proof. induction l as [|[k' v'] l IH]; cbn; [done|]. destruct (eq k' k); cbn; by rewrite ?IH. Qed.

Lemma remove_first_length eq k (l : pairs) : (length (remove_first eq k l) ≤ length l)%nat.
Proof. induction l as [|[k' v'] l IH]; cbn; [done|]. destruct (eq k' k); cbn; lia. Qed.

Lemma spec_length d o l a l' fr : dict_spec d o l a l' fr → (length l' ≤ S (length l))%nat.
Proof.
  destruct o; cbn; intros H; decompose [and or] H; subst; rewrite ?set_first_length, ?length_app; cbn; try lia.
  - pose proof (remove_first_length (keyEquals d) k l). lia.
  - destruct l; cbn; lia.
Qed.

Lemma dict_execs_ok os : ∀ d r l fr, 0 <= r → r + 1 < 2 ^ 31 → Z.of_nat (length l + length os) < 2 ^ 31 →
  models d l fr r → (∀ h, malloc h = 0 ∨ malloc h ≠ 0 ∧ h !! malloc h = None) →
  runs (dict_execs (Some d) os) (λ q, ∃ d' l' fr', q.1 = Some d' ∧ dict_specs d os l q.2 l' fr' ∧
    models d' l' (fr ++ fr') r).
Proof.
  induction os as [|o os IH]; intros d r l fr Hr0 Hr Hlen Hm Hmal.
  - apply runs_ok. exists d, l, []. rewrite app_nil_r. split_and!; [done|constructor|done].
  - cbn [length] in Hlen. eapply runs_bind; [apply (dict_op_ok d r l fr o); done || lia|].
    intros [p a] (d1 & l1 & fr1 & E & Hs & Hm1 & Hset). cbn in E, Hs. subst p. pose proof (spec_length _ _ _ _ _ _ Hs).
    eapply runs_bind; [apply (IH d1 r l1 (fr ++ fr1)); done || lia|].
    intros [q as'] (d2 & l2 & fr2 & E & Hss & Hm2). cbn in E, Hss. subst q. apply runs_ok.
    exists d2, l2, (fr1 ++ fr2). split_and!; [done| |by rewrite app_assoc].
    econstructor; [done|]. by apply (specs_setup d d1).
Qed.

Lemma dom_empty_items d : represents d [] → items d = ∅.
Proof. intros (_ & _ & Hdom). by apply dom_empty_inv_L. Qed.

Lemma Free_ok d l fr : Z.of_nat (length l) < 2 ^ 31 → models d l fr 0 →
  runs (ListDictionary_Free (Some d)) (λ p, ∃ d', p = Some d' ∧ items d' = ∅ ∧ freed d' = fr ++ objects d l).
Proof.
  intros Hlen Hm. destruct (Clear_ok d 0 l fr ltac:(lia) ltac:(lia) Hlen Hm) as ([p a] & Hc & d1 & l1 & fr1 & E & (_ & -> & ->) & ((al & Hal & Hnil) & Hf & Hl) & _).
  cbn [dict_exec fst] in Hc, E. apply bind_inv in Hc as (p' & Hc & [= -> <-]). subst p. unfold ListDictionary_Free.
  rewrite Hc, !bind_Ok. eapply runs_bind; [by apply lock_delete_ok|]. intros lk _. apply runs_ok.
  eexists. split; [done|]. destruct al; [|done]. split; [by apply (dom_empty_items d1)|done].
Qed.
End Dictionary.

(** C18: any sequence of operations on a dictionary (synchronized or not, over
    any lock that nests, with an allocator that may fail) runs without
    undefined behaviour, and behaves as an association list in insertion order:
    the answers, the pairs, the objects handed to the free functions in their
    order, the lock released as often as taken, no item leaked. *)
Theorem dictionary_refines {L : Type} (lk : Lock L) malloc calloc_ok (d : @wListDictionary L) r l fr os :
  (∀ h, malloc h = 0 ∨ malloc h ≠ 0 ∧ h !! malloc h = None) →
  0 <= r → r + 1 < 2 ^ 31 → Z.of_nat (length l + length os) < 2 ^ 31 → models d l fr r →
  runs (dict_execs malloc calloc_ok (Some d) os) (λ q, ∃ d' l' fr', q.1 = Some d' ∧
    dict_specs d os l q.2 l' fr' ∧ models d' l' (fr ++ fr') r).
Proof. intros. by apply dict_execs_ok. Qed.

Definition first_fit (h : iheap) : Z := fresh ({[0]} ∪ dom h).

Lemma first_fit_ok h : first_fit h = 0 ∨ first_fit h ≠ 0 ∧ h !! first_fit h = None.
Proof.
  right. pose proof (is_fresh (({[0]} : gset Z) ∪ dom h)) as H. fold (first_fit h) in H. split; [set_solver|].
  apply not_elem_of_dom. set_solver.
Qed.

Lemma seven : 7 ≠ 0.
Proof. done. Qed.

Definition example_dict : option (@wListDictionary CRITICAL_SECTION) :=
  @ListDictionary_New _ (cs_lock 7 seven true true 4) true fresh_cs true.

Lemma dictionary_refines_witness :
  let lk := cs_lock 7 seven true true 4 in
  let d := Dict true (UziInitCS true true 4 fresh_cs 0 0).1 0 default_equal_function true true ∅ [] in
  let os := [OpAdd 1 10; OpAdd 2 20; OpSet 1 11; OpRemove 2; OpGet 1; OpClear] in
  (∀ h, first_fit h = 0 ∨ first_fit h ≠ 0 ∧ h !! first_fit h = None) ∧
  0 <= 0 ∧ 0 + 1 < 2 ^ 31 ∧ Z.of_nat (length (A:=Z*Z) [] + length os) < 2 ^ 31 ∧ models d [] [] 0 ∧
  runs (dict_execs first_fit true (Some d) os) (λ q, ∃ d' l' fr', q.1 = Some d' ∧
    dict_specs d os [] q.2 l' fr' ∧ models d' l' ([] ++ fr') 0).
Proof.
  intros lk d os. assert (H1 := first_fit_ok). assert (H2 : 0 <= 0) by lia. assert (H3 : 0 + 1 < 2 ^ 31) by lia.
  assert (H4 : Z.of_nat (length (A:=Z*Z) [] + length os) < 2 ^ 31) by done.
  assert (H5 : models d [] [] 0).
  { split; [|split; [done|by split_and!]]. exists []. split; [|done]. split_and!; [done|constructor|done]. }
  split; [exact H1|]. split; [exact H2|]. split; [exact H3|]. split; [exact H4|]. split; [exact H5|].
  exact (dictionary_refines lk first_fit true d 0 [] [] os H1 H2 H3 H4 H5).
Defined.

(** a new dictionary is empty and unlocked; freeing a dictionary that is not
    locked clears the heap of items and hands every key and value with a free
    function to it, in order. *)
Theorem dictionary_new_free {L : Type} (lk : Lock L) (d : @wListDictionary L) calloc_ok lock0 sync l fr :
  (ListDictionary_New calloc_ok lock0 sync = Some d → models d [] [] 0 ∧ synchronized d = sync) ∧
  (Z.of_nat (length l) < 2 ^ 31 → models d l fr 0 →
   runs (ListDictionary_Free (Some d)) (λ p, ∃ d', p = Some d' ∧ items d' = ∅ ∧ freed d' = fr ++ objects d l)).
Proof.
  split; [|intros; by apply (Free_ok (λ _, 0) true d)].
  unfold ListDictionary_New. destruct calloc_ok; [|done]. destruct (lock_init lock0).2 eqn:E; [|done].
  intros [= <-]. split; [|done]. split; [|split; [done|by apply lock_init_ok]].
  exists []. split; [|done]. split_and!; [done|constructor|done].
Qed.

Lemma dictionary_new_free_witness :
  let lk := cs_lock 7 seven true true 4 in
  let d := Dict true (InitializeCriticalSectionAndSpinCount true true 4 fresh_cs 4000).1 0 default_equal_function false false ∅ [] in
  ListDictionary_New true fresh_cs true = Some d ∧
  (models d [] [] 0 ∧ synchronized d = true) ∧
  runs (ListDictionary_Free (Some d)) (λ p, ∃ d', p = Some d' ∧ items d' = ∅ ∧ freed d' = [] ++ objects d []).
Proof.
  intros lk d. assert (H1 : ListDictionary_New true fresh_cs true = Some d) by reflexivity.
  destruct (dictionary_new_free lk d true fresh_cs true [] []) as [H2 H3].
  split; [exact H1|]. split; [exact (H2 H1)|]. apply H3; [done|]. apply (H2 H1).
Defined.
