(* ===== verification/Alignment.v ===== *)
(** Aligned allocation (src/libuzi/alignment.c).

    The heap of the C library: the allocated blocks (base and size), the
    headers written by this code (by address) and the bytes of the payloads.
    Sizes and addresses are 64-bit, as on an LP64 system; [malloc] is a
    parameter. An access outside an allocated block is undefined. *)

From stdpp Require Import list gmap.
From S2P Require Import Prelude.

Set Warnings "-clear-no-such-hyp".

Record winpr_aligned_mem := AlignedMem { sig : Z; msize : Z; base_addr : Z }.

Definition SIGNATURE : Z := 0x0BA0BAB.
(** [sizeof(WINPR_ALIGNED_MEM)]: 4 bytes, 4 of padding, 8 and 8. *)
Definition sizeof_mem : Z := 24.
Definition sizeof_ptr : Z := 8.

Record cheap := CHeap {
  blocks : gmap Z Z;
  heads : gmap Z winpr_aligned_mem;
  bytes : gmap Z Z }.

(** [n] bytes at [p] lie in one allocated block. *)
Definition in_block (m : cheap) (p n : Z) : bool :=
  bool_decide (map_Exists (λ b sz, b <= p ∧ p + n <= b + sz) (blocks m)).

Definition MEM_STRUCT_FROM_PTR (memptr : Z) : Z := u64 (memptr - sizeof_mem).

Definition read_head (m : cheap) (p : Z) : res winpr_aligned_mem :=
  if in_block m p sizeof_mem then get (heads m) p else UB.
Definition write_head (m : cheap) (p : Z) (h : winpr_aligned_mem) : res cheap :=
  if in_block m p sizeof_mem then Ok (CHeap (blocks m) (<[p := h]> (heads m)) (bytes m)) else UB.

(** [free]: of a block's base only. *)
Definition free (m : cheap) (b : Z) : res cheap :=
  match blocks m !! b with
  | Some sz => Ok (CHeap (delete b (blocks m))
      (filter (λ x, ¬ (b <= x.1 < b + sz)) (heads m)) (filter (λ x, ¬ (b <= x.1 < b + sz)) (bytes m)))
  | None => UB
  end.

Definition CopyMemory (m : cheap) (dst src n : Z) : res cheap :=
  if in_block m dst n && in_block m src n then
    Ok (CHeap (blocks m) (heads m)
      (foldr (λ i b, partial_alter (λ _, bytes m !! (src + i)) (dst + i) b) (bytes m) (seqZ 0 n)))
  else UB.

Definition ZeroMemory (m : cheap) (dst n : Z) : res cheap :=
  if in_block m dst n then
    Ok (CHeap (blocks m) (heads m) (foldr (λ i b, <[dst + i := 0]> b) (bytes m) (seqZ 0 n)))
  else UB.

Section Operations.
(** The address [malloc] answers for a size, 0 when it fails. *)
Context (malloc : cheap → Z → Z).

Definition aligned_offset_malloc (m : cheap) (size alignment offset : Z) : res (cheap * Z) :=
  if alignment mod 2 =? 1 then Ok (m, 0)
  else if size <=? offset then Ok (m, 0)
  else
    let alignment := if alignment <? sizeof_ptr then sizeof_ptr else alignment in
    let n := u64 (u64 (size + alignment) + sizeof_mem) in
    let base := malloc m n in
    if base =? 0 then Ok (m, 0)
    else
      let m := CHeap (<[base := n]> (blocks m)) (heads m) (bytes m) in
      let memblock := u64 (Z.land (u64 (base + alignment + offset + sizeof_mem)) (u64 (Z.lnot (u64 (alignment - 1)))) - offset) in
      let pMem := MEM_STRUCT_FROM_PTR memblock in
      m ← write_head m pMem (AlignedMem SIGNATURE size base);
      Ok (m, memblock).

Definition aligned_malloc m size alignment := aligned_offset_malloc m size alignment 0.

Definition aligned_free (m : cheap) (memblock : Z) : res cheap :=
  if memblock =? 0 then Ok m
  else
    pMem ← read_head m (MEM_STRUCT_FROM_PTR memblock);
    if negb (sig pMem =? SIGNATURE) then Ok m else free m (base_addr pMem).

Definition aligned_offset_realloc (m : cheap) (memblock size alignment offset : Z) : res (cheap * Z) :=
  if memblock =? 0 then aligned_offset_malloc m size alignment offset
  else
    pMem ← read_head m (MEM_STRUCT_FROM_PTR memblock);
    if negb (sig pMem =? SIGNATURE) then Ok (m, 0)
    else if size =? 0 then m ← aligned_free m memblock; Ok (m, 0)
    else
      r ← aligned_offset_malloc m size alignment offset;
      let '(m, newMemblock) := r in
      if newMemblock =? 0 then Ok (m, 0)
      else
        pNewMem ← read_head m (MEM_STRUCT_FROM_PTR newMemblock);
        let copySize := if msize pNewMem <? msize pMem then msize pNewMem else msize pMem in
        m ← CopyMemory m newMemblock memblock copySize;
        m ← aligned_free m memblock;
        Ok (m, newMemblock).

Definition aligned_realloc m memblock size alignment := aligned_offset_realloc m memblock size alignment 0.

Definition aligned_offset_recalloc (m : cheap) (memblock num size alignment offset : Z) : res (cheap * Z) :=
  if memblock =? 0 then
    r ← aligned_offset_malloc m (u64 (size * num)) alignment offset;
    let '(m, newMemblock) := r in
    m ← (if negb (newMemblock =? 0) then
           pNewMem ← read_head m (MEM_STRUCT_FROM_PTR newMemblock);
           ZeroMemory m newMemblock (msize pNewMem)
         else Ok m);
    Ok (m, memblock)
  else
    pMem ← read_head m (MEM_STRUCT_FROM_PTR memblock);
    if negb (sig pMem =? SIGNATURE) then Ok (m, 0)
    else if size =? 0 then m ← aligned_free m memblock; Ok (m, 0)
    else
      r ← aligned_offset_malloc m (u64 (size * num)) alignment offset;
      let '(m, newMemblock) := r in
      if newMemblock =? 0 then Ok (m, 0)
      else
        pNewMem ← read_head m (MEM_STRUCT_FROM_PTR newMemblock);
        m ← ZeroMemory m newMemblock (msize pNewMem);
        m ← aligned_free m memblock;
        Ok (m, newMemblock).

Definition aligned_recalloc m memblock num size alignment := aligned_offset_recalloc m memblock num size alignment 0.


(** ** The contract of [malloc] *)

Definition disjoint_from (m : cheap) (b n : Z) : Prop :=
  ∀ b' n', blocks m !! b' = Some n' → b + n <= b' ∨ b' + n' <= b.

(** Failure, or a non-null block apart from the others, inside the address
    space and at least one byte long. *)
Definition malloc_contract : Prop := ∀ m n, urange 64 n →
  malloc m n = 0 ∨ 0 < malloc m n ∧ malloc m n + n <= 2 ^ 64 ∧ blocks m !! malloc m n = None ∧
    (0 < n → disjoint_from m (malloc m n) n).

End Operations.

(** ** Address arithmetic *)

Lemma mask_down x k : urange 64 x → 0 <= k <= 63 →
  Z.land x (u64 (Z.lnot (u64 (2 ^ k - 1)))) = x - x mod 2 ^ k.
Proof.
  intros Hx Hk. assert (Hp0 : 0 < 2 ^ k) by (apply Z.pow_pos_nonneg; lia).
  assert (Hp : 2 ^ k <= 2 ^ 63) by (apply Z.pow_le_mono_r; lia).
  rewrite (wrap_id 64 (2 ^ k - 1)) by (unfold urange; lia).
  unfold wrap. rewrite <- (Z.land_ones _ 64) by lia.
  rewrite Z.land_assoc, Z.land_ones, <- Z.ldiff_land by lia.
  replace (2 ^ k - 1) with (Z.ones k) by (rewrite Z.ones_equiv; lia).
  rewrite Z.ldiff_ones_r, Z.shiftl_mul_pow2, Z.shiftr_div_pow2 by lia.
  pose proof (Z.div_mod x (2 ^ k) ltac:(lia)). pose proof (Z.mod_pos_bound x (2 ^ k) Hp0). unfold urange in Hx.
  pose proof (Z.mod_le x (2 ^ k) ltac:(lia) Hp0).
  generalize dependent (x mod 2 ^ k). generalize (x / 2 ^ k). intros q r E1 E2 E3. rewrite Z.mod_small; lia.
Qed.

(** ** Allocation *)

(** The alignment that is used. *)
Definition effective (alignment : Z) : Z := Z.max alignment sizeof_ptr.

(** A live aligned block: its payload and, before it, its header, both in the
    allocated block of base [b] and size [n] the header names. *)
Definition live (m : cheap) (p size b n : Z) : Prop :=
  0 < b ∧ b + n <= 2 ^ 64 ∧ blocks m !! b = Some n ∧ b <= p - sizeof_mem ∧ p + size <= b + n ∧ 0 <= size ∧
  heads m !! (p - sizeof_mem) = Some (AlignedMem SIGNATURE size b).

Lemma in_block_at m b n p k : blocks m !! b = Some n → b <= p → p + k <= b + n → in_block m p k = true.
Proof. intros Hb H1 H2. apply bool_decide_true, map_Exists_lookup_2 with b n; eauto. Qed.

Lemma live_head m p size b n : live m p size b n → 0 < size →
  p ≠ 0 ∧ read_head m (MEM_STRUCT_FROM_PTR p) = Ok (AlignedMem SIGNATURE size b).
Proof.
  unfold live, sizeof_mem. intros (Hb0 & Hbn & Hb & H1 & H2 & Hs & Hh) Hpos. split; [lia|].
  unfold read_head, MEM_STRUCT_FROM_PTR, sizeof_mem.
  rewrite wrap_id by (unfold urange; lia).
  rewrite (in_block_at m b n) by (done || lia). by apply get_ok.
Qed.

(** The result of an allocation: null and nothing allocated, or a new live
    block, aligned at [offset], with the rest of the heap unchanged. *)
Definition alloc_post (m : cheap) (size alignment offset : Z) (q : cheap * Z) : Prop :=
  q.2 = 0 ∧ q.1 = m ∨
  ∃ b n, 0 < q.2 ∧ q.2 + size <= 2 ^ 64 ∧ (q.2 + offset) mod effective alignment = 0 ∧
    blocks m !! b = None ∧ disjoint_from m b n ∧
    live q.1 q.2 size b n ∧ blocks q.1 = <[b := n]> (blocks m) ∧ bytes q.1 = bytes m ∧
    heads q.1 = <[q.2 - sizeof_mem := AlignedMem SIGNATURE size b]> (heads m).

Lemma effective_pow2 k : 1 <= k <= 63 → ∃ k', 3 <= k' <= 63 ∧ effective (2 ^ k) = 2 ^ k' ∧
  (if 2 ^ k <? sizeof_ptr then sizeof_ptr else 2 ^ k) = 2 ^ k'.
Proof.
  intros Hk. unfold effective, sizeof_ptr. destruct (Z.ltb_spec (2 ^ k) 8) as [H|H].
  - exists 3. split; [lia|]. split; [lia|done].
  - exists k. split; [|split; lia]. assert (2 <= k); [|].
    + destruct (Z.eq_dec k 1) as [->|]; lia.
    + destruct (Z.eq_dec k 2) as [->|]; [lia|]. lia.
Qed.

(** ** Freeing and reading back *)

Lemma aligned_free_live m p size b n : live m p size b n → 0 < size →
  aligned_free m p = free m b ∧ runs (free m b) (λ m', blocks m' = delete b (blocks m) ∧
    ∀ x, ¬ (b <= x < b + n) → bytes m' !! x = bytes m !! x ∧ heads m' !! x = heads m !! x).
Proof.
  intros Hl Hpos. destruct (live_head m p size b n Hl Hpos) as [Hp Hh]. split.
  - unfold aligned_free. rewrite (proj2 (Z.eqb_neq p 0) Hp), Hh, bind_Ok. done.
  - destruct Hl as (_ & _ & Hb & _). unfold free. rewrite Hb. apply runs_ok. split; [done|].
    intros x Hx. cbn. split; apply option_eq; intros v; rewrite map_lookup_filter_Some; cbn; tauto.
Qed.


(** ** Copying *)

Lemma copy_lookup (src B : gmap Z Z) d s j l :
  foldr (λ i b, partial_alter (λ _, src !! (s + i)) (d + i) b) B l !! (d + j) =
    if decide (j ∈ l) then src !! (s + j) else B !! (d + j).
Proof.
  induction l as [|i l IH]; cbn; [by rewrite decide_False by apply not_elem_of_nil|].
  destruct (decide (d + i = d + j)) as [E|E].
  - assert (i = j) as -> by lia. rewrite lookup_partial_alter_eq, decide_True by constructor. done.
  - rewrite lookup_partial_alter_ne, IH by done. apply decide_ext. rewrite elem_of_cons. naive_solver lia.
Qed.

Lemma zero_lookup (B : gmap Z Z) d j l :
  foldr (λ i b, <[d + i := 0]> b) B l !! (d + j) = if decide (j ∈ l) then Some 0 else B !! (d + j).
Proof.
  induction l as [|i l IH]; cbn; [by rewrite decide_False by apply not_elem_of_nil|].
  destruct (decide (d + i = d + j)) as [E|E].
  - assert (i = j) as -> by lia. rewrite lookup_insert_eq, decide_True by constructor. done.
  - rewrite lookup_insert_ne, IH by done. apply decide_ext. rewrite elem_of_cons. naive_solver lia.
Qed.

(** Bytes written inside a window leave the live blocks live. *)
Lemma live_bytes m p size b n B : live m p size b n → live (CHeap (blocks m) (heads m) B) p size b n.
Proof. done. Qed.

Lemma live_after_alloc m p osize b n size alignment offset q : live m p osize b n → 0 < osize → 0 < size →
  alloc_post m size alignment offset q → q.2 ≠ 0 →
  live q.1 p osize b n ∧ ∃ b1 n1, live q.1 q.2 size b1 n1 ∧ b1 ≠ b ∧ (b1 + n1 <= b ∨ b + n <= b1).
Proof.
  intros Hl Hos Hs Hq Hne. destruct Hq as [[? _]|(b1 & n1 & Hp & _ & _ & Hf & Hd & Hl1 & Hbl & _ & Hh)]; [done|].
  destruct Hl as (H1 & H2 & Hb & H3 & H4 & H5 & Hhd). destruct Hl1 as (G1 & G2 & Gb & G3 & G4 & G5 & Ghd).
  assert (b1 ≠ b) by congruence. specialize (Hd b n Hb). unfold sizeof_mem in *.
  split; [|exists b1, n1; done].
  unfold live, sizeof_mem. rewrite Hbl, Hh, !lookup_insert_ne by (done || lia). done.
Qed.

(** Freeing a live block leaves the live blocks elsewhere live. *)
Lemma live_after_free m p size b n b1 n1 m' : live m p size b1 n1 → 0 < size → b1 ≠ b → (b1 + n1 <= b ∨ b + n <= b1) →
  blocks m' = delete b (blocks m) →
  (∀ x, ¬ (b <= x < b + n) → bytes m' !! x = bytes m !! x ∧ heads m' !! x = heads m !! x) →
  live m' p size b1 n1.
Proof.
  intros (H1 & H2 & Hb & H3 & H4 & H5 & Hh) Hs Hne Hd Hbl Hx. unfold sizeof_mem in *.
  unfold live, sizeof_mem. rewrite Hbl, lookup_delete_ne by done.
  destruct (Hx (p - 24)) as [_ E]; [lia|]. by rewrite E.
Qed.

Definition realloc_post (m : cheap) (p osize b size alignment offset : Z) (q : cheap * Z) : Prop :=
  q.2 = 0 ∧ q.1 = m ∨
  ∃ b1 n1, live q.1 q.2 size b1 n1 ∧ 0 < q.2 ∧ (q.2 + offset) mod effective alignment = 0 ∧
    blocks q.1 = delete b (<[b1 := n1]> (blocks m)) ∧ b1 ≠ b ∧
    ∀ i, 0 <= i < Z.min size osize → bytes q.1 !! (q.2 + i) = bytes m !! (p + i).

(** ** The operations on live blocks *)

Section Contract.
Context (malloc : cheap → Z → Z) (Hmalloc : malloc_contract malloc).

Lemma aligned_offset_malloc_ok m size k offset : 1 <= k <= 63 → 0 <= offset < size →
  size + effective (2 ^ k) + sizeof_mem < 2 ^ 64 →
  runs (aligned_offset_malloc malloc m size (2 ^ k) offset) (alloc_post m size (2 ^ k) offset).
Proof.
  intros Hk Hoff Hsize. destruct (effective_pow2 k Hk) as (k' & Hk' & He & Ha). unfold alloc_post. rewrite He in *.
  assert (Heven : (2 ^ k mod 2 =? 1) = false).
  { apply Z.eqb_neq. replace k with (Z.succ (k - 1)) by lia. rewrite Z.pow_succ_r by lia.
    rewrite Z.mul_comm, Z.mod_mul by lia. lia. }
  assert (Hp0 : 0 < 2 ^ k') by (apply Z.pow_pos_nonneg; lia).
  assert (Hp8 : 8 <= 2 ^ k') by (change 8 with (2 ^ 3); apply Z.pow_le_mono_r; lia).
  unfold aligned_offset_malloc. rewrite Heven, (proj2 (Z.leb_gt _ _)), Ha by lia. unfold sizeof_mem in *.
  rewrite (wrap_id 64 (size + _)), (wrap_id 64 (size + _ + 24)) by (unfold urange; lia).
  set (n := size + 2 ^ k' + 24). destruct (Hmalloc m n) as [->|(Hb0 & Hbn & Hfresh & Hdis)]; [unfold urange; lia|by apply runs_ok; left|].
  set (b := malloc m n) in *. rewrite (proj2 (Z.eqb_neq b 0)) by lia.
  assert (Hn : n = size + 2 ^ k' + 24) by done. clearbody b n.
  set (x := b + 2 ^ k' + offset + 24).
  assert (Hx : urange 64 x) by (unfold urange; lia). assert (Hxe : x = b + 2 ^ k' + offset + 24) by done.
  pose proof (Z.mod_pos_bound x (2 ^ k') Hp0) as Hmod. pose proof (Z.div_mod x (2 ^ k') ltac:(lia)) as Hdm.
  rewrite (wrap_id 64 x), mask_down by (done || lia).
  generalize dependent (x mod 2 ^ k'). generalize (x / 2 ^ k'). intros q r Hr Hdm. clearbody x. unfold urange in Hx.
  rewrite (wrap_id 64 (x - r - offset)) by (unfold urange; lia).
  unfold MEM_STRUCT_FROM_PTR, sizeof_mem. rewrite (wrap_id 64 (x - r - offset - 24)) by (unfold urange; lia).
  unfold write_head, sizeof_mem. rewrite (in_block_at _ b n); [|by cbn; rewrite lookup_insert_eq|lia|lia].
  rewrite bind_Ok. apply runs_ok. right. exists b, n. cbn [fst snd blocks heads bytes].
  split; [lia|]. split; [lia|]. split; [|split; [done|split; [apply Hdis; lia|]]].
  - replace (x - r - offset + offset) with (q * 2 ^ k') by lia. apply Z.mod_mul. lia.
  - split; [|done]. unfold live, sizeof_mem. cbn. rewrite !lookup_insert_eq. split_and!; try done; lia.
Qed.

(** ** Reallocation *)

Lemma aligned_offset_realloc_ok m p osize b n size k offset : live m p osize b n → 0 < osize →
  1 <= k <= 63 → 0 <= offset < size → size + effective (2 ^ k) + sizeof_mem < 2 ^ 64 →
  runs (aligned_offset_realloc malloc m p size (2 ^ k) offset) (realloc_post m p osize b size (2 ^ k) offset).
Proof.
  intros Hl Hos Hk Hoff Hsize. destruct (live_head m p osize b n Hl Hos) as [Hp Hh].
  unfold aligned_offset_realloc. rewrite (proj2 (Z.eqb_neq p 0) Hp), Hh, bind_Ok. cbn [sig Z.eqb negb].
  rewrite (proj2 (Z.eqb_neq size 0)) by lia. rewrite Z.eqb_refl. cbn [negb].
  eapply runs_bind; [by apply aligned_offset_malloc_ok|]. intros [m1 p1] Hq.
  destruct (Z.eqb_spec p1 0) as [->|Hne].
  { apply runs_ok. left. split; [done|]. destruct Hq as [[_ E]|(? & ? & ? & _)]; [done|cbn in *; lia]. }
  destruct (live_after_alloc m p osize b n size (2 ^ k) offset (m1, p1) Hl Hos ltac:(lia) Hq Hne) as (Hlo & b1 & n1 & Hl1 & Hb1 & Hd). cbn [fst snd] in *.
  destruct (live_head m1 p1 size b1 n1 Hl1 ltac:(lia)) as [_ Hh1]. rewrite Hh1, bind_Ok. cbn [msize].
  set (c := if size <? osize then size else osize). assert (Hc : c = Z.min size osize) by (subst c; destruct (Z.ltb_spec size osize); lia).
  unfold CopyMemory. pose proof Hlo as (_ & _ & Hb & _ & Hpn & _). pose proof Hl1 as (_ & _ & Gb & G1 & G2 & _).
  pose proof Hlo as (_ & _ & _ & Hbp & _). unfold sizeof_mem in *.
  rewrite (in_block_at m1 b1 n1), (in_block_at m1 b n) by (done || lia). cbn [andb]. rewrite bind_Ok.
  set (m2 := CHeap _ _ _). assert (Hl2 : live m2 p osize b n) by by apply live_bytes.
  destruct (aligned_free_live m2 p osize b n Hl2 Hos) as [-> (m3 & Hf & Hbl3 & Hx3)]. rewrite Hf, bind_Ok. apply runs_ok. right.
  assert (Hq' := Hq). destruct Hq' as [[? _]|(b' & n' & Hp1 & _ & Hal & _ & _ & Hl' & Hbl & Hby & _)]; [done|]. cbn [fst snd] in *.
  assert (b' = b1) as ->. { destruct Hl' as (_ & _ & _ & _ & _ & _ & E1), Hl1 as (_ & _ & _ & _ & _ & _ & E2). congruence. }
  assert (n' = n1) as ->. { destruct Hl' as (_ & _ & E1 & _), Hl1 as (_ & _ & E2 & _). congruence. }
  exists b1, n1. cbn [fst snd]. split_and!; try done.
  - apply (live_after_free m2 p1 size b n b1 n1); done || lia.
  - rewrite Hbl3. cbn. by rewrite Hbl.
  - intros i Hi. destruct (Hx3 (p1 + i)) as [-> _]; [lia|]. cbn [bytes m2].
    rewrite copy_lookup, decide_True by (apply elem_of_seqZ; lia). by rewrite Hby.
Qed.

Lemma aligned_offset_recalloc_ok m p osize b n num size k offset : live m p osize b n → 0 < osize →
  1 <= k <= 63 → 0 <= offset < size * num → size * num + effective (2 ^ k) + sizeof_mem < 2 ^ 64 →
  runs (aligned_offset_recalloc malloc m p num size (2 ^ k) offset) (λ q, q.2 = 0 ∧ q.1 = m ∨
    ∃ b1 n1, live q.1 q.2 (size * num) b1 n1 ∧ 0 < q.2 ∧ (q.2 + offset) mod effective (2 ^ k) = 0 ∧
      blocks q.1 = delete b (<[b1 := n1]> (blocks m)) ∧
      ∀ i, 0 <= i < size * num → bytes q.1 !! (q.2 + i) = Some 0).
Proof.
  intros Hl Hos Hk Hoff Hsize. destruct (live_head m p osize b n Hl Hos) as [Hp Hh]. unfold sizeof_mem in *.
  assert (0 <= effective (2 ^ k)) by (unfold effective, sizeof_ptr; lia).
  unfold aligned_offset_recalloc. rewrite (proj2 (Z.eqb_neq p 0) Hp), Hh, bind_Ok. cbn [sig Z.eqb negb].
  rewrite Z.eqb_refl. cbn [negb]. rewrite (proj2 (Z.eqb_neq size 0)) by nia.
  rewrite (wrap_id 64 (size * num)) by (unfold urange; lia). set (sz := size * num) in *.
  eapply runs_bind; [by apply aligned_offset_malloc_ok|]. intros [m1 p1] Hq.
  destruct (Z.eqb_spec p1 0) as [->|Hne].
  { apply runs_ok. left. split; [done|]. destruct Hq as [[_ E]|(? & ? & ? & _)]; [done|cbn in *; lia]. }
  destruct (live_after_alloc m p osize b n sz (2 ^ k) offset (m1, p1) Hl Hos ltac:(lia) Hq Hne) as (Hlo & b1 & n1 & Hl1 & Hb1 & Hd). cbn [fst snd] in *.
  destruct (live_head m1 p1 sz b1 n1 Hl1 ltac:(lia)) as [_ Hh1]. rewrite Hh1, bind_Ok. cbn [msize].
  unfold ZeroMemory. pose proof Hl1 as (_ & _ & Gb & G1 & G2 & _). unfold sizeof_mem in *.
  rewrite (in_block_at m1 b1 n1), bind_Ok by (done || lia).
  set (m2 := CHeap _ _ _). assert (Hl2 : live m2 p osize b n) by by apply live_bytes.
  destruct (aligned_free_live m2 p osize b n Hl2 Hos) as [-> (m3 & Hf & Hbl3 & Hx3)]. rewrite Hf, bind_Ok. apply runs_ok. right.
  assert (Hq' := Hq). destruct Hq' as [[? _]|(b' & n' & Hp1 & _ & Hal & _ & _ & Hl' & Hbl & _ & _)]; [done|]. cbn [fst snd] in *.
  assert (b' = b1) as ->. { destruct Hl' as (_ & _ & _ & _ & _ & _ & E1), Hl1 as (_ & _ & _ & _ & _ & _ & E2). congruence. }
  assert (n' = n1) as ->. { destruct Hl' as (_ & _ & E1 & _), Hl1 as (_ & _ & E2 & _). congruence. }
  exists b1, n1. cbn [fst snd]. split_and!; try done.
  - apply (live_after_free m2 p1 sz b n b1 n1); done || lia.
  - rewrite Hbl3. cbn. by rewrite Hbl.
  - intros i Hi. destruct (Hx3 (p1 + i)) as [-> _]; [lia|]. cbn [bytes m2].
    rewrite zero_lookup, decide_True by (apply elem_of_seqZ; lia). done.
Qed.
End Contract.


(** ** Properties *)


(** An allocator that puts every block after the others. *)
Definition bump (m : cheap) (n : Z) : Z :=
  let top := map_fold (λ b sz acc, Z.max (b + sz) acc) 4096 (blocks m) in
  if (top + n <=? 2 ^ 64) && bool_decide (blocks m !! top = None) then top else 0.

Lemma bump_top (bs : gmap Z Z) : let top := map_fold (λ b sz acc, Z.max (b + sz) acc) 4096 bs in
  4096 <= top ∧ ∀ b sz, bs !! b = Some sz → b + sz <= top.
Proof.
  cbn zeta. apply (map_fold_weak_ind (λ acc bs, 4096 <= acc ∧ ∀ b sz, bs !! b = Some sz → b + sz <= acc)).
  - split; [lia|]. intros b sz. by rewrite lookup_empty.
  - intros b sz bs' acc _ [H1 H2]. split; [lia|]. intros b' sz'. rewrite lookup_insert.
    case_decide; [intros [= <-]; lia|]. intros Hl. specialize (H2 _ _ Hl). lia.
Qed.

Lemma bump_contract : malloc_contract bump.
Proof.
  intros m n Hn. unfold bump. destruct (bump_top (blocks m)) as [H1 H2]. revert H1 H2.
  generalize (map_fold (λ b sz acc, Z.max (b + sz) acc) 4096 (blocks m)). intros top H1 H2.
  destruct (Z.leb_spec (top + n) (2 ^ 64)); cbn [andb]; [|by left]. case_bool_decide as Hf; [right|by left].
  split_and!; [lia|lia|done|]. intros _ b' n' Hb. right. by apply H2.
Qed.

Definition empty_heap : cheap := CHeap ∅ ∅ ∅.


(** reallocating a live block answers null and changes nothing, or moves
    the block: the new one is aligned, holds the first bytes of the old one up
    to the smaller size, and the old allocation, and no other, is gone. *)
Theorem aligned_realloc_spec malloc m p osize b n size k offset : malloc_contract malloc →
  live m p osize b n → 0 < osize → 1 <= k <= 63 → 0 <= offset < size →
  size + effective (2 ^ k) + sizeof_mem < 2 ^ 64 →
  runs (aligned_offset_realloc malloc m p size (2 ^ k) offset) (realloc_post m p osize b size (2 ^ k) offset).
Proof. intros. by eapply aligned_offset_realloc_ok. Qed.

(** A block of 16 bytes at 4128, in the allocation at 4096. *)
Definition one_block : cheap :=
  CHeap {[4096 := 56]} {[4104 := AlignedMem SIGNATURE 16 4096]} (list_to_map [(4128, 7); (4129, 9)]).

Lemma one_block_live : live one_block 4128 16 4096 56.
Proof. repeat split; done. Qed.

Lemma aligned_realloc_spec_witness :
  malloc_contract bump ∧ live one_block 4128 16 4096 56 ∧ 0 < 16 ∧ 1 <= 5 <= 63 ∧ 0 <= 0 < 64 ∧
  64 + effective (2 ^ 5) + sizeof_mem < 2 ^ 64 ∧
  runs (aligned_offset_realloc bump one_block 4128 64 (2 ^ 5) 0) (realloc_post one_block 4128 16 4096 64 (2 ^ 5) 0).
Proof.
  assert (H1 := bump_contract). assert (H2 := one_block_live). assert (H3 : 0 < 16) by lia.
  assert (H4 : 1 <= 5 <= 63) by lia. assert (H5 : 0 <= 0 < 64) by lia.
  assert (H6 : 64 + effective (2 ^ 5) + sizeof_mem < 2 ^ 64) by done.
  split; [exact H1|]. split; [exact H2|]. split; [exact H3|]. split; [exact H4|]. split; [exact H5|]. split; [exact H6|].
  exact (aligned_realloc_spec bump one_block 4128 16 4096 56 64 5 0 H1 H2 H3 H4 H5 H6).
Defined.

(** [_aligned_offset_recalloc] of a live block answers a zeroed block in
    place of the old one (or null, changing nothing); but given a null pointer
    it allocates and zeroes a block and still answers null, so the block is
    lost. *)
Theorem aligned_recalloc_spec malloc m num size k offset : malloc_contract malloc →
  1 <= k <= 63 → 0 <= offset < size * num → size * num + effective (2 ^ k) + sizeof_mem < 2 ^ 64 →
  (∀ p osize b n, live m p osize b n → 0 < osize →
    runs (aligned_offset_recalloc malloc m p num size (2 ^ k) offset) (λ q, q.2 = 0 ∧ q.1 = m ∨
      ∃ b1 n1, live q.1 q.2 (size * num) b1 n1 ∧ 0 < q.2 ∧ (q.2 + offset) mod effective (2 ^ k) = 0 ∧
        blocks q.1 = delete b (<[b1 := n1]> (blocks m)) ∧
        ∀ i, 0 <= i < size * num → bytes q.1 !! (q.2 + i) = Some 0)) ∧
  runs (aligned_offset_recalloc malloc m 0 num size (2 ^ k) offset) (λ q, q.2 = 0 ∧
    (q.1 = m ∨ ∃ b n, blocks m !! b = None ∧ blocks q.1 = <[b := n]> (blocks m))).
Proof.
  intros Hm Hk Hoff Hs. split; [intros; by eapply aligned_offset_recalloc_ok|].
  unfold aligned_offset_recalloc. cbn [Z.eqb].
  rewrite (wrap_id 64 (size * num)) by (unfold urange, effective, sizeof_ptr, sizeof_mem in *; lia).
  eapply runs_bind; [by apply (aligned_offset_malloc_ok malloc Hm)|]. intros [m1 p1] Hq.
  destruct (Z.eqb_spec p1 0) as [->|Hne]; cbn [negb].
  - rewrite bind_Ok. apply runs_ok. split; [done|]. left. destruct Hq as [[_ ?]|(? & ? & ? & _)]; [done|cbn in *; lia].
  - destruct Hq as [[? _]|(b & n & Hp & _ & _ & Hf & _ & Hl & Hb & _)]; [done|]. cbn [fst snd] in *.
    assert (Hpos : 0 < size * num) by lia. destruct (live_head m1 p1 _ b n Hl Hpos) as [_ ->]. rewrite bind_Ok. cbn [msize].
    pose proof Hl as (_ & _ & Gb & G1 & G2 & _). unfold ZeroMemory, sizeof_mem in *.
    rewrite (in_block_at m1 b n), !bind_Ok by (done || lia). apply runs_ok. split; [done|]. right. by exists b, n.
Qed.

Lemma aligned_recalloc_spec_witness :
  malloc_contract bump ∧ 1 <= 4 <= 63 ∧ 0 <= 0 < 8 * 4 ∧ 8 * 4 + effective (2 ^ 4) + sizeof_mem < 2 ^ 64 ∧
  runs (aligned_offset_recalloc bump one_block 0 4 8 (2 ^ 4) 0) (λ q, q.2 = 0 ∧
    (q.1 = one_block ∨ ∃ b n, blocks one_block !! b = None ∧ blocks q.1 = <[b := n]> (blocks one_block))).
Proof.
  assert (H1 := bump_contract). assert (H2 : 1 <= 4 <= 63) by lia. assert (H3 : 0 <= 0 < 8 * 4) by lia.
  assert (H4 : 8 * 4 + effective (2 ^ 4) + sizeof_mem < 2 ^ 64) by done.
  split; [exact H1|]. split; [exact H2|]. split; [exact H3|]. split; [exact H4|].
  exact (proj2 (aligned_recalloc_spec bump one_block 4 8 4 0 H1 H2 H3 H4)).
Defined.

(** the arguments are not checked enough: a size close to [SIZE_MAX] wraps
    around in the request to [malloc], and the header is written outside the
    16 bytes that are allocated; an even alignment that is not a power of two is
    accepted and the answer is not aligned. *)
Theorem aligned_malloc_unchecked malloc m : malloc_contract malloc → malloc m 16 ≠ 0 → malloc m 16 + 64 <= 2 ^ 64 →
  aligned_malloc malloc m (2 ^ 64 - 16) 8 = UB ∧
  ∃ q, aligned_malloc bump empty_heap 100 12 = Ok q ∧ q.2 mod 12 = 4.
Proof.
  intros Hm Hne Hlow. split; [|eexists; split; [vm_compute; reflexivity|done]].
  destruct (Hm m 16) as [?|(Hb & Hbn & Hf & Hd)]; [done|done|]. specialize (Hd ltac:(lia)).
  unfold aligned_malloc, aligned_offset_malloc.
  change (8 mod 2 =? 1) with false. change (2 ^ 64 - 16 <=? 0) with false. change (8 <? sizeof_ptr) with false. cbn iota.
  change (u64 (u64 (2 ^ 64 - 16 + 8) + sizeof_mem)) with 16.
  set (b := malloc m 16) in *. rewrite (proj2 (Z.eqb_neq b 0)) by done. cbn zeta. clearbody b.
  unfold write_head. set (p := MEM_STRUCT_FROM_PTR _).
  assert (Hp : p = b + 8 - (b + 32) mod 8).
  { subst p. unfold sizeof_mem, MEM_STRUCT_FROM_PTR. change (8 - 1) with (2 ^ 3 - 1).
    replace (b + 8 + 0 + 24) with (b + 32) by lia. rewrite (wrap_id 64 (b + 32)), mask_down by (unfold urange; lia).
    change (2 ^ 3) with 8. unfold sizeof_mem. rewrite (wrap_id 64 (b + 32 - _ - 0)) by (unfold urange; lia).
    rewrite wrap_id by (unfold urange; lia). lia. }
  clearbody p. unfold in_block, sizeof_mem. rewrite bool_decide_false; [done|]. cbn [blocks].
  intros (b' & n' & Hb' & H1 & H2)%map_Exists_lookup_1. rewrite lookup_insert in Hb'. case_decide; [simplify_eq; lia|].
  specialize (Hd _ _ Hb'). lia.
Qed.

Lemma aligned_malloc_unchecked_witness :
  malloc_contract bump ∧ bump empty_heap 16 ≠ 0 ∧ bump empty_heap 16 + 64 <= 2 ^ 64 ∧
  aligned_malloc bump empty_heap (2 ^ 64 - 16) 8 = UB ∧
  (∃ q, aligned_malloc bump empty_heap 100 12 = Ok q ∧ q.2 mod 12 = 4).
Proof.
  assert (H1 := bump_contract). assert (H2 : bump empty_heap 16 ≠ 0) by done.
  assert (H3 : bump empty_heap 16 + 64 <= 2 ^ 64) by done.
  split; [exact H1|]. split; [exact H2|]. split; [exact H3|]. exact (aligned_malloc_unchecked bump empty_heap H1 H2 H3).
Defined.
