(* ===== verification/Timer.v ===== *)
(** Timer queues (src/libuzi/timer.c, src/libuzi/synch.h).

    Time arithmetic, the linked lists of active and inactive timers on a heap of
    nodes, and the operations of a queue. The time of day is a parameter of the
    operations that read it; the calls of the timers' callbacks are logged. *)

From stdpp Require Import list gmap.
From S2P Require Import Prelude Interlocked Critical.

Set Warnings "-clear-no-such-hyp".

(** ** Time *)

Record timespec := Timespec { tv_sec : Z; tv_nsec : Z }.

(** [ms * 1000000] is a product of 32-bit unsigned integers. *)
Definition timespec_add_ms (t : timespec) (ms : Z) : timespec :=
  let ns := u64 (tv_nsec t + u32 (ms * 1000000)) in
  Timespec (s64 (tv_sec t + ns / 1000000000)) (ns mod 1000000000).

Definition timespec_to_ms (t : timespec) : Z :=
  let ms := u64 (tv_sec t * 1000) in u64 (ms + tv_nsec t ÷ 1000000).

(** [gettimeofday] answers seconds and microseconds. *)
Definition timespec_gettimeofday (tv : Z * Z) : timespec := Timespec tv.1 (tv.2 * 1000).

(** The difference is returned as an [int]. *)
Definition timespec_compare (a b : timespec) : Z :=
  if tv_sec a =? tv_sec b then s32 (tv_nsec a - tv_nsec b) else s32 (tv_sec a - tv_sec b).

Definition timespec_copy (src : timespec) : timespec := Timespec (tv_sec src) (tv_nsec src).

(** ** Timers and queues *)

Record TIMER := QueueTimer {
  Flags : Z; DueTime : Z; Period : Z; Param : Z; Callback : Z; FireCount : Z;
  StartTime : timespec; ExpirationTime : timespec; tnext : Z }.
Abbreviation theap := (gmap Z TIMER).

Definition set_tnext p (t : TIMER) : TIMER :=
  QueueTimer (Flags t) (DueTime t) (Period t) (Param t) (Callback t) (FireCount t) (StartTime t) (ExpirationTime t) p.
Definition set_FireCount n (t : TIMER) : TIMER :=
  QueueTimer (Flags t) (DueTime t) (Period t) (Param t) (Callback t) n (StartTime t) (ExpirationTime t) (tnext t).
Definition set_ExpirationTime e (t : TIMER) : TIMER :=
  QueueTimer (Flags t) (DueTime t) (Period t) (Param t) (Callback t) (FireCount t) (StartTime t) e (tnext t).
Definition set_schedule due period start (t : TIMER) : TIMER :=
  QueueTimer (Flags t) due period (Param t) (Callback t) (FireCount t) start start (tnext t).

(** A queue: its nodes, its two lists, whether it is cancelled, and the
    callbacks called so far with their parameters. *)
Record TIMER_QUEUE := TimerQueue {
  nodes : theap; activeHead : Z; inactiveHead : Z; bCancelled : bool; fired : list (Z * Z) }.

(** *** The list operations: the head pointer is read and written *)

Definition walk_fuel (h : theap) : nat := S (S (size h)).

(** The loop that looks for the place: the node after which the timer goes. *)
Definition insert_body (h : theap) (timer : Z) (node : Z) : res (Z + Z) :=
  n ← get h node;
  if tnext n =? 0 then Ok (inr node)
  else
    t ← get h timer;
    m ← get h (tnext n);
    if (0 <? timespec_compare (ExpirationTime t) (ExpirationTime n)) &&
       (timespec_compare (ExpirationTime t) (ExpirationTime m) <? 0)
    then Ok (inr node) else Ok (inl (tnext n)).

Definition InsertTimerQueueTimer (h : theap) (pHead timer : Z) : res (theap * Z) :=
  if pHead =? 0 then
    h ← upd (set_tnext 0) h timer;
    Ok (h, timer)
  else
    node ← loop (walk_fuel h) (insert_body h timer) pHead;
    n ← get h node;
    if negb (tnext n =? 0) then
      m ← get h (tnext n);
      h ← upd (set_tnext (tnext m)) h timer;
      h ← upd (set_tnext timer) h node;
      Ok (h, pHead)
    else
      h ← upd (set_tnext timer) h node;
      h ← upd (set_tnext 0) h timer;
      Ok (h, pHead).

Definition find_body (h : theap) (timer : Z) (st : Z * Z) : res (Z * Z + Z * bool) :=
  let '(prevNode, node) := st in
  if node =? 0 then Ok (inr (prevNode, false))
  else if node =? timer then Ok (inr (prevNode, true))
  else n ← get h node; Ok (inl (node, tnext n)).

Definition RemoveTimerQueueTimer (h : theap) (pHead timer : Z) : res (theap * Z) :=
  if timer =? pHead then
    t ← get h timer;
    h ← upd (set_tnext 0) h timer;
    Ok (h, tnext t)
  else
    r ← loop (walk_fuel h) (find_body h timer) (0, pHead);
    let '(prevNode, found) := r in
    if found : bool then
      h ← (if negb (prevNode =? 0) then t ← get h timer; upd (set_tnext (tnext t)) h prevNode else Ok h);
      h ← upd (set_tnext 0) h timer;
      Ok (h, pHead)
    else Ok (h, pHead).

(** *** Firing *)

(** One round of the loop: the first active timer, if it has expired, is
    called, counted and put back (periodic) or among the inactive ones. *)
Definition fire_body (now : timespec) (st : TIMER_QUEUE * Z) : res (TIMER_QUEUE * Z + TIMER_QUEUE) :=
  let '(q, node) := st in
  if node =? 0 then Ok (inr q)
  else
    n ← get (nodes q) node;
    if 0 <=? timespec_compare now (ExpirationTime n) then
      let log := fired q ++ [(Callback n, Param n)] in
      count ← sadd (FireCount n) 1;
      h ← upd (set_FireCount count) (nodes q) node;
      let active := tnext n in
      h ← upd (set_tnext 0) h node;
      if negb (Period n =? 0) then
        h ← upd (set_ExpirationTime (timespec_add_ms (ExpirationTime n) (Period n))) h node;
        r ← InsertTimerQueueTimer h active node;
        Ok (inl (TimerQueue r.1 r.2 (inactiveHead q) (bCancelled q) log, r.2))
      else
        r ← InsertTimerQueueTimer h (inactiveHead q) node;
        Ok (inl (TimerQueue r.1 active r.2 (bCancelled q) log, active))
    else Ok (inr q).

Definition FireExpiredTimerQueueTimers (fuel : nat) (now : timespec) (q : TIMER_QUEUE) : res TIMER_QUEUE :=
  if activeHead q =? 0 then Ok q else loop fuel (fire_body now) (q, activeHead q).

(** *** The operations of a queue (each under its mutex) *)

Definition CreateTimerQueue : TIMER_QUEUE := TimerQueue ∅ 0 0 false [].

(** [malloc]: the address of the node, 0 on failure. *)
Definition CreateTimerQueueTimer (malloc : Z) (now : timespec) (q : TIMER_QUEUE)
    (callback param due period flags : Z) : res (TIMER_QUEUE * bool) :=
  if malloc =? 0 then Ok (q, false)
  else
    let timer := malloc in
    let start := timespec_add_ms (timespec_copy now) due in
    let h := <[timer := QueueTimer flags due period param callback 0 start (timespec_copy start) 0]> (nodes q) in
    r ← InsertTimerQueueTimer h (activeHead q) timer;
    Ok (TimerQueue r.1 r.2 (inactiveHead q) (bCancelled q) (fired q), true).

Definition ChangeTimerQueueTimer (now : timespec) (q : TIMER_QUEUE) (timer due period : Z) : res (TIMER_QUEUE * bool) :=
  if timer =? 0 then Ok (q, false)
  else
    r ← RemoveTimerQueueTimer (nodes q) (activeHead q) timer;
    let '(h, active) := r in
    r ← RemoveTimerQueueTimer h (inactiveHead q) timer;
    let '(h, inactive) := r in
    h ← upd (set_schedule due period (timespec_add_ms (timespec_copy now) due)) h timer;
    h ← upd (set_tnext 0) h timer;
    r ← InsertTimerQueueTimer h active timer;
    Ok (TimerQueue r.1 r.2 inactive (bCancelled q) (fired q), true).

Definition DeleteTimerQueueTimer (q : TIMER_QUEUE) (timer : Z) : res (TIMER_QUEUE * bool) :=
  if timer =? 0 then Ok (q, false)
  else
    r ← RemoveTimerQueueTimer (nodes q) (activeHead q) timer;
    match r.1 !! timer with
    | None => UB
    | Some _ => Ok (TimerQueue (delete timer r.1) r.2 (inactiveHead q) (bCancelled q) (fired q), true)
    end.

(** The two loops of [DeleteTimerQueueEx], after the thread has been joined. *)
Definition move_body (st : theap * Z * Z) : res (theap * Z * Z + theap * Z) :=
  let '(h, inactive, node) := st in
  if node =? 0 then Ok (inr (h, inactive))
  else
    r ← InsertTimerQueueTimer h inactive node;
    n ← get r.1 node;
    Ok (inl (r.1, r.2, tnext n)).

Definition free_body (st : theap * Z) : res (theap * Z + theap) :=
  let '(h, node) := st in
  if node =? 0 then Ok (inr h)
  else n ← get h node; Ok (inl (delete node h, tnext n)).

Definition DeleteTimerQueueEx (fuel : nat) (q : TIMER_QUEUE) : res (theap * bool) :=
  r ← loop fuel move_body (nodes q, inactiveHead q, activeHead q);
  h ← loop fuel free_body r;
  Ok (h, true).

Definition DeleteTimerQueue (fuel : nat) (q : TIMER_QUEUE) : res (theap * bool) := DeleteTimerQueueEx fuel q.

(** ** Time arithmetic *)

Definition valid_time (t : timespec) : Prop := 0 <= tv_nsec t < 1000000000.
Definition total_ns (t : timespec) : Z := tv_sec t * 1000000000 + tv_nsec t.

Lemma add_ms_total t ms : valid_time t → urange 32 ms → - 2 ^ 62 <= tv_sec t <= 2 ^ 62 →
  valid_time (timespec_add_ms t ms) ∧
  total_ns (timespec_add_ms t ms) = total_ns t + (ms * 1000000) mod 2 ^ 32.
Proof.
  unfold valid_time, total_ns, timespec_add_ms. intros Hn Hms Hs. cbn [tv_sec tv_nsec].
  pose proof (wrap_range 32 (ms * 1000000) ltac:(lia)) as Hu. unfold urange in *.
  rewrite (wrap_id 64) by (unfold urange; lia). change (u32 (ms * 1000000)) with ((ms * 1000000) mod 2 ^ 32) in *.
  generalize dependent ((ms * 1000000) mod 2 ^ 32). intros x Hx.
  rewrite (swrap_id 64); [|lia|]; [lia|unfold srange; lia].
Qed.

(** Times of the first 68 years. *)
Definition sane (t : timespec) : Prop := valid_time t ∧ 0 <= tv_sec t < 2 ^ 31.

Lemma compare_sign a b : valid_time a → valid_time b → - 2 ^ 31 <= tv_sec a - tv_sec b < 2 ^ 31 →
  (timespec_compare a b < 0 ↔ total_ns a < total_ns b) ∧ (timespec_compare a b = 0 ↔ total_ns a = total_ns b).
Proof.
  unfold valid_time, total_ns, timespec_compare. intros Ha Hb Hd.
  destruct (Z.eqb_spec (tv_sec a) (tv_sec b)) as [E|E]; rewrite swrap_id by (unfold srange; lia); lia.
Qed.

Lemma compare_le a b : sane a → sane b → (0 <=? timespec_compare a b) = true ↔ total_ns b <= total_ns a.
Proof.
  intros [Ha Has] [Hb Hbs]. destruct (compare_sign a b Ha Hb ltac:(lia)) as [H1 H2]. rewrite Z.leb_le. lia.
Qed.

(** ** Lists of timers *)

(** The list from [p] to [q]. *)
Fixpoint tseg (h : theap) (p : Z) (l : list Z) (q : Z) : Prop :=
  match l with
  | [] => p = q
  | a :: l => p = a ∧ a ≠ 0 ∧ ∃ t, h !! a = Some t ∧ tseg h (tnext t) l q
  end.

Definition erase (h : theap) (a : Z) : option TIMER := set_tnext 0 <$> h !! a.
(** Only links have changed. *)
Definition same_timers (h h' : theap) : Prop := ∀ a, erase h' a = erase h a.

Definition expiration (h : theap) (a : Z) : timespec :=
  match h !! a with Some t => ExpirationTime t | None => Timespec 0 0 end.
Definition cmp (h : theap) (a b : Z) : Z := timespec_compare (expiration h a) (expiration h b).

(** What [InsertTimerQueueTimer] makes of a list: the timer goes after the
    first entry it is later than, if it is earlier than the following one --
    which is dropped -- and at the end otherwise. *)
Fixpoint insert_spec (c : Z → Z → Z) (t : Z) (l : list Z) : list Z :=
  match l with
  | [] => [t]
  | a :: l' =>
      match l' with
      | [] => [a; t]
      | b :: rest => if (0 <? c t a) && (c t b <? 0) then a :: t :: rest else a :: insert_spec c t l'
      end
  end.

Lemma same_refl h : same_timers h h.
Proof. done. Qed.

Lemma same_trans h1 h2 h3 : same_timers h1 h2 → same_timers h2 h3 → same_timers h1 h3.
Proof. intros H1 H2 a. by rewrite H2. Qed.

Lemma same_set_tnext h p v : same_timers h (alter (set_tnext v) p h).
Proof.
  intros a. unfold erase. destruct (decide (p = a)) as [->|]; [|by rewrite lookup_alter_ne].
  rewrite lookup_alter_eq. by destruct (h !! a).
Qed.

Lemma same_is_Some h h' a : same_timers h h' → is_Some (h' !! a) ↔ is_Some (h !! a).
Proof. intros H. specialize (H a). unfold erase in H. rewrite <- (fmap_is_Some (set_tnext 0)), H. by rewrite fmap_is_Some. Qed.

Lemma same_expiration h h' a : same_timers h h' → expiration h' a = expiration h a.
Proof.
  intros H. specialize (H a). unfold erase, expiration in *. destruct (h' !! a), (h !! a); cbn in H; try done.
  injection H. by intros -> _.
Qed.

Lemma same_cmp h h' a b : same_timers h h' → cmp h' a b = cmp h a b.
Proof. intros H. unfold cmp. by rewrite !(same_expiration h h'). Qed.

Lemma insert_spec_ext c c' t l : (∀ x, c t x = c' t x) → insert_spec c t l = insert_spec c' t l.
Proof.
  intros H. induction l as [|a l IH]; [done|]. destruct l as [|b l]; [done|].
  change (insert_spec c t (a :: b :: l)) with (if (0 <? c t a) && (c t b <? 0) then a :: t :: l else a :: insert_spec c t (b :: l)).
  change (insert_spec c' t (a :: b :: l)) with (if (0 <? c' t a) && (c' t b <? 0) then a :: t :: l else a :: insert_spec c' t (b :: l)).
  by rewrite !H, IH.
Qed.

Lemma tseg_frame h h' p l q : (∀ x, x ∈ l → h' !! x = h !! x) → tseg h p l q → tseg h' p l q.
Proof.
  revert p. induction l as [|a l IH]; intros p Hf; cbn; [done|].
  intros (-> & Ha & t & Ht & Hl). split_and!; [done..|]. exists t. rewrite Hf by constructor. split; [done|].
  apply IH; [|done]. intros x Hx. apply Hf. by constructor.
Qed.

Lemma tseg_app h p l1 l2 q : tseg h p (l1 ++ l2) q ↔ ∃ m, tseg h p l1 m ∧ tseg h m l2 q.
Proof.
  revert p. induction l1 as [|a l1 IH]; intros p; cbn.
  - split; [by eauto|by intros (m & -> & ?)].
  - split.
    + intros (-> & ? & t & Ht & (m & H1 & H2)%IH). exists m. eauto 10.
    + intros (m & (-> & ? & t & Ht & H1) & H2). split_and!; [done..|]. exists t. split; [done|]. apply IH. eauto.
Qed.

(** Redirecting the last entry of a segment. *)
Lemma tseg_retarget h p l b q q' : tseg h p (l ++ [b]) q → NoDup (l ++ [b]) →
  tseg (alter (set_tnext q') b h) p (l ++ [b]) q'.
Proof.
  intros (m & H1 & H2)%tseg_app (_ & Hd & _)%NoDup_app. apply tseg_app. exists m. split.
  - apply (tseg_frame h); [|done]. intros x Hx. apply lookup_alter_ne. intros ->. apply (Hd x Hx). constructor.
  - destruct H2 as (-> & Hb & t & Ht & _). split_and!; [done..|]. exists (set_tnext q' t). by rewrite lookup_alter_eq, Ht.
Qed.

Lemma tseg_dom h p l q x : tseg h p l q → x ∈ l → is_Some (h !! x) ∧ x ≠ 0.
Proof.
  revert p. induction l as [|a l IH]; intros p; cbn; [by intros _ ?%not_elem_of_nil|].
  intros (_ & Ha & t & Ht & Hl) [->|Hx]%elem_of_cons; [by split|by eapply IH].
Qed.

Lemma tseg_head h p l : tseg h p l 0 → p = hd 0 l.
Proof. destruct l; cbn; tauto. Qed.

Lemma tseg_length h p l q : tseg h p l q → NoDup l → (length l < walk_fuel h)%nat.
Proof.
  intros Hs Hnd. unfold walk_fuel. enough (length l ≤ size h)%nat by lia.
  rewrite <- (size_dom (D:=gset Z)), <- (size_list_to_set (C:=gset Z)) by done. apply subseteq_size.
  intros x Hx%elem_of_list_to_set. apply elem_of_dom. by eapply tseg_dom.
Qed.

(** *** Insertion *)

Lemma insert_body_test h t a b n tt m : h !! a = Some n → tnext n = b → b ≠ 0 → h !! t = Some tt → h !! b = Some m →
  insert_body h t a = Ok (if (0 <? cmp h t a) && (cmp h t b <? 0) then inr a else inl b).
Proof.
  intros Hn <- Hb Ht Hm. unfold insert_body, cmp, expiration.
  rewrite (get_ok _ _ _ Hn), bind_Ok, (proj2 (Z.eqb_neq _ 0)), (get_ok _ _ _ Ht), bind_Ok, (get_ok _ _ _ Hm), bind_Ok by done.
  rewrite Hn, Ht, Hm. by destruct (_ && _).
Qed.

Lemma insert_loop h t : is_Some (h !! t) → ∀ l fuel p, l ≠ [] → tseg h p l 0 → (length l ≤ fuel)%nat →
  ∃ l1 a l2, l = l1 ++ a :: l2 ∧ loop fuel (insert_body h t) p = Ok a ∧
    insert_spec (cmp h) t l = l1 ++ a :: t :: tail l2.
Proof.
  intros [tt Ht]. induction l as [|a l IH]; intros [|fuel] p Hne Hl Hf; cbn [length] in *; try done; try lia.
  destruct Hl as (-> & Ha & n & Hn & Hl). cbn [loop]. destruct l as [|b rest].
  - exists [], a, []. split; [done|]. split; [|done]. cbn in Hl. unfold insert_body.
    by rewrite (get_ok _ _ _ Hn), bind_Ok, Hl.
  - pose proof Hl as (Eb & Hb & m & Hm & Hrest).
    rewrite (insert_body_test h t a b n tt m Hn Eb Hb Ht Hm), !bind_Ok.
    change (insert_spec (cmp h) t (a :: b :: rest)) with
      (if (0 <? cmp h t a) && (cmp h t b <? 0) then a :: t :: rest else a :: insert_spec (cmp h) t (b :: rest)).
    destruct ((0 <? cmp h t a) && (cmp h t b <? 0)).
    + by exists [], a, (b :: rest).
    + rewrite Eb in Hl. destruct (IH fuel b) as (l1 & c & l2 & E & Hlp & Hs); [done|done|lia|].
      exists (a :: l1), c, l2. rewrite Hs. split; [by rewrite E|]. by split.
Qed.

Definition insert_post (h : theap) (t : Z) (l : list Z) (r : theap * Z) : Prop :=
  tseg r.1 r.2 (insert_spec (cmp h) t l) 0 ∧ same_timers h r.1 ∧ ∀ x, x ∉ t :: l → r.1 !! x = h !! x.

Lemma insert_ok h p l t : tseg h p l 0 → NoDup l → t ∉ l → t ≠ 0 → is_Some (h !! t) →
  runs (InsertTimerQueueTimer h p t) (insert_post h t l).
Proof.
  intros Hl Hnd Ht Ht0 Hs. unfold InsertTimerQueueTimer. rewrite (tseg_head _ _ _ Hl).
  destruct (decide (l = [])) as [->|Hne].
  - cbn [hd Z.eqb]. rewrite upd_ok, bind_Ok by done. apply runs_ok. destruct Hs as [tt Htt].
    unfold insert_post. cbn [fst snd insert_spec tseg]. split; [|split; [apply same_set_tnext|]].
    + split_and!; [done..|]. exists (set_tnext 0 tt). by rewrite lookup_alter_eq, Htt.
    + intros x Hx. cbn. rewrite lookup_alter_ne; [done|]. intros ->. apply Hx. constructor.
  - assert (Hp : hd 0 l ≠ 0). { rewrite <- (tseg_head _ _ _ Hl). destruct l; [done|]. by destruct Hl as (-> & ? & _). }
    rewrite (proj2 (Z.eqb_neq _ 0)) by done. rewrite <- (tseg_head _ _ _ Hl).
    destruct (insert_loop h t Hs l (walk_fuel h) p Hne Hl) as (l1 & a & l2 & El & -> & Hspec).
    { pose proof (tseg_length _ _ _ _ Hl Hnd). lia. }
    rewrite bind_Ok. unfold insert_post. rewrite Hspec. subst l.
    pose proof Hl as (m0 & Hl1 & Ea & Ha & n & Hn & Hl2)%tseg_app. subst m0.
    assert (Hta : a ≠ t) by (intros ->; apply Ht; rewrite elem_of_app, elem_of_cons; auto).
    replace (l1 ++ a :: l2) with ((l1 ++ [a]) ++ l2) in * by (by rewrite <- app_assoc).
    replace (l1 ++ a :: t :: tail l2) with ((l1 ++ [a]) ++ t :: tail l2) by (by rewrite <- app_assoc).
    apply NoDup_app in Hnd as (Hnd1 & Hdis & Hnd2). apply not_elem_of_app in Ht as [Ht1 Ht2].
    assert (Hal2 : a ∉ l2) by (apply Hdis, elem_of_app; right; constructor).
    assert (Hseg : tseg h p (l1 ++ [a]) (tnext n)) by (apply tseg_app; exists a; split; [exact Hl1|]; split_and!; [done|exact Ha|by exists n]).
    rewrite (get_ok _ _ _ Hn), bind_Ok. rewrite (tseg_head _ _ _ Hl2). destruct Hs as [tt Htt].
    destruct l2 as [|b rest]; cbn [hd tail].
    + cbn [Z.eqb negb]. rewrite upd_ok, bind_Ok, upd_ok, bind_Ok by (rewrite ?lookup_alter_is_Some; eauto).
      apply runs_ok. cbn [fst snd]. split; [|split].
      * apply tseg_app. exists t. split.
        -- apply (tseg_frame (alter (set_tnext t) a h)); [|by apply (tseg_retarget _ _ _ _ (tnext n))].
           intros x Hx. apply lookup_alter_ne. by intros ->.
        -- split_and!; [done..|]. exists (set_tnext 0 tt). by rewrite lookup_alter_eq, lookup_alter_ne, Htt.
      * eapply same_trans; apply same_set_tnext.
      * intros x Hx. rewrite !lookup_alter_ne; [done|..]; intros ->; apply Hx; set_solver.
    + destruct Hl2 as (_ & Hb & m & Hm & Hrest). rewrite (proj2 (Z.eqb_neq b 0)) by done. cbn [negb].
      rewrite (get_ok _ _ _ Hm), bind_Ok, upd_ok, bind_Ok, upd_ok, bind_Ok by (rewrite ?lookup_alter_is_Some; eauto).
      apply runs_ok. cbn [fst snd]. apply not_elem_of_cons in Ht2 as [_ Htr]. apply not_elem_of_cons in Hal2 as [_ Har].
      split; [|split].
      * apply tseg_app. exists t. split.
        -- apply (tseg_retarget _ _ _ _ (tnext n)); [|done]. apply (tseg_frame h); [|done].
           intros x Hx. apply lookup_alter_ne. by intros ->.
        -- split_and!; [done..|]. exists (set_tnext (tnext m) tt). rewrite lookup_alter_ne, lookup_alter_eq, Htt by done.
           split; [done|]. apply (tseg_frame h); [|done]. intros x Hx. rewrite !lookup_alter_ne by (by intros ->). done.
      * eapply same_trans; apply same_set_tnext.
      * intros x Hx. rewrite !lookup_alter_ne; [done|..]; intros ->; apply Hx; set_solver.
Qed.

(** *** Removal *)

Lemma find_none h t l : ∀ fuel prev p, tseg h p l 0 → t ∉ l → (length l < fuel)%nat →
  ∃ prev', loop fuel (find_body h t) (prev, p) = Ok (prev', false).
Proof.
  induction l as [|a l IH]; intros [|fuel] prev p Hl Ht Hf; cbn [length] in *; try lia; cbn [tseg] in Hl.
  - subst p. by exists prev.
  - destruct Hl as (-> & Ha & n & Hn & Hl). apply not_elem_of_cons in Ht as [Hta Ht]. cbn [loop find_body].
    rewrite (proj2 (Z.eqb_neq a 0)), (proj2 (Z.eqb_neq a t)), (get_ok _ _ _ Hn), !bind_Ok by done. by apply IH; [..|lia].
Qed.

Lemma find_some h t l2 l1 : ∀ fuel prev p, tseg h p (l1 ++ t :: l2) 0 → t ∉ l1 → (length l1 < fuel)%nat →
  loop fuel (find_body h t) (prev, p) = Ok (List.last l1 prev, true).
Proof.
  induction l1 as [|a l1 IH]; intros [|fuel] prev p Hl Ht Hf; cbn [length] in *; try lia; cbn [tseg app] in Hl.
  - destruct Hl as (-> & Ha & _). cbn. by rewrite (proj2 (Z.eqb_neq t 0)), Z.eqb_refl by done.
  - destruct Hl as (-> & Ha & n & Hn & Hl). apply not_elem_of_cons in Ht as [Hta Ht]. cbn [loop find_body].
    rewrite (proj2 (Z.eqb_neq a 0)), (proj2 (Z.eqb_neq a t)), (get_ok _ _ _ Hn), !bind_Ok by done.
    rewrite last_cons_default. by apply IH; [..|lia].
Qed.

Definition remove_post (h : theap) (t p : Z) (l : list Z) (r : theap * Z) : Prop :=
  tseg r.1 r.2 (remove_entry t l) 0 ∧ same_timers h r.1 ∧ (∀ x, x ∉ t :: l → r.1 !! x = h !! x) ∧
  (t ∉ l → r = (h, p)).

Lemma remove_ok h p l t : tseg h p l 0 → NoDup l → t ≠ 0 → is_Some (h !! t) →
  runs (RemoveTimerQueueTimer h p t) (remove_post h t p l).
Proof.
  intros Hl Hnd Ht0 Hs. unfold RemoveTimerQueueTimer, remove_post, remove_entry.
  pose proof (tseg_length _ _ _ _ Hl Hnd) as Hlen. destruct (decide (t ∈ l)) as [Hin|Hout].
  - apply list_elem_of_split in Hin as (l1 & l2 & ->). pose proof Hl as (m & Hl1 & E & _ & n & Hn & Hl2)%tseg_app. subst m.
    apply NoDup_app in Hnd as (Hnd1 & Hdis & [Ht2 Hnd2]%NoDup_cons).
    assert (Ht1 : t ∉ l1) by (intros Hx; apply (Hdis t Hx); constructor).
    rewrite filter_split by (apply NoDup_app; split_and!; [done..|by constructor]).
    assert (Hl2' : ∀ v, tseg (alter (set_tnext v) t h) (tnext n) l2 0).
    { intros v. apply (tseg_frame h); [|done]. intros x Hx. apply lookup_alter_ne. by intros ->. }
    destruct l1 as [|b l1 _] using rev_ind.
    + cbn in Hl1. subst p. rewrite Z.eqb_refl, (get_ok _ _ _ Hn), bind_Ok, upd_ok, bind_Ok by eauto.
      apply runs_ok. cbn [fst snd app]. split_and!; [done|apply same_set_tnext| |].
      * intros x Hx. apply lookup_alter_ne. intros ->. apply Hx. constructor.
      * intros Hx. destruct Hx. constructor.
    + assert (Hb0 : b ≠ 0 ∧ is_Some (h !! b)).
      { destruct (tseg_dom _ _ _ _ b Hl1); [apply elem_of_app; right; constructor|done]. }
      assert (Hbt : b ≠ t) by (intros ->; apply Ht1, elem_of_app; right; constructor).
      assert (Hpt : t ≠ p). { rewrite (tseg_head _ _ _ Hl). intros E. apply Ht1. rewrite E. destruct l1; cbn; constructor. }
      rewrite (proj2 (Z.eqb_neq t p)) by done. destruct Hb0 as [Hb0 Hbs].
      rewrite (find_some h t l2 (l1 ++ [b])), bind_Ok; [|done|done|].
      2:{ rewrite length_app in Hlen. cbn [length] in Hlen. lia. }
      rewrite last_last, (proj2 (Z.eqb_neq b 0)) by done. cbn [negb].
      rewrite (get_ok _ _ _ Hn), bind_Ok, upd_ok, bind_Ok, upd_ok, bind_Ok by (rewrite ?lookup_alter_is_Some; eauto).
      apply runs_ok. cbn [fst snd]. split_and!.
      * apply tseg_app. exists (tnext n). split.
        -- apply (tseg_frame (alter (set_tnext (tnext n)) b h)); [|by apply (tseg_retarget _ _ _ _ t)].
           intros x Hx. apply lookup_alter_ne. by intros ->.
        -- apply (tseg_frame h); [|done]. intros x Hx. rewrite !lookup_alter_ne; [done|..]; intros ->; [|done].
           apply (Hdis x); [apply elem_of_app; right|]; by constructor.
      * eapply same_trans; apply same_set_tnext.
      * intros x Hx. rewrite !lookup_alter_ne; [done|..]; intros ->; apply Hx; set_solver.
      * intros Hx. destruct Hx. rewrite elem_of_app. right. constructor.
  - assert (Hpt : t ≠ p). { rewrite (tseg_head _ _ _ Hl). intros E. destruct l as [|a l]; cbn in E; [done|]. subst. apply Hout. constructor. }
    rewrite (proj2 (Z.eqb_neq t p)) by done. destruct (find_none h t l (walk_fuel h) 0 p Hl Hout Hlen) as [prev' ->].
    rewrite bind_Ok. apply runs_ok. rewrite filter_not_in by done. cbn [fst snd]. split_and!; done.
Qed.

(** *** What insertion does to a list *)

(** Appended, or put in the place of the entry that follows its place. *)
Inductive inserted (c : Z → Z → Z) (t : Z) (l : list Z) : list Z → Prop :=
  | at_end : (∀ l1 a b l2, l = l1 ++ a :: b :: l2 → ¬ (0 < c t a ∧ c t b < 0)) → inserted c t l (l ++ [t])
  | in_place_of l1 a b l2 : l = l1 ++ a :: b :: l2 → 0 < c t a → c t b < 0 → inserted c t l (l1 ++ a :: t :: l2).

Lemma insert_spec_inserted c t l : inserted c t l (insert_spec c t l).
Proof.
  induction l as [|a l IH]; [apply (at_end _ _ []); by intros [|? [|? ?]]|]. destruct l as [|b rest].
  - apply (at_end _ _ [a]). intros [|? [|? ?]] ? ? ? E; naive_solver.
  - change (insert_spec c t (a :: b :: rest)) with
      (if (0 <? c t a) && (c t b <? 0) then a :: t :: rest else a :: insert_spec c t (b :: rest)).
    destruct ((0 <? c t a) && (c t b <? 0)) eqn:E.
    + apply andb_true_iff in E as [E1 E2]. zbool. by apply (in_place_of _ _ _ [] a b rest).
    + destruct IH as [Hno|l1 a' b' l2 El H1 H2].
      * apply (at_end _ _ (a :: b :: rest)). intros [|x l1] a' b' l2 El [G1 G2].
        -- injection El as -> -> ->. rewrite (proj2 (Z.ltb_lt 0 _)), (proj2 (Z.ltb_lt _ 0)) in E by done. done.
        -- injection El as -> El. by apply (Hno l1 a' b' l2).
      * rewrite El. by apply (in_place_of _ _ _ (a :: l1) a' b' l2).
Qed.

Lemma insert_spec_elem c t l x : x ∈ insert_spec c t l → x ∈ t :: l.
Proof.
  destruct (insert_spec_inserted c t l) as [_|l1 a b l2 -> _ _]; set_solver.
Qed.

Lemma insert_spec_NoDup c t l : NoDup l → t ∉ l → NoDup (insert_spec c t l).
Proof.
  intros Hnd Ht. destruct (insert_spec_inserted c t l) as [_|l1 a b l2 -> _ _].
  - apply NoDup_app. split_and!; [done| |apply NoDup_singleton]. intros x Hx ->%list_elem_of_singleton. done.
  - apply NoDup_app in Hnd as (H1 & Hd & [Ha [Hb H2]%NoDup_cons]%NoDup_cons).
    rewrite elem_of_app, !elem_of_cons in Ht. rewrite elem_of_cons in Ha. apply NoDup_app. split_and!; [done| |].
    + intros x Hx. specialize (Hd x Hx). rewrite !elem_of_cons in *. naive_solver.
    + rewrite !NoDup_cons, elem_of_cons. naive_solver.
Qed.

(** *** Queues *)

Definition queue_ok (q : TIMER_QUEUE) (l m : list Z) : Prop :=
  tseg (nodes q) (activeHead q) l 0 ∧ tseg (nodes q) (inactiveHead q) m 0 ∧ NoDup (l ++ m).

Lemma insert_spec_disjoint c a L M : NoDup (a :: L ++ M) → NoDup (insert_spec c a L ++ M).
Proof.
  intros ([HL HM]%not_elem_of_app & (HdL & Hdis & HdM)%NoDup_app)%NoDup_cons.
  apply NoDup_app. split_and!; [by apply insert_spec_NoDup| |done]. intros x [->|Hx]%insert_spec_elem%elem_of_cons; [done|by apply Hdis].
Qed.

(** Inserting a timer of neither list into one of two disjoint lists. *)
Lemma insert_frame h p L p' M a : tseg h p L 0 → tseg h p' M 0 → NoDup (a :: L ++ M) → a ≠ 0 → is_Some (h !! a) →
  runs (InsertTimerQueueTimer h p a) (λ r, tseg r.1 r.2 (insert_spec (cmp h) a L) 0 ∧ tseg r.1 p' M 0 ∧
    same_timers h r.1 ∧ NoDup (insert_spec (cmp h) a L ++ M)).
Proof.
  intros HL HM Hnd Ha0 Hs. pose proof Hnd as ([HaL HaM]%not_elem_of_app & (HdL & Hdis & HdM)%NoDup_app)%NoDup_cons.
  eapply runs_mono; [by apply (insert_ok h p L a)|]. intros r (H1 & H2 & H3). split_and!; [done| |done|by apply insert_spec_disjoint].
  apply (tseg_frame h); [|done]. intros x Hx. apply H3. rewrite elem_of_cons. intros [->|Hx2]; [done|by apply (Hdis x)].
Qed.

(** ** Properties *)

(** adding milliseconds to a valid time gives a valid time, exactly [ms]
    later below 4295 ms, and in general later by the number of nanoseconds
    modulo 2^32: from 4295 ms on the 32-bit product wraps. *)
Theorem timespec_add_ms_spec t ms : valid_time t → urange 32 ms → - 2 ^ 62 <= tv_sec t <= 2 ^ 62 →
  valid_time (timespec_add_ms t ms) ∧
  total_ns (timespec_add_ms t ms) = total_ns t + (ms * 1000000) mod 2 ^ 32 ∧
  (ms < 4295 ↔ total_ns (timespec_add_ms t ms) = total_ns t + ms * 1000000).
Proof.
  intros Ht Hms Hs. destruct (add_ms_total t ms Ht Hms Hs) as [H1 H2]. split; [done|]. split; [done|]. rewrite H2. zlia.
Qed.

Lemma timespec_add_ms_spec_witness :
  valid_time (Timespec 10 999000000) ∧ urange 32 5000 ∧ - 2 ^ 62 <= tv_sec (Timespec 10 999000000) <= 2 ^ 62 ∧
  timespec_add_ms (Timespec 10 999000000) 5000 = Timespec 11 704032704 ∧
  valid_time (timespec_add_ms (Timespec 10 999000000) 5000).
Proof.
  assert (H1 : valid_time (Timespec 10 999000000)) by (unfold valid_time; cbn; lia).
  assert (H2 : urange 32 5000) by (unfold urange; lia).
  assert (H3 : - 2 ^ 62 <= tv_sec (Timespec 10 999000000) <= 2 ^ 62) by (cbn; lia).
  split; [exact H1|]. split; [exact H2|]. split; [exact H3|]. split; [reflexivity|].
  exact (proj1 (timespec_add_ms_spec (Timespec 10 999000000) 5000 H1 H2 H3)).
Defined.

(** inserting a timer terminates, touches only links, and either appends it
    at the end (even when it expires before the head) or, when two consecutive
    entries enclose it, puts it in the place of the second one, which is no
    longer on the list. *)
Theorem InsertTimerQueueTimer_spec h p l t : tseg h p l 0 → NoDup l → t ∉ l → t ≠ 0 → is_Some (h !! t) →
  runs (InsertTimerQueueTimer h p t) (λ r, ∃ l', tseg r.1 r.2 l' 0 ∧ inserted (cmp h) t l l' ∧
    same_timers h r.1 ∧ ∀ x, x ∉ t :: l → r.1 !! x = h !! x).
Proof.
  intros Hl Hnd Ht Ht0 Hs. eapply runs_mono; [by apply (insert_ok h p l t)|].
  intros r (H1 & H2 & H3). exists (insert_spec (cmp h) t l). split_and!; [done|apply insert_spec_inserted|done..].
Qed.

Definition timer_at (sec nxt : Z) : TIMER := QueueTimer 0 0 0 0 0 0 (Timespec sec 0) (Timespec sec 0) nxt.
Definition three_timers : theap := list_to_map [(8, timer_at 10 16); (16, timer_at 30 0); (24, timer_at 20 0)].

Lemma InsertTimerQueueTimer_spec_witness :
  tseg three_timers 8 [8; 16] 0 ∧ NoDup [8; 16] ∧ (24 ∉ [8; 16]) ∧ 24 ≠ 0 ∧ is_Some (three_timers !! 24) ∧
  (insert_spec (cmp three_timers) 24 [8; 16] = [8; 24]) ∧
  runs (InsertTimerQueueTimer three_timers 8 24) (λ r, ∃ l', tseg r.1 r.2 l' 0 ∧ inserted (cmp three_timers) 24 [8; 16] l' ∧
    same_timers three_timers r.1 ∧ ∀ x, x ∉ [24; 8; 16] → r.1 !! x = three_timers !! x).
Proof.
  assert (H1 : tseg three_timers 8 [8; 16] 0).
  { split_and!; [done..|]. exists (timer_at 10 16). split; [done|]. split_and!; [done..|]. by exists (timer_at 30 0). }
  assert (H2 : NoDup [8; 16]) by by_decision. assert (H3 : 24 ∉ [8; 16]) by by_decision. assert (H4 : 24 ≠ 0) by done.
  assert (H5 : is_Some (three_timers !! 24)) by by eexists.
  split; [exact H1|]. split; [exact H2|]. split; [exact H3|]. split; [exact H4|]. split; [exact H5|]. split; [vm_compute; reflexivity|].
  exact (InsertTimerQueueTimer_spec three_timers 8 [8; 16] 24 H1 H2 H3 H4 H5).
Defined.

Definition example_queue : TIMER_QUEUE := TimerQueue three_timers 8 24 false [].

Lemma example_queue_ok : queue_ok example_queue [8; 16] [24].
Proof.
  split_and!; cbn.
  - split_and!; [done..|]. exists (timer_at 10 16). split; [done|]. split_and!; [done..|]. by exists (timer_at 30 0).
  - split_and!; [done..|]. by exists (timer_at 20 0).
  - by_decision.
Qed.

(** *** Creating and changing timers *)

Lemma create_ok malloc now q l m cb param due period flags : queue_ok q l m → malloc ≠ 0 → nodes q !! malloc = None →
  runs (CreateTimerQueueTimer malloc now q cb param due period flags) (λ r, r.2 = true ∧ fired r.1 = fired q ∧
    queue_ok r.1 (insert_spec (cmp (nodes r.1)) malloc l) m ∧
    erase (nodes r.1) malloc = Some (QueueTimer flags due period param cb 0 (timespec_add_ms now due) (timespec_add_ms now due) 0) ∧
    ∀ a, a ≠ malloc → erase (nodes r.1) a = erase (nodes q) a).
Proof.
  intros (Hl & Hm & Hnd) Ht0 Hfresh. unfold CreateTimerQueueTimer. rewrite (proj2 (Z.eqb_neq malloc 0)) by done.
  set (h1 := <[malloc := _]> (nodes q)).
  assert (Hlm : ∀ x, x ∈ l ++ m → is_Some (nodes q !! x)).
  { intros x [Hx|Hx]%elem_of_app; eapply tseg_dom; [exact Hl|done|exact Hm|done]. }
  assert (Hne : malloc ∉ l ++ m) by (intros Hx; destruct (Hlm _ Hx); congruence).
  assert (Hh1 : ∀ x, x ≠ malloc → h1 !! x = nodes q !! x) by (intros x Hx; by apply lookup_insert_ne).
  rewrite elem_of_app in Hne. pose proof Hnd as (Hnd1 & Hdis & Hnd2)%NoDup_app.
  destruct (insert_ok h1 (activeHead q) l malloc) as ([h2 p2] & Hins & Hseg & Hsame & Hout); [|done|tauto|done| |].
  { apply (tseg_frame (nodes q)); [|done]. intros x Hx. apply Hh1. intros ->. tauto. }
  { subst h1. rewrite lookup_insert_eq. eauto. }
  cbn [fst snd] in *. rewrite Hins, bind_Ok. apply runs_ok. cbn [fst snd nodes]. split; [done|]. split; [done|]. split; [|split].
  - split_and!; cbn [nodes activeHead inactiveHead].
    + by rewrite (insert_spec_ext _ (cmp h1)) by (intros; by apply same_cmp).
    + apply (tseg_frame (nodes q)); [|done]. intros x Hx. rewrite Hout, Hh1; [done|intros ->; tauto|].
      rewrite elem_of_cons. intros [->|Hx2]; [tauto|]. by apply (Hdis x).
    + apply NoDup_app. split_and!; [apply insert_spec_NoDup; tauto| |done].
      intros x [->|Hx]%insert_spec_elem%elem_of_cons; [tauto|by apply Hdis].
  - rewrite (Hsame malloc). unfold erase. subst h1. by rewrite lookup_insert_eq.
  - intros a Ha. rewrite (Hsame a). unfold erase. by rewrite Hh1.
Qed.

Lemma remove_entry_elem t x (l : list Z) : x ∈ remove_entry t l → x ∈ l ∧ x ≠ t.
Proof. unfold remove_entry. rewrite list_elem_of_filter. tauto. Qed.

Lemma remove_entry_NoDup t (l : list Z) : NoDup l → NoDup (remove_entry t l).
Proof. apply NoDup_filter. Qed.

Lemma change_ok now q l m t due period : queue_ok q l m → t ∈ l ++ m →
  runs (ChangeTimerQueueTimer now q t due period) (λ r, r.2 = true ∧ fired r.1 = fired q ∧
    queue_ok r.1 (insert_spec (cmp (nodes r.1)) t (remove_entry t l)) (remove_entry t m) ∧
    erase (nodes r.1) t = set_schedule due period (timespec_add_ms now due) <$> erase (nodes q) t ∧
    ∀ a, a ≠ t → erase (nodes r.1) a = erase (nodes q) a).
Proof.
  intros (Hl & Hm & Hnd) Ht. assert (Hs : is_Some (nodes q !! t) ∧ t ≠ 0).
  { apply elem_of_app in Ht as [Ht|Ht]; eapply tseg_dom; [exact Hl|done|exact Hm|done]. }
  destruct Hs as [Hs Ht0]. pose proof Hnd as (Hnd1 & Hdis & Hnd2)%NoDup_app.
  unfold ChangeTimerQueueTimer. rewrite (proj2 (Z.eqb_neq t 0)) by done.
  destruct (remove_ok _ _ _ t Hl Hnd1 Ht0 Hs) as ([h1 p1] & -> & Hs1 & Hsame1 & Hout1 & Heq1). cbn [fst snd] in *. rewrite bind_Ok.
  assert (Hm1 : tseg h1 (inactiveHead q) m 0).
  { destruct (decide (t ∈ l)) as [Hin|Hin]; [|by injection (Heq1 Hin) as -> ->].
    apply (tseg_frame (nodes q)); [|done]. intros x Hx. apply Hout1. rewrite elem_of_cons. intros [->|Hx2]; [by apply (Hdis t)|by apply (Hdis x)]. }
  assert (Hs1t : is_Some (h1 !! t)) by (by apply (same_is_Some (nodes q))).
  destruct (remove_ok _ _ _ t Hm1 Hnd2 Ht0 Hs1t) as ([h2 p2] & -> & Hs2 & Hsame2 & Hout2 & Heq2). cbn [fst snd] in *. rewrite bind_Ok.
  assert (Hl2 : tseg h2 p1 (remove_entry t l) 0).
  { apply (tseg_frame h1); [|done]. intros x [Hx Hxt]%remove_entry_elem. apply Hout2. rewrite elem_of_cons. intros [?|Hx2]; [done|]. by apply (Hdis x). }
  assert (Hs2t : is_Some (h2 !! t)) by (by apply (same_is_Some h1)).
  rewrite upd_ok, bind_Ok, upd_ok, bind_Ok by (rewrite ?lookup_alter_is_Some; done).
  set (h3 := alter (set_tnext 0) t (alter (set_schedule due period _) t h2)).
  assert (Hh3 : ∀ x, x ≠ t → h3 !! x = h2 !! x) by (intros x Hx; subst h3; by rewrite !lookup_alter_ne).
  destruct (insert_ok h3 p1 (remove_entry t l) t) as ([h4 p4] & Hins & Hseg & Hsame & Hout).
  { apply (tseg_frame h2); [|done]. intros x [Hx Hxt]%remove_entry_elem. by apply Hh3. }
  { by apply remove_entry_NoDup. }
  { intros [_ ?]%remove_entry_elem. done. }
  { done. }
  { subst h3. by rewrite !lookup_alter_is_Some. }
  cbn [fst snd] in *. rewrite Hins, bind_Ok. apply runs_ok. cbn [fst snd nodes]. split; [done|]. split; [done|]. split; [|split].
  - split_and!; cbn [nodes activeHead inactiveHead].
    + by rewrite (insert_spec_ext _ (cmp h3)) by (intros; by apply same_cmp).
    + apply (tseg_frame h2); [|done]. intros x [Hx Hxt]%remove_entry_elem. rewrite Hout, Hh3; [done|done|].
      rewrite elem_of_cons. intros [?|[Hx2 _]%remove_entry_elem]; [done|]. by apply (Hdis x).
    + apply NoDup_app. split_and!; [|..|by apply remove_entry_NoDup].
      * apply insert_spec_NoDup; [by apply remove_entry_NoDup|]. by intros [_ ?]%remove_entry_elem.
      * intros x [->|Hx]%insert_spec_elem%elem_of_cons [Hx2 Hxt]%remove_entry_elem; [done|].
        apply remove_entry_elem in Hx as [Hx _]. by apply (Hdis x).
  - rewrite (Hsame t). unfold erase. subst h3. rewrite !lookup_alter_eq.
    assert (Ht2 : erase h2 t = erase (nodes q) t) by (by rewrite (Hsame2 t), (Hsame1 t)).
    unfold erase in Ht2. destruct (h2 !! t) as [[]|], (nodes q !! t) as [[]|]; cbn in *; try done.
    injection Ht2. intros. subst. done.
  - intros a Ha. rewrite (Hsame a). unfold erase at 1. rewrite Hh3 by done. fold (erase h2 a). by rewrite (Hsame2 a), (Hsame1 a).
Qed.

(** creating a timer adds it to the active list with its due time; changing
    one takes it out of whichever list it is on and puts it back on the active
    list with its new times; other timers keep their settings, and in both the
    lists stay disjoint and well linked. *)
Theorem timer_queue_ops_spec q l m now due period : queue_ok q l m →
  (∀ malloc cb param flags, malloc ≠ 0 → nodes q !! malloc = None →
    runs (CreateTimerQueueTimer malloc now q cb param due period flags) (λ r, r.2 = true ∧ fired r.1 = fired q ∧
      queue_ok r.1 (insert_spec (cmp (nodes r.1)) malloc l) m ∧
      erase (nodes r.1) malloc = Some (QueueTimer flags due period param cb 0 (timespec_add_ms now due) (timespec_add_ms now due) 0) ∧
      ∀ a, a ≠ malloc → erase (nodes r.1) a = erase (nodes q) a)) ∧
  (∀ t, t ∈ l ++ m →
    runs (ChangeTimerQueueTimer now q t due period) (λ r, r.2 = true ∧ fired r.1 = fired q ∧
      queue_ok r.1 (insert_spec (cmp (nodes r.1)) t (remove_entry t l)) (remove_entry t m) ∧
      erase (nodes r.1) t = set_schedule due period (timespec_add_ms now due) <$> erase (nodes q) t ∧
      ∀ a, a ≠ t → erase (nodes r.1) a = erase (nodes q) a)).
Proof. intros Hq. split; [intros; by apply create_ok|intros; by apply change_ok]. Qed.

Lemma timer_queue_ops_spec_witness :
  queue_ok example_queue [8; 16] [24] ∧ 24 ∈ [8; 16] ++ [24] ∧
  runs (ChangeTimerQueueTimer (Timespec 100 0) example_queue 24 1000 0) (λ r, r.2 = true ∧ fired r.1 = fired example_queue ∧
    queue_ok r.1 (insert_spec (cmp (nodes r.1)) 24 (remove_entry 24 [8; 16])) (remove_entry 24 [24]) ∧
    erase (nodes r.1) 24 = set_schedule 1000 0 (timespec_add_ms (Timespec 100 0) 1000) <$> erase (nodes example_queue) 24 ∧
    ∀ a, a ≠ 24 → erase (nodes r.1) a = erase (nodes example_queue) a).
Proof.
  assert (H1 := example_queue_ok). assert (H2 : 24 ∈ [8; 16] ++ [24]) by by_decision.
  split; [exact H1|]. split; [exact H2|].
  exact (proj2 (timer_queue_ops_spec example_queue [8; 16] [24] (Timespec 100 0) 1000 0 H1) 24 H2).
Defined.

(** *** Deletion *)

Lemma delete_leaks q a l fuel : queue_ok q (a :: l) [] → (2 < fuel)%nat →
  ∃ h, DeleteTimerQueueEx fuel q = Ok (h, true) ∧ dom h = dom (nodes q) ∖ {[a]}.
Proof.
  intros (Hl & Hm & _) Hf. destruct fuel as [|[|[|fuel]]]; try lia. cbn in Hm.
  destruct Hl as (Ha & Ha0 & n & Hn & _). unfold DeleteTimerQueueEx. rewrite Ha, Hm. cbn [loop move_body].
  rewrite (proj2 (Z.eqb_neq a 0)) by done. unfold InsertTimerQueueTimer. cbn [Z.eqb].
  rewrite upd_ok, !bind_Ok by eauto. cbn [fst snd].
  assert (Hn1 : alter (set_tnext 0) a (nodes q) !! a = Some (set_tnext 0 n)) by (by rewrite lookup_alter_eq, Hn).
  rewrite (get_ok _ _ _ Hn1). cbn. rewrite (proj2 (Z.eqb_neq a 0)), (get_ok _ _ _ Hn1) by done. cbn.
  eexists. split; [done|]. by rewrite dom_delete_L, dom_alter_L.
Qed.

Lemma delete_dangles q t m fuel : queue_ok q [] (t :: m) → (0 < fuel)%nat →
  ∃ q', DeleteTimerQueueTimer q t = Ok (q', true) ∧ DeleteTimerQueueEx fuel q' = UB.
Proof.
  intros (Hl & Hm & _) Hf. destruct fuel as [|fuel]; [lia|]. cbn in Hl. destruct Hm as (Ht & Ht0 & n & Hn & _).
  unfold DeleteTimerQueueTimer, RemoveTimerQueueTimer. rewrite Hl, (proj2 (Z.eqb_neq t 0)) by done.
  cbn [walk_fuel loop find_body Z.eqb]. rewrite !bind_Ok. cbn [fst snd]. rewrite Hn. eexists. split; [done|].
  unfold DeleteTimerQueueEx. cbn [nodes activeHead inactiveHead loop move_body Z.eqb]. rewrite !bind_Ok.
  rewrite Ht. cbn [free_body]. rewrite (proj2 (Z.eqb_neq t 0)) by done. unfold get. by rewrite lookup_delete_eq.
Qed.

(** deleting a queue frees only the first of its active timers (moving it to
    the inactive list cuts the link the loop goes on with); deleting a timer
    that has fired leaves it on the inactive list although it is freed, and
    deleting the queue then reads freed memory. *)
Theorem DeleteTimerQueue_defects q fuel : (2 < fuel)%nat →
  (∀ a l, queue_ok q (a :: l) [] →
    ∃ h, DeleteTimerQueueEx fuel q = Ok (h, true) ∧ dom h = dom (nodes q) ∖ {[a]}) ∧
  (∀ t m, queue_ok q [] (t :: m) →
    ∃ q', DeleteTimerQueueTimer q t = Ok (q', true) ∧ DeleteTimerQueueEx fuel q' = UB).
Proof. intros Hf. split; [intros; by eapply delete_leaks|intros; apply (delete_dangles q t m); [done|lia]]. Qed.

Lemma DeleteTimerQueue_defects_witness :
  let q := TimerQueue three_timers 8 0 false [] in let q' := TimerQueue three_timers 0 8 false [] in
  (2 < 3)%nat ∧ queue_ok q [8; 16] [] ∧ queue_ok q' [] [8; 16] ∧
  (∃ h, DeleteTimerQueueEx 3 q = Ok (h, true) ∧ dom h = dom (nodes q) ∖ {[8]}) ∧
  (∃ q'', DeleteTimerQueueTimer q' 8 = Ok (q'', true) ∧ DeleteTimerQueueEx 3 q'' = UB).
Proof.
  intros q q'. assert (H1 : (2 < 3)%nat) by lia. assert (H2 : queue_ok q [8; 16] []).
  { destruct example_queue_ok as (Hl & _ & _). split_and!; [exact Hl|done|by_decision]. }
  assert (H3 : queue_ok q' [] [8; 16]).
  { destruct example_queue_ok as (Hl & _ & _). split_and!; [done|exact Hl|by_decision]. }
  split; [exact H1|]. split; [exact H2|]. split; [exact H3|].
  split; [exact (proj1 (DeleteTimerQueue_defects q 3 H1) 8 [16] H2)|exact (proj2 (DeleteTimerQueue_defects q' 3 H1) 8 [16] H3)].
Defined.
