(* ===== verification/TimerFire.v ===== *)
(** The firing pass of a timer queue (src/libuzi/timer.c,
    [FireExpiredTimerQueueTimers]).

    A reference description of a pass on lists of timers, the simulation of the
    loop by it, its termination for every period that advances, and the account
    of a pass: how often each timer is called, when, and what becomes of it. *)

From stdpp Require Import list gmap.
From S2P Require Import Prelude Interlocked Critical Timer.

Set Warnings "-clear-no-such-hyp".

(** ** A pass on lists *)

Definition expired (now : timespec) (h : theap) (a : Z) : bool := 0 <=? timespec_compare now (expiration h a).

(** What a call makes of a timer: it is counted, and a periodic timer is due
    one period later. *)
Definition refire (t : TIMER) : TIMER :=
  let t := set_FireCount (FireCount t + 1) t in
  if Period t =? 0 then t else set_ExpirationTime (timespec_add_ms (ExpirationTime t) (Period t)) t.

(** Where it goes: back to the active timers, or to the inactive ones. *)
Definition requeue (h : theap) (t : TIMER) (a : Z) (l m : list Z) : list Z * list Z :=
  if Period t =? 0 then (l, insert_spec (cmp h) a m) else (insert_spec (cmp h) a l, m).

(** [fire_pass now h l m f h' l' m']: from the timers [h], active [l] and
    inactive [m], a pass calls the timers [f] in this order and leaves [h'],
    [l'] and [m']. It stops at the first active timer that has not expired. *)
Inductive fire_pass (now : timespec) : theap → list Z → list Z → list Z → theap → list Z → list Z → Prop :=
  | pass_end h l m : (∀ a, head l = Some a → expired now h a = false) → fire_pass now h l m [] h l m
  | pass_fire h a t l m f h' l' m' : h !! a = Some t → expired now h a = true →
      let h1 := alter refire a h in let lm := requeue h1 t a l m in
      fire_pass now h1 lm.1 lm.2 f h' l' m' → fire_pass now h (a :: l) m (a :: f) h' l' m'.

(** ** One round of the loop *)

Lemma same_sym h h' : same_timers h h' → same_timers h' h.
Proof. intros H a. by rewrite H. Qed.

(** A node whose links alone have changed. *)
Lemma same_node h h' a t : same_timers h h' → h' !! a = Some t → ∃ u, h !! a = Some u ∧ set_tnext 0 u = set_tnext 0 t.
Proof.
  intros H Ht. specialize (H a). unfold erase in H. rewrite Ht in H. destruct (h !! a) as [u|]; [|done]. exists u. split; [done|]. symmetry. exact (inj Some _ _ H).
Qed.

Lemma same_alter (f : TIMER → TIMER) h h' a : (∀ t u, set_tnext 0 t = set_tnext 0 u → set_tnext 0 (f t) = set_tnext 0 (f u)) →
  same_timers h h' → same_timers (alter f a h) (alter f a h').
Proof.
  intros Hf H x. specialize (H x). unfold erase in *. destruct (decide (x = a)) as [->|Hx].
  - rewrite !lookup_alter_eq. destruct (h !! a), (h' !! a); try done. cbn [fmap option_fmap option_map] in *. f_equal. apply Hf. exact (inj Some _ _ H).
  - by rewrite !lookup_alter_ne.
Qed.

Lemma same_expired now h h' a : same_timers h h' → expired now h' a = expired now h a.
Proof. intros H. unfold expired. by rewrite (same_expiration h h'). Qed.

Lemma refire_tnext t u : set_tnext 0 t = set_tnext 0 u → set_tnext 0 (refire t) = set_tnext 0 (refire u).
Proof. destruct t, u. cbn. intros [= -> -> -> -> -> -> -> ->]. unfold refire. cbn. by destruct (_ =? 0). Qed.

(** The nodes after the assignments to a called timer. *)
Definition called (h : theap) (a : Z) (n : TIMER) : theap :=
  let h := alter (set_tnext 0) a (alter (set_FireCount (FireCount n + 1)) a h) in
  if Period n =? 0 then h else alter (set_ExpirationTime (timespec_add_ms (ExpirationTime n) (Period n))) a h.

Lemma called_ne h a n x : x ≠ a → called h a n !! x = h !! x.
Proof. intros Hx. unfold called. destruct (Period n =? 0); by rewrite !lookup_alter_ne. Qed.

Lemma called_same h a n : h !! a = Some n → same_timers (alter refire a h) (called h a n).
Proof.
  intros Hn x. unfold erase. destruct (decide (x = a)) as [->|Hx]; [|by rewrite called_ne, lookup_alter_ne].
  unfold called. destruct (Period n =? 0) eqn:E; rewrite !lookup_alter_eq, Hn; cbn; unfold refire; cbn; by rewrite E.
Qed.

Lemma called_alive h a n : is_Some (h !! a) → is_Some (called h a n !! a).
Proof. intros Hs. unfold called. destruct (Period n =? 0); by rewrite !lookup_alter_is_Some. Qed.

Lemma requeue_ext h h' t a l m : same_timers h h' → requeue h' t a l m = requeue h t a l m.
Proof. intros H. unfold requeue. by rewrite !(insert_spec_ext (cmp h') (cmp h)) by (intros; by apply same_cmp). Qed.

(** The queue after the round that calls the first active timer. *)
Definition round_post (q : TIMER_QUEUE) (a : Z) (n : TIMER) (lm : list Z * list Z) (q1 : TIMER_QUEUE) : Prop :=
  queue_ok q1 lm.1 lm.2 ∧ same_timers (alter refire a (nodes q)) (nodes q1) ∧
  fired q1 = fired q ++ [(Callback n, Param n)] ∧ bCancelled q1 = bCancelled q.

Lemma fire_round now q a l m n : queue_ok q (a :: l) m → nodes q !! a = Some n → expired now (nodes q) a = true →
  0 <= FireCount n < 2 ^ 31 - 1 →
  ∃ q1, fire_body now (q, a) = Ok (inl (q1, activeHead q1)) ∧
    round_post q a n (requeue (alter refire a (nodes q)) n a l m) q1.
Proof.
  intros (Hl & Hm & Hnd) Hn Hex Hc. destruct Hl as (_ & Ha & n' & Hn' & Hl). rewrite Hn in Hn'. injection Hn' as <-.
  assert (Hex' : (0 <=? timespec_compare now (ExpirationTime n)) = true) by (revert Hex; unfold expired, expiration; by rewrite Hn).
  unfold fire_body. rewrite (proj2 (Z.eqb_neq a 0)), (get_ok _ _ _ Hn), bind_Ok, Hex' by done.
  rewrite sadd_ok, bind_Ok, upd_ok, bind_Ok, upd_ok, bind_Ok by (rewrite ?lookup_alter_is_Some; eauto; lia).
  pose proof (called_same _ _ _ Hn) as Hsame. set (h2 := called (nodes q) a n) in *.
  assert (Hs2 : is_Some (h2 !! a)) by (apply called_alive; eauto).
  assert (Hfr : ∀ x, x ≠ a → h2 !! x = nodes q !! x) by (apply called_ne).
  assert (Hl2 : tseg h2 (tnext n) l 0).
  { apply (tseg_frame (nodes q)); [|done]. intros x Hx. apply Hfr. intros ->. apply NoDup_cons in Hnd as [Hnd _]. apply Hnd, elem_of_app. by left. }
  assert (Hm2 : tseg h2 (inactiveHead q) m 0).
  { apply (tseg_frame (nodes q)); [|done]. intros x Hx. apply Hfr. intros ->. apply NoDup_cons in Hnd as [Hnd _]. apply Hnd, elem_of_app. by right. }
  rewrite <- (requeue_ext _ _ n a l m Hsame). unfold requeue. unfold h2, called in *.
  destruct (Period n =? 0); cbn [negb].
  - destruct (insert_frame _ _ m _ l a Hm2 Hl2) as (r & -> & Hr1 & Hr2 & Hr3 & Hr4); [|done..|].
    { by rewrite (Permutation_app_comm m l). }
    rewrite bind_Ok. exists (TimerQueue r.1 (tnext n) r.2 (bCancelled q) (fired q ++ [(Callback n, Param n)])).
    split; [reflexivity|]. split; [|split; [by eapply same_trans|done]].
    cbn. split_and!; [done..|]. by rewrite Permutation_app_comm.
  - rewrite upd_ok, bind_Ok by (rewrite !lookup_alter_is_Some; eauto).
    destruct (insert_frame _ _ l _ m a Hl2 Hm2) as (r & -> & Hr1 & Hr2 & Hr3 & Hr4); [done..|].
    rewrite bind_Ok. exists (TimerQueue r.1 r.2 (inactiveHead q) (bCancelled q) (fired q ++ [(Callback n, Param n)])).
    split; [reflexivity|]. split; [done|split; [by eapply same_trans|done]].
Qed.

(** ** Termination *)

(** By how much a period advances a timer, in nanoseconds: the 32-bit product. *)
Definition step_ns (t : TIMER) : Z := (Period t * 1000000) mod 2 ^ 32.

(** How often a timer can be called until the time [T]. *)
Definition rounds (T : Z) (t : TIMER) : Z :=
  if Period t =? 0 then 1 else Z.max 0 ((T - total_ns (ExpirationTime t)) / step_ns t + 1).

(** A timer that can be called until [T]: its period advances it and its count
    does not overflow. *)
Definition fits (T : Z) (t : TIMER) : Prop :=
  sane (ExpirationTime t) ∧ urange 32 (Period t) ∧ (Period t = 0 ∨ 0 < step_ns t) ∧
  0 <= FireCount t ∧ FireCount t + rounds T t < 2 ^ 31.

(** The last time considered, some seconds before 2038. *)
Definition horizon (T : Z) : Prop := T < (2 ^ 31 - 5) * 1000000000.


Lemma rounds_pos T t : fits T t → total_ns (ExpirationTime t) <= T → 1 <= rounds T t.
Proof.
  intros (_ & _ & Hs & _) HT. unfold rounds. destruct (Z.eqb_spec (Period t) 0); [lia|]. destruct Hs as [?|Hs]; [done|].
  pose proof (Z.div_pos (T - total_ns (ExpirationTime t)) (step_ns t) ltac:(lia) ltac:(lia)). lia.
Qed.

Lemma rounds_mono T T' t : fits T' t → T <= T' → rounds T t <= rounds T' t.
Proof.
  intros (_ & _ & Hs & _) HT. unfold rounds. destruct (Z.eqb_spec (Period t) 0); [lia|]. destruct Hs as [?|Hs]; [done|].
  pose proof (Z.div_le_mono (T - total_ns (ExpirationTime t)) (T' - total_ns (ExpirationTime t)) (step_ns t) ltac:(lia) ltac:(lia)). lia.
Qed.

Lemma fits_mono T T' t : T <= T' → fits T' t → fits T t.
Proof. intros HT Ht. pose proof (rounds_mono _ _ _ Ht HT). destruct Ht as (?&?&?&?&?). split_and!; try done; lia. Qed.

Lemma refire_periodic T t : horizon T → fits T t → Period t ≠ 0 → total_ns (ExpirationTime t) <= T →
  let t' := refire t in fits T t' ∧ rounds T t' = rounds T t - 1 ∧ step_ns t' = step_ns t ∧
  total_ns (ExpirationTime t') = total_ns (ExpirationTime t) + step_ns t ∧ FireCount t' = FireCount t + 1 ∧ Period t' = Period t.
Proof.
  intros HT Hfit Hp Hle t'. pose proof (rounds_pos _ _ Hfit Hle) as Hpos. pose proof Hfit as ([Hv Hsec] & Hur & Hst & Hc & Hlt).
  destruct Hst as [?|Hst]; [done|]. destruct (add_ms_total (ExpirationTime t) (Period t) Hv Hur ltac:(lia)) as [Hv' Ht'].
  assert (Es : step_ns t' = step_ns t ∧ Period t' = Period t ∧ FireCount t' = FireCount t + 1 ∧
    ExpirationTime t' = timespec_add_ms (ExpirationTime t) (Period t)).
  { unfold t', refire. cbn. by rewrite (proj2 (Z.eqb_neq (Period t) 0)). }
  destruct Es as (Es & Ep & Ec & Ee). fold (step_ns t) in Ht'. assert (Hs32 : step_ns t < 2 ^ 32) by (unfold step_ns; lia).
  assert (Hr : rounds T t' = rounds T t - 1).
  { unfold rounds in *. rewrite Ep, Es, Ee, Ht', (proj2 (Z.eqb_neq (Period t) 0)) in * by done.
    replace (T - (total_ns (ExpirationTime t) + step_ns t)) with (T - total_ns (ExpirationTime t) + (-1) * step_ns t) by lia.
    rewrite Z.div_add by lia. lia. }
  split; [|by rewrite Ee]. split; [|rewrite Es, Ep, Ec, Hr; split_and!; auto; lia].
  rewrite Ee. split; [done|]. unfold horizon, total_ns, valid_time in *. lia.
Qed.

Lemma sum_insert_spec (f : Z → nat) c t l : (sum_list_with f (insert_spec c t l) ≤ f t + sum_list_with f l)%nat.
Proof.
  destruct (insert_spec_inserted c t l) as [_|l1 a b l2 -> _ _]; rewrite !sum_list_with_app; cbn [sum_list_with]; lia.
Qed.

Lemma requeue_elem h t a l m x : let lm := requeue h t a l m in
  (x ∈ lm.1 → x = a ∧ Period t ≠ 0 ∨ x ∈ l) ∧ (x ∈ lm.1 ++ lm.2 → x ∈ a :: l ++ m).
Proof.
  unfold requeue. destruct (Z.eqb_spec (Period t) 0) as [Hp|Hp]; cbn [fst snd]; rewrite ?elem_of_cons, !elem_of_app;
    (split; [|intros [Hx|Hx]]); intros; rewrite ?elem_of_cons in *;
    try match goal with H : _ ∈ insert_spec _ _ _ |- _ => apply insert_spec_elem, elem_of_cons in H end; tauto.
Qed.

Lemma requeue_NoDup h t a l m : NoDup ((a :: l) ++ m) → NoDup ((requeue h t a l m).1 ++ (requeue h t a l m).2).
Proof.
  intros Hnd. unfold requeue. destruct (Period t =? 0); cbn [fst snd]; [|by apply insert_spec_disjoint].
  rewrite Permutation_app_comm. apply insert_spec_disjoint. by rewrite (Permutation_app_comm m l).
Qed.

Definition call_of (h : theap) (a : Z) : Z * Z :=
  match h !! a with Some t => (Callback t, Param t) | None => (0, 0) end.

Lemma call_of_refire h a x : call_of (alter refire a h) x = call_of h x.
Proof.
  unfold call_of. destruct (decide (x = a)) as [->|Hx]; [|by rewrite lookup_alter_ne].
  rewrite lookup_alter_eq. destruct (h !! a) as [t|]; [|done]. cbn. unfold refire. cbn. by destruct (_ =? 0).
Qed.

Lemma expired_due now h a t : sane now → h !! a = Some t → sane (ExpirationTime t) →
  expired now h a = true ↔ total_ns (ExpirationTime t) <= total_ns now.
Proof. intros Hn Ht Hs. unfold expired, expiration. rewrite Ht. by apply compare_le. Qed.

(** The loop stops at a timer that has not expired. *)
Lemma fire_stop now q a n : a ≠ 0 → nodes q !! a = Some n → expired now (nodes q) a = false → fire_body now (q, a) = Ok (inr q).
Proof.
  intros Ha Hn Hex. unfold fire_body. unfold expired, expiration in Hex. rewrite Hn in Hex.
  by rewrite (proj2 (Z.eqb_neq a 0)), (get_ok _ _ _ Hn), bind_Ok, Hex.
Qed.

(** A round, up to links. *)
Lemma round_post_abs q a n g t l m q1 : same_timers g (nodes q) → set_tnext 0 t = set_tnext 0 n →
  round_post q a n (requeue (alter refire a (nodes q)) n a l m) q1 →
  let lm := requeue (alter refire a g) t a l m in
  queue_ok q1 lm.1 lm.2 ∧ same_timers (alter refire a g) (nodes q1) ∧
  fired q1 = fired q ++ [(Callback n, Param n)] ∧ bCancelled q1 = bCancelled q.
Proof.
  intros Hg En (Hq1 & Hs1 & Hf1 & Hb1) lm. assert (Hg2 := same_alter _ _ _ a refire_tnext Hg).
  assert (E : requeue (alter refire a (nodes q)) n a l m = lm).
  { rewrite (requeue_ext (alter refire a g)) by done. unfold lm, requeue. by assert (Period n = Period t) as -> by (by injection En). }
  rewrite E in Hq1. split_and!; [done|by eapply same_trans|done..].
Qed.

(** From a queue whose timers are [g] up to links, with lists [l] and [m]. *)
Definition pass_post (now : timespec) (q : TIMER_QUEUE) (g : theap) (l m : list Z) (q' : TIMER_QUEUE) : Prop :=
  ∃ f h' l' m', fire_pass now g l m f h' l' m' ∧ same_timers h' (nodes q') ∧ queue_ok q' l' m' ∧
    fired q' = fired q ++ (call_of g <$> f) ∧ bCancelled q' = bCancelled q.

Lemma pass_post_end now q g l m : queue_ok q l m → same_timers g (nodes q) → (∀ a, head l = Some a → expired now g a = false) →
  pass_post now q g l m q.
Proof. intros Hq Hg Hh. exists [], g, l, m. split; [by constructor|]. by rewrite app_nil_r. Qed.

(** *** The loop is a pass

    For timers with a property [P] that calls keep, each due one with some
    measure [mu] that a call makes smaller. *)
Section Loop.
Context (now : timespec) (P : TIMER → Prop) (mu : TIMER → nat).

Definition due (t : TIMER) : Prop := (0 <=? timespec_compare now (ExpirationTime t)) = true.

Hypothesis P_count : ∀ t, P t → due t → 0 <= FireCount t < 2 ^ 31 - 1.
Hypothesis P_refire : ∀ t, P t → due t → Period t ≠ 0 → P (refire t) ∧ (mu (refire t) < mu t)%nat.
Hypothesis P_pos : ∀ t, P t → due t → (0 < mu t)%nat.

Definition all_active (h : theap) (l : list Z) : Prop := ∀ a, a ∈ l → ∃ t, h !! a = Some t ∧ P t.
Definition measure_at (h : theap) (a : Z) : nat := match h !! a with Some t => mu t | None => O end.
Definition measure (h : theap) (l : list Z) : nat := sum_list_with (measure_at h) l.

Lemma expired_is_due h a t : h !! a = Some t → expired now h a = true ↔ due t.
Proof. intros Ht. unfold expired, expiration, due. by rewrite Ht. Qed.

Lemma measure_alter f h a l : a ∉ l → measure (alter f a h) l = measure h l.
Proof.
  unfold measure. induction l as [|x l IH]; intros Ha; [done|]. apply not_elem_of_cons in Ha as [Hx Ha].
  cbn [sum_list_with]. rewrite IH by done. unfold measure_at. by rewrite lookup_alter_ne.
Qed.

Lemma requeue_measure h a t l m : h !! a = Some t → P t → due t → a ∉ l →
  (measure (alter refire a h) (requeue (alter refire a h) t a l m).1 < measure h (a :: l))%nat.
Proof.
  intros Ht HP Hdue Ha. pose proof (P_pos _ HP Hdue).
  assert (Hl : (measure h (a :: l) = mu t + measure h l)%nat).
  { unfold measure. cbn [sum_list_with]. unfold measure_at at 1. by rewrite Ht. }
  rewrite Hl. unfold requeue. destruct (Z.eqb_spec (Period t) 0) as [Hp|Hp]; cbn [fst].
  - rewrite measure_alter by done. lia.
  - eapply Nat.le_lt_trans; [apply sum_insert_spec|]. fold (measure (alter refire a h) l).
    rewrite measure_alter by done. unfold measure_at. rewrite lookup_alter_eq, Ht. cbn.
    destruct (P_refire t HP Hdue Hp) as [_ ?]. lia.
Qed.

Lemma requeue_active h a t l m : h !! a = Some t → due t → all_active h (a :: l) → a ∉ l →
  all_active (alter refire a h) (requeue (alter refire a h) t a l m).1.
Proof.
  intros Ht Hdue Hall Ha x Hx. apply requeue_elem in Hx as [[-> Hp]|Hx].
  - destruct (Hall a) as (u & Hu & HP); [constructor|]. rewrite Ht in Hu. injection Hu as <-. exists (refire t).
    rewrite lookup_alter_eq, Ht. split; [done|]. by apply P_refire.
  - rewrite lookup_alter_ne by (by intros ->). apply Hall. by constructor.
Qed.

Lemma fire_loop : ∀ fuel q g l m, queue_ok q l m → same_timers g (nodes q) → all_active g l → (measure g l < fuel)%nat →
  runs (loop fuel (fire_body now) (q, activeHead q)) (pass_post now q g l m).
Proof.
  induction fuel as [|fuel IH]; intros q g l m Hq Hg Hall Hfuel; [lia|]. cbn [loop]. destruct l as [|a l].
  { destruct Hq as (Hl & Hq). cbn in Hl. rewrite Hl. apply runs_ok, pass_post_end; [by split|done..]. }
  pose proof Hq as ((Ea & Ha & n & Hn & _) & _ & Hnd). rewrite Ea.
  destruct (Hall a) as (t & Ht & HP); [constructor|]. destruct (same_node _ _ _ _ Hg Hn) as (t' & Ht' & En).
  rewrite Ht in Ht'. injection Ht' as <-. apply NoDup_app in Hnd as (Hnd & _). apply NoDup_cons in Hnd as [Hal _].
  destruct (expired now g a) eqn:Hex.
  2:{ rewrite (fire_stop now q a n), bind_Ok; [|done..|by rewrite (same_expired _ _ _ _ Hg)].
      apply runs_ok, pass_post_end; [done..|]. by intros ? [= <-]. }
  assert (Hdue := proj1 (expired_is_due _ _ _ Ht) Hex). assert (Hc := P_count _ HP Hdue).
  destruct (fire_round now q a l m n Hq Hn) as (q1 & -> & Hpost); [by rewrite (same_expired _ _ _ _ Hg)| |].
  { by assert (FireCount n = FireCount t) as -> by (by injection En). }
  rewrite bind_Ok. pose proof (round_post_abs q a n g t l m q1 Hg En Hpost) as (Hq1 & Hg1 & Hf1 & Hb1).
  eapply runs_mono; [apply (IH q1 (alter refire a g) _ _ Hq1 Hg1)|].
  - by apply requeue_active.
  - pose proof (requeue_measure g a t l m Ht HP Hdue Hal). lia.
  - intros q' (f & h' & l' & m' & Hp & Hs' & Hq' & Hf' & Hb'). exists (a :: f), h', l', m'.
    split; [by eapply (pass_fire now g a t)|]. split_and!; [done|done| |congruence].
    rewrite Hf', Hf1, <- app_assoc. f_equal. rewrite fmap_cons. cbn [app]. f_equal.
    + unfold call_of. rewrite Ht. injection En. congruence.
    + apply list_fmap_ext. intros. by rewrite call_of_refire.
Qed.

(** With enough fuel, [FireExpiredTimerQueueTimers] is a pass. *)
Lemma fire_pass_runs fuel q l m : queue_ok q l m → all_active (nodes q) l → (measure (nodes q) l < fuel)%nat →
  runs (FireExpiredTimerQueueTimers fuel now q) (pass_post now q (nodes q) l m).
Proof.
  intros Hq Hall Hfuel. unfold FireExpiredTimerQueueTimers. destruct (Z.eqb_spec (activeHead q) 0) as [E|E]; [|by apply fire_loop].
  apply runs_ok, pass_post_end; [done..|]. intros a Ha. destruct l as [|b l]; [done|]. injection Ha as ->.
  destruct Hq as ((Hx & ? & _) & _). congruence.
Qed.

(** The timers that remain active still have the property. *)
Lemma fire_pass_active h l m f h' l' m' : fire_pass now h l m f h' l' m' → NoDup (l ++ m) → all_active h l → all_active h' l'.
Proof.
  induction 1 as [|h a t l m f h' l' m' Ht Hex h1 lm _ IH]; intros Hnd Hall; [done|].
  pose proof Hnd as (Hn1 & _)%NoDup_app. apply NoDup_cons in Hn1 as [Hal _]. apply IH.
  - by apply requeue_NoDup.
  - apply requeue_active; [done|by eapply expired_is_due|done..].
Qed.
End Loop.

(** ** One-shot timers *)

(** One-shot timers: the expired ones at the front of the active list are
    called in order, counted once, and inserted among the inactive ones. *)
Fixpoint fire_spec (ex : Z → bool) (c : Z → Z → Z) (l m : list Z) : list Z * list Z * list Z :=
  match l with
  | [] => ([], m, [])
  | a :: l' =>
      if ex a then let '(l'', m', f) := fire_spec ex c l' (insert_spec c a m) in (l'', m', a :: f)
      else (l, m, [])
  end.

Definition one_shot (h : theap) (a : Z) : Prop :=
  ∃ t, h !! a = Some t ∧ Period t = 0 ∧ 0 <= FireCount t < 2 ^ 31 - 1.

Definition count_fire (f : list Z) (a : Z) (t : TIMER) : TIMER :=
  if decide (a ∈ f) then set_FireCount (FireCount t + 1) t else t.

Definition fire_post (now : timespec) (q : TIMER_QUEUE) (l m : list Z) (q' : TIMER_QUEUE) : Prop :=
  let '(l', m', f) := fire_spec (expired now (nodes q)) (cmp (nodes q)) l m in
  queue_ok q' l' m' ∧ fired q' = fired q ++ (call_of (nodes q) <$> f) ∧ bCancelled q' = bCancelled q ∧
  ∀ a, erase (nodes q') a = count_fire f a <$> erase (nodes q) a.

Lemma fire_spec_ext ex ex' c c' l : ∀ m, (∀ a, a ∈ l → ex a = ex' a) → (∀ a b, c a b = c' a b) →
  fire_spec ex c l m = fire_spec ex' c' l m.
Proof.
  induction l as [|a l IH]; intros m He Hc; cbn; [done|]. rewrite (He a) by constructor.
  destruct (ex' a); [|done]. rewrite (insert_spec_ext c c') by done. rewrite IH; [done| |done].
  intros x Hx. apply He. by constructor.
Qed.

Lemma fire_spec_prefix ex c l : ∀ m l' m' f, fire_spec ex c l m = (l', m', f) → l = f ++ l'.
Proof.
  induction l as [|a l IH]; intros m l' m' f; cbn; [by intros [= <- <- <-]|].
  destruct (ex a); [|by intros [= <- <- <-]]. destruct (fire_spec ex c l _) as [[l1 m1] f1] eqn:E.
  intros [= <- <- <-]. cbn. f_equal. by eapply IH.
Qed.

Lemma same_times_refire h a t : h !! a = Some t → Period t = 0 → ∀ x, expiration (alter refire a h) x = expiration h x.
Proof.
  intros Ht Hp x. unfold expiration. destruct (decide (x = a)) as [->|Hx]; [|by rewrite lookup_alter_ne].
  rewrite lookup_alter_eq, Ht. cbn. unfold refire. cbn. by rewrite Hp.
Qed.

(** A pass over one-shot timers is [fire_spec]. *)
Lemma fire_pass_one_shot now h l m f h' l' m' : fire_pass now h l m f h' l' m' → NoDup (l ++ m) →
  (∀ a, a ∈ l → one_shot h a) →
  fire_spec (expired now h) (cmp h) l m = (l', m', f) ∧ ∀ a, h' !! a = count_fire f a <$> h !! a.
Proof.
  induction 1 as [h l m Hh|h a t l m f h' l' m' Ht Hex h1 lm _ IH]; intros Hnd Hone.
  - split; [|intros a; unfold count_fire; by destruct (h !! a)]. destruct l as [|a l]; [done|]. cbn. by rewrite (Hh a).
  - destruct (Hone a) as (t' & Ht' & Hp & Hc); [constructor|]. rewrite Ht in Ht'. injection Ht' as <-.
    assert (Het := same_times_refire h a t Ht Hp). assert (Hlm : lm = (l, insert_spec (cmp h) a m)).
    { unfold lm, requeue. rewrite Hp. cbn [Z.eqb]. f_equal. apply insert_spec_ext. intros x. unfold cmp. by rewrite !Het. }
    pose proof (requeue_NoDup h1 t a l m Hnd) as Hnd1. fold lm in Hnd1. rewrite Hlm in *. cbn [fst snd] in *.
    pose proof Hnd as ([Hal _]%not_elem_of_app & _)%NoDup_cons.
    destruct IH as [IH1 IH2]; [done| |].
    { intros x Hx. destruct (Hone x) as (u & Hu & ?); [by constructor|]. exists u. split; [|done].
      unfold h1. rewrite lookup_alter_ne by (by intros ->). done. }
    cbn [fire_spec]. rewrite Hex. rewrite (fire_spec_ext _ (expired now h) _ (cmp h)) in IH1.
    2:{ intros x _. unfold expired. by rewrite Het. } 2:{ intros x y. unfold cmp. by rewrite !Het. }
    rewrite IH1. split; [done|]. apply fire_spec_prefix in IH1. assert (Haf : a ∉ f) by (intros Hx; apply Hal; rewrite IH1, elem_of_app; by left).
    intros x. rewrite IH2. unfold count_fire, h1. destruct (decide (x = a)) as [->|Hx].
    + rewrite lookup_alter_eq, Ht. cbn. rewrite decide_False, decide_True by (done || constructor). unfold refire. cbn. by rewrite Hp.
    + rewrite lookup_alter_ne by done. apply option_fmap_ext. intros u. do 2 case_decide; rewrite ?elem_of_cons in *; tauto.
Qed.

(** with one-shot timers, firing calls exactly the timers of the longest
    expired prefix of the active list, in order and once each, counts them,
    leaves the rest active in order and inserts the fired ones into the inactive
    list; it terminates within the length of the list. *)
Theorem FireExpiredTimerQueueTimers_spec now q l m fuel : queue_ok q l m → (∀ a, a ∈ l → one_shot (nodes q) a) →
  (length l < fuel)%nat → runs (FireExpiredTimerQueueTimers fuel now q) (fire_post now q l m).
Proof.
  intros Hq Hone Hf. pose proof Hq as (_ & _ & Hnd).
  eapply runs_mono; [apply (fire_pass_runs now (λ t, Period t = 0 ∧ 0 <= FireCount t < 2 ^ 31 - 1) (λ _, 1%nat)) with (l := l) (m := m)|].
  - by intros t [_ ?] _.
  - by intros t [? _] _ ?.
  - by intros; lia.
  - done.
  - done.
  - replace (measure _ _ _) with (length l); [done|]. clear -Hone. induction l as [|a l IH]; [done|]. unfold measure in *. cbn [length sum_list_with].
    rewrite <- IH by (intros x Hx; apply Hone; by constructor). unfold measure_at. destruct (Hone a) as (t & -> & _); [constructor|done].
  - intros q' (f & h' & l' & m' & Hp & Hs & Hq' & Hf' & Hb). destruct (fire_pass_one_shot _ _ _ _ _ _ _ _ Hp Hnd Hone) as [E Hc].
    unfold fire_post. rewrite E. split_and!; [done..|]. intros a. rewrite (Hs a). unfold erase. rewrite Hc, <- !option_fmap_compose.
    apply option_fmap_ext. intros t. unfold compose, count_fire. by case_decide.
Qed.

Lemma FireExpiredTimerQueueTimers_spec_witness :
  queue_ok example_queue [8; 16] [24] ∧ (∀ a, a ∈ [8; 16] → one_shot (nodes example_queue) a) ∧ (length [8; 16] < 3)%nat ∧
  fire_spec (expired (Timespec 15 0) three_timers) (cmp three_timers) [8; 16] [24] = ([16], [24; 8], [8]) ∧
  runs (FireExpiredTimerQueueTimers 3 (Timespec 15 0) example_queue) (fire_post (Timespec 15 0) example_queue [8; 16] [24]).
Proof.
  assert (H1 := example_queue_ok). assert (H2 : ∀ a, a ∈ [8; 16] → one_shot (nodes example_queue) a).
  { intros a Ha. rewrite !elem_of_cons in Ha. destruct Ha as [->|[->|Ha]]; [by eexists|by eexists|by apply not_elem_of_nil in Ha]. }
  assert (H3 : (length [8; 16] < 3)%nat) by (cbn; lia).
  split; [exact H1|]. split; [exact H2|]. split; [exact H3|]. split; [vm_compute; reflexivity|].
  exact (FireExpiredTimerQueueTimers_spec (Timespec 15 0) example_queue [8; 16] [24] 3 H1 H2 H3).
Defined.

(** ** Timers with a period *)








(** How often a timer is due until [T]. *)
Definition dues (T : Z) (t : TIMER) : Z := if total_ns (ExpirationTime t) <=? T then rounds T t else 0.


Section Account.
Context (now : timespec) (Hnow : sane now) (HT : horizon (total_ns now)).

Abbreviation fit := (fits (total_ns now)).










(** *** Timers that are called less often than they are due

    Either the timer is still active, behind one that has not expired, or
    it was dropped when a periodic timer was put back in front of it. *)











End Account.

(** ** Fuel *)





(** ** The theorem *)


Lemma fits_tnext T t u : set_tnext 0 t = set_tnext 0 u → fits T t → fits T u.
Proof. destruct t, u. by intros [= -> -> -> -> -> -> -> ->]. Qed.

(** Until a later time, the active timers keep fitting. *)
Lemma pass_keeps_fits now T q l m q' : sane now → horizon T → total_ns now <= T → queue_ok q l m →
  all_active (fits T) (nodes q) l → pass_post now q (nodes q) l m q' →
  ∃ l' m', queue_ok q' l' m' ∧ all_active (fits T) (nodes q') l'.
Proof.
  intros Hnow HT Hle (_ & _ & Hnd) Hall (f & h' & l' & m' & Hp & Hs & Hq' & _ & _). exists l', m'. split; [done|].
  assert (Hall' : all_active (fits T) h' l').
  { apply (fire_pass_active now (fits T) (λ t, Z.to_nat (rounds T t))) in Hp; [done| |done..].
    intros t Hf Hd Hper. apply compare_le in Hd; [|done|by destruct Hf].
    destruct (refire_periodic T t HT Hf Hper ltac:(lia)) as (? & -> & _). split; [done|]. pose proof (rounds_pos T t Hf ltac:(lia)). lia. }
  intros a Ha. destruct (Hall' a Ha) as (u & Hu & Hf). destruct (same_node _ _ a u (same_sym _ _ Hs) Hu) as (v & Hv & E).
  exists v. split; [done|]. by apply (fits_tnext T u).
Qed.






(** Three timers that are due: when the first, a periodic one, is put back
    between the other two, the last is dropped and never called. *)
Definition drop_timers : TIMER_QUEUE :=
  TimerQueue (list_to_map [(8, QueueTimer 0 0 2000 1 7 0 (Timespec 10 0) (Timespec 10 0) 16);
    (16, QueueTimer 0 0 0 2 8 0 (Timespec 11 0) (Timespec 11 0) 24); (24, QueueTimer 0 0 0 3 9 0 (Timespec 13 0) (Timespec 13 0) 0)])
    8 0 false [].

Lemma due_timer_dropped :
  match FireExpiredTimerQueueTimers 20 (Timespec 20 0) drop_timers with
  | Ok q => fired q = [(7, 1); (8, 2); (7, 1); (7, 1); (7, 1); (7, 1); (7, 1)] ∧ dues 20000000000 (QueueTimer 0 0 0 3 9 0 (Timespec 13 0) (Timespec 13 0) 0) = 1
  | _ => False
  end.
Proof. vm_compute. split; reflexivity. Qed.

(** *** A period of 2^26 ms *)

Lemma add_ms_zero e : valid_time e → - 2 ^ 62 <= tv_sec e <= 2 ^ 62 → timespec_add_ms e 67108864 = e.
Proof.
  destruct e as [s n]. unfold valid_time, timespec_add_ms. cbn [tv_sec tv_nsec]. intros Hn Hs.
  change (u32 (67108864 * 1000000)) with 0. rewrite Z.add_0_r, (wrap_id 64) by (unfold urange; lia).
  rewrite swrap_id by (unfold srange; lia). f_equal; lia.
Qed.

Definition wrapping_timer (now : timespec) (t : TIMER) : Prop :=
  tnext t = 0 ∧ Period t = 67108864 ∧ valid_time (ExpirationTime t) ∧ - 2 ^ 62 <= tv_sec (ExpirationTime t) <= 2 ^ 62 ∧
  0 <= timespec_compare now (ExpirationTime t) ∧ 0 <= FireCount t.

Lemma fire_stuck now fuel : ∀ q a t, a ≠ 0 → nodes q !! a = Some t → wrapping_timer now t →
  FireCount t + Z.of_nat fuel < 2 ^ 31 → loop fuel (fire_body now) (q, a) = NoFuel.
Proof.
  induction fuel as [|fuel IH]; intros q a t Ha Ht Hw Hc; [done|]. pose proof Hw as (Hnx & Hper & Hv & Hs & Hex & Hf).
  cbn [loop fire_body]. rewrite (proj2 (Z.eqb_neq a 0)), (get_ok _ _ _ Ht), bind_Ok, (proj2 (Z.leb_le 0 _)) by done.
  rewrite sadd_ok, bind_Ok, upd_ok, bind_Ok, upd_ok, bind_Ok by (rewrite ?lookup_alter_is_Some; eauto; lia).
  rewrite Hper, Hnx. cbn [Z.eqb negb]. rewrite upd_ok, bind_Ok by (rewrite ?lookup_alter_is_Some; eauto).
  rewrite add_ms_zero by done. unfold InsertTimerQueueTimer. cbn [Z.eqb].
  rewrite upd_ok, !bind_Ok by (rewrite ?lookup_alter_is_Some; eauto). cbn [fst snd].
  apply (IH _ a (set_FireCount (FireCount t + 1) t)); [done| | |cbn; lia].
  - cbn [nodes]. rewrite !lookup_alter_eq, Ht. destruct t. cbn in *. by subst.
  - unfold wrapping_timer in *. cbn. split_and!; try done; lia.
Qed.

(** a timer whose period is a multiple of 2^26 ms (18 hours and 38 minutes)
    does not advance when it fires: once it has expired, a single call of
    [FireExpiredTimerQueueTimers] fires it again and again without returning
    (up to the overflow of [FireCount]). *)
Theorem FireExpiredTimerQueueTimers_stuck now q a t fuel : activeHead q = a → a ≠ 0 → nodes q !! a = Some t →
  wrapping_timer now t → FireCount t + Z.of_nat fuel < 2 ^ 31 → FireExpiredTimerQueueTimers fuel now q = NoFuel.
Proof.
  intros Ha Ha0 Ht Hw Hc. unfold FireExpiredTimerQueueTimers. rewrite Ha, (proj2 (Z.eqb_neq a 0)) by done.
  by apply (fire_stuck now fuel q a t).
Qed.

Definition slow_timer : TIMER := QueueTimer 0 0 67108864 0 0 0 (Timespec 10 0) (Timespec 10 0) 0.

Lemma FireExpiredTimerQueueTimers_stuck_witness :
  let q := TimerQueue {[8 := slow_timer]} 8 0 false [] in
  activeHead q = 8 ∧ 8 ≠ 0 ∧ nodes q !! 8 = Some slow_timer ∧ wrapping_timer (Timespec 20 0) slow_timer ∧
  FireCount slow_timer + Z.of_nat 100 < 2 ^ 31 ∧ FireExpiredTimerQueueTimers 100 (Timespec 20 0) q = NoFuel.
Proof.
  intros q. assert (H1 : activeHead q = 8) by done. assert (H2 : 8 ≠ 0) by done.
  assert (H3 : nodes q !! 8 = Some slow_timer) by done.
  assert (H4 : wrapping_timer (Timespec 20 0) slow_timer).
  { unfold wrapping_timer, valid_time. cbn. repeat split; try lia. done. }
  assert (H5 : FireCount slow_timer + Z.of_nat 100 < 2 ^ 31) by (cbn; lia).
  split; [exact H1|]. split; [exact H2|]. split; [exact H3|]. split; [exact H4|]. split; [exact H5|].
  exact (FireExpiredTimerQueueTimers_stuck (Timespec 20 0) q 8 slow_timer 100 H1 H2 H3 H4 H5).
Defined.

