(* ===== verification/TimerThread.v ===== *)
(** The thread of a timer queue (src/libuzi/timer.c, [TimerQueueThread]): rounds of
    waiting for the condition variable and firing, between which other threads
    call the operations of the queue.

    The thread holds the queue's mutex but while it waits, so that the calls of
    other threads fall into its waits. What [pthread_cond_timedwait] and
    [gettimeofday] answer and the calls made meanwhile are the script. *)

From stdpp Require Import list gmap.
From S2P Require Import Prelude Interlocked Timer TimerFire.

Set Warnings "-clear-no-such-hyp".

(** ** The thread *)









(** ** The invariant *)

Section Until.
Context (T : Z) (HT : horizon T).



















End Until.

(** ** Theorems *)



