(* ===== verification/Kernel.v ===== *)
(** The world of the synchronisation objects (src/libuzi/synch.h, handle.h, thread.h, error.c).

    The heap of handle objects, the file descriptors they own, and the system
    calls of the library on them (read, write, close, poll, eventfd, pipe,
    timerfd, pthread mutexes). Everything that happens outside the calling
    thread is a script of actions of the environment, consumed while a call is
    blocked; a call that no action wakes does not return. *)

From stdpp Require Import list gmap.
From S2P Require Import Prelude.

(** ** Descriptors and objects *)

Inductive file :=
  | FdEvent (count : Z)            (* eventfd, non-blocking *)
  | FdPipeR (p : nat)              (* the ends of pipe [p] *)
  | FdPipeW (p : nat)
  | FdTimer (due interval : Z).    (* timerfd, non-blocking; [due = 0]: disarmed *)

#[export] Instance file_eq_dec : EqDecision file.
Proof. solve_decision. Defined.

(** The four tables of operations (the [static HANDLE_OPS ops] of event.c,
    mutex.c, semaphore.c, timer.c and thread.c). *)
Inductive opsid := EventOps | MutexOps | SemaphoreOps | TimerOps | ThreadOps.

Record WINPR_EVENT := Event { ev_fd0 : Z; ev_fd1 : Z; bAttached : bool; bManualReset : bool }.
(** A pthread mutex: the type it was initialised with, and its owner and how
    often it holds it. *)
Record WINPR_MUTEX := Mutex { mtype : Z; holder : option (Z * Z) }.
Record WINPR_SEMAPHORE := Semaphore { sem_fd0 : Z; sem_fd1 : Z }.
Record WINPR_TIMER := Timer {
  tm_fd : Z; bInit : bool; lPeriod : Z; tm_bManualReset : bool;
  pfnCompletionRoutine : Z; lpArgToCompletionRoutine : Z;
  tm_tid : Z; it_interval : Z * Z; it_value : Z * Z }.
Record WINPR_THREAD := Thread {
  started : bool; th_fd0 : Z; th_fd1 : Z; detached : bool; joined : bool; exited : bool;
  dwExitCode : Z; th_thread : Z; lpStartAddress : Z; lpParameter : Z }.

Inductive body :=
  | BEvent (e : WINPR_EVENT)
  | BMutex (m : WINPR_MUTEX)
  | BSemaphore (s : WINPR_SEMAPHORE)
  | BTimer (t : WINPR_TIMER)
  | BThread (t : WINPR_THREAD).

(** [WINPR_HANDLE_DEF]: the header every object starts with; [ops] may be a
    null pointer. *)
Record object := Object { Type_ : Z; Mode : Z; ops : option opsid; obody : body }.

Record kernel := Kernel {
  objs : gmap Z object;           (* handle objects by address *)
  files : gmap Z file;            (* open descriptors *)
  pipes : list Z;                 (* bytes in each pipe *)
  threads : gmap Z bool;          (* joinable threads: have they ended? *)
  thread_list : option (list Z);  (* the dictionary of started threads: its values *)
  self : Z;                       (* the calling thread *)
  g_LastError : Z;
  now : Z;                        (* CLOCK_MONOTONIC, nanoseconds *)
  realtime : Z;                   (* CLOCK_REALTIME minus CLOCK_MONOTONIC *)
  ptimers : gmap Z (Z * Z) }.     (* POSIX timers: when they expire (0: disarmed), interval *)

Definition set_objs o (k : kernel) := Kernel o (files k) (pipes k) (threads k) (thread_list k) (self k) (g_LastError k) (now k) (realtime k) (ptimers k).
Definition set_files f (k : kernel) := Kernel (objs k) f (pipes k) (threads k) (thread_list k) (self k) (g_LastError k) (now k) (realtime k) (ptimers k).
Definition set_pipes p (k : kernel) := Kernel (objs k) (files k) p (threads k) (thread_list k) (self k) (g_LastError k) (now k) (realtime k) (ptimers k).
Definition set_threads t (k : kernel) := Kernel (objs k) (files k) (pipes k) t (thread_list k) (self k) (g_LastError k) (now k) (realtime k) (ptimers k).
Definition set_thread_list l (k : kernel) := Kernel (objs k) (files k) (pipes k) (threads k) l (self k) (g_LastError k) (now k) (realtime k) (ptimers k).
Definition set_LastError e (k : kernel) := Kernel (objs k) (files k) (pipes k) (threads k) (thread_list k) (self k) e (now k) (realtime k) (ptimers k).
Definition set_now t (k : kernel) := Kernel (objs k) (files k) (pipes k) (threads k) (thread_list k) (self k) (g_LastError k) t (realtime k) (ptimers k).

Definition set_ptimers p (k : kernel) := Kernel (objs k) (files k) (pipes k) (threads k) (thread_list k) (self k) (g_LastError k) (now k) (realtime k) p.

Definition set_obj h o (k : kernel) : kernel := set_objs (<[h := o]> (objs k)) k.
Definition set_body h b (k : kernel) : kernel :=
  set_objs (alter (λ o, Object (Type_ o) (Mode o) (ops o) b) h (objs k)) k.
Definition set_file fd f (k : kernel) : kernel := set_files (<[fd := f]> (files k)) k.

(** ** The environment *)

(** What happens while the calling thread is blocked: an action of another
    thread, of a timer or of time, or a signal delivered to this thread. *)
Inductive env :=
  | Act (f : kernel → kernel)
  | Signal.

Record world := World { kern : kernel; script : list env }.

(** [w'] is [w] after the environment has acted. *)
Inductive evolves : world → world → Prop :=
  | evolves_refl w : evolves w w
  | evolves_act f k s w : evolves (World (f k) s) w → evolves (World k (Act f :: s)) w
  | evolves_signal k s w : evolves (World k s) w → evolves (World k (Signal :: s)) w
  | evolves_time d k w : now k <= d → evolves (World (set_now d k) []) w → evolves (World k []) w.

(** Computations on the world. *)
Definition K (A : Type) : Type := world → res (A * world).
#[export] Instance K_ret : MRet K := λ A a w, Ok (a, w).
#[export] Instance K_bind : MBind K := λ A B f m w,
  match m w with Ok (a, w') => f a w' | UB => UB | NoFuel => NoFuel end.

Definition lift {A} (r : kernel → res A) : K A := λ w, match r (kern w) with Ok a => Ok (a, w) | UB => UB | NoFuel => NoFuel end.
Definition gets {A} (f : kernel → A) : K A := λ w, Ok (f (kern w), w).
Definition modify (f : kernel → kernel) : K unit := λ w, Ok ((), World (f (kern w)) (script w)).
Definition undefined {A} : K A := λ _, UB.

(** A C loop over the world. *)
Definition kloop {S R} (fuel : nat) (body : S → K (S + R)) (s : S) : K R := λ w,
  loop fuel (λ sw, match body sw.1 sw.2 with
                   | Ok (inl s', w') => Ok (inl (s', w'))
                   | Ok (inr r, w') => Ok (inr (r, w'))
                   | UB => UB | NoFuel => NoFuel end) (s, w).

(** What a blocked call wakes up with. *)
Inductive wake (A : Type) := Woken (a : A) | TimedOut | Interrupted.
Arguments Woken {A} a.
Arguments TimedOut {A}.
Arguments Interrupted {A}.

(** Block until [ready] answers, the clock reaches the deadline, or (when
    [intr]) a signal is delivered. With nothing left in the script only time
    passes. *)
Fixpoint await {A} (ready : kernel → option A) (clock : kernel → Z) (deadline : option Z) (intr : bool)
    (s : list env) (k : kernel) : res (wake A * world) :=
  match ready k with
  | Some a => Ok (Woken a, World k s)
  | None =>
    let past := match deadline with Some d => d <=? clock k | None => false end in
    if past then Ok (TimedOut, World k s)
    else
      match s with
      | [] =>
        match deadline with
        | None => NoFuel
        | Some d =>
          let k' := set_now (now k + (d - clock k)) k in
          match ready k' with Some a => Ok (Woken a, World k' []) | None => Ok (TimedOut, World k' []) end
        end
      | Signal :: s' => if intr then Ok (Interrupted, World k s') else await ready clock deadline intr s' k
      | Act f :: s' => await ready clock deadline intr s' (f k)
      end
  end.

Definition awaitK {A} (ready : kernel → option A) (clock : kernel → Z) (deadline : option Z) (intr : bool) : K (wake A) :=
  λ w, await ready clock deadline intr (script w) (kern w).

(** [clock_gettime(CLOCK_MONOTONIC)]: the environment may act before the clock
    is read. *)
Definition clock_gettime : K Z := λ w,
  match script w with
  | Act f :: s => Ok (now (f (kern w)), World (f (kern w)) s)
  | Signal :: s => Ok (now (kern w), World (kern w) s)
  | [] => Ok (now (kern w), w)
  end.

(** ** System calls

    Each answers its result and [errno]. *)

Definition EINTR := 4.
Definition EBADF := 9.
Definition EAGAIN := 11.
Definition EINVAL := 22.
Definition EPIPE := 32.
Definition ETIMEDOUT := 110.

Definition pipe_count (k : kernel) (p : nat) : Z := default 0 (pipes k !! p).
Definition pipe_add (p : nat) (n : Z) (k : kernel) : kernel := set_pipes (alter (Z.add n) p (pipes k)) k.
Definition PIPE_CAPACITY := 65536.
Definition has_writer (k : kernel) (p : nat) : bool := bool_decide (map_Exists (λ _ f, f = FdPipeW p) (files k)).
Definition has_reader (k : kernel) (p : nat) : bool := bool_decide (map_Exists (λ _ f, f = FdPipeR p) (files k)).

(** How often a timerfd has expired since it was read. *)
Definition expirations (t due interval : Z) : Z :=
  if (due =? 0) || (t <? due) then 0 else if interval =? 0 then 1 else 1 + (t - due) / interval.

Definition rearm (t due interval : Z) : file :=
  FdTimer (if interval =? 0 then 0 else due + expirations t due interval * interval) interval.

Definition EVENTFD_MAX := 2 ^ 64 - 2.

Definition sys_read (fd len : Z) : K (Z * Z) :=
  f ← gets (λ k, files k !! fd);
  match f with
  | None | Some (FdPipeW _) => mret (-1, EBADF)
  | Some (FdEvent n) =>
    if len <? 8 then mret (-1, EINVAL)
    else if n =? 0 then mret (-1, EAGAIN)
    else modify (set_file fd (FdEvent 0));; mret (8, 0)
  | Some (FdPipeR p) =>
    r ← awaitK (λ k, if 0 <? pipe_count k p then Some (Z.min len (pipe_count k p))
                     else if has_writer k p then None else Some 0) now None false;
    match r with
    | Woken n => modify (pipe_add p (- n));; mret (n, 0)
    | _ => mret (-1, EINTR)
    end
  | Some (FdTimer due i) =>
    t ← gets now;
    if len <? 8 then mret (-1, EINVAL)
    else if expirations t due i =? 0 then mret (-1, EAGAIN)
    else modify (set_file fd (rearm t due i));; mret (8, 0)
  end.

(** [val] is the value written to an eventfd. *)
Definition sys_write (fd len val : Z) : K (Z * Z) :=
  f ← gets (λ k, files k !! fd);
  match f with
  | None | Some (FdPipeR _) => mret (-1, EBADF)
  | Some (FdEvent n) =>
    if (len <? 8) || (val =? 2 ^ 64 - 1) then mret (-1, EINVAL)
    else if EVENTFD_MAX <? n + val then mret (-1, EAGAIN)
    else modify (set_file fd (FdEvent (n + val)));; mret (8, 0)
  | Some (FdPipeW p) =>
    r ← awaitK (λ k, if has_reader k p then
                       if pipe_count k p + len <=? PIPE_CAPACITY then Some len else None
                     else Some (-1)) now None false;
    match r with
    | Woken n => if n <? 0 then mret (-1, EPIPE) else modify (pipe_add p n);; mret (n, 0)
    | _ => mret (-1, EINTR)
    end
  | Some (FdTimer _ _) => mret (-1, EINVAL)
  end.

Definition sys_close (fd : Z) : K unit := modify (λ k, set_files (delete fd (files k)) k).

(** [eventfd(0, EFD_NONBLOCK)], [timerfd_create] and [pipe]: the descriptors
    the system answers, negative on failure. *)
Definition sys_eventfd (fd : Z) : K Z :=
  (if fd <? 0 then mret () else modify (set_file fd (FdEvent 0)));; mret fd.
Definition sys_timerfd_create (fd : Z) : K Z :=
  (if fd <? 0 then mret () else modify (set_file fd (FdTimer 0 0)));; mret fd.
Definition sys_pipe (fds : Z * Z) : K Z :=
  if (fds.1 <? 0) || (fds.2 <? 0) then mret (-1)
  else
    p ← gets (λ k, length (pipes k));
    modify (λ k, set_pipes (pipes k ++ [0]) (set_file fds.2 (FdPipeW p) (set_file fds.1 (FdPipeR p) k)));;
    mret 0.

(** *** poll *)

Definition POLLIN := 1.
Definition POLLOUT := 4.
Definition POLLERR := 8.
Definition POLLHUP := 16.
Definition POLLNVAL := 32.
Definition flag (b : bool) (m : Z) : Z := if b then m else 0.

Definition poll_state (k : kernel) (fd : Z) : Z :=
  match files k !! fd with
  | None => POLLNVAL
  | Some (FdEvent n) => Z.lor (flag (0 <? n) POLLIN) (flag (n <? EVENTFD_MAX) POLLOUT)
  | Some (FdPipeR p) => Z.lor (flag (0 <? pipe_count k p) POLLIN) (flag (negb (has_writer k p)) POLLHUP)
  | Some (FdPipeW p) => Z.lor (flag (pipe_count k p <? PIPE_CAPACITY) POLLOUT) (flag (negb (has_reader k p)) POLLERR)
  | Some (FdTimer due i) => flag (0 <? expirations (now k) due i) POLLIN
  end.

Record pollfd := Pollfd { pfd : Z; events : Z }.

Definition revents (k : kernel) (p : pollfd) : Z :=
  if pfd p <? 0 then 0
  else Z.land (poll_state k (pfd p)) (Z.lor (events p) (Z.lor POLLERR (Z.lor POLLHUP POLLNVAL))).

Definition nonzero (z : Z) : bool := negb (z =? 0).
Definition poll_count (r : list Z) : Z := Z.of_nat (length (filter nonzero r)).

Definition poll_ready (l : list pollfd) (k : kernel) : option (list Z) :=
  let r := map (revents k) l in if existsb nonzero r then Some r else None.

(** The timeout is an [int]; a negative one is infinite. The answer is the
    status, [errno] and the [revents]. *)
Definition sys_poll (l : list pollfd) (timeout : Z) : K (Z * Z * list Z) :=
  t ← gets now;
  r ← awaitK (poll_ready l) now (if s32 timeout <? 0 then None else Some (t + s32 timeout * 1000000)) true;
  match r with
  | Woken r => mret (poll_count r, 0, r)
  | TimedOut => mret (0, 0, map (λ _, 0) l)
  | Interrupted => mret (-1, EINTR, map (λ _, 0) l)
  end.

(** The C idiom [do status = call; while (status < 0 && errno == EINTR)]: a
    call that is interrupted has consumed an action of the script. *)
Definition retry {A} (call : K (Z * Z * A)) : K (Z * A) := λ w,
  kloop (S (length (script w))) (λ _ : unit,
    r ← call;
    let '(status, errno, a) := r in
    if (status <? 0) && (errno =? EINTR) then mret (inl ()) else mret (inr (status, a))) () w.

(** *** Timers

    A time is a pair of seconds and nanoseconds; arming with a zero value
    disarms. *)

Definition ns_of (t : Z * Z) : Z := t.1 * 1000000000 + t.2.
Definition valid_time (t : Z * Z) : bool := (0 <=? t.1) && (0 <=? t.2) && (t.2 <? 1000000000).

Definition timerfd_settime (fd : Z) (interval value : Z * Z) : K Z :=
  f ← gets (λ k, files k !! fd);
  t ← gets now;
  match f with
  | Some (FdTimer _ _) =>
    if valid_time interval && valid_time value then
      modify (set_file fd (FdTimer (if ns_of value =? 0 then 0 else t + ns_of value) (ns_of interval)));; mret 0
    else mret (-1)
  | _ => mret (-1)
  end.

(** [timer_create] with the identifier the system chooses; [rc] is its answer. *)
Definition timer_create (tid rc : Z) : K Z :=
  (if rc =? 0 then modify (λ k, set_ptimers (<[tid := (0, 0)]> (ptimers k)) k) else mret ());; mret rc.

Definition timer_settime (tid : Z) (interval value : Z * Z) : K Z :=
  p ← gets (λ k, ptimers k !! tid);
  t ← gets now;
  match p with
  | Some _ =>
    if valid_time interval && valid_time value then
      modify (λ k, set_ptimers (<[tid := (if ns_of value =? 0 then 0 else t + ns_of value, ns_of interval)]> (ptimers k)) k);; mret 0
    else mret (-1)
  | None => mret (-1)
  end.

(** *** pthread mutexes

    An attribute object is the type of the mutexes made with it. *)

Definition PTHREAD_MUTEX_DEFAULT := 0.
Definition PTHREAD_MUTEX_RECURSIVE := 1.
Definition pthread_mutexattr_init : Z := PTHREAD_MUTEX_DEFAULT.
Definition pthread_mutexattr_settype (attr kind : Z) : Z := kind.
Definition pthread_mutex_init (attr : Z) : WINPR_MUTEX := Mutex attr None.

(** The mutex after the caller has locked it; [None] where the call blocks: held
    by another thread or, when it is not recursive, by the caller. *)
Definition mutex_free (h : Z) (k : kernel) : option WINPR_MUTEX :=
  match objs k !! h with
  | Some (Object _ _ _ (BMutex (Mutex ty None))) => Some (Mutex ty (Some (self k, 1)))
  | Some (Object _ _ _ (BMutex (Mutex ty (Some (t, c))))) =>
    if (t =? self k) && (ty =? PTHREAD_MUTEX_RECURSIVE) then Some (Mutex ty (Some (t, c + 1))) else None
  | _ => None
  end.

(** [pthread_mutex_lock], and [pthread_mutex_timedlock] with its absolute
    deadline on CLOCK_REALTIME. *)
Definition mutex_lock (h : Z) (deadline : option Z) : K Z :=
  r ← awaitK (mutex_free h) (λ k, now k + realtime k) deadline false;
  match r with
  | Woken m => modify (set_body h (BMutex m));; mret 0
  | _ => mret ETIMEDOUT
  end.

Definition EPERM := 1.
(** Unlocking a recursive mutex that the caller does not hold is an error; one of
    the default type is released, whoever holds it (so does Linux). *)
Definition mutex_unlock (h : Z) (m : WINPR_MUTEX) : K Z :=
  let not_owner := if mtype m =? PTHREAD_MUTEX_RECURSIVE then mret EPERM else modify (set_body h (BMutex (Mutex (mtype m) None)));; mret 0 in
  me ← gets self;
  match holder m with
  | Some (t, c) =>
    if t =? me then
      modify (set_body h (BMutex (Mutex (mtype m) (if c =? 1 then None else Some (t, c - 1)))));; mret 0
    else not_owner
  | None => not_owner
  end.

(** [pthread_join] waits for the end of a thread and gives back its identifier;
    a thread that does not exist, or was joined or detached, is undefined. *)
Definition pthread_join (t : Z) : K Z :=
  r ← awaitK (λ k, match threads k !! t with Some true => Some true | Some false => None | None => Some false end) now None false;
  match r with
  | Woken true => modify (λ k, set_threads (delete t (threads k)) k);; mret 0
  | _ => undefined
  end.

(** ** error.c *)

Definition ERROR_INVALID_HANDLE := 6.
Definition ERROR_INTERNAL_ERROR := 1359.
Definition SetLastError (e : Z) : K unit := modify (set_LastError e).
Definition GetLastError : K Z := gets g_LastError.

(** ** Lemmas *)

Lemma kernel_eq k k' : objs k = objs k' → files k = files k' → pipes k = pipes k' → threads k = threads k' →
  thread_list k = thread_list k' → self k = self k' → g_LastError k = g_LastError k' → now k = now k' →
  realtime k = realtime k' → ptimers k = ptimers k' → k = k'.
Proof. destruct k, k'. cbn. by intros -> -> -> -> -> -> -> -> -> ->. Qed.

Lemma bind_modify {A} f (g : unit → K A) k s : (modify f ≫= g) (World k s) = g () (World (f k) s).
Proof. done. Qed.

Lemma bind_ret {A B} (a : A) (g : A → K B) w : (mret a ≫= g) w = g a w.
Proof. done. Qed.

Lemma bind_bind {A B C} (m : K A) (f : A → K B) (g : B → K C) w : ((m ≫= f) ≫= g) w = (m ≫= λ a, f a ≫= g) w.
Proof. unfold mbind, K_bind. by destruct (m w) as [[a w']| |]. Qed.

(** Equality of kernels field by field; run the state changes of a call. *)
Ltac kernel_eq := apply kernel_eq; try reflexivity; cbn -[Z.add Z.sub].
Ltac krun := repeat first [rewrite bind_bind | rewrite bind_modify | rewrite bind_ret].
