(* ===== verification/Handle.v ===== *)
(** Handle objects (src/libuzi/handle.h, handle.c and the operation tables of
    event.c, mutex.c, semaphore.c, timer.c and thread.c): the checks on a
    handle, its descriptor and its cleanup after a successful wait. *)

From stdpp Require Import list gmap.
From S2P Require Import Prelude Kernel.

Definition HANDLE_TYPE_THREAD := 2.
Definition HANDLE_TYPE_EVENT := 3.
Definition HANDLE_TYPE_MUTEX := 4.
Definition HANDLE_TYPE_SEMAPHORE := 5.
Definition HANDLE_TYPE_TIMER := 6.
Definition UZI_FD_READ := Z.shiftl 1 0.
Definition UZI_FD_WRITE := Z.shiftl 1 1.
Definition FD_READ := Z.shiftl 1 0.
Definition INVALID_HANDLE_VALUE := 2 ^ 64 - 1.
Definition WAIT_OBJECT_0 := 0.
Definition WAIT_TIMEOUT := 258.
Definition WAIT_FAILED := 4294967295.

(** Dereferencing a handle; [x_at] are the casts of a handle to one kind of
    object (a cast of another kind of object is not defined). *)
Definition object_at (h : Z) : K object := lift (λ k, get (objs k) h).
Definition event_at (h : Z) : K WINPR_EVENT :=
  o ← object_at h; match obody o with BEvent e => mret e | _ => undefined end.
Definition mutex_at (h : Z) : K WINPR_MUTEX :=
  o ← object_at h; match obody o with BMutex m => mret m | _ => undefined end.
Definition semaphore_at (h : Z) : K WINPR_SEMAPHORE :=
  o ← object_at h; match obody o with BSemaphore s => mret s | _ => undefined end.
Definition timer_at (h : Z) : K WINPR_TIMER :=
  o ← object_at h; match obody o with BTimer t => mret t | _ => undefined end.
Definition thread_at (h : Z) : K WINPR_THREAD :=
  o ← object_at h; match obody o with BThread t => mret t | _ => undefined end.

Definition free (h : Z) : K unit := modify (λ k, set_objs (delete h (objs k)) k).

(** The type of a valid handle. *)
Definition winpr_Handle_GetInfo (h : Z) : K (option Z) :=
  if (h =? 0) || (h =? INVALID_HANDLE_VALUE) then mret None
  else o ← object_at h; mret (Some (Type_ o)).

(** The same five lines in each file ([EventIsHandled], ...). *)
Definition IsHandledAs (type h : Z) : K bool :=
  if h =? 0 then SetLastError ERROR_INVALID_HANDLE;; mret false
  else
    o ← object_at h;
    if Type_ o =? type then mret true else SetLastError ERROR_INVALID_HANDLE;; mret false.
Definition EventIsHandled := IsHandledAs HANDLE_TYPE_EVENT.
Definition MutexIsHandled := IsHandledAs HANDLE_TYPE_MUTEX.
Definition SemaphoreIsHandled := IsHandledAs HANDLE_TYPE_SEMAPHORE.
Definition TimerIsHandled := IsHandledAs HANDLE_TYPE_TIMER.
Definition ThreadIsHandled := IsHandledAs HANDLE_TYPE_THREAD.

Definition EventGetFd (h : Z) : K Z :=
  b ← EventIsHandled h;
  if b : bool then e ← event_at h; mret (ev_fd0 e) else mret (-1).
Definition MutexGetFd (h : Z) : K Z := MutexIsHandled h;; mret (-1).
Definition SemaphoreGetFd (h : Z) : K Z :=
  b ← SemaphoreIsHandled h;
  if b : bool then s ← semaphore_at h; mret (sem_fd0 s) else mret (-1).
Definition TimerGetFd (h : Z) : K Z :=
  b ← TimerIsHandled h;
  if b : bool then t ← timer_at h; mret (tm_fd t) else mret (-1).
Definition ThreadGetFd (h : Z) : K Z :=
  b ← ThreadIsHandled h;
  if b : bool then t ← thread_at h; mret (th_fd0 t) else mret (-1).

Definition SemaphoreCleanupHandle (h : Z) : K Z :=
  b ← SemaphoreIsHandled h;
  if b : bool then
    s ← semaphore_at h;
    r ← sys_read (sem_fd0 s) 1;
    if negb (r.1 =? 1) then mret WAIT_FAILED else mret WAIT_OBJECT_0
  else mret WAIT_FAILED.

Definition TimerCleanupHandle (h : Z) : K Z :=
  b ← TimerIsHandled h;
  if b : bool then
    t ← timer_at h;
    r ← sys_read (tm_fd t) 8;
    let '(length, errno) := r in
    if negb (length =? 8) then
      if (length =? -1) && (errno =? ETIMEDOUT) then mret WAIT_TIMEOUT else mret WAIT_FAILED
    else mret WAIT_OBJECT_0
  else mret WAIT_FAILED.

(** The thread's own (plain) mutex is held across the join; here it is taken to
    be free, as it is when no other thread cleans up the same handle. *)
Definition set_joined (t : WINPR_THREAD) : WINPR_THREAD :=
  Thread (started t) (th_fd0 t) (th_fd1 t) (detached t) true (exited t) (dwExitCode t) (th_thread t)
    (lpStartAddress t) (lpParameter t).

Definition ThreadCleanupHandle (h : Z) : K Z :=
  b ← ThreadIsHandled h;
  if b : bool then
    t ← thread_at h;
    if joined t then mret WAIT_OBJECT_0
    else
      status ← pthread_join (th_thread t);
      if negb (status =? 0) then mret WAIT_FAILED
      else t ← thread_at h; modify (set_body h (BThread (set_joined t)));; mret WAIT_OBJECT_0
  else mret WAIT_FAILED.

(** The tables; [None] is a null pointer. Their entry [CloseHandle] is
    [Objects.close_op]: closing a thread waits for it. *)
Record HANDLE_OPS := HandleOps {
  IsHandled : Z → K bool; GetFd : Z → K Z; CleanupHandle : option (Z → K Z) }.

Definition ops_table (i : opsid) : HANDLE_OPS :=
  match i with
  | EventOps => HandleOps EventIsHandled EventGetFd None
  | MutexOps => HandleOps MutexIsHandled MutexGetFd None
  | SemaphoreOps => HandleOps SemaphoreIsHandled SemaphoreGetFd (Some SemaphoreCleanupHandle)
  | TimerOps => HandleOps TimerIsHandled TimerGetFd (Some TimerCleanupHandle)
  | ThreadOps => HandleOps ThreadIsHandled ThreadGetFd (Some ThreadCleanupHandle)
  end.

Definition winpr_Handle_getFd (h : Z) : K Z :=
  i ← winpr_Handle_GetInfo h;
  match i with
  | None => mret (-1)
  | Some _ =>
    o ← object_at h;
    match ops o with None => mret (-1) | Some t => GetFd (ops_table t) h end
  end.

Definition winpr_Handle_cleanup (h : Z) : K Z :=
  i ← winpr_Handle_GetInfo h;
  match i with
  | None => mret WAIT_FAILED
  | Some _ =>
    o ← object_at h;
    match ops o with
    | None => mret WAIT_FAILED
    | Some t => match CleanupHandle (ops_table t) with None => mret WAIT_OBJECT_0 | Some f => f h end
    end
  end.
