(* ===== verification/Wait.v ===== *)
(** Waiting (src/libuzi/wait.c). *)

From stdpp Require Import list gmap.
From S2P Require Import Prelude Kernel Handle.

Set Warnings "-clear-no-such-hyp".

Definition INFINITE := 4294967295.
Definition MAXIMUM_WAIT_OBJECTS := 64.

(** Timestamps of CLOCK_MONOTONIC are kept in nanoseconds, the value
    [ts_difftime] computes from [tv_sec] and [tv_nsec]. *)
Definition ts_difftime (o n : Z) : Z := n - o.

(** [tv_sec] and [tv_nsec] with [dwMilliseconds] added, the carry propagated. *)
Definition ts_add_ms (ts : Z * Z) (dwMilliseconds : Z) : Z * Z :=
  let sec := ts.1 + dwMilliseconds / 1000 in
  let nsec := ts.2 + (dwMilliseconds mod 1000) * 1000000 in
  (sec + nsec / 1000000000, nsec mod 1000000000).

Definition handle_mode_to_pollevent (mode : Z) : Z :=
  let event := 0 in
  let event := if nonzero (Z.land mode UZI_FD_READ) then Z.lor event POLLIN else event in
  if nonzero (Z.land mode UZI_FD_WRITE) then Z.lor event POLLOUT else event.

Definition waitOnFd (fd mode dwMilliseconds : Z) : K Z :=
  r ← retry (sys_poll [Pollfd fd (handle_mode_to_pollevent mode)] dwMilliseconds);
  mret r.1.

Definition WaitForSingleObject (h dwMilliseconds : Z) : K Z :=
  i ← winpr_Handle_GetInfo h;
  match i with
  | None => SetLastError ERROR_INVALID_HANDLE;; mret WAIT_FAILED
  | Some type =>
    if type =? HANDLE_TYPE_MUTEX then
      mutex_at h;;
      (if negb (dwMilliseconds =? INFINITE) then
        timeout ← clock_gettime;
        let ts := ts_add_ms (timeout / 1000000000, timeout mod 1000000000) dwMilliseconds in
        status ← mutex_lock h (Some (ts.1 * 1000000000 + ts.2));
        if status =? ETIMEDOUT then mret WAIT_TIMEOUT else mret WAIT_OBJECT_0
      else
        mutex_lock h None;; mret WAIT_OBJECT_0)
    else
      fd ← winpr_Handle_getFd h;
      if fd <? 0 then SetLastError ERROR_INVALID_HANDLE;; mret WAIT_FAILED
      else
        o ← object_at h;
        status ← waitOnFd fd (Mode o) dwMilliseconds;
        if status <? 0 then SetLastError ERROR_INTERNAL_ERROR;; mret WAIT_FAILED
        else if negb (status =? 1) then mret WAIT_TIMEOUT
        else winpr_Handle_cleanup h
  end.

(** *** Waiting for several objects *)

(** One round collects the descriptors to poll and, with [bWaitAll], the map
    from a position of the poll array to the index of the handle; it stops at
    the first invalid handle. *)
Definition poll_entry (h : Z) : K (option pollfd) :=
  i ← winpr_Handle_GetInfo h;
  match i with
  | None => SetLastError ERROR_INVALID_HANDLE;; mret None
  | Some _ =>
    fd ← winpr_Handle_getFd h;
    if fd =? -1 then SetLastError ERROR_INVALID_HANDLE;; mret None
    else o ← object_at h; mret (Some (Pollfd fd (handle_mode_to_pollevent (Mode o))))
  end.

Fixpoint collect (lpHandles : list Z) (signalled_idx : list bool) (bWaitAll : bool) (index : nat)
    : K (option (list (nat * pollfd))) :=
  match lpHandles with
  | [] => mret (Some [])
  | h :: hs =>
    if bWaitAll && default false (signalled_idx !! index) then collect hs signalled_idx bWaitAll (S index)
    else
      e ← poll_entry h;
      match e with
      | None => mret None
      | Some p =>
        r ← collect hs signalled_idx bWaitAll (S index);
        mret (match r with None => None | Some l => Some ((index, p) :: l) end)
      end
  end.

(** [for (; signalled < nCount; signalled++) if (!signalled_idx[signalled]) break;] *)
Fixpoint advance (idx : list bool) (signalled : nat) (n : nat) : nat :=
  match n with
  | O => signalled
  | S n' => if default false (idx !! signalled) then advance idx (S signalled) n' else signalled
  end.

(** The scan of the poll results; [inr] is a [return]. *)
Fixpoint scan (lpHandles : list Z) (bWaitAll : bool) (polled : list (nat * pollfd * Z))
    (signalled_idx : list bool) (signalled : nat) (signal_handled : bool)
    : K (list bool * nat * bool + Z) :=
  match polled with
  | [] => mret (inl (signalled_idx, signalled, signal_handled))
  | (idx, p, rev) :: rest =>
    match lpHandles !! idx with
    | None => undefined
    | Some h =>
      e ← poll_entry h;
      match e with
      | None => mret (inr WAIT_FAILED)
      | Some _ =>
        if nonzero (Z.land rev (events p)) then
          rc ← winpr_Handle_cleanup h;
          if negb (rc =? WAIT_OBJECT_0) then mret (inr rc)
          else if negb bWaitAll then mret (inr (WAIT_OBJECT_0 + Z.of_nat idx))
          else
            let signalled_idx := <[idx := true]> signalled_idx in
            let signalled := advance signalled_idx signalled (length lpHandles - signalled) in
            if (length lpHandles <=? signalled)%nat then mret (inr WAIT_OBJECT_0)
            else scan lpHandles bWaitAll rest signalled_idx signalled true
        else scan lpHandles bWaitAll rest signalled_idx signalled signal_handled
      end
    end
  end.

(** One round of the loop; the state is [signalled_idx], [signalled] and
    [dwMilliseconds]. *)
Definition wait_round (lpHandles : list Z) (bWaitAll : bool) (st : list bool * nat * Z)
    : K (list bool * nat * Z + Z) :=
  let '(signalled_idx, signalled, dwMilliseconds) := st in
  let timed := bWaitAll && negb (dwMilliseconds =? INFINITE) in
  starttime ← (if timed : bool then clock_gettime else mret 0);
  c ← collect lpHandles signalled_idx bWaitAll 0;
  match c with
  | None => mret (inr WAIT_FAILED)
  | Some polled =>
    r ← retry (sys_poll (map snd polled) dwMilliseconds);
    let '(status, revs) := r in
    if status <? 0 then SetLastError ERROR_INTERNAL_ERROR;; mret (inr WAIT_FAILED)
    else if status =? 0 then mret (inr WAIT_TIMEOUT)
    else
      timenow ← (if timed : bool then clock_gettime else mret 0);
      let diff := u64 (ts_difftime timenow starttime) in
      if timed && (dwMilliseconds <? diff / 1000) then mret (inr WAIT_TIMEOUT)
      else
        let dwMilliseconds := if timed : bool then u32 (dwMilliseconds - diff / 1000) else dwMilliseconds in
        s ← scan lpHandles bWaitAll (zip polled revs) signalled_idx signalled false;
        match s with
        | inr rc => mret (inr rc)
        | inl (signalled_idx, signalled, signal_handled) =>
          if bWaitAll || negb signal_handled then mret (inl (signalled_idx, signalled, dwMilliseconds))
          else SetLastError ERROR_INTERNAL_ERROR;; mret (inr WAIT_FAILED)
        end
  end.

Definition WaitForMultipleObjects (fuel : nat) (lpHandles : list Z) (bWaitAll : bool) (dwMilliseconds : Z) : K Z :=
  let nCount := Z.of_nat (length lpHandles) in
  if (nCount =? 0) || (MAXIMUM_WAIT_OBJECTS <? nCount) then mret WAIT_FAILED
  else kloop fuel (wait_round lpHandles bWaitAll) (replicate (length lpHandles) false, 0%nat, dwMilliseconds).

(** ** Specification

    A target is what a handle waits on: the descriptor with its poll events, and
    the resource a successful wait takes. [waitable k h t]: [h] is an event on an
    eventfd, a semaphore or a waitable timer with target [t]. [sig k p]: the
    object is signalled. [consume r]: what a successful wait does to it. *)

Inductive resource := RNone | RPipe (p : nat) | RTimer (fd : Z).
Abbreviation target := (pollfd * resource)%type.

Definition valid_handle (h : Z) : Prop := h ≠ 0 ∧ h ≠ INVALID_HANDLE_VALUE.

Inductive waitable (k : kernel) (h : Z) : target → Prop :=
  | waitable_event mode e n : valid_handle h →
      objs k !! h = Some (Object HANDLE_TYPE_EVENT mode (Some EventOps) (BEvent e)) → 0 <= ev_fd0 e →
      files k !! ev_fd0 e = Some (FdEvent n) →
      waitable k h (Pollfd (ev_fd0 e) (handle_mode_to_pollevent mode), RNone)
  | waitable_semaphore s p : valid_handle h →
      objs k !! h = Some (Object HANDLE_TYPE_SEMAPHORE UZI_FD_READ (Some SemaphoreOps) (BSemaphore s)) →
      0 <= sem_fd0 s → files k !! sem_fd0 s = Some (FdPipeR p) → has_writer k p = true →
      waitable k h (Pollfd (sem_fd0 s) POLLIN, RPipe p)
  | waitable_timer t due i : valid_handle h →
      objs k !! h = Some (Object HANDLE_TYPE_TIMER UZI_FD_READ (Some TimerOps) (BTimer t)) →
      0 <= tm_fd t → files k !! tm_fd t = Some (FdTimer due i) →
      waitable k h (Pollfd (tm_fd t) POLLIN, RTimer (tm_fd t)).

Definition sig (k : kernel) (p : pollfd) : bool := nonzero (Z.land (revents k p) (events p)).

Definition consume (r : resource) (k : kernel) : kernel :=
  match r with
  | RNone => k
  | RPipe p => pipe_add p (-1) k
  | RTimer fd => match files k !! fd with Some (FdTimer due i) => set_file fd (rearm (now k) due i) k | _ => k end
  end.

(** Different handles take different resources. *)
Definition independent (ts : list target) : Prop :=
  ∀ i j t t', ts !! i = Some t → ts !! j = Some t' → t.2 = t'.2 → t.2 ≠ RNone → i = j.

(** The environment leaves the handles being waited for open. *)
Definition keeps (hs : list Z) (ts : list target) (e : env) : Prop :=
  match e with
  | Act f => ∀ k, Forall2 (waitable k) hs ts → Forall2 (waitable (f k)) hs ts
  | Signal => True
  end.

(** [run ts w tr w']: from [w] to [w'] the environment acts and the objects at
    the indices [tr], each signalled at that moment, are consumed in order. *)
Inductive run (ts : list target) : world → list nat → world → Prop :=
  | run_nil w : run ts w [] w
  | run_env w w1 tr w' : evolves w w1 → run ts w1 tr w' → run ts w tr w'
  | run_take i p r k s tr w' : ts !! i = Some (p, r) → sig k p = true →
      run ts (World (consume r k) s) tr w' → run ts (World k s) (i :: tr) w'.

(** The entries of the poll array. *)
Fixpoint pending (ts : list target) (idx : list bool) (bWaitAll : bool) (i : nat) : list (nat * pollfd) :=
  match ts with
  | [] => []
  | t :: ts =>
    if bWaitAll && default false (idx !! i) then pending ts idx bWaitAll (S i)
    else (i, t.1) :: pending ts idx bWaitAll (S i)
  end.

(** ** Lemmas *)

Lemma K_bind_ok {A B} (m : K A) (f : A → K B) w a w' : m w = Ok (a, w') → (m ≫= f) w = f a w'.
Proof. intros E. unfold mbind, K_bind. by rewrite E. Qed.

Lemma K_bind_inv {A B} (m : K A) (f : A → K B) w b w' :
  (m ≫= f) w = Ok (b, w') → ∃ a w1, m w = Ok (a, w1) ∧ f a w1 = Ok (b, w').
Proof. unfold mbind, K_bind. destruct (m w) as [[a w1]| |]; naive_solver. Qed.

Lemma info_ok k s h o : valid_handle h → objs k !! h = Some o →
  winpr_Handle_GetInfo h (World k s) = Ok (Some (Type_ o), World k s).
Proof.
  intros [H0 H1] Ho. unfold winpr_Handle_GetInfo, object_at, lift, get.
  destruct (Z.eqb_spec h 0), (Z.eqb_spec h INVALID_HANDLE_VALUE); try done. cbn. unfold mbind, K_bind. cbn. by rewrite Ho.
Qed.

Lemma object_at_ok k s h o : objs k !! h = Some o → object_at h (World k s) = Ok (o, World k s).
Proof. intros Ho. unfold object_at, lift, get. cbn. by rewrite Ho. Qed.

Lemma is_handled_ok k s h o : valid_handle h → objs k !! h = Some o →
  IsHandledAs (Type_ o) h (World k s) = Ok (true, World k s).
Proof.
  intros [H0 _] Ho. unfold IsHandledAs. destruct (Z.eqb_spec h 0); [done|].
  rewrite (K_bind_ok _ _ _ _ _ (object_at_ok _ _ _ _ Ho)). by rewrite Z.eqb_refl.
Qed.

Lemma waitable_valid k h t : waitable k h t → valid_handle h.
Proof. by destruct 1. Qed.

Ltac kstep H := rewrite (K_bind_ok _ _ _ _ _ H).

Lemma bind_object {A} k s h o (g : object → K A) : objs k !! h = Some o →
  (object_at h ≫= g) (World k s) = g o (World k s).
Proof. intros Ho. by kstep (object_at_ok k s _ _ Ho). Qed.

Lemma getfd_ok k s h t : waitable k h t → winpr_Handle_getFd h (World k s) = Ok (pfd t.1, World k s) ∧ 0 <= pfd t.1.
Proof.
  intros Hw. pose proof (waitable_valid _ _ _ Hw) as Hv.
  destruct Hw as [mode e n _ Ho Hf Hn|sm p _ Ho Hf Hp Hr|t d i _ Ho Hf Hp].
  all: split; [|done]; unfold winpr_Handle_getFd; kstep (info_ok k s _ _ Hv Ho); rewrite (bind_object _ _ _ _ _ Ho);
    cbn [ops ops_table GetFd pfd fst].
  - unfold EventGetFd. kstep (is_handled_ok k s _ _ Hv Ho). unfold event_at. unfold mbind at 1, K_bind at 1. by rewrite (bind_object _ _ _ _ _ Ho).
  - unfold SemaphoreGetFd. kstep (is_handled_ok k s _ _ Hv Ho). unfold semaphore_at. unfold mbind at 1, K_bind at 1. by rewrite (bind_object _ _ _ _ _ Ho).
  - unfold TimerGetFd. kstep (is_handled_ok k s _ _ Hv Ho). unfold timer_at. unfold mbind at 1, K_bind at 1. by rewrite (bind_object _ _ _ _ _ Ho).
Qed.

Lemma waitable_mode k h t : waitable k h t →
  ∃ o, objs k !! h = Some o ∧ events t.1 = handle_mode_to_pollevent (Mode o) ∧ Type_ o ≠ HANDLE_TYPE_MUTEX.
Proof. intros [mode e|sm q|tm d i]; eexists; (split; [eassumption|done]). Qed.

Lemma poll_entry_ok k s h t : waitable k h t → poll_entry h (World k s) = Ok (Some t.1, World k s).
Proof.
  intros Hw. destruct (getfd_ok k s h t Hw) as [Hf Hp]. destruct (waitable_mode k h t Hw) as (o & Ho & Hm & _).
  unfold poll_entry. kstep (info_ok k s _ _ (waitable_valid _ _ _ Hw) Ho). kstep Hf.
  destruct (Z.eqb_spec (pfd t.1) (-1)); [lia|]. rewrite (bind_object _ _ _ _ _ Ho).
  rewrite <- Hm. destruct t as [[? ?] ?]. done.
Qed.

(** *** Blocking *)

Lemma evolves_trans w1 w2 w3 : evolves w1 w2 → evolves w2 w3 → evolves w1 w3.
Proof. induction 1; eauto using evolves. Qed.

Lemma evolves_script w w' : evolves w w' → (length (script w') ≤ length (script w))%nat.
Proof. induction 1; cbn in *; lia. Qed.

(** What a call that blocks knows when it comes back. *)
Definition woken {A} (ready : kernel → option A) (dl : option Z) (intr : bool) (w : world) (r : wake A) (w' : world) : Prop :=
  evolves w w' ∧
  match r with
  | Woken a => ready (kern w') = Some a
  | TimedOut => is_Some dl ∧ ready (kern w') = None
  | Interrupted => intr = true ∧ (length (script w') < length (script w))%nat
  end.

Lemma woken_step {A} (ready : kernel → option A) dl intr w w1 r w' :
  evolves w w1 → (length (script w1) ≤ length (script w))%nat → woken ready dl intr w1 r w' → woken ready dl intr w r w'.
Proof.
  intros He Hl [H1 H2]. split; [by eapply evolves_trans|]. destruct r; [done..|]. split; [apply H2|]. lia.
Qed.

Lemma await_woken {A} (ready : kernel → option A) clock dl intr s k r w' :
  await ready clock dl intr s k = Ok (r, w') → woken ready dl intr (World k s) r w'.
Proof.
  revert k. induction s as [|e s IH]; intros k; cbn; destruct (ready k) as [a|] eqn:E.
  1,3: intros [= <- <-]; split; [constructor|done].
  - destruct dl as [d|]; [|done]. case_if.
    + intros [= <- <-]. split; [constructor|]. done.
    + zbool. assert (Hn : now k <= now k + (d - clock k)) by lia. pose proof (evolves_time _ k _ Hn (evolves_refl _)) as He.
      destruct (ready (set_now _ k)) as [a|] eqn:E'; intros H; injection H as <- <-; split; done.
  - destruct (match dl with Some d => d <=? clock k | None => false end) eqn:Ep.
    + intros [= <- <-]. split; [constructor|]. by destruct dl.
    + destruct e as [f|].
      * intros H. apply IH in H. eapply woken_step; [eapply evolves_act; constructor|cbn; lia|done].
      * destruct intr.
        -- intros [= <- <-]. split; [eapply evolves_signal; constructor|]. cbn. split; [done|lia].
        -- intros H. apply IH in H. eapply woken_step; [eapply evolves_signal; constructor|cbn; lia|done].
Qed.

Lemma await_now {A} (ready : kernel → option A) clock dl intr s k a :
  ready k = Some a → await ready clock dl intr s k = Ok (Woken a, World k s).
Proof. intros E. destruct s; cbn; by rewrite E. Qed.

(** With a deadline every blocked call comes back. *)
Lemma await_total {A} (ready : kernel → option A) clock d intr s k :
  ∃ r w', await ready clock (Some d) intr s k = Ok (r, w').
Proof.
  revert k. induction s as [|e s IH]; intros k; cbn; destruct (ready k) as [a|] eqn:E; eauto; destruct (d <=? clock k); eauto.
  - destruct (ready (set_now _ k)); eauto.
  - destruct e as [f|]; [apply IH|]. destruct intr; [eauto|apply IH].
Qed.

(** *** poll *)

Lemma poll_count_pos r : existsb nonzero r = true → 0 < poll_count r.
Proof.
  unfold poll_count. induction r as [|x r IH]; cbn [existsb]; [done|]. rewrite filter_cons. intros H.
  destruct (decide (nonzero x)) as [Hx|Hx]; [cbn; lia|]. apply IH. by destruct (nonzero x).
Qed.

(** The answer of [poll]: either some descriptor is ready, with the [revents]
    of that moment, or the (finite) timeout has passed. *)
Definition polled (l : list pollfd) (ms : Z) (w : world) (r : Z * list Z) (w' : world) : Prop :=
  evolves w w' ∧ length r.2 = length l ∧
  ((0 < r.1 ∧ r.1 = poll_count r.2 ∧ r.2 = map (revents (kern w')) l) ∨
   (r.1 = 0 ∧ 0 <= s32 ms ∧ existsb nonzero (map (revents (kern w')) l) = false)).

Lemma sys_poll_inv l ms w st e r w' : sys_poll l ms w = Ok ((st, e, r), w') →
  polled l ms w (st, r) w' ∨ (st = -1 ∧ e = EINTR ∧ evolves w w' ∧ (length (script w') < length (script w))%nat).
Proof.
  unfold sys_poll. intros (t & w1 & Ht & H)%K_bind_inv. injection Ht as <- <-.
  apply K_bind_inv in H as (x & w2 & Hx & H). unfold awaitK in Hx. apply await_woken in Hx as [He Hx].
  replace (World (kern w) (script w)) with w in He by (by destruct w).
  destruct x as [a| |]; injection H as <- <- <- <-.
  - left. unfold poll_ready in Hx. destruct (existsb _ _) eqn:Eb; [|done]. injection Hx as <-.
    split; [done|]. cbn [fst snd]. rewrite length_map. split; [done|]. left. split; [by apply poll_count_pos|done].
  - left. destruct Hx as [[d Hd] Hx]. unfold poll_ready in Hx. destruct (existsb _ _) eqn:Eb; [done|].
    split; [done|]. cbn [fst snd]. rewrite length_map. split; [done|]. right. case_match; [done|]. split_and!; [done|by apply Z.ltb_ge|done].
  - right. destruct Hx as [_ Hx]. by destruct w.
Qed.

Lemma retry_unfold {A} (call : K (Z * Z * A)) fuel w :
  kloop (S fuel) (λ _ : unit, r ← call;
    let '(status, errno, a) := r in
    if (status <? 0) && (errno =? EINTR) then mret (inl ()) else mret (inr (status, a))) () w =
  match call w with
  | Ok ((st, e, a), w1) =>
    if (st <? 0) && (e =? EINTR) then
      kloop fuel (λ _ : unit, r ← call;
        let '(status, errno, a) := r in
        if (status <? 0) && (errno =? EINTR) then mret (inl ()) else mret (inr (status, a))) () w1
    else Ok ((st, a), w1)
  | UB => UB | NoFuel => NoFuel
  end.
Proof.
  unfold kloop. cbn. unfold mbind, K_bind, res_bind. cbn.
  destruct (call w) as [[[[st e] a] w1]| |]; cbn; [|reflexivity..].
  destruct ((st <? 0) && (e =? EINTR)); reflexivity.
Qed.

Lemma polled_step l ms w w1 r w' : evolves w w1 → polled l ms w1 r w' → polled l ms w r w'.
Proof. intros He (H1 & H2). split; [by eapply evolves_trans|done]. Qed.

(** [poll], retried while interrupted, answers as [polled] says. *)
Lemma retry_poll_inv l ms w r w' : retry (sys_poll l ms) w = Ok (r, w') → polled l ms w r w'.
Proof.
  unfold retry. assert (Hf : (length (script w) < S (length (script w)))%nat) by lia. revert Hf.
  generalize (S (length (script w))). intros fuel. revert w. induction fuel as [|fuel IH]; intros w Hl; [lia|].
  rewrite retry_unfold. destruct (sys_poll l ms w) as [[[[st e] a] w1]| |] eqn:E; [|done..].
  destruct (sys_poll_inv _ _ _ _ _ _ _ E) as [Hp|(-> & -> & He & Hlt)].
  - replace (st <? 0) with false; [by intros [= <- <-]|]. symmetry. apply Z.ltb_ge.
    destruct Hp as (_ & _ & [Hp|Hp]); cbn in Hp; lia.
  - cbn. intros H. eapply polled_step; [done|]. apply IH; [lia|done].
Qed.

(** ... at once when a descriptor is ready or the timeout is 0, ... *)
Lemma retry_poll_ready l ms w r : poll_ready l (kern w) = Some r → retry (sys_poll l ms) w = Ok ((poll_count r, r), w).
Proof.
  intros Hr. unfold retry. rewrite retry_unfold. unfold sys_poll.
  rewrite (K_bind_ok (gets now) _ w (now (kern w)) w) by done. unfold awaitK.
  erewrite K_bind_ok by (by apply await_now). destruct w as [k s]. cbn.
  replace (poll_count r <? 0) with false; [done|]. symmetry. apply Z.ltb_ge. unfold poll_count. lia.
Qed.

Lemma retry_poll_zero l w : poll_ready l (kern w) = None → retry (sys_poll l 0) w = Ok ((0, map (λ _, 0) l), w).
Proof.
  intros Hr. unfold retry. rewrite retry_unfold. unfold sys_poll.
  rewrite (K_bind_ok (gets now) _ w (now (kern w)) w) by done. unfold awaitK. destruct w as [k s].
  change (s32 0) with 0. rewrite Z.mul_0_l, Z.add_0_r. cbn [Z.ltb Z.compare kern script] in *.
  unfold mbind, K_bind. destruct s; cbn; rewrite Hr, Z.leb_refl; done.
Qed.

(** ... and always when the timeout is finite. *)
Lemma retry_poll_total l ms w : 0 <= s32 ms → ∃ r w', retry (sys_poll l ms) w = Ok (r, w').
Proof.
  intros Hms. unfold retry. assert (Hf : (length (script w) < S (length (script w)))%nat) by lia. revert Hf.
  generalize (S (length (script w))). intros fuel. revert w. induction fuel as [|fuel IH]; intros w Hl; [lia|].
  rewrite retry_unfold.
  destruct (sys_poll l ms w) as [[[[st e] a] w1]| |] eqn:E.
  - destruct (sys_poll_inv _ _ _ _ _ _ _ E) as [Hp|(-> & -> & He & Hlt)].
    + replace (st <? 0) with false; [eauto|]. symmetry. apply Z.ltb_ge. destruct Hp as (_ & _ & [Hp|Hp]); cbn in Hp; lia.
    + cbn. apply IH. lia.
  - exfalso. revert E. unfold sys_poll. rewrite (K_bind_ok (gets now) _ w (now (kern w)) w) by done.
    destruct (Z.ltb_spec (s32 ms) 0); [lia|].
    destruct (await_total (poll_ready l) now (now (kern w) + s32 ms * 1000000) true (script w) (kern w)) as (r & w' & Hr).
    unfold awaitK, mbind, K_bind. rewrite Hr. by destruct r.
  - exfalso. revert E. unfold sys_poll. rewrite (K_bind_ok (gets now) _ w (now (kern w)) w) by done.
    destruct (Z.ltb_spec (s32 ms) 0); [lia|].
    destruct (await_total (poll_ready l) now (now (kern w) + s32 ms * 1000000) true (script w) (kern w)) as (r & w' & Hr).
    unfold awaitK, mbind, K_bind. rewrite Hr. by destruct r.
Qed.

(** *** Consuming *)

Lemma revents_eq k k' p : poll_state k (pfd p) = poll_state k' (pfd p) → revents k p = revents k' p.
Proof. intros H. unfold revents. by rewrite H. Qed.

Lemma sig_semaphore k fd q : 0 <= fd → files k !! fd = Some (FdPipeR q) → has_writer k q = true →
  sig k (Pollfd fd POLLIN) = (0 <? pipe_count k q).
Proof.
  intros Hfd Hf Hw. unfold sig, revents, poll_state. cbn [pfd events]. rewrite Hf, Hw.
  destruct (Z.ltb_spec fd 0); [lia|]. by destruct (0 <? pipe_count k q).
Qed.

Lemma sig_timer k fd d i : 0 <= fd → files k !! fd = Some (FdTimer d i) →
  sig k (Pollfd fd POLLIN) = (0 <? expirations (now k) d i).
Proof.
  intros Hfd Hf. unfold sig, revents, poll_state. cbn [pfd events]. rewrite Hf.
  destruct (Z.ltb_spec fd 0); [lia|]. by destruct (0 <? expirations (now k) d i).
Qed.

(** Replacing a timer's state leaves the writers of every pipe open. *)
Lemma has_writer_timer k fd d i d' i' q : files k !! fd = Some (FdTimer d i) →
  has_writer (set_file fd (FdTimer d' i') k) q = has_writer k q.
Proof.
  intros Hf. unfold has_writer. apply bool_decide_ext. unfold set_file. cbn. split.
  - intros (j & x & Hj & ->). destruct (decide (j = fd)) as [->|Hne].
    + by rewrite lookup_insert_eq in Hj.
    + rewrite lookup_insert_ne in Hj by done. by exists j, (FdPipeW q).
  - intros (j & x & Hj & ->). exists j, (FdPipeW q). split; [|done]. rewrite lookup_insert_ne; [done|]. intros <-. by simplify_eq.
Qed.

Lemma consume_files r k fd : (∀ d i, files k !! fd ≠ Some (FdTimer d i)) → files (consume r k) !! fd = files k !! fd.
Proof.
  intros H. destruct r as [|p|fd']; try done. cbn. destruct (files k !! fd') as [[]|] eqn:E; try done.
  cbn. rewrite lookup_insert_ne; [done|]. intros ->. by eapply H.
Qed.

Lemma consume_objs r k : objs (consume r k) = objs k.
Proof. destruct r as [|p|fd']; try done. cbn. by repeat case_match. Qed.

Lemma consume_writer r k q : has_writer (consume r k) q = has_writer k q.
Proof.
  destruct r as [|p|fd']; try done. cbn. destruct (files k !! fd') as [[]|] eqn:E; try done. by eapply has_writer_timer.
Qed.

Lemma waitable_consume r k h t : waitable k h t → waitable (consume r k) h t.
Proof.
  intros [mode e n Hv Ho Hf Hn|sm p Hv Ho Hf Hp Hr|tm d i Hv Ho Hf Hp].
  - eapply waitable_event; rewrite ?consume_objs, ?consume_files by congruence; eauto.
  - eapply waitable_semaphore; rewrite ?consume_objs, ?consume_files, ?consume_writer by congruence; eauto.
  - assert (∃ d' i', files (consume r k) !! tm_fd tm = Some (FdTimer d' i')) as (d' & i' & Hd).
    { destruct r as [|q|fd']; eauto. cbn. destruct (files k !! fd') as [[]|] eqn:E; eauto. cbn.
      destruct (decide (fd' = tm_fd tm)) as [->|]; [rewrite lookup_insert_eq; unfold rearm; eauto|rewrite lookup_insert_ne by done; eauto]. }
    eapply waitable_timer; rewrite ?consume_objs; eauto.
Qed.

(** A wait that takes another resource leaves an object signalled. *)
Lemma sig_consume r k h t : waitable k h t → (t.2 ≠ RNone → t.2 ≠ r) → sig (consume r k) t.1 = sig k t.1.
Proof.
  intros Hw Hne. unfold sig. erewrite revents_eq; [done|]. unfold poll_state.
  destruct Hw as [mode e n Hv Ho Hf Hn|sm p Hv Ho Hf Hp Hr|tm d i Hv Ho Hf Hp]; cbn [fst snd pfd] in *.
  - rewrite consume_files by congruence. by rewrite Hn.
  - rewrite consume_files by congruence. rewrite Hp, consume_writer, Hr. do 2 f_equal.
    destruct r as [|q|fd']; try done; cbn.
    + unfold pipe_count. cbn. rewrite list_lookup_alter_ne; [done|]. intros ->. by apply Hne.
    + by repeat case_match.
  - destruct r as [|q|fd']; cbn; rewrite ?Hp; try done.
    assert (fd' ≠ tm_fd tm) by (intros ->; by apply Hne).
    destruct (files k !! fd') as [[]|]; rewrite ?Hp; try done. cbn. by rewrite lookup_insert_ne, Hp by done.
Qed.

(** Cleaning up a signalled object takes its resource, at once. *)
Lemma cleanup_ok k s h t : waitable k h t → sig k t.1 = true →
  winpr_Handle_cleanup h (World k s) = Ok (WAIT_OBJECT_0, World (consume t.2 k) s).
Proof.
  intros Hw Hs. pose proof (waitable_valid _ _ _ Hw) as Hv. unfold winpr_Handle_cleanup.
  destruct Hw as [mode e n _ Ho Hf Hn|sm p _ Ho Hf Hp Hr|tm d i _ Ho Hf Hp];
    kstep (info_ok k s _ _ Hv Ho); rewrite (bind_object _ _ _ _ _ Ho); cbn [ops ops_table CleanupHandle fst snd] in *; [done|..].
  - rewrite sig_semaphore with (q := p) in Hs by done. unfold SemaphoreCleanupHandle.
    kstep (is_handled_ok k s _ _ Hv Ho). unfold semaphore_at.
    rewrite (K_bind_ok (o ← object_at h; _) _ _ sm (World k s)) by (by rewrite (bind_object _ _ _ _ _ Ho)).
    unfold sys_read. rewrite (K_bind_ok (r ← _; _) _ _ (1, 0) (World (pipe_add p (-1) k) s)); [done|].
    rewrite (K_bind_ok (gets _) _ _ (Some (FdPipeR p)) (World k s)) by (unfold gets; cbn; by rewrite Hp).
    rewrite (K_bind_ok (awaitK _ _ _ _) _ _ (Woken 1) (World k s)); [done|].
    apply await_now. rewrite Hs. zbool. f_equal. lia.
  - rewrite sig_timer with (d := d) (i := i) in Hs by done. unfold TimerCleanupHandle.
    kstep (is_handled_ok k s _ _ Hv Ho). unfold timer_at.
    rewrite (K_bind_ok (o ← object_at h; _) _ _ tm (World k s)) by (by rewrite (bind_object _ _ _ _ _ Ho)).
    unfold sys_read. rewrite (K_bind_ok (r ← _; _) _ _ (8, 0) (World (consume (RTimer (tm_fd tm)) k) s)); [done|].
    rewrite (K_bind_ok (gets _) _ _ (Some (FdTimer d i)) (World k s)) by (unfold gets; cbn; by rewrite Hp).
    rewrite (K_bind_ok (gets _) _ _ (now k) (World k s)) by done. cbn [Z.ltb Z.compare].
    destruct (Z.eqb_spec (expirations (now k) d i) 0) as [E|]; [rewrite E in Hs; done|].
    cbn. unfold mbind, K_bind, modify. cbn. by rewrite Hp.
Qed.

(** *** One round over several handles *)

Lemma collect_ok hs ts k s idx b i : Forall2 (waitable k) hs ts →
  collect hs idx b i (World k s) = Ok (Some (pending ts idx b i), World k s).
Proof.
  intros H. revert i. induction H as [|h t hs ts Hw H IH]; intros i; [done|]. cbn.
  destruct (b && _); [apply IH|]. kstep (poll_entry_ok k s h t Hw). kstep (IH (S i)). done.
Qed.

Lemma pending_any ts idx i : pending ts idx false i = zip (seq i (length ts)) ts.*1.
Proof. revert i. induction ts as [|t ts IH]; intros i; cbn; [done|]. by rewrite IH. Qed.

(** The entries left are those not yet signalled. *)
Lemma elem_of_pending ts idx b i j p :
  (j, p) ∈ pending ts idx b i ↔
  ∃ m r, j = (i + m)%nat ∧ ts !! m = Some (p, r) ∧ (b && default false (idx !! j)) = false.
Proof.
  revert i. induction ts as [|t ts IH]; intros i; cbn; [split; [by intros ?%elem_of_nil|naive_solver]|].
  assert (Hs : ∀ i', (∃ m r, j = (S i' + m)%nat ∧ ts !! m = Some (p, r) ∧ (b && default false (idx !! j)) = false) ↔
            (∃ m r, j = (i' + m)%nat ∧ m ≠ 0%nat ∧ (t :: ts) !! m = Some (p, r) ∧ (b && default false (idx !! j)) = false)).
  { intros i'. split.
    - intros (m & r & -> & ? & ?). exists (S m), r. split_and!; [lia|done..].
    - intros ([|m] & r & -> & ? & ? & ?); [done|]. exists m, r. split_and!; [lia|done..]. }
  destruct (b && default false (idx !! i)) eqn:E; rewrite ?elem_of_cons, IH, Hs; split.
  - intros (m & r & ? & ? & ? & ?). eauto.
  - intros ([|m] & r & -> & ? & Hf); [rewrite Nat.add_0_r in Hf; congruence|]. exists (S m), r. done.
  - intros [[= -> ->]|(m & r & ? & ? & ? & ?)]; [|eauto]. exists 0%nat, t.2. rewrite Nat.add_0_r. split_and!; [done| |done].
    cbn. by destruct t.
  - intros ([|m] & r & -> & Ht & Hf).
    + left. injection Ht as ->. by rewrite Nat.add_0_r.
    + right. exists (S m), r. done.
Qed.

Lemma pending_NoDup ts idx b i : NoDup (pending ts idx b i).*1.
Proof.
  revert i. induction ts as [|t ts IH]; intros i; cbn; [constructor|].
  destruct (b && _); [done|]. cbn. constructor; [|done].
  intros ([j p] & Hj & (m & r & -> & _)%elem_of_pending)%list_elem_of_fmap. cbn in Hj. lia.
Qed.

(** The scan of the answers of [poll] at [k0]. *)
Definition marked (k0 : kernel) (l : list (nat * pollfd)) : list (nat * pollfd * Z) :=
  zip l (map (revents k0) (map snd l)).

Lemma marked_cons k0 x l : marked k0 (x :: l) = (x, revents k0 x.2) :: marked k0 l.
Proof. done. Qed.

Fixpoint first_signalled (k : kernel) (l : list (nat * pollfd)) : option nat :=
  match l with [] => None | x :: l => if sig k x.2 then Some x.1 else first_signalled k l end.

Definition consume_at (ts : list target) (k : kernel) (i : nat) : kernel :=
  match ts !! i with Some t => consume t.2 k | None => k end.

Lemma scan_any hs ts k s l idx sg sh : Forall2 (waitable k) hs ts →
  (∀ i p, (i, p) ∈ l → ∃ r, ts !! i = Some (p, r)) →
  scan hs false (marked k l) idx sg sh (World k s) =
  match first_signalled k l with
  | Some i => Ok (inr (Z.of_nat i), World (consume_at ts k i) s)
  | None => Ok (inl (idx, sg, sh), World k s)
  end.
Proof.
  intros Hw. induction l as [|[i p] l IH]; intros Hl; [done|]. rewrite marked_cons. cbn.
  destruct (Hl i p (list_elem_of_here _ _)) as [r Hr].
  destruct (Forall2_lookup_r _ _ _ _ _ Hw Hr) as (h & Hh & Hwh). rewrite Hh.
  kstep (poll_entry_ok k s h _ Hwh). cbn. fold (sig k p). destruct (sig k p) eqn:Es.
  - kstep (cleanup_ok k s h _ Hwh Es). cbn. unfold consume_at. by rewrite Hr.
  - apply IH. intros j q Hj. apply Hl. by apply list_elem_of_further.
Qed.

Lemma advance_spec idx sg n : (∀ j, (j < sg)%nat → idx !! j = Some true) →
  (sg ≤ advance idx sg n ≤ sg + n)%nat ∧ (∀ j, (j < advance idx sg n)%nat → idx !! j = Some true) ∧
  (advance idx sg n = (sg + n)%nat ∨ idx !! advance idx sg n ≠ Some true).
Proof.
  revert sg. induction n as [|n IH]; intros sg H; cbn; [split_and!; [lia|lia|done|left; lia]|].
  destruct (idx !! sg) as [[]|] eqn:E; cbn.
  - destruct (IH (S sg)) as (H1 & H2 & H3).
    { intros j Hj. destruct (decide (j = sg)) as [->|]; [done|]. apply H. lia. }
    split_and!; [lia|lia|done|]. destruct H3; [left; lia|by right].
  - split_and!; [lia|lia|done|right; congruence].
  - split_and!; [lia|lia|done|right; congruence].
Qed.

Definition consume_all (ts : list target) (tr : list nat) (k : kernel) : kernel := foldl (consume_at ts) k tr.

Lemma waitable_consume_at ts hs k i : Forall2 (waitable k) hs ts → Forall2 (waitable (consume_at ts k i)) hs ts.
Proof.
  unfold consume_at. destruct (ts !! i) as [t|]; [|done]. intros H. eapply Forall2_impl; [exact H|].
  intros h t'. apply waitable_consume.
Qed.

Lemma sig_consume_at ts hs k i j t : Forall2 (waitable k) hs ts → independent ts → i ≠ j → ts !! j = Some t →
  sig (consume_at ts k i) t.1 = sig k t.1.
Proof.
  intros Hw Hi Hne Hj. unfold consume_at. destruct (ts !! i) as [t'|] eqn:Ei; [|done].
  destruct (Forall2_lookup_r _ _ _ _ _ Hw Hj) as (h & _ & Hh). eapply sig_consume; [done|].
  intros Hn Heq. apply Hne. symmetry. by apply (Hi j i t t').
Qed.

(** The state of the scan: which handles are done. *)
Definition marks (n : nat) (idx : list bool) (sg : nat) : Prop :=
  length idx = n ∧ (sg ≤ n)%nat ∧ (∀ j, (j < sg)%nat → idx !! j = Some true).

(** [scan_res]: the outcome of scanning, when [tr] has been consumed. *)
Definition scan_res (n : nat) (idx : list bool) (tr : list nat) (r : list bool * nat * bool + Z) : Prop :=
  match r with
  | inr rc => rc = WAIT_OBJECT_0 ∧ (∀ j, (j < n)%nat → idx !! j = Some true ∨ j ∈ tr)
  | inl (idx', sg', _) =>
    marks n idx' sg' ∧ (∀ j, idx' !! j = Some true ↔ idx !! j = Some true ∨ j ∈ tr) ∧
    (∃ j, idx' !! j = Some false)
  end.

Lemma insert_true (idx : list bool) i j b : idx !! i = Some b → (<[i := true]> idx !! j = Some true ↔ idx !! j = Some true ∨ j = i).
Proof.
  intros Hi. apply lookup_lt_Some in Hi as Hlt. destruct (decide (j = i)) as [->|Hne].
  - rewrite list_lookup_insert_eq by done. naive_solver.
  - rewrite list_lookup_insert_ne by done. naive_solver.
Qed.

Lemma marks_false n idx sg : marks n idx sg → (sg < n)%nat → idx !! sg ≠ Some true → idx !! sg = Some false.
Proof.
  intros (Hl & _ & _) Hlt Hn. destruct (lookup_lt_is_Some_2 idx sg) as [[] E]; [lia|congruence|done].
Qed.

(** An object is taken before a scan goes on. *)
Lemma scan_res_cons n idx i tr r : idx !! i = Some false → scan_res n (<[i := true]> idx) tr r → scan_res n idx (i :: tr) r.
Proof.
  intros Hi. destruct r as [[[idx' sg'] sh']|rc].
  - intros (Hm & Hiff & Hex). split_and!; [apply Hm..| |done]. intros j. rewrite Hiff, (insert_true idx i j false Hi). set_solver.
  - intros [-> Hall]. split; [done|]. intros j Hj. destruct (Hall j Hj) as [Hx|Hx]; [|set_solver].
    apply (insert_true idx i j false Hi) in Hx. set_solver.
Qed.

(** Once all objects are marked there is nothing left to scan. *)
Lemma nothing_left {P : Type} n idx i (l : list (nat * P)) : idx !! i = Some false → length idx = n →
  (∀ j, (j < n)%nat → <[i := true]> idx !! j = Some true) → (∀ j q, (j, q) ∈ l → idx !! j = Some false ∧ j ≠ i) → l = [].
Proof.
  intros Hi Hlen Hall Hl. destruct l as [|[j q] l']; [done|]. exfalso. destruct (Hl j q (list_elem_of_here _ _)) as [Hj Hne].
  assert (Hx := Hall j ltac:(apply lookup_lt_Some in Hj; lia)). apply (insert_true idx i j false Hi) in Hx. destruct Hx; congruence.
Qed.

Lemma scan_all hs ts k0 s l idx sg sh k :
  Forall2 (waitable k) hs ts → independent ts → marks (length hs) idx sg → NoDup l.*1 →
  (∃ j, idx !! j = Some false) →
  (∀ i p, (i, p) ∈ l → idx !! i = Some false ∧ ∃ r, ts !! i = Some (p, r) ∧ sig k p = sig k0 p) →
  let tr := (filter (λ x, sig k0 x.2 = true) l).*1 in
  ∃ r, scan hs true (marked k0 l) idx sg sh (World k s) = Ok (r, World (consume_all ts tr k) s) ∧
       run ts (World k s) tr (World (consume_all ts tr k) s) ∧ scan_res (length hs) idx tr r.
Proof.
  revert idx sg sh k. induction l as [|[i p] l IH]; intros idx sg sh k Hw Hind Hm Hnd Hf Hl.
  { eexists. split; [reflexivity|]. split; [constructor|]. cbn. split_and!; [apply Hm..| |done]. intros j.
    rewrite elem_of_nil. naive_solver. }
  destruct (Hl i p (list_elem_of_here _ _)) as (Hi & r & Hr & Hs).
  destruct (Forall2_lookup_r _ _ _ _ _ Hw Hr) as (h & Hh & Hwh).
  assert (Hl' : ∀ j q, (j, q) ∈ l → j ≠ i).
  { intros j q Hj ->. apply NoDup_cons in Hnd as [Hni _]. apply Hni. by apply (list_elem_of_fmap_2 fst l (i, q)). }
  rewrite filter_cons, marked_cons. cbn [snd scan]. rewrite Hh. kstep (poll_entry_ok k s h _ Hwh). cbn [fst]. fold (sig k0 p).
  destruct (sig k0 p) eqn:Es; cbn [decide].
  2: { destruct (decide _) as [Hd|_]; [done|]. apply IH; [done..|by apply NoDup_cons in Hnd as [_ ?]|done|].
       intros j q Hj. apply Hl. by apply list_elem_of_further. }
  destruct (decide _) as [_|Hd]; [|done]. kstep (cleanup_ok k s h _ Hwh Hs).
  set (idx1 := <[i := true]> idx). set (sg1 := advance idx1 sg (length hs - sg)). cbn -[Nat.leb].
  destruct Hm as (Hlen & Hsg & Hbelow).
  destruct (advance_spec idx1 sg (length hs - sg)) as (Hb & Htr & Hstop).
  { intros j Hj. apply (insert_true idx i j false Hi). left. by apply Hbelow. }
  fold sg1 in Hb, Htr, Hstop.
  assert (Hm1 : marks (length hs) idx1 sg1).
  { split_and!; [unfold idx1; by rewrite length_insert|lia|done]. }
  replace (consume r k) with (consume_at ts k i) by (unfold consume_at; by rewrite Hr).
  change (foldl (consume_at ts) (consume_at ts k i)) with (λ tr, consume_all ts tr (consume_at ts k i)). cbn beta.
  assert (Htake : ∀ tr w', run ts (World (consume_at ts k i) s) tr w' → run ts (World k s) (i :: tr) w').
  { intros tr w'. unfold consume_at. rewrite Hr. by eapply run_take. }
  destruct (Nat.leb_spec (length hs) sg1) as [Hge|Hlt].
  - (* all signalled: nothing is left to scan *)
    assert (l = []) as ->.
    { apply (nothing_left (length hs) idx i); [done|done| |].
      - intros j Hj. apply Htr. lia.
      - intros j q Hj. split; [|by eapply Hl']. by apply (Hl j q), list_elem_of_further. }
    eexists. split; [reflexivity|]. split; [apply Htake; constructor|]. cbn. split; [done|]. intros j Hj.
    assert (Hx : idx1 !! j = Some true) by (apply Htr; lia). apply (insert_true idx i j false Hi) in Hx. set_solver.
  - destruct (IH idx1 sg1 true (consume_at ts k i)) as (res & He & Hrun & Hres).
    + by apply waitable_consume_at.
    + done.
    + done.
    + by apply NoDup_cons in Hnd as [_ ?].
    + exists sg1. eapply marks_false; [done|lia|]. destruct Hstop; [lia|done].
    + intros j q Hj. destruct (Hl j q) as (Hjf & r' & Hr' & Hs'); [by apply list_elem_of_further|].
      split; [unfold idx1; rewrite list_lookup_insert_ne; [done|intros <-; by eapply Hl']|].
      exists r'. split; [done|]. rewrite <- Hs'. apply (sig_consume_at ts hs k i j (q, r') Hw Hind); [|done].
      intros <-. by eapply Hl'.
    + exists res. split; [exact He|]. split; [by apply Htake|]. by apply scan_res_cons.
Qed.

(** *** Rounds *)

Lemma kloop_step {S R} fuel (body : S → K (S + R)) s w :
  kloop (Datatypes.S fuel) body s w =
  match body s w with
  | Ok (inl s', w') => kloop fuel body s' w'
  | Ok (inr r, w') => Ok (r, w')
  | UB => UB | NoFuel => NoFuel
  end.
Proof. unfold kloop. cbn. by destruct (body s w) as [[[s'|r] w']| |]. Qed.

Lemma waitable_set_now d k h t : waitable k h t → waitable (set_now d k) h t.
Proof. intros [mode e n|sm p|tm due i]; [eapply waitable_event|eapply waitable_semaphore|eapply waitable_timer]; eauto. Qed.

Lemma evolves_keeps hs ts w w' : evolves w w' → Forall (keeps hs ts) (script w) →
  Forall2 (waitable (kern w)) hs ts → Forall2 (waitable (kern w')) hs ts ∧ Forall (keeps hs ts) (script w').
Proof.
  induction 1 as [w|f k s w' _ IH|k s w' _ IH|d k w' Hd _ IH]; intros Hk Hw; cbn in *.
  - done.
  - apply Forall_cons in Hk as [Hf Hk]. apply IH; [done|]. by apply Hf.
  - apply Forall_cons in Hk as [_ Hk]. by apply IH.
  - apply IH; [done|]. eapply Forall2_impl; [exact Hw|]. intros h t. apply waitable_set_now.
Qed.

(** A waitable object has no error events: it is ready when it is signalled. *)
Lemma revents_sig k h t : waitable k h t → nonzero (revents k t.1) = sig k t.1.
Proof.
  intros [mode e n Hv Ho Hf Hn|sm p Hv Ho Hf Hp Hr|tm d i Hv Ho Hf Hp]; unfold sig, revents, poll_state; cbn [fst pfd events].
  - rewrite Hn. destruct (Z.ltb_spec (ev_fd0 e) 0); [lia|].
    unfold handle_mode_to_pollevent. destruct (nonzero (Z.land mode UZI_FD_READ)), (nonzero (Z.land mode UZI_FD_WRITE)),
      (0 <? n), (n <? EVENTFD_MAX); reflexivity.
  - rewrite Hp, Hr. destruct (Z.ltb_spec (sem_fd0 sm) 0); [lia|]. by destruct (0 <? pipe_count k p).
  - rewrite Hp. destruct (Z.ltb_spec (tm_fd tm) 0); [lia|]. by destruct (0 <? expirations (now k) d i).
Qed.

Lemma existsb_revents k hs ts idx b : Forall2 (waitable k) hs ts →
  existsb nonzero (map (revents k) (map snd (pending ts idx b 0))) = true ↔
  ∃ i p, (i, p) ∈ pending ts idx b 0 ∧ sig k p = true.
Proof.
  intros Hw.
  assert (Hs : ∀ i p, (i, p) ∈ pending ts idx b 0 → nonzero (revents k p) = sig k p).
  { intros i p (m & r & -> & Hm & _)%elem_of_pending. destruct (Forall2_lookup_r _ _ _ _ _ Hw Hm) as (h & _ & Hh).
    by apply (revents_sig k h (p, r)). }
  rewrite existsb_exists. setoid_rewrite in_map_iff. setoid_rewrite in_map_iff. split.
  - intros (x & (q & <- & [i p] & <- & Hin) & Hx). apply list_elem_of_In in Hin. exists i, p. split; [done|]. by rewrite <- (Hs i p).
  - intros (i & p & Hin & Hx). exists (revents k p). rewrite (Hs i p Hin). split; [|done]. exists p. split; [done|].
    exists (i, p). split; [done|]. by apply list_elem_of_In.
Qed.

Lemma pending_any_elem ts i p : (i, p) ∈ pending ts [] false 0 ↔ ∃ r, ts !! i = Some (p, r).
Proof.
  rewrite elem_of_pending. cbn. split; [intros (m & r & -> & H & _); eauto|intros [r H]; eauto 6].
Qed.

(** The scan of one round takes the first signalled object. *)
Lemma first_signalled_spec k l : match first_signalled k l with
  | Some i => ∃ p l1 l2, l = l1 ++ (i, p) :: l2 ∧ sig k p = true ∧ Forall (λ x, sig k x.2 = false) l1
  | None => Forall (λ x, sig k x.2 = false) l end.
Proof.
  induction l as [|[i p] l IH]; cbn; [constructor|]. destruct (sig k p) eqn:E; [exists p, [], l; by repeat constructor|].
  destruct (first_signalled k l) as [j|]; [|by constructor].
  destruct IH as (q & l1 & l2 & -> & ? & ?). exists q, ((i, p) :: l1), l2. by repeat constructor.
Qed.

(** The lowest signalled index. *)
Definition lowest (ts : list target) (k : kernel) (i : nat) : Prop :=
  (∃ t, ts !! i = Some t ∧ sig k t.1 = true) ∧ ∀ j t, (j < i)%nat → ts !! j = Some t → sig k t.1 = false.

Lemma first_signalled_pending ts k :
  match first_signalled k (pending ts [] false 0) with
  | Some i => lowest ts k i
  | None => ∀ j t, ts !! j = Some t → sig k t.1 = false
  end.
Proof.
  pose proof (first_signalled_spec k (pending ts [] false 0)) as H.
  assert (Hp : ∀ j x, pending ts [] false 0 !! j = Some x → x.1 = j ∧ ts.*1 !! j = Some x.2).
  { intros j [i x]. rewrite pending_any. intros Hx. apply lookup_zip_Some in Hx as [Hx ?]. split; [|done].
    apply lookup_seq in Hx as [-> _]. done. }
  assert (Hq : ∀ j t, ts !! j = Some t → pending ts [] false 0 !! j = Some (j, t.1)).
  { intros j t Ht. rewrite pending_any. apply lookup_zip_Some. cbn. split; [|by rewrite list_lookup_fmap, Ht].
    apply lookup_seq. split; [lia|]. by eapply lookup_lt_Some. }
  destruct (first_signalled k _) as [i|].
  - destruct H as (p & l1 & l2 & E & Hs & Hf).
    destruct (Hp (length l1) (i, p)) as [Hi Ht]; [rewrite E; by apply list_lookup_middle|]. cbn in Hi, Ht. subst i.
    rewrite list_lookup_fmap in Ht. destruct (ts !! length l1) as [t|] eqn:Et; [|done]. injection Ht as <-.
    split; [eauto|]. intros j t' Hj Ht'. apply Hq in Ht'. rewrite E, lookup_app_l in Ht' by done.
    rewrite Forall_lookup in Hf. by apply (Hf _ _ Ht').
  - intros j t Ht. apply Hq in Ht. rewrite Forall_lookup in H. by apply (H _ _ Ht).
Qed.

(** A round without timing: [poll], then the scan of its answers. *)
Lemma round_eq hs ts b idx sg ms w : Forall2 (waitable (kern w)) hs ts → b && negb (ms =? INFINITE) = false →
  wait_round hs b (idx, sg, ms) w =
  match retry (sys_poll (map snd (pending ts idx b 0)) ms) w with
  | Ok ((status, revs), w1) =>
    if status <? 0 then (SetLastError ERROR_INTERNAL_ERROR;; mret (inr WAIT_FAILED)) w1
    else if status =? 0 then Ok (inr WAIT_TIMEOUT, w1)
    else
      match scan hs b (zip (pending ts idx b 0) revs) idx sg false w1 with
      | Ok (inr rc, w') => Ok (inr rc, w')
      | Ok (inl (idx', sg', sh), w') =>
        if b || negb sh then Ok (inl (idx', sg', ms), w')
        else (SetLastError ERROR_INTERNAL_ERROR;; mret (inr WAIT_FAILED)) w'
      | UB => UB | NoFuel => NoFuel
      end
  | UB => UB | NoFuel => NoFuel
  end.
Proof.
  intros Hw Hb. destruct w as [k s]. unfold wait_round. rewrite Hb. cbv zeta.
  rewrite (K_bind_ok (mret 0) _ _ 0 (World k s)) by done. kstep (collect_ok hs ts k s idx b 0 Hw). unfold mbind, K_bind at 1.
  destruct (retry _ _) as [[[status revs] w1]| |]; [|done..].
  destruct (status <? 0); [done|]. destruct (status =? 0); [done|]. cbn. unfold K_bind at 1.
  destruct (scan _ _ _ _ _ _ _) as [[[[[idx' sg'] sh]|rc] w']| |]; [|done..]. by destruct (b || negb sh).
Qed.

(** The answers of [poll], as marked entries. *)
Lemma zip_marked k (l : list (nat * pollfd)) r : r = map (revents k) (map snd l) → zip l r = marked k l.
Proof. by intros ->. Qed.

Definition waitable_all (w : world) (hs : list Z) (ts : list target) : Prop :=
  Forall2 (waitable (kern w)) hs ts ∧ Forall (keeps hs ts) (script w).

Lemma waitable_all_evolves w w' hs ts : evolves w w' → waitable_all w hs ts → waitable_all w' hs ts.
Proof. intros He [H1 H2]. by eapply evolves_keeps. Qed.

(** The round of a wait for any object. *)
Lemma round_any hs ts ms w : waitable_all w hs ts →
  (∀ r w', wait_round hs false (replicate (length hs) false, 0%nat, ms) w = Ok (r, w') →
    (∃ i k s t, evolves w (World k s) ∧ lowest ts k i ∧ ts !! i = Some t ∧ r = inr (Z.of_nat i) ∧ w' = World (consume t.2 k) s) ∨
    (r = inr WAIT_TIMEOUT ∧ evolves w w' ∧ 0 <= s32 ms ∧ ∀ j t, ts !! j = Some t → sig (kern w') t.1 = false)) ∧
  (0 <= s32 ms → ∃ r w', wait_round hs false (replicate (length hs) false, 0%nat, ms) w = Ok (r, w')).
Proof.
  intros Hw. rewrite (round_eq hs ts) by (apply Hw || done).
  assert (Hpend : pending ts (replicate (length hs) false) false 0 = pending ts [] false 0).
  { rewrite !pending_any. done. }
  rewrite Hpend. destruct (retry _ w) as [[[status revs] w1]| |] eqn:Er.
  2,3: split; [done|]; intros Hms; destruct (retry_poll_total (map snd (pending ts [] false 0)) ms w Hms) as (? & ? & ?); congruence.
  apply retry_poll_inv in Er as (He & Hlen & Hr). cbn [fst snd] in *.
  destruct (waitable_all_evolves _ _ _ _ He Hw) as [Hw1 _]. destruct w1 as [k s]. cbn [kern] in *.
  assert (Hel : ∀ i p, (i, p) ∈ pending ts [] false 0 → ∃ r, ts !! i = Some (p, r)) by (intros i p; apply pending_any_elem).
  pose proof (first_signalled_pending ts k) as Hfirst.
  destruct Hr as [(Hpos & Hcnt & Hrev)|(-> & Hms & Hnone)].
  - replace (status <? 0) with false by (symmetry; apply Z.ltb_ge; lia).
    replace (status =? 0) with false by (symmetry; apply Z.eqb_neq; lia).
    rewrite (zip_marked k) by done. rewrite (scan_any hs ts k s) by done.
    destruct (first_signalled k _) as [i|] eqn:Ef.
    + split; [|eauto]. intros r w' [= <- <-]. left. pose proof Hfirst as [(t & Ht & Hs) _].
      exists i, k, s, t. unfold consume_at. by rewrite Ht.
    + exfalso. assert (Hx : existsb nonzero revs = true).
      { apply existsb_exists. rewrite Hcnt in Hpos. unfold poll_count in Hpos.
        destruct (filter nonzero revs) as [|x l] eqn:Ex; [done|]. exists x.
        assert (Hin : x ∈ filter nonzero revs) by (rewrite Ex; constructor). apply list_elem_of_filter in Hin as [Hn Hin].
        apply list_elem_of_In in Hin. split; [done|]. by apply Is_true_true. }
      rewrite Hrev in Hx. apply (existsb_revents k hs ts [] false Hw1) in Hx as (i & p & Hin & Hs).
      destruct (Hel i p Hin) as [r Ht]. specialize (Hfirst i (p, r) Ht). cbn in Hfirst. congruence.
  - cbn. split; [|eauto]. intros r w' [= <- <-]. right. split_and!; [done..|]. intros j t Ht. apply not_true_iff_false.
    intros Hs. apply not_true_iff_false in Hnone. apply Hnone. apply (existsb_revents k hs ts [] false Hw1).
    exists j, t.1. split; [|done]. apply pending_any_elem. destruct t. eauto.
Qed.

(** A round with a signalled object does not block. *)
Lemma poll_ready_now hs ts idx b w i t : Forall2 (waitable (kern w)) hs ts → ts !! i = Some t → sig (kern w) t.1 = true →
  (b && default false (idx !! i)) = false →
  let l := pending ts idx b 0 in let r := map (revents (kern w)) (map snd l) in
  0 < poll_count r ∧ ∀ ms, retry (sys_poll (map snd l) ms) w = Ok ((poll_count r, r), w).
Proof.
  intros Hw Ht Hs Hb l r.
  assert (Hx : existsb nonzero r = true).
  { apply (existsb_revents _ hs ts idx b Hw). exists i, t.1. split; [|done]. apply elem_of_pending.
    exists i, t.2. split_and!; [done|by destruct t|done]. }
  split; [by apply poll_count_pos|]. intros ms. apply retry_poll_ready. unfold poll_ready. fold r. by rewrite Hx.
Qed.

Lemma round_any_now hs ts ms w i t : Forall2 (waitable (kern w)) hs ts → lowest ts (kern w) i → ts !! i = Some t →
  wait_round hs false (replicate (length hs) false, 0%nat, ms) w =
  Ok (inr (Z.of_nat i), World (consume t.2 (kern w)) (script w)).
Proof.
  intros Hw Hlow Ht. pose proof Hlow as [(t' & Ht' & Hs) Hmin]. simplify_eq.
  rewrite (round_eq hs ts) by done.
  destruct (poll_ready_now hs ts (replicate (length hs) false) false w i t Hw Ht Hs eq_refl) as [Hpos ->].
  destruct (Z.ltb_spec (poll_count (map (revents (kern w)) (map snd (pending ts (replicate (length hs) false) false 0)))) 0); [lia|].
  destruct (Z.eqb_spec (poll_count (map (revents (kern w)) (map snd (pending ts (replicate (length hs) false) false 0)))) 0); [lia|].
  rewrite (zip_marked (kern w)) by done. destruct w as [k s]. cbn [kern script] in *.
  assert (Hpend : pending ts (replicate (length hs) false) false 0 = pending ts [] false 0) by (by rewrite !pending_any).
  rewrite Hpend, (scan_any hs ts k s) by (done || (intros j p; apply pending_any_elem)).
  pose proof (first_signalled_pending ts k) as Hf. destruct (first_signalled k _) as [j|].
  - assert (j = i) as ->.
    { destruct Hf as [(t' & Ht2 & Hs2) Hm2]. destruct (Nat.lt_trichotomy j i) as [Hlt|[?|Hlt]]; [|done|].
      - specialize (Hmin j t' Hlt Ht2). congruence.
      - specialize (Hm2 i t Hlt Ht). congruence. }
    unfold consume_at. by rewrite Ht.
  - specialize (Hf i t Ht). congruence.
Qed.

(** The round of a wait for all objects. *)
Definition round_res (n : nat) (idx : list bool) (tr : list nat) (r : list bool * nat * Z + Z) : Prop :=
  match r with
  | inr rc => rc = WAIT_OBJECT_0 ∧ (∀ j, (j < n)%nat → idx !! j = Some true ∨ j ∈ tr)
  | inl (idx', sg', ms) =>
    ms = INFINITE ∧ marks n idx' sg' ∧ (∀ j, idx' !! j = Some true ↔ idx !! j = Some true ∨ j ∈ tr) ∧
    (∃ j, idx' !! j = Some false)
  end.

Lemma waitable_consume_all ts hs tr k : Forall2 (waitable k) hs ts → Forall2 (waitable (consume_all ts tr k)) hs ts.
Proof. revert k. induction tr as [|i tr IH]; intros k H; cbn; [done|]. apply IH. by apply waitable_consume_at. Qed.

(** What is taken by one scan: objects not yet marked, each once. *)
Lemma taken_fresh hs ts idx k0 : Forall2 (waitable k0) hs ts → length idx = length hs →
  let tr := (filter (λ x, sig k0 x.2 = true) (pending ts idx true 0)).*1 in
  NoDup tr ∧ (∀ i, i ∈ tr ↔ idx !! i = Some false ∧ ∃ t, ts !! i = Some t ∧ sig k0 t.1 = true).
Proof.
  intros Hw Hlen tr. split.
  - unfold tr. eapply sublist_NoDup; [apply (pending_NoDup ts idx true 0)|]. apply fmap_sublist. clear. intros.
    induction (pending ts idx true 0) as [|x l IH]; [constructor|]. rewrite filter_cons. destruct (decide _); by constructor.
  - intros i. unfold tr. rewrite list_elem_of_fmap. split.
    + intros ([j p] & -> & [Hs (m & r & -> & Hm & Hd)%elem_of_pending]%list_elem_of_filter). cbn in *.
      pose proof (Forall2_length _ _ _ Hw) as Hl. apply lookup_lt_Some in Hm as Hlt.
      destruct (lookup_lt_is_Some_2 idx m) as [[] E]; [lia| |].
      * rewrite E in Hd. done.
      * split; [done|]. by exists (p, r).
    + intros (Hi & [p r] & Ht & Hs). exists (i, p). split; [done|]. apply list_elem_of_filter. split; [done|].
      apply elem_of_pending. exists i, r. split_and!; [done|done|]. by rewrite Hi.
Qed.

(** The scan of a round at the moment [poll] answered. *)
Lemma scan_all_pending hs ts idx sg k s : Forall2 (waitable k) hs ts → independent ts → marks (length hs) idx sg →
  (∃ j, idx !! j = Some false) →
  let tr := (filter (λ x, sig k x.2 = true) (pending ts idx true 0)).*1 in
  ∃ r, scan hs true (marked k (pending ts idx true 0)) idx sg false (World k s) = Ok (r, World (consume_all ts tr k) s) ∧
    run ts (World k s) tr (World (consume_all ts tr k) s) ∧ scan_res (length hs) idx tr r.
Proof.
  intros Hw Hi Hm Hf tr. apply (scan_all hs ts k s); try done.
  - apply pending_NoDup.
  - intros i p (m & r & -> & Hr & Hd)%elem_of_pending. cbn in *. split; [|eauto].
    apply lookup_lt_Some in Hr as Hlt. pose proof (Forall2_length _ _ _ Hw) as Hl.
    destruct (lookup_lt_is_Some_2 idx m) as [[] E]; [destruct Hm; lia|by rewrite E in Hd|done].
Qed.

Lemma round_all_inv hs ts idx sg w r w' : waitable_all w hs ts → independent ts → marks (length hs) idx sg →
  (∃ j, idx !! j = Some false) →
  wait_round hs true (idx, sg, INFINITE) w = Ok (r, w') →
  ∃ tr, run ts w tr w' ∧ waitable_all w' hs ts ∧ NoDup tr ∧ (∀ i, i ∈ tr → idx !! i = Some false) ∧
    round_res (length hs) idx tr r.
Proof.
  intros Hw Hind Hm Hf. rewrite (round_eq hs ts) by (apply Hw || done).
  destruct (retry _ w) as [[[status revs] w1]| |] eqn:Er; [|done..].
  apply retry_poll_inv in Er as (He & Hlen & [(Hpos & Hcnt & Hrev)|(_ & Hms & _)]); cbn [fst snd] in *; [|by vm_compute in Hms].
  pose proof (waitable_all_evolves _ _ _ _ He Hw) as Hw1. destruct w1 as [k s]. cbn [kern] in *.
  replace (status <? 0) with false by (symmetry; apply Z.ltb_ge; lia).
  replace (status =? 0) with false by (symmetry; apply Z.eqb_neq; lia).
  rewrite (zip_marked k) by done.
  destruct (scan_all_pending hs ts idx sg k s (proj1 Hw1) Hind Hm Hf) as (res & -> & Hrun & Hres).
  destruct (taken_fresh hs ts idx k (proj1 Hw1) (proj1 Hm)) as [Hnd Hfresh].
  intros H. exists (filter (λ x, sig k x.2 = true) (pending ts idx true 0)).*1.
  assert (Hcom : run ts w (filter (λ x, sig k x.2 = true) (pending ts idx true 0)).*1
      (World (consume_all ts (filter (λ x, sig k x.2 = true) (pending ts idx true 0)).*1 k) s)) by (by eapply run_env).
  assert (Hw' : waitable_all (World (consume_all ts (filter (λ x, sig k x.2 = true) (pending ts idx true 0)).*1 k) s) hs ts).
  { split; [|apply Hw1]. cbn. by apply waitable_consume_all, Hw1. }
  assert (Hfr : ∀ i, i ∈ (filter (λ x, sig k x.2 = true) (pending ts idx true 0)).*1 → idx !! i = Some false) by (intros i Hi; by apply Hfresh).
  destruct res as [[[idx' sg'] sh]|rc]; injection H as <- <-; split_and!; try done; apply Hres.
Qed.

Lemma wait_all_loop hs ts fuel : independent ts → ∀ idx sg w tr0 rc w', waitable_all w hs ts → marks (length hs) idx sg →
  (∃ j, idx !! j = Some false) → (∀ j, idx !! j = Some true ↔ j ∈ tr0) → NoDup tr0 →
  kloop fuel (wait_round hs true) (idx, sg, INFINITE) w = Ok (rc, w') →
  rc = WAIT_OBJECT_0 ∧ ∃ tr, run ts w tr w' ∧ NoDup (tr0 ++ tr) ∧ (∀ j, j ∈ tr0 ++ tr ↔ (j < length hs)%nat).
Proof.
  intros Hind. induction fuel as [|fuel IH]; intros idx sg w tr0 rc w' Hw Hm Hf Htr Hnd; [done|].
  rewrite kloop_step. destruct (wait_round _ _ _ w) as [[r w1]| |] eqn:Er; [|done..].
  apply round_all_inv with (ts := ts) in Er as (tr & Hrun & Hw1 & Hnd1 & Hfr & Hres); [|done..].
  assert (Hnd' : NoDup (tr0 ++ tr)).
  { apply NoDup_app. split_and!; [done| |done]. intros j Hj Hj'. apply Htr in Hj. apply Hfr in Hj'. congruence. }
  destruct r as [[[idx' sg'] ms]|rc1].
  - destruct Hres as (-> & Hm' & Hiff & Hf'). intros H.
    destruct (IH idx' sg' w1 (tr0 ++ tr) rc w') as (-> & tr' & Hrun' & Hnd2 & Hall); try done.
    { intros j. rewrite Hiff, Htr. set_solver. }
    split; [done|]. exists (tr ++ tr'). rewrite app_assoc. split_and!; [|done|done].
    clear - Hrun Hrun'. induction Hrun; cbn; [done|by eapply run_env; eauto|by eapply run_take; eauto].
  - intros [= <- <-]. destruct Hres as [-> Hall]. split; [done|]. exists tr. split_and!; [done|done|]. intros j.
    rewrite elem_of_app, <- Htr. split; [|intros Hj; by apply Hall].
    destruct Hm as (Hl & _). intros [Hj|Hj%Hfr]; apply lookup_lt_Some in Hj; lia.
Qed.

Lemma replicate_false n j : replicate n false !! j ≠ Some true.
Proof. intros H. by apply lookup_replicate in H as [? _]. Qed.

Lemma marks_start n : marks n (replicate n false) 0.
Proof. split_and!; [by rewrite length_replicate|lia|lia]. Qed.

(** ** Theorems *)

(** A single wait: what it does once [poll] has answered. *)
(** Waiting for an object with a descriptor. *)
Lemma wait_fd_eq k s h o fd ms : valid_handle h → objs k !! h = Some o → Type_ o ≠ HANDLE_TYPE_MUTEX →
  winpr_Handle_getFd h (World k s) = Ok (fd, World k s) → 0 <= fd →
  WaitForSingleObject h ms (World k s) =
  match retry (sys_poll [Pollfd fd (handle_mode_to_pollevent (Mode o))] ms) (World k s) with
  | Ok ((status, _), w1) =>
    if status <? 0 then (SetLastError ERROR_INTERNAL_ERROR;; mret WAIT_FAILED) w1
    else if negb (status =? 1) then Ok (WAIT_TIMEOUT, w1)
    else winpr_Handle_cleanup h w1
  | UB => UB | NoFuel => NoFuel
  end.
Proof.
  intros Hv Ho Hty Hf Hp. unfold WaitForSingleObject. kstep (info_ok k s _ _ Hv Ho).
  replace (Type_ o =? HANDLE_TYPE_MUTEX) with false by (symmetry; by apply Z.eqb_neq).
  kstep Hf. destruct (Z.ltb_spec fd 0); [lia|]. rewrite (bind_object _ _ _ _ _ Ho).
  unfold waitOnFd, mbind, K_bind. destruct (retry _ _) as [[[status r] w1]| |]; [|done..]. cbn.
  destruct (status <? 0); [done|]. by destruct (negb (status =? 1)).
Qed.

Lemma wait_single_eq w h t ms : waitable (kern w) h t →
  WaitForSingleObject h ms w =
  match retry (sys_poll [t.1] ms) w with
  | Ok ((status, _), w1) =>
    if status <? 0 then (SetLastError ERROR_INTERNAL_ERROR;; mret WAIT_FAILED) w1
    else if negb (status =? 1) then Ok (WAIT_TIMEOUT, w1)
    else winpr_Handle_cleanup h w1
  | UB => UB | NoFuel => NoFuel
  end.
Proof.
  intros Hw. destruct w as [k s]. cbn [kern] in Hw. destruct (waitable_mode k h t Hw) as (o & Ho & Hm & Hty).
  destruct (getfd_ok k s h t Hw) as [Hf Hp]. rewrite (wait_fd_eq k s h o _ ms (waitable_valid _ _ _ Hw) Ho Hty Hf Hp), <- Hm.
  by destruct t as [[] ?].
Qed.

Lemma poll_one k h t : waitable k h t →
  existsb nonzero (map (revents k) [t.1]) = sig k t.1 ∧ (sig k t.1 = true → poll_count (map (revents k) [t.1]) = 1).
Proof.
  intros H. cbn [map existsb]. rewrite (revents_sig k h t H), orb_false_r. split; [done|]. intros Hs.
  unfold poll_count. rewrite filter_cons. destruct (decide _) as [_|Hn]; [done|].
  exfalso. apply Hn. apply Is_true_true. by rewrite (revents_sig k h t H).
Qed.

(** Polling one waitable object: the status is 1 exactly when it is signalled. *)
Lemma polled_one k s h t ms w st r : polled [t.1] ms w (st, r) (World k s) → waitable k h t →
  (st = 1 ∧ sig k t.1 = true) ∨ (st = 0 ∧ 0 <= s32 ms ∧ sig k t.1 = false).
Proof.
  intros (_ & _ & H) Hw. destruct (poll_one k h t Hw) as [He Hc]. cbn [fst snd kern] in H.
  destruct H as [(Hpos & -> & Hrev)|(-> & Hms & Hn)]; [left|right; split_and!; [done..|by rewrite <- He]].
  destruct (sig k t.1) eqn:Hs; [by rewrite Hrev, Hc|]. exfalso. subst r. clear Hc.
  cbn [map existsb] in *. rewrite orb_false_r in He. unfold poll_count in Hpos. rewrite filter_cons in Hpos.
  destruct (decide _) as [Hx|_]; [|done]. by rewrite He in Hx.
Qed.

(** C30: waiting for one event, semaphore or waitable timer. A signalled object
    is taken at once: its count decreases by one (semaphore), its expirations
    are cleared (timer), an event stays set; the environment does not act. In
    general, when the wait returns 0 the object was signalled at the moment it
    was taken; when it returns WAIT_TIMEOUT the object was not signalled and the
    timeout is finite, and nothing was taken; it never fails. With a finite
    timeout it always returns, and with timeout 0 an object that is not
    signalled gives WAIT_TIMEOUT and leaves everything as it was. *)
Theorem wait_single_spec h t ms w :
  waitable_all w [h] [t] →
  (sig (kern w) t.1 = true → WaitForSingleObject h ms w = Ok (WAIT_OBJECT_0, World (consume t.2 (kern w)) (script w))) ∧
  (sig (kern w) t.1 = false → WaitForSingleObject h 0 w = Ok (WAIT_TIMEOUT, w)) ∧
  (0 <= s32 ms → ∃ rc w', WaitForSingleObject h ms w = Ok (rc, w')) ∧
  (∀ rc w', WaitForSingleObject h ms w = Ok (rc, w') →
    (rc = WAIT_OBJECT_0 ∧ ∃ k s, evolves w (World k s) ∧ sig k t.1 = true ∧ w' = World (consume t.2 k) s) ∨
    (rc = WAIT_TIMEOUT ∧ 0 <= s32 ms ∧ evolves w w' ∧ sig (kern w') t.1 = false)).
Proof.
  intros [[Hw _]%Forall2_cons Hk].
  assert (Hev : ∀ k s, evolves w (World k s) → waitable k h t).
  { intros k s He. destruct (evolves_keeps [h] [t] _ _ He Hk) as [H _]; [by constructor|]. by apply Forall2_cons in H as [? _]. }
  assert (Hgen : ∀ r k s, retry (sys_poll [t.1] ms) w = Ok (r, World k s) → evolves w (World k s) ∧ waitable k h t ∧
    ((r.1 = 1 ∧ sig k t.1 = true) ∨ (r.1 = 0 ∧ 0 <= s32 ms ∧ sig k t.1 = false))).
  { intros [st r] k s Hr%retry_poll_inv. assert (Hx : waitable k h t) by (eapply Hev, Hr).
    split_and!; [apply Hr|done|]. by eapply polled_one. }
  rewrite !(wait_single_eq w h t) by done. destruct (poll_one (kern w) h t Hw) as [He Hc]. split_and!.
  - intros Hs. rewrite (retry_poll_ready _ _ _ (map (revents (kern w)) [t.1])) by (unfold poll_ready; by rewrite He, Hs).
    rewrite (Hc Hs). cbn. destruct w as [k s]. by apply cleanup_ok.
  - intros Hs. rewrite retry_poll_zero; [done|]. unfold poll_ready. by rewrite He, Hs.
  - intros Hms. destruct (retry_poll_total [t.1] ms w Hms) as ([st r] & [k s] & Hr). rewrite Hr.
    destruct (Hgen _ _ _ Hr) as (_ & Hx & [[Hst Hs]|(Hst & _ & _)]); cbn in Hst; subst st; cbn; [|eauto].
    rewrite (cleanup_ok k s h t Hx Hs). eauto.
  - intros rc w'. destruct (retry _ w) as [[[st r] [k s]]| |] eqn:Hr; [|done..].
    destruct (Hgen _ _ _ eq_refl) as (Hevo & Hx & [[Hst Hs]|(Hst & Hms & Hs)]); cbn in Hst; subst st; cbn.
    + rewrite (cleanup_ok k s h t Hx Hs). intros [= <- <-]. left. split; [done|]. by exists k, s.
    + intros [= <- <-]. by right.
Qed.

(** C10: waiting for any of several objects ([1 <= nCount <= 64]) takes exactly
    one object, the one of lowest index among those signalled at that moment,
    and returns its index; every other object is left alone. WAIT_TIMEOUT is
    returned only with a finite timeout and nothing signalled, and takes
    nothing. When an object is signalled at the call the result is immediate,
    and with a finite timeout the call returns. One round is enough. *)
Theorem wait_any_spec fuel hs ts ms w :
  0 < Z.of_nat (length hs) <= MAXIMUM_WAIT_OBJECTS → waitable_all w hs ts →
  (∀ i t, lowest ts (kern w) i → ts !! i = Some t →
    WaitForMultipleObjects (S fuel) hs false ms w = Ok (Z.of_nat i, World (consume t.2 (kern w)) (script w))) ∧
  (0 <= s32 ms → ∃ rc w', WaitForMultipleObjects (S fuel) hs false ms w = Ok (rc, w')) ∧
  (∀ rc w', WaitForMultipleObjects (S fuel) hs false ms w = Ok (rc, w') →
    (∃ i k s t, evolves w (World k s) ∧ lowest ts k i ∧ ts !! i = Some t ∧
                rc = Z.of_nat i ∧ w' = World (consume t.2 k) s) ∨
    (rc = WAIT_TIMEOUT ∧ 0 <= s32 ms ∧ evolves w w' ∧ ∀ j t, ts !! j = Some t → sig (kern w') t.1 = false)).
Proof.
  intros Hn Hw. unfold WaitForMultipleObjects.
  destruct (Z.eqb_spec (Z.of_nat (length hs)) 0), (Z.ltb_spec MAXIMUM_WAIT_OBJECTS (Z.of_nat (length hs))); try lia. cbn [orb].
  rewrite kloop_step. destruct (round_any hs ts ms w Hw) as [Hinv Htot]. split_and!.
  - intros i t Hlow Ht. by rewrite (round_any_now hs ts ms w i t (proj1 Hw) Hlow Ht).
  - intros Hms. destruct (Htot Hms) as (r & w' & Hr). rewrite Hr. destruct (Hinv r w' Hr) as [(i & k & s & t & _ & _ & _ & -> & ->)|(-> & _)]; eauto.
  - intros rc w'. destruct (wait_round _ _ _ w) as [[r w1]| |] eqn:Hr; [|done..].
    destruct (Hinv r w1 eq_refl) as [(i & k & s & t & He & Hl & Ht & -> & ->)|(-> & He & Hms & Hs)]; intros [= <- <-].
    + left. by exists i, k, s, t.
    + right. by split_and!.
Qed.

(** With every object signalled one scan takes them all, in order. *)
Lemma taken_all ts k n : length ts = n → Forall (λ t, sig k t.1 = true) ts →
  (filter (λ x, sig k x.2 = true) (pending ts (replicate n false) true 0)).*1 = seq 0 n.
Proof.
  intros <- Hs.
  assert (Hp : ∀ (idx : list bool) i, (∀ j, idx !! j ≠ Some true) →
    (filter (λ x, sig k x.2 = true) (pending ts idx true i)).*1 = seq i (length ts)).
  { intros idx. induction Hs as [|t ts Ht _ IH]; intros i Hi; [done|]. cbn [pending].
    destruct (idx !! i) as [[]|] eqn:E; [by destruct (Hi i)| |]; cbn [andb from_option id]; rewrite filter_cons;
      (destruct (decide _); [|done]); rewrite fmap_cons; cbn [fst length seq]; f_equal; by apply IH. }
  apply Hp. apply replicate_false.
Qed.

Lemma round_all_now hs ts ms w : Forall2 (waitable (kern w)) hs ts → independent ts → (0 < length hs)%nat →
  Forall (λ t, sig (kern w) t.1 = true) ts →
  let idx := replicate (length hs) false in let l := pending ts idx true 0 in
  let r := map (revents (kern w)) (map snd l) in
  0 < poll_count r ∧ retry (sys_poll (map snd l) ms) w = Ok ((poll_count r, r), w) ∧
  scan hs true (zip l r) idx 0 false w =
  Ok (inr WAIT_OBJECT_0, World (consume_all ts (seq 0 (length hs)) (kern w)) (script w)).
Proof.
  intros Hw Hind Hn Hs idx l r. pose proof (Forall2_length _ _ _ Hw) as Hlen.
  destruct (lookup_lt_is_Some_2 ts 0) as [t Ht]; [lia|]. assert (Hst : sig (kern w) t.1 = true) by (rewrite Forall_lookup in Hs; eauto).
  assert (H0 : idx !! 0%nat = Some false) by (apply lookup_replicate; split; [done|lia]).
  destruct (poll_ready_now hs ts idx true w 0 t Hw Ht Hst) as [Hpos Hpoll]; [by rewrite H0|].
  split_and!; [done|by apply Hpoll|]. rewrite (zip_marked (kern w)) by done. destruct w as [k s]. cbn [kern script] in *.
  destruct (scan_all_pending hs ts idx 0 k s Hw Hind (marks_start _) (ex_intro _ _ H0)) as (res & He & _ & Hres).
  unfold l, idx in *. rewrite (taken_all ts k) in He, Hres by (by symmetry || done). rewrite He. clear He. f_equal.
  destruct res as [[[idx' sg'] sh]|rc]; [exfalso|by destruct Hres as [-> _]].
  destruct Hres as (Hm & Hiff & j & Hj). apply lookup_lt_Some in Hj as Hlt. destruct Hm as [Hl _].
  assert (Hx : idx' !! j = Some true) by (apply Hiff; right; apply elem_of_seq; lia). congruence.
Qed.

(** C9: waiting for all of several objects (INFINITE, different objects) can
    only return 0, and then every object has been taken exactly once, each at a
    moment at which it was signalled, whatever the environment did in between;
    when all are signalled at the call it returns at once with exactly their
    resources taken. *)
Theorem wait_all_spec fuel hs ts w :
  0 < Z.of_nat (length hs) <= MAXIMUM_WAIT_OBJECTS → waitable_all w hs ts → independent ts →
  (∀ rc w', WaitForMultipleObjects fuel hs true INFINITE w = Ok (rc, w') →
    rc = WAIT_OBJECT_0 ∧ ∃ tr, run ts w tr w' ∧ tr ≡ₚ seq 0 (length hs)) ∧
  (Forall (λ t, sig (kern w) t.1 = true) ts →
    WaitForMultipleObjects (S fuel) hs true INFINITE w =
    Ok (WAIT_OBJECT_0, World (consume_all ts (seq 0 (length hs)) (kern w)) (script w))).
Proof.
  intros Hn Hw Hind. unfold WaitForMultipleObjects.
  destruct (Z.eqb_spec (Z.of_nat (length hs)) 0), (Z.ltb_spec MAXIMUM_WAIT_OBJECTS (Z.of_nat (length hs))); try lia. cbn [orb].
  assert (Hf : ∃ j, replicate (length hs) false !! j = Some false) by (exists 0%nat; apply lookup_replicate; split; [done|lia]).
  split.
  - intros rc w' Hr. apply (wait_all_loop hs ts fuel Hind _ _ w [] rc w' Hw (marks_start _) Hf) in Hr as (-> & tr & Hrun & Hnd & Hall).
    + split; [done|]. exists tr. split; [done|]. apply NoDup_Permutation; [done|apply NoDup_seq|]. intros j.
      rewrite (Hall j), elem_of_seq. lia.
    + intros j. rewrite elem_of_nil. split; [|done]. apply replicate_false.
    + constructor.
  - intros Hs. rewrite kloop_step, (round_eq hs ts) by (apply Hw || done).
    destruct (round_all_now hs ts INFINITE w (proj1 Hw) Hind ltac:(lia) Hs) as (Hpos & -> & Hscan).
    rewrite Hscan. by rewrite (proj2 (Z.ltb_ge _ 0)), (proj2 (Z.eqb_neq _ 0)) by lia.
Qed.

(** A timed round in which nothing happens outside. *)
Lemma round_timed_zero hs ts idx sg k st revs : Forall2 (waitable k) hs ts →
  retry (sys_poll (map snd (pending ts idx true 0)) 0) (World k []) = Ok ((st, revs), World k []) → 0 <= st →
  wait_round hs true (idx, sg, 0) (World k []) =
  if st =? 0 then Ok (inr WAIT_TIMEOUT, World k [])
  else match scan hs true (zip (pending ts idx true 0) revs) idx sg false (World k []) with
    | Ok (inr rc, w') => Ok (inr rc, w')
    | Ok (inl (idx', sg', _), w') => Ok (inl (idx', sg', 0), w')
    | UB => UB | NoFuel => NoFuel
    end.
Proof.
  intros Hw Hr Hst. unfold wait_round. cbn [andb negb].
  replace (0 =? INFINITE) with false by done. cbn [negb].
  rewrite (K_bind_ok clock_gettime _ _ (now k) (World k [])) by done.
  kstep (collect_ok hs ts k [] idx true 0 Hw). kstep Hr. rewrite (proj2 (Z.ltb_ge _ 0)) by lia.
  destruct (st =? 0); [done|]. rewrite (K_bind_ok clock_gettime _ _ (now k) (World k [])) by done.
  unfold ts_difftime. rewrite Z.sub_diag. change (u64 0 / 1000) with 0. cbn [Z.ltb Z.compare]. change (u32 (0 - 0)) with 0.
  unfold mbind, K_bind. cbn. destruct (scan _ _ _ _ _ _ _) as [[[[[idx' sg'] sh]|rc] w']| |]; reflexivity.
Qed.

Lemma sig_consume_all ts hs tr k j t : Forall2 (waitable k) hs ts → independent ts → j ∉ tr → ts !! j = Some t →
  sig (consume_all ts tr k) t.1 = sig k t.1.
Proof.
  intros Hw Hi. revert k Hw. induction tr as [|i tr IH]; intros k Hw Hj Ht; [done|]. cbn.
  apply not_elem_of_cons in Hj as [Hne Hj]. etrans; [apply IH; [by apply waitable_consume_at|done..]|].
  by eapply sig_consume_at.
Qed.

(** Nothing is left to poll when the marked objects are those signalled. *)
Lemma poll_rest hs ts idx tr k : Forall2 (waitable k) hs ts → independent ts →
  (∀ i, i ∈ tr ↔ ∃ t, ts !! i = Some t ∧ sig k t.1 = true) → (∀ i, i ∈ tr → idx !! i = Some true) →
  poll_ready (map snd (pending ts idx true 0)) (consume_all ts tr k) = None.
Proof.
  intros Hw Hi Htr Hidx. unfold poll_ready. destruct (existsb _ _) eqn:E; [exfalso|done].
  apply (existsb_revents _ hs ts) in E as (i & p & (m & r & -> & Hm & Hd)%elem_of_pending & Hs);
    [|by apply waitable_consume_all].
  cbn in *. destruct (decide (m ∈ tr)) as [Hin|Hin]; [by rewrite (Hidx _ Hin) in Hd|].
  apply Hin, Htr. exists (p, r). split; [done|].
  rewrite <- Hs. symmetry. by apply (sig_consume_all ts hs tr k m (p, r)).
Qed.

(** C31: a wait for all objects with a finite timeout does not do what it
    promises. (1) Whenever the clock has advanced between its two readings of
    the clock, WAIT_TIMEOUT is returned although all objects are signalled and
    whatever the timeout: the elapsed time is computed with its operands
    exchanged, a negative number taken as unsigned. (2) When some objects are
    signalled and others are not, a wait with timeout 0 returns WAIT_TIMEOUT but
    has consumed the objects that were signalled. *)
Theorem wait_all_timed_defects fuel hs ts k :
  0 < Z.of_nat (length hs) <= MAXIMUM_WAIT_OBJECTS → independent ts →
  (∀ f g s ms, Forall2 (waitable (f k)) hs ts → Forall (λ t, sig (f k) t.1 = true) ts →
    now (f k) < now (g (f k)) < now (f k) + 2 ^ 63 → 0 <= ms < INFINITE →
    WaitForMultipleObjects (S fuel) hs true ms (World k (Act f :: Act g :: s)) = Ok (WAIT_TIMEOUT, World (g (f k)) s)) ∧
  (Forall2 (waitable k) hs ts → Exists (λ t, sig k t.1 = true) ts → Exists (λ t, sig k t.1 = false) ts →
    ∃ tr, NoDup tr ∧ (∀ i, i ∈ tr ↔ ∃ t, ts !! i = Some t ∧ sig k t.1 = true) ∧
    WaitForMultipleObjects (S (S fuel)) hs true 0 (World k []) = Ok (WAIT_TIMEOUT, World (consume_all ts tr k) [])).
Proof.
  intros Hn Hind. unfold WaitForMultipleObjects.
  destruct (Z.eqb_spec (Z.of_nat (length hs)) 0), (Z.ltb_spec MAXIMUM_WAIT_OBJECTS (Z.of_nat (length hs))); try lia. cbn [orb].
  split.
  - intros f g s ms Hw Hs Hclk Hms. rewrite kloop_step.
    destruct (round_all_now hs ts ms (World (f k) (Act g :: s)) Hw Hind ltac:(lia) Hs) as (Hpos & Hpoll & _).
    unfold wait_round. replace (ms =? INFINITE) with false by (symmetry; apply Z.eqb_neq; lia). cbn [andb negb].
    rewrite (K_bind_ok clock_gettime _ _ (now (f k)) (World (f k) (Act g :: s))) by done.
    kstep (collect_ok hs ts (f k) (Act g :: s) (replicate (length hs) false) true 0 Hw). kstep Hpoll. cbn [fst snd kern] in *.
    rewrite (proj2 (Z.ltb_ge _ 0)), (proj2 (Z.eqb_neq _ 0)) by lia.
    rewrite (K_bind_ok clock_gettime _ _ (now (g (f k))) (World (g (f k)) s)) by done.
    replace (ms <? u64 (ts_difftime (now (g (f k))) (now (f k))) / 1000) with true; [done|].
    symmetry. apply Z.ltb_lt. unfold ts_difftime, wrap, INFINITE in *.
    replace ((now (f k) - now (g (f k))) mod 2 ^ 64) with (now (f k) - now (g (f k)) + 2 ^ 64); [lia|].
    symmetry. rewrite <- (Z.mod_add _ 1) by done. rewrite Z.mul_1_l. apply Z.mod_small. lia.
  - intros Hw (t1 & Ht1 & Hs1)%Exists_exists (t0 & Ht0 & Hs0)%Exists_exists.
    apply list_elem_of_lookup in Ht1 as [i1 Ht1]. apply list_elem_of_lookup in Ht0 as [i0 Ht0].
    set (idx := replicate (length hs) false). pose proof (Forall2_length _ _ _ Hw) as Hlen.
    assert (Hidx : ∀ i t, ts !! i = Some t → idx !! i = Some false).
    { intros i t Ht. apply lookup_replicate. split; [done|]. apply lookup_lt_Some in Ht. lia. }
    destruct (taken_fresh hs ts idx k Hw) as [Hnd Hfresh]; [apply length_replicate|].
    destruct (scan_all_pending hs ts idx 0 k [] Hw Hind (marks_start _)) as (res & Hscan & _ & Hres); [eauto|].
    set (tr := (filter (λ x, sig k x.2 = true) (pending ts idx true 0)).*1) in *.
    assert (Htr : ∀ i, i ∈ tr ↔ ∃ t, ts !! i = Some t ∧ sig k t.1 = true) by (intros i; rewrite Hfresh; naive_solver).
    exists tr. split_and!; [done|done|]. rewrite kloop_step.
    destruct (poll_ready_now hs ts idx true (World k []) i1 t1 Hw Ht1 Hs1) as [Hpos Hpoll]; [by rewrite (Hidx _ _ Ht1)|].
    cbn [kern] in *. rewrite (round_timed_zero hs ts idx 0 k _ _ Hw (Hpoll 0)) by lia.
    rewrite (proj2 (Z.eqb_neq _ 0)) by lia. rewrite (zip_marked k), Hscan by done.
    destruct res as [[[idx' sg'] sh]|rc].
    + destruct Hres as (Hm & Hiff & _). rewrite kloop_step.
      rewrite (round_timed_zero hs ts idx' sg' _ 0 (map (λ _, 0) (map snd (pending ts idx' true 0)))); [done|by apply waitable_consume_all| |lia].
      apply retry_poll_zero. apply (poll_rest hs); try done. intros i Hi. apply Hiff. by right.
    + destruct Hres as [_ Hall]. exfalso. destruct (Hall i0) as [Hx|Hx]; [apply lookup_lt_Some in Ht0; lia| |].
      * rewrite (Hidx _ _ Ht0) in Hx. done.
      * apply Htr in Hx as (t & Ht & Hs). congruence.
Qed.

(** ** Instances

    Three objects: an event (set), a semaphore with count 1 and an expired
    timer; and an environment in which another thread posts to the semaphore. *)

Definition three (count : Z) : kernel :=
  Kernel
    {[ 16 := Object HANDLE_TYPE_EVENT FD_READ (Some EventOps) (BEvent (Event 3 (-1) false true));
       32 := Object HANDLE_TYPE_SEMAPHORE UZI_FD_READ (Some SemaphoreOps) (BSemaphore (Semaphore 4 5));
       48 := Object HANDLE_TYPE_TIMER UZI_FD_READ (Some TimerOps) (BTimer (Timer 6 true 0 false 0 0 0 (0, 0) (0, 5))) ]}
    {[ 3 := FdEvent 1; 4 := FdPipeR 0; 5 := FdPipeW 0; 6 := FdTimer 5 0 ]}
    [count] ∅ None 1 0 10 1700000000000000000 ∅.

Definition three_targets : list target :=
  [(Pollfd 3 POLLIN, RNone); (Pollfd 4 POLLIN, RPipe 0); (Pollfd 6 POLLIN, RTimer 6)].

Lemma three_waitable c : Forall2 (waitable (three c)) [16; 32; 48] three_targets.
Proof.
  assert (Hv : ∀ h, 0 < h < 100 → valid_handle h) by (intros h Hh; split; unfold INVALID_HANDLE_VALUE; lia).
  repeat constructor.
  - change POLLIN with (handle_mode_to_pollevent FD_READ).
    apply (waitable_event (three c) 16 FD_READ (Event 3 (-1) false true) 1); [apply Hv; lia|done..].
  - apply (waitable_semaphore (three c) 32 (Semaphore 4 5) 0); [apply Hv; lia|done|done|done|by vm_compute].
  - apply (waitable_timer (three c) 48 (Timer 6 true 0 false 0 0 0 (0, 0) (0, 5)) 5 0); [apply Hv; lia|done..].
Qed.

Lemma three_independent : independent three_targets.
Proof. intros [|[|[|i]]] [|[|[|j]]] t t' Hi Hj He Hn; cbn in *; simplify_eq; done. Qed.

Lemma keeps_post hs ts p n : keeps hs ts (Act (pipe_add p n)).
Proof.
  intros k H. eapply Forall2_impl; [exact H|]. intros h t [mode e m|sm q|tm due i];
    [eapply waitable_event|eapply waitable_semaphore|eapply waitable_timer]; eauto.
Qed.

Lemma keeps_later hs ts d : keeps hs ts (Act (λ k, set_now (now k + d) k)).
Proof. intros k H. eapply Forall2_impl; [exact H|]. intros h t. apply waitable_set_now. Qed.

Lemma wait_single_spec_witness :
  let w := World (three 0) [Signal; Act (pipe_add 0 1)] in
  waitable_all w [32] [(Pollfd 4 POLLIN, RPipe 0)] ∧
  WaitForSingleObject 32 0 w = Ok (WAIT_TIMEOUT, w) ∧
  WaitForSingleObject 32 INFINITE w = Ok (WAIT_OBJECT_0, World (three 0) []).
Proof.
  assert (Hw : waitable_all (World (three 0) [Signal; Act (pipe_add 0 1)]) [32] [(Pollfd 4 POLLIN, RPipe 0)]).
  { split; [|apply Forall_cons; split; [done|]; apply Forall_cons; split; [apply keeps_post|constructor]].
    pose proof (three_waitable 0) as H. apply Forall2_cons in H as [_ H]. apply Forall2_cons in H as [H _]. by repeat constructor. }
  split; [exact Hw|]. split; [|vm_compute; reflexivity].
  exact (proj1 (proj2 (wait_single_spec 32 _ 0 _ Hw)) eq_refl).
Defined.

Lemma wait_any_spec_witness :
  let w := World (three 1) [] in
  waitable_all w [16; 32; 48] three_targets ∧
  WaitForMultipleObjects 1 [16; 32; 48] false 0 w = Ok (0, World (three 1) []).
Proof.
  assert (Hw : waitable_all (World (three 1) []) [16; 32; 48] three_targets) by (split; [apply three_waitable|constructor]).
  split; [exact Hw|].
  refine (proj1 (wait_any_spec 0 [16; 32; 48] three_targets 0 (World (three 1) []) _ Hw) 0%nat _ _ eq_refl); [by vm_compute|].
  split; [by eexists|]. intros j t Hj. lia.
Defined.

Lemma wait_all_spec_witness :
  let w := World (three 1) [] in
  waitable_all w [16; 32; 48] three_targets ∧
  WaitForMultipleObjects 1 [16; 32; 48] true INFINITE w =
  Ok (WAIT_OBJECT_0, World (consume_all three_targets [0%nat; 1%nat; 2%nat] (three 1)) []) ∧
  pipes (consume_all three_targets [0%nat; 1%nat; 2%nat] (three 1)) = [0].
Proof.
  assert (Hw : waitable_all (World (three 1) []) [16; 32; 48] three_targets) by (split; [apply three_waitable|constructor]).
  split; [exact Hw|]. split; [|reflexivity].
  refine (proj2 (wait_all_spec 0 [16; 32; 48] three_targets (World (three 1) []) _ Hw three_independent) _); [by vm_compute|].
  by repeat constructor.
Defined.

Lemma wait_all_timed_defects_witness :
  WaitForMultipleObjects 1 [16; 32; 48] true 5000 (World (three 1) [Act (λ k, k); Act (λ k, set_now (now k + 1) k)]) =
    Ok (WAIT_TIMEOUT, World (set_now 11 (three 1)) []) ∧
  (∃ tr, WaitForMultipleObjects 2 [16; 32; 48] true 0 (World (three 0) []) =
           Ok (WAIT_TIMEOUT, World (consume_all three_targets tr (three 0)) [])) ∧
  (∃ w, WaitForMultipleObjects 2 [16; 32; 48] true 0 (World (three 0) []) = Ok (WAIT_TIMEOUT, w) ∧
        files (kern w) !! 6 = Some (FdTimer 0 0)).
Proof.
  split; [|split].
  - refine (proj1 (wait_all_timed_defects 0 [16; 32; 48] three_targets (three 1) _ three_independent)
      (λ k, k) (λ k, set_now (now k + 1) k) [] 5000 (three_waitable 1) _ _ _); [by vm_compute|by repeat constructor|by vm_compute|by vm_compute].
  - destruct (proj2 (wait_all_timed_defects 0 [16; 32; 48] three_targets (three 0) ltac:(by vm_compute) three_independent)
      (three_waitable 0)) as (tr & _ & _ & He).
    + by repeat constructor.
    + by apply Exists_cons_tl, Exists_cons_hd.
    + by exists tr.
  - eexists. split; [vm_compute; reflexivity|]. reflexivity.
Defined.
