(* ===== verification/WaitLive.v ===== *)
(** Waits without a timeout come back (src/libuzi/wait.c).

    The environment is a finite script of actions; when it signals every object
    that is waited for, and leaves signalled objects signalled, the waits with
    INFINITE return: total correctness, where Wait.v shows what an answer means
    when there is one. *)

From stdpp Require Import list gmap.
From S2P Require Import Prelude Kernel Handle Wait.

Set Warnings "-clear-no-such-hyp".

(** ** The environment *)

(** An action that signals object [i], in whatever state it finds it. *)
Definition posts (hs : list Z) (ts : list target) (f : kernel → kernel) (i : nat) : Prop :=
  ∀ k t, Forall2 (waitable k) hs ts → ts !! i = Some t → sig (f k) t.1 = true.

(** An event of the environment that takes no signal away. *)
Definition steady (hs : list Z) (ts : list target) (e : env) : Prop :=
  match e with
  | Act f => ∀ k i t, Forall2 (waitable k) hs ts → ts !! i = Some t → sig k t.1 = true → sig (f k) t.1 = true
  | Signal => True
  end.

(** Object [i] is signalled, or will be. *)
Definition will_signal (hs : list Z) (ts : list target) (w : world) (i : nat) : Prop :=
  ∃ t, ts !! i = Some t ∧ (sig (kern w) t.1 = true ∨ ∃ f, Act f ∈ script w ∧ posts hs ts f i).

(** The objects of [left] will all be signalled, and stay so. *)
Definition fair (hs : list Z) (ts : list target) (left : nat → Prop) (w : world) : Prop :=
  waitable_all w hs ts ∧ Forall (steady hs ts) (script w) ∧ ∀ i, left i → will_signal hs ts w i.

(** ** Blocking *)

Section Blocking.
Context {A : Type} (ready : kernel → option A) (P : world → Prop).

(** [P] is kept by what happens outside. *)
Definition closed : Prop :=
  (∀ f k s, P (World k (Act f :: s)) → P (World (f k) s)) ∧ (∀ k s, P (World k (Signal :: s)) → P (World k s)).

(** A call without deadline comes back if it is ready when the script ends. *)
Lemma await_live clock intr s : closed → (∀ k, P (World k []) → is_Some (ready k)) → ∀ k, P (World k s) →
  ∃ r w', await ready clock None intr s k = Ok (r, w') ∧ P w' ∧ match r with
    | Woken _ => True | TimedOut => False | Interrupted => (length (script w') < length s)%nat end.
Proof.
  intros [Hact Hsig] Hend. induction s as [|e s IH]; intros k Hk; cbn; destruct (ready k) as [a|] eqn:E.
  1,3: by eexists (Woken a), (World k _).
  - destruct (Hend k Hk) as [a Ha]. congruence.
  - destruct e as [f|].
    + destruct (IH (f k)) as (r & w' & Hr & Hw' & Hx); [by apply Hact|]. exists r, w'. split_and!; [done|done|].
      destruct r; [done..|]. cbn. lia.
    + destruct intr; [by exists Interrupted, (World k s); split_and!; [|apply Hsig|cbn; lia]|].
      destruct (IH k) as (r & w' & Hr & Hw' & Hx); [by apply Hsig|]. exists r, w'. split_and!; [done|done|].
      destruct r; [done..|]. cbn. lia.
Qed.
End Blocking.

(** [poll], retried while interrupted. *)
Lemma retry_poll_live (P : world → Prop) l ms : s32 ms < 0 → closed P → (∀ k, P (World k []) → is_Some (poll_ready l k)) →
  ∀ w, P w → ∃ r w', retry (sys_poll l ms) w = Ok (r, w') ∧ P w'.
Proof.
  intros Hms HP Hend w Hw. unfold retry. assert (Hf : (length (script w) < S (length (script w)))%nat) by lia. revert Hf.
  generalize (S (length (script w))). intros fuel. revert w Hw. induction fuel as [|fuel IH]; intros w Hw Hl; [lia|].
  rewrite retry_unfold. unfold sys_poll at 1. rewrite (K_bind_ok (gets now) _ w (now (kern w)) w) by done.
  rewrite (proj2 (Z.ltb_lt _ 0)) by done. destruct w as [k s]. unfold awaitK. cbn [kern script] in *.
  destruct (await_live (poll_ready l) P now true s HP Hend k Hw) as (r & w' & Hr & Hw' & Hx).
  unfold mbind, K_bind. cbn [kern script]. rewrite Hr. destruct r as [a| |]; [|done|].
  - cbn. rewrite (proj2 (Z.ltb_ge (poll_count a) 0)) by (unfold poll_count; lia). cbn. eauto.
  - cbn. apply IH; [done|lia].
Qed.

(** ** Fair environments *)

Section Fair.
Context (hs : list Z) (ts : list target).

Lemma fair_closed left : closed (fair hs ts left).
Proof.
  split.
  - intros f k s ([Hw [Hk Hks]%Forall_cons] & [Hst Hss]%Forall_cons & Hwill). cbn [kern script] in *.
    split; [by split; [apply Hk|]|]. split; [done|]. intros i Hi. destruct (Hwill i Hi) as (t & Ht & Hs). exists t. split; [done|].
    cbn [kern script] in *. destruct Hs as [Hs|(g & [[= ->]|Hg]%elem_of_cons & Hp)].
    + left. by apply (Hst k i).
    + left. by apply (Hp k).
    + right. by exists g.
  - intros k s ([Hw [_ Hks]%Forall_cons] & [_ Hss]%Forall_cons & Hwill). split; [by split|]. split; [done|].
    intros i Hi. destruct (Hwill i Hi) as (t & Ht & Hs). exists t. split; [done|]. cbn [kern script] in *.
    destruct Hs as [Hs|(g & [[=]|Hg]%elem_of_cons & Hp)]; [by left|]. right. by exists g.
Qed.

(** With an object left in the poll array, [poll] answers. *)
Lemma fair_ready (left : nat → Prop) idx b i k : fair hs ts left (World k []) → left i → (b && default false (idx !! i)) = false →
  is_Some (poll_ready (map snd (pending ts idx b 0)) k).
Proof.
  intros ([Hw _] & _ & Hwill) Hi Hb. destruct (Hwill i Hi) as (t & Ht & Hs). cbn [kern script] in *.
  destruct Hs as [Hs|(f & []%elem_of_nil & _)]. unfold poll_ready.
  assert (Hx : existsb nonzero (map (revents k) (map snd (pending ts idx b 0))) = true).
  { apply (existsb_revents k hs ts idx b Hw). exists i, t.1. split; [|done]. apply elem_of_pending.
    exists i, t.2. split_and!; [done|by destruct t|done]. }
  rewrite Hx. eauto.
Qed.

Lemma poll_live left idx b i ms w : s32 ms < 0 → fair hs ts left w → left i → (b && default false (idx !! i)) = false →
  ∃ r k s, retry (sys_poll (map snd (pending ts idx b 0)) ms) w = Ok (r, World k s) ∧ fair hs ts left (World k s) ∧
    0 < r.1 ∧ r.1 = poll_count r.2 ∧ r.2 = map (revents k) (map snd (pending ts idx b 0)) ∧
    ∃ j t, ts !! j = Some t ∧ (b && default false (idx !! j)) = false ∧ sig k t.1 = true.
Proof.
  intros Hms Hf Hi Hb.
  destruct (retry_poll_live (fair hs ts left) _ ms Hms (fair_closed left)
    (λ k Hk, fair_ready left idx b i k Hk Hi Hb) w Hf) as (r & [k s] & Hr & Hf').
  exists r, k, s. split; [done|]. split; [done|]. apply retry_poll_inv in Hr as (_ & _ & [(Hp & Hc & Hrev)|(_ & ? & _)]); [|lia].
  cbn [kern] in *. split_and!; [done|done|done|].
  assert (Hx : existsb nonzero r.2 = true).
  { apply existsb_exists. rewrite Hc in Hp. unfold poll_count in Hp. destruct (filter nonzero r.2) as [|x l] eqn:Ex; [done|].
    exists x. assert (Hin : x ∈ filter nonzero r.2) by (rewrite Ex; constructor). apply list_elem_of_filter in Hin as [Hn Hin].
    apply list_elem_of_In in Hin. split; [done|]. by apply Is_true_true. }
  destruct Hf' as ([Hw _] & _). cbn [kern] in Hw. rewrite Hrev in Hx.
  apply (existsb_revents k hs ts idx b Hw) in Hx as (j & p & (m & q & -> & Hm & Hd)%elem_of_pending & Hs). by exists m, (p, q).
Qed.

(** *** Taking objects *)

(** Taking some objects leaves the others signalled, or to be signalled. *)
Lemma fair_consume (left left' : nat → Prop) tr k s : independent ts → fair hs ts left (World k s) →
  (∀ i, left' i → left i ∧ i ∉ tr) → fair hs ts left' (World (consume_all ts tr k) s).
Proof.
  intros Hind ([Hw Hk] & Hs & Hwill) Hleft. split; [split; [by apply waitable_consume_all|done]|]. split; [done|].
  intros i [Hi Htr]%Hleft. destruct (Hwill i Hi) as (t & Ht & Hsig). exists t. split; [done|]. cbn [kern script] in *.
  destruct Hsig as [Hsig|Hpost]; [left|by right]. by rewrite (sig_consume_all ts hs tr k i t).
Qed.

Lemma round_all_live idx sg w i : independent ts → fair hs ts (λ i, idx !! i = Some false) w → marks (length hs) idx sg →
  idx !! i = Some false →
  ∃ r w' tr, wait_round hs true (idx, sg, INFINITE) w = Ok (r, w') ∧ run ts w tr w' ∧ tr ≠ [] ∧ NoDup tr ∧
    (∀ i, i ∈ tr → idx !! i = Some false) ∧ round_res (length hs) idx tr r ∧
    match r with inl (idx', _, _) => fair hs ts (λ i, idx' !! i = Some false) w' | inr _ => True end.
Proof.
  intros Hind Hf Hm Hi. pose proof (proj1 Hf) as Hw. pose proof (Forall2_length _ _ _ (proj1 Hw)) as Hlen.
  destruct (poll_live (λ i, idx !! i = Some false) idx true i INFINITE w) as ([st revs] & k & s & Hr & Hf' & Hpos & Hc & Hrev & j & t & Ht & Hj & Hs);
    [by vm_compute|done|done|by rewrite Hi|]. cbn [fst snd] in *.
  pose proof (retry_poll_inv _ _ _ _ _ Hr) as (He & _). pose proof (proj1 (proj1 Hf')) as Hwk. cbn [kern] in Hwk.
  assert (Hex : ∃ j, idx !! j = Some false) by eauto.
  destruct (scan_all_pending hs ts idx sg k s Hwk Hind Hm Hex) as (res & Hscan & Hrun & Hres).
  destruct (taken_fresh hs ts idx k Hwk (proj1 Hm)) as [Hnd Hfresh].
  set (tr := (filter (λ x, sig k x.2 = true) (pending ts idx true 0)).*1) in *.
  assert (Hjf : idx !! j = Some false).
  { apply lookup_lt_Some in Ht. destruct (lookup_lt_is_Some_2 idx j) as [[] E]; [destruct Hm; lia|by rewrite E in Hj|done]. }
  assert (Hjt : j ∈ tr) by (apply Hfresh; eauto).
  assert (Hround : wait_round hs true (idx, sg, INFINITE) w =
    Ok (match res with inl (idx', sg', _) => inl (idx', sg', INFINITE) | inr rc => inr rc end, World (consume_all ts tr k) s)).
  { rewrite (round_eq hs ts) by (apply Hw || done). rewrite Hr, (proj2 (Z.ltb_ge st 0)), (proj2 (Z.eqb_neq st 0)) by lia.
    rewrite (zip_marked k), Hscan by done. by destruct res as [[[? ?] ?]|?]. }
  rewrite Hround. eexists _, _, tr. split; [reflexivity|]. split; [by eapply run_env|]. split; [intros E; rewrite E in Hjt; by apply elem_of_nil in Hjt|].
  split; [done|]. split; [intros x Hx; by apply Hfresh|]. destruct res as [[[idx' sg'] sh]|rc]; [|by split].
  destruct Hres as (Hm' & Hiff & Hex'). split; [by split_and!|]. apply (fair_consume _ _ _ _ _ Hind Hf'). intros x Hx.
  assert (Hnx : idx' !! x ≠ Some true) by congruence. rewrite (Hiff x) in Hnx. split; [|tauto].
  apply lookup_lt_Some in Hx. destruct Hm' as (Hl' & _). destruct (lookup_lt_is_Some_2 idx x) as [[] E]; [destruct Hm; lia|tauto|done].
Qed.
End Fair.

(** ** The loops *)

Lemma indices_bound (l : list nat) n : NoDup l → (∀ j, j ∈ l → (j < n)%nat) → (length l ≤ n)%nat.
Proof.
  intros Hnd Hl. assert (Hle : (length l ≤ length (seq 0 n))%nat); [|by rewrite length_seq in Hle].
  apply submseteq_length, NoDup_submseteq; [done|]. intros j Hj. apply elem_of_seq. specialize (Hl j Hj). lia.
Qed.

(** Every round takes an object: as many rounds as there are objects left. *)
Lemma wait_all_live hs ts : independent ts → ∀ fuel idx sg w tr0, fair hs ts (λ i, idx !! i = Some false) w →
  marks (length hs) idx sg → (∃ j, idx !! j = Some false) → (∀ j, idx !! j = Some true ↔ j ∈ tr0) → NoDup tr0 →
  (length hs ≤ fuel + length tr0)%nat →
  ∃ rc w', kloop fuel (wait_round hs true) (idx, sg, INFINITE) w = Ok (rc, w').
Proof.
  intros Hind. induction fuel as [|fuel IH]; intros idx sg w tr0 Hf Hm [i Hi] Htr Hnd Hfuel.
  { exfalso. assert (Hnot : i ∉ tr0) by (rewrite <- Htr; congruence).
    pose proof (indices_bound (i :: tr0) (length hs)) as Hb. cbn [length] in Hb.
    assert (S (length tr0) ≤ length hs)%nat; [|lia]. apply Hb; [by constructor|].
    intros j [->|Hj%Htr]%elem_of_cons; [apply lookup_lt_Some in Hi|apply lookup_lt_Some in Hj]; destruct Hm; lia. }
  rewrite kloop_step. destruct (round_all_live hs ts idx sg w i Hind Hf Hm Hi) as (r & w1 & tr & -> & _ & Hne & Hnd1 & Hfr & Hres & Hf1).
  destruct r as [[[idx' sg'] ms]|rc]; [|eauto]. destruct Hres as (-> & Hm' & Hiff & Hex).
  apply (IH idx' sg' w1 (tr0 ++ tr) Hf1 Hm' Hex).
  - intros j. rewrite Hiff, Htr. set_solver.
  - apply NoDup_app. split_and!; [done| |done]. intros j Hj Hj'. apply Htr in Hj. apply Hfr in Hj'. congruence.
  - rewrite length_app. assert (length tr ≠ 0%nat) by (by destruct tr). lia.
Qed.

(** C6: a wait without a timeout comes back when the environment, in finitely
    many steps, signals what is waited for and takes no signal away. Waiting for
    all objects (INFINITE, different objects, each signalled now or by an action
    still to come) returns WAIT_OBJECT_0 with every object taken exactly once,
    within as many rounds as there are objects; waiting for any of several, one
    of which will be signalled, returns the index of the object it has taken, in
    one round. Interruptions by signals do not matter. *)
Theorem waits_return fuel hs ts w :
  0 < Z.of_nat (length hs) <= MAXIMUM_WAIT_OBJECTS →
  (independent ts → fair hs ts (λ i, (i < length hs)%nat) w → (length hs ≤ fuel)%nat →
    ∃ w' tr, WaitForMultipleObjects fuel hs true INFINITE w = Ok (WAIT_OBJECT_0, w') ∧ run ts w tr w' ∧ tr ≡ₚ seq 0 (length hs)) ∧
  (∀ i ms, fair hs ts (λ j, j = i) w → s32 ms < 0 →
    ∃ j k s t, WaitForMultipleObjects (S fuel) hs false ms w = Ok (Z.of_nat j, World (consume t.2 k) s) ∧
      evolves w (World k s) ∧ lowest ts k j ∧ ts !! j = Some t).
Proof.
  intros Hn. unfold WaitForMultipleObjects.
  destruct (Z.eqb_spec (Z.of_nat (length hs)) 0), (Z.ltb_spec MAXIMUM_WAIT_OBJECTS (Z.of_nat (length hs))); try lia. cbn [orb]. split.
  - intros Hind Hf Hfuel. assert (Hex : ∃ j, replicate (length hs) false !! j = Some false) by (exists 0%nat; apply lookup_replicate; split; [done|lia]).
    assert (Hno : ∀ j, replicate (length hs) false !! j = Some true ↔ j ∈ @nil nat).
    { intros j. rewrite elem_of_nil. split; [|done]. apply replicate_false. }
    assert (Hf' : fair hs ts (λ i, replicate (length hs) false !! i = Some false) w).
    { destruct Hf as (Hw & Hs & Hwill). split_and!; [done|done|]. intros i Hi. apply Hwill. by apply lookup_replicate in Hi as [_ ?]. }
    destruct (wait_all_live hs ts Hind fuel _ _ w [] Hf' (marks_start _) Hex Hno (NoDup_nil_2) ltac:(cbn; lia)) as (rc & w' & Hr).
    pose proof Hr as Hr'. apply (wait_all_loop hs ts fuel Hind _ _ w [] rc w' (proj1 Hf) (marks_start _) Hex Hno NoDup_nil_2) in Hr' as (-> & tr & Hrun & Hnd & Hall).
    exists w', tr. split_and!; [done|done|]. apply NoDup_Permutation; [done|apply NoDup_seq|]. intros j. rewrite (Hall j), elem_of_seq. lia.
  - intros i ms Hf Hms. rewrite kloop_step. destruct (round_any hs ts ms w (proj1 Hf)) as [Hinv _].
    assert (Hpend : pending ts (replicate (length hs) false) false 0 = pending ts [] false 0) by (by rewrite !pending_any).
    assert (Hround : ∃ r w', wait_round hs false (replicate (length hs) false, 0%nat, ms) w = Ok (r, w')).
    { rewrite (round_eq hs ts) by (apply (proj1 Hf) || done). rewrite Hpend.
      destruct (poll_live hs ts (λ j, j = i) [] false i ms w Hms Hf eq_refl eq_refl) as ([st revs] & k & s & Hr & Hf' & Hpos & Hc & Hrev & _).
      cbn [fst snd] in *. rewrite Hr, (proj2 (Z.ltb_ge st 0)), (proj2 (Z.eqb_neq st 0)) by lia.
      rewrite (zip_marked k), (scan_any hs ts k s) by (done || apply (proj1 Hf') || (intros j p; apply pending_any_elem)).
      destruct (first_signalled k _); cbn; eauto. }
    destruct Hround as (r & w' & Hr). rewrite Hr.
    destruct (Hinv r w' Hr) as [(j & k & s & t & He & Hl & Ht & -> & ->)|(_ & _ & ? & _)]; [|lia]. by exists j, k, s, t.
Qed.

(** ** Instances

    An event that is set, a semaphore with count 0 that another thread posts to
    after a signal has interrupted the wait, and an expired timer. *)

Definition post_one : env := Act (set_pipes [1]).

Lemma post_one_keeps hs ts : keeps hs ts post_one.
Proof.
  intros k H. eapply Forall2_impl; [exact H|]. intros h t [mode e m|sm q|tm due i];
    [eapply waitable_event|eapply waitable_semaphore|eapply waitable_timer]; eauto.
Qed.

Lemma sig_files k k' p : files k' = files k → now k' = now k →
  (∀ q, files k !! pfd p ≠ Some (FdPipeR q)) → (∀ q, files k !! pfd p ≠ Some (FdPipeW q)) → sig k' p = sig k p.
Proof.
  intros Hf Hn Hr Hw. unfold sig. erewrite revents_eq; [done|]. unfold poll_state. rewrite Hf.
  destruct (files k !! pfd p) as [[]|] eqn:E; [done|by destruct (Hr p0)|by destruct (Hw p0)|by rewrite Hn|done].
Qed.

Lemma post_one_sig k i t h : waitable k h t → three_targets !! i = Some t → sig (set_pipes [1] k) t.1 = if decide (i = 1%nat) then true else sig k t.1.
Proof.
  intros Hw Ht. assert (Hw' : waitable (set_pipes [1] k) h t).
  { pose proof (post_one_keeps [h] [t] k) as H. specialize (H ltac:(by repeat constructor)). by apply Forall2_cons in H as [? _]. }
  destruct i as [|[|[|i]]]; [..|done]; injection Ht as <-; cbn [decide].
  - apply sig_files; [done|done|..]; intros q E; inversion Hw; cbn in *; congruence.
  - inversion Hw' as [|sm p Hv Ho Hfd Hp Hwr|]; cbn [fst].
    by rewrite (sig_semaphore _ (sem_fd0 sm) 0).
  - apply sig_files; [done|done|..]; intros q E; inversion Hw; cbn in *; congruence.
Qed.

Lemma post_one_steady : steady [16; 32; 48] three_targets post_one.
Proof.
  intros k i t Hw Ht Hs. destruct (Forall2_lookup_r _ _ _ _ _ Hw Ht) as (h & _ & Hh).
  rewrite (post_one_sig k i t h Hh Ht). by case_decide.
Qed.

Lemma three_fair : fair [16; 32; 48] three_targets (λ i, (i < 3)%nat) (World (three 0) [Signal; post_one]).
Proof.
  split; [split; [apply three_waitable|apply Forall_cons; split; [done|]; apply Forall_cons; split; [apply post_one_keeps|constructor]]|].
  split; [apply Forall_cons; split; [done|]; apply Forall_cons; split; [apply post_one_steady|constructor]|].
  intros [|[|[|i]]] Hi; [..|lia]; eexists; (split; [reflexivity|]); [left; by vm_compute| |left; by vm_compute].
  right. exists (set_pipes [1]). split; [right; left|]. intros k t Hw Ht.
  destruct (Forall2_lookup_r _ _ _ _ _ Hw Ht) as (h & _ & Hh). by rewrite (post_one_sig k 1 t h Hh Ht).
Qed.

Lemma waits_return_witness :
  let w := World (three 0) [Signal; post_one] in
  fair [16; 32; 48] three_targets (λ i, (i < 3)%nat) w ∧
  (∃ w' tr, WaitForMultipleObjects 3 [16; 32; 48] true INFINITE w = Ok (WAIT_OBJECT_0, w') ∧ run three_targets w tr w' ∧ tr ≡ₚ [0; 1; 2]%nat) ∧
  WaitForMultipleObjects 3 [16; 32; 48] true INFINITE w =
    Ok (WAIT_OBJECT_0, World (consume_all three_targets [2; 1]%nat (set_pipes [1] (three 0))) []).
Proof.
  split; [exact three_fair|]. split; [|vm_compute; reflexivity].
  exact (proj1 (waits_return 3 [16; 32; 48] three_targets (World (three 0) [Signal; post_one]) ltac:(by vm_compute))
    three_independent three_fair ltac:(cbn; lia)).
Defined.
