(* ===== verification/Event.v ===== *)
(** Events (src/libuzi/event.c). *)

From stdpp Require Import list gmap.
From S2P Require Import Prelude Kernel Handle Wait.

Set Warnings "-clear-no-such-hyp".

Definition set_fds (fd0 fd1 : Z) (e : WINPR_EVENT) : WINPR_EVENT := Event fd0 fd1 (bAttached e) (bManualReset e).

Definition eventfd_read (fd : Z) : K (Z * Z * unit) :=
  r ← sys_read fd 8; mret (if r.1 =? 8 then 0 else -1, r.2, ()).

Definition eventfd_write (fd value : Z) : K (Z * Z * unit) :=
  r ← sys_write fd 8 value; mret (if r.1 =? 8 then 0 else -1, r.2, ()).

Definition EventCloseHandle (h : Z) : K bool :=
  b ← EventIsHandled h;
  if negb b then mret false
  else
    e ← event_at h;
    (if negb (bAttached e) then
      (if negb (ev_fd0 e =? -1) then
         sys_close (ev_fd0 e);; modify (set_body h (BEvent (set_fds (-1) (ev_fd1 e) e)))
       else mret ());;
      e ← event_at h;
      (if negb (ev_fd1 e =? -1) then
         sys_close (ev_fd1 e);; modify (set_body h (BEvent (set_fds (ev_fd0 e) (-1) e)))
       else mret ())
    else mret ());;
    free h;;
    mret true.

Definition SetEvent (h : Z) : K bool :=
  i ← winpr_Handle_GetInfo h;
  match i with
  | None => mret false
  | Some _ =>
    e ← event_at h;
    r ← retry (eventfd_write (ev_fd0 e) 1);
    mret (r.1 =? 0)
  end.

(** The [while] loop: wait for 0 ms, read, again; [status] is its state. *)
Definition reset_body (h : Z) (status : bool) : K (bool + bool) :=
  if negb status then mret (inr status)
  else
    rc ← WaitForSingleObject h 0;
    if negb (rc =? WAIT_OBJECT_0) then mret (inr status)
    else
      e ← event_at h;
      r ← retry (eventfd_read (ev_fd0 e));
      mret (inl (if r.1 <? 0 then false else status)).

Definition ResetEvent (fuel : nat) (h : Z) : K bool :=
  i ← winpr_Handle_GetInfo h;
  match i with
  | None => mret false
  | Some _ => kloop fuel (reset_body h) true
  end.

(** [calloc] and [efd] are what [calloc] and [eventfd] answer (0 and negative
    on failure). *)
Definition CreateEventW (calloc efd : Z) (bManualReset bInitialState : bool) : K Z :=
  if calloc =? 0 then mret 0
  else
    modify (set_obj calloc (Object HANDLE_TYPE_EVENT FD_READ (Some EventOps) (BEvent (Event 0 0 false bManualReset))));;
    if negb bManualReset then mret 0
    else
      modify (set_body calloc (BEvent (Event (-1) (-1) false bManualReset)));;
      fd ← sys_eventfd efd;
      modify (set_body calloc (BEvent (Event fd (-1) false bManualReset)));;
      if fd <? 0 then free calloc;; mret 0
      else
        (if bInitialState then SetEvent calloc;; mret () else mret ());;
        mret calloc.

Definition CreateEventA := CreateEventW.

Definition CreateFileDescriptorEventW (calloc : Z) (bManualReset : bool) (FileDescriptor mode : Z) : K Z :=
  if calloc =? 0 then mret 0
  else
    modify (set_obj calloc (Object HANDLE_TYPE_EVENT mode (Some EventOps) (BEvent (Event FileDescriptor (-1) true bManualReset))));;
    mret calloc.

Definition CreateFileDescriptorEventA := CreateFileDescriptorEventW.

(** The object is a pointer whose low 32 bits are the descriptor. *)
Definition CreateWaitObjectEvent (calloc : Z) (bManualReset : bool) (pObject : Z) : K Z :=
  CreateFileDescriptorEventW calloc bManualReset (s32 pObject) UZI_FD_READ.

Definition GetEventFileDescriptor (h : Z) : K Z :=
  i ← winpr_Handle_GetInfo h;
  match i with None => mret (-1) | Some _ => e ← event_at h; mret (ev_fd0 e) end.

Definition SetEventFileDescriptor (h FileDescriptor mode : Z) : K Z :=
  i ← winpr_Handle_GetInfo h;
  match i with
  | None => mret (-1)
  | Some _ =>
    e ← event_at h;
    (if negb (bAttached e) && (0 <=? ev_fd0 e) then sys_close (ev_fd0 e) else mret ());;
    o ← object_at h;
    modify (set_obj h (Object (Type_ o) mode (ops o) (BEvent (Event FileDescriptor (ev_fd1 e) true (bManualReset e)))));;
    mret 0
  end.

Definition GetEventWaitObject (h : Z) : K Z := fd ← GetEventFileDescriptor h; mret (u64 fd).

(** ** Specification: an event is a flag *)

(** [is_event k h fd n]: [h] is an event created by this library; its eventfd
    is [fd], with count [n]. It is set when [n] is positive. *)
Definition is_event (k : kernel) (h fd n : Z) : Prop :=
  valid_handle h ∧ 0 <= fd ∧ 0 <= n <= EVENTFD_MAX ∧ files k !! fd = Some (FdEvent n) ∧
  objs k !! h = Some (Object HANDLE_TYPE_EVENT FD_READ (Some EventOps) (BEvent (Event fd (-1) false true))).

Inductive evop := OSet | OReset | OIsSet.

(** The operations in sequence, with their answers. *)
Fixpoint run_evops (h : Z) (l : list evop) : K (list bool) :=
  match l with
  | [] => mret []
  | o :: l =>
    b ← match o with
        | OSet => SetEvent h
        | OReset => ResetEvent 2 h
        | OIsSet => rc ← WaitForSingleObject h 0; mret (rc =? WAIT_OBJECT_0)
        end;
    bs ← run_evops h l; mret (b :: bs)
  end.

Fixpoint flag_ops (b : bool) (l : list evop) : list bool * bool :=
  match l with
  | [] => ([], b)
  | OSet :: l => let '(r, f) := flag_ops true l in (true :: r, f)
  | OReset :: l => let '(r, f) := flag_ops false l in (true :: r, f)
  | OIsSet :: l => let '(r, f) := flag_ops b l in (b :: r, f)
  end.

(** ** Lemmas *)

Lemma is_event_waitable k h fd n : is_event k h fd n → waitable k h (Pollfd fd POLLIN, RNone).
Proof. intros (Hv & Hfd & Hn & Hf & Ho). by apply (waitable_event k h FD_READ _ n Hv Ho). Qed.

Lemma is_event_sig k h fd n : is_event k h fd n → sig k (Pollfd fd POLLIN) = (0 <? n).
Proof.
  intros (Hv & Hfd & Hn & Hf & Ho). unfold sig, revents, poll_state. cbn [pfd events]. rewrite Hf.
  destruct (Z.ltb_spec fd 0); [lia|]. by destruct (0 <? n), (n <? EVENTFD_MAX).
Qed.

Lemma is_event_set k h fd n m : is_event k h fd n → 0 <= m <= EVENTFD_MAX → is_event (set_file fd (FdEvent m) k) h fd m.
Proof. intros (Hv & Hfd & Hn & Hf & Ho) Hm. split_and!; try done; try lia. cbn. by rewrite lookup_insert_eq. Qed.

(** A call that is not interrupted is made once. *)
Lemma retry_once {A} (call : K (Z * Z * A)) w st e a w' :
  call w = Ok ((st, e, a), w') → e ≠ EINTR ∨ 0 <= st → retry call w = Ok ((st, a), w').
Proof.
  intros E H. unfold retry. rewrite retry_unfold, E.
  destruct (Z.ltb_spec st 0), (Z.eqb_spec e EINTR); try done. lia.
Qed.

Lemma event_at_ok k s h fd n : is_event k h fd n → event_at h (World k s) = Ok (Event fd (-1) false true, World k s).
Proof. intros (Hv & Hfd & Hn & Hf & Ho). unfold event_at. by rewrite (bind_object _ _ _ _ _ Ho). Qed.

(** [SetEvent] adds one; at the largest count it fails (the event stays set). *)
Lemma SetEvent_ok k s h fd n : is_event k h fd n →
  SetEvent h (World k s) =
  if n <? EVENTFD_MAX then Ok (true, World (set_file fd (FdEvent (n + 1)) k) s) else Ok (false, World k s).
Proof.
  intros H. pose proof H as (Hv & Hfd & Hn & Hf & Ho). unfold SetEvent. kstep (info_ok k s h _ Hv Ho).
  kstep (event_at_ok k s h fd n H). cbn [ev_fd0].
  assert (Hc : eventfd_write fd 1 (World k s) =
    if n <? EVENTFD_MAX then Ok ((0, 0, ()), World (set_file fd (FdEvent (n + 1)) k) s) else Ok ((-1, EAGAIN, ()), World k s)).
  { unfold eventfd_write, sys_write, gets, mbind, K_bind. cbn. rewrite Hf. cbn. change (1 =? 2 ^ 64 - 1) with false. cbn.
    destruct (Z.ltb_spec n EVENTFD_MAX), (Z.ltb_spec EVENTFD_MAX (n + 1)); try lia; done. }
  destruct (n <? EVENTFD_MAX).
  - kstep (retry_once (eventfd_write fd 1) _ _ _ _ _ Hc ltac:(by left)). done.
  - kstep (retry_once (eventfd_write fd 1) _ _ _ _ _ Hc ltac:(by left)). done.
Qed.

Lemma IsSet_ok k s h fd n : is_event k h fd n →
  WaitForSingleObject h 0 (World k s) = Ok (if 0 <? n then WAIT_OBJECT_0 else WAIT_TIMEOUT, World k s).
Proof.
  intros H. pose proof (is_event_waitable _ _ _ _ H) as Hw. rewrite (wait_single_eq (World k s) h _ 0 Hw).
  destruct (poll_one k h _ Hw) as [He Hc]. cbn [fst] in *. rewrite (is_event_sig k h fd n H) in *.
  destruct (0 <? n) eqn:En.
  - rewrite (retry_poll_ready _ _ _ (map (revents k) [Pollfd fd POLLIN])) by (unfold poll_ready; cbn [kern]; by rewrite He).
    rewrite Hc by done. cbn -[map]. apply (cleanup_ok k s h _ Hw). cbn [fst]. by rewrite (is_event_sig k h fd n H).
  - rewrite retry_poll_zero; [done|]. unfold poll_ready. cbn [kern]. by rewrite He.
Qed.

Lemma reset_body_ok k s h fd n : is_event k h fd n →
  reset_body h true (World k s) = Ok (if 0 <? n then inl true else inr true, World (if 0 <? n then set_file fd (FdEvent 0) k else k) s).
Proof.
  intros H. pose proof H as (Hv & Hfd & Hn & Hf & Ho). unfold reset_body. cbn [negb]. kstep (IsSet_ok k s h fd n H).
  destruct (Z.ltb_spec 0 n) as [Hpos|]; [|done]. cbn [negb Z.eqb WAIT_OBJECT_0].
  kstep (event_at_ok k s h fd n H). cbn [ev_fd0].
  assert (Hc : eventfd_read fd (World k s) = Ok ((0, 0, ()), World (set_file fd (FdEvent 0) k) s)).
  { unfold eventfd_read, sys_read, gets, mbind, K_bind. cbn. rewrite Hf. cbn. by destruct (Z.eqb_spec n 0); [lia|]. }
  kstep (retry_once (eventfd_read fd) _ _ _ _ _ Hc ltac:(by left)). done.
Qed.

(** [ResetEvent] clears the event; two rounds of its loop are enough. *)
Lemma ResetEvent_ok k s h fd n fuel : is_event k h fd n →
  ResetEvent (S (S fuel)) h (World k s) = Ok (true, World (if 0 <? n then set_file fd (FdEvent 0) k else k) s).
Proof.
  intros H. pose proof H as (Hv & Hfd & Hn & Hf & Ho). unfold ResetEvent. kstep (info_ok k s h _ Hv Ho).
  rewrite kloop_step, (reset_body_ok k s h fd n H).
  destruct (0 <? n); [|done]. assert (H0 : is_event (set_file fd (FdEvent 0) k) h fd 0) by (by eapply is_event_set).
  rewrite kloop_step. by rewrite (reset_body_ok _ s h fd 0 H0).
Qed.

Lemma set_file_id k fd f : files k !! fd = Some f → set_file fd f k = k.
Proof. intros H. destruct k. unfold set_file, set_files. cbn in *. by rewrite insert_id. Qed.

Lemma set_file_twice k fd f g : set_file fd g (set_file fd f k) = set_file fd g k.
Proof. unfold set_file, set_files. cbn. by rewrite insert_insert_eq. Qed.

(** One operation on an event, on the flag. *)
Definition evop_flag (b : bool) (o : evop) : bool * bool :=
  match o with OSet => (true, true) | OReset => (true, false) | OIsSet => (b, b) end.

Definition run_evop (h : Z) (o : evop) : K bool :=
  match o with
  | OSet => SetEvent h
  | OReset => ResetEvent 2 h
  | OIsSet => rc ← WaitForSingleObject h 0; mret (rc =? WAIT_OBJECT_0)
  end.

Lemma run_evop_ok k s h fd n o : is_event k h fd n → n < EVENTFD_MAX →
  ∃ m, run_evop h o (World k s) = Ok ((evop_flag (0 <? n) o).1, World (set_file fd (FdEvent m) k) s) ∧
       (0 <? m) = (evop_flag (0 <? n) o).2 ∧ 0 <= m <= n + 1.
Proof.
  intros H Hn. pose proof H as (_ & _ & Hr & Hf & _). destruct o; cbn [run_evop evop_flag fst snd].
  - exists (n + 1). rewrite (SetEvent_ok k s h fd n H). destruct (Z.ltb_spec n EVENTFD_MAX); [|lia].
    split_and!; [done|apply Z.ltb_lt; lia|lia|lia].
  - exists 0. rewrite (ResetEvent_ok k s h fd n 0 H). split_and!; [|done|lia|lia].
    destruct (Z.ltb_spec 0 n); [done|]. assert (n = 0) as -> by lia. by rewrite set_file_id.
  - exists n. kstep (IsSet_ok k s h fd n H). rewrite set_file_id by done. split_and!; [by destruct (0 <? n)|done|lia|lia].
Qed.

Lemma run_evops_flag l k s h fd n :
  is_event k h fd n → n + Z.of_nat (length l) <= EVENTFD_MAX →
  ∃ m, run_evops h l (World k s) = Ok ((flag_ops (0 <? n) l).1, World (set_file fd (FdEvent m) k) s) ∧
       is_event (set_file fd (FdEvent m) k) h fd m ∧ (0 <? m) = (flag_ops (0 <? n) l).2.
Proof.
  revert k n. induction l as [|o l IH]; intros k n H Hl; cbn [length run_evops] in *.
  { exists n. pose proof H as (_ & _ & _ & Hf & _). by rewrite set_file_id. }
  destruct (run_evop_ok k s h fd n o H ltac:(lia)) as (m & Ho & Hb & Hm).
  change (match o with OSet => SetEvent h | OReset => ResetEvent 2 h
    | OIsSet => rc ← WaitForSingleObject h 0; mret (rc =? WAIT_OBJECT_0) end) with (run_evop h o). kstep Ho.
  assert (H' : is_event (set_file fd (FdEvent m) k) h fd m) by (eapply is_event_set; [done|lia]).
  destruct (IH _ m H' ltac:(lia)) as (m' & Hrun & Hev & Hfl). exists m'. kstep Hrun. rewrite set_file_twice in *.
  assert (Hx : flag_ops (0 <? n) (o :: l) = ((evop_flag (0 <? n) o).1 :: (flag_ops (0 <? m) l).1, (flag_ops (0 <? m) l).2)).
  { rewrite Hb. destruct o; cbn [flag_ops evop_flag fst snd]; [destruct (flag_ops true l)|destruct (flag_ops false l)|destruct (flag_ops (0 <? n) l)]; reflexivity. }
  rewrite Hx. by split_and!.
Qed.

(** ** Theorems *)

(** C32: an event is a flag. As long as it has not been set 2^64 - 2 times, any
    sequence of SetEvent, ResetEvent and tests answers what a boolean answers:
    setting and resetting succeed, a test tells whether the last of them was a
    set; only the count of the event's descriptor changes; the loop of
    ResetEvent ends after at most two rounds. *)
Theorem event_refines_flag l k s h fd n :
  is_event k h fd n → n + Z.of_nat (length l) <= EVENTFD_MAX →
  ∃ m, run_evops h l (World k s) = Ok ((flag_ops (0 <? n) l).1, World (set_file fd (FdEvent m) k) s) ∧
       is_event (set_file fd (FdEvent m) k) h fd m ∧ (0 <? m) = (flag_ops (0 <? n) l).2.
Proof. apply run_evops_flag. Qed.

Definition event_demo (n : Z) : kernel :=
  Kernel {[ 16 := Object HANDLE_TYPE_EVENT FD_READ (Some EventOps) (BEvent (Event 3 (-1) false true)) ]}
    {[ 3 := FdEvent n ]} [] ∅ None 1 0 0 0 ∅.

Lemma event_refines_flag_witness :
  is_event (event_demo 0) 16 3 0 ∧
  ∃ m, run_evops 16 [OIsSet; OSet; OSet; OIsSet; OReset; OIsSet] (World (event_demo 0) []) =
         Ok ([false; true; true; true; true; false], World (set_file 3 (FdEvent m) (event_demo 0)) []) ∧ (0 <? m) = false.
Proof.
  assert (H : is_event (event_demo 0) 16 3 0) by (unfold is_event, valid_handle, INVALID_HANDLE_VALUE, EVENTFD_MAX; split_and!; first [reflexivity|lia]).
  split; [exact H|].
  destruct (event_refines_flag [OIsSet; OSet; OSet; OIsSet; OReset; OIsSet] (event_demo 0) [] 16 3 0 H ltac:(by vm_compute)) as (m & Hr & _ & Hm).
  exists m. split; [exact Hr|exact Hm].
Defined.

(** *** Creation and closing *)

(** The kernel with a new event and its eventfd. *)
Definition with_event (a efd n : Z) (k : kernel) : kernel :=
  set_file efd (FdEvent n)
    (set_obj a (Object HANDLE_TYPE_EVENT FD_READ (Some EventOps) (BEvent (Event efd (-1) false true))) k).

Lemma is_event_with a efd n k : valid_handle a → 0 <= efd → 0 <= n <= EVENTFD_MAX → is_event (with_event a efd n k) a efd n.
Proof. intros. split_and!; cbn; rewrite ?lookup_insert_eq; done || lia. Qed.

Lemma CreateEventW_body k s a efd init : a ≠ 0 → 0 <= efd →
  CreateEventW a efd true init (World k s) =
  ((if init : bool then SetEvent a;; mret () else mret ());; mret a) (World (with_event a efd 0 k) s).
Proof.
  intros Ha Hefd. unfold CreateEventW, sys_eventfd. destruct (Z.eqb_spec a 0); [done|]. destruct (Z.ltb_spec efd 0); [lia|].
  destruct k. unfold with_event, set_file, set_obj, modify, mbind, K_bind. cbn. unfold set_body, set_objs. cbn.
  rewrite (proj2 (Z.ltb_ge efd 0)), !alter_insert_eq by done. by destruct init.
Qed.

Lemma CreateEventW_failed k s a efd init : a ≠ 0 → objs k !! a = None → efd < 0 →
  CreateEventW a efd true init (World k s) = Ok (0, World k s).
Proof.
  intros Ha Ho Hefd. unfold CreateEventW, sys_eventfd. destruct (Z.eqb_spec a 0); [done|]. destruct (Z.ltb_spec efd 0); [|lia].
  destruct k. unfold free, set_obj, modify, mbind, K_bind. cbn in *. unfold set_body, set_objs. cbn.
  destruct (Z.ltb_spec efd 0); [|lia]. cbn. by rewrite !delete_alter_eq, delete_insert_id.
Qed.

Lemma EventCloseHandle_ok k s a efd n : valid_handle a → 0 <= efd → 0 <= n <= EVENTFD_MAX →
  objs k !! a = None → files k !! efd = None → EventCloseHandle a (World (with_event a efd n k) s) = Ok (true, World k s).
Proof.
  intros Hv Hefd Hn Ho Hf. pose proof (is_event_with a efd n k Hv Hefd Hn) as H. pose proof H as (_ & _ & _ & _ & Hob).
  unfold EventCloseHandle. kstep (is_handled_ok _ s a _ Hv Hob). cbn [negb]. kstep (event_at_ok _ s a efd n H).
  cbn [bAttached negb ev_fd0]. destruct (Z.eqb_spec efd (-1)); [lia|]. cbn [negb].
  set (k2 := set_files (files k) (set_obj a (Object HANDLE_TYPE_EVENT FD_READ (Some EventOps) (BEvent (Event (-1) (-1) false true))) k)).
  assert (Hcl : (sys_close efd;; modify (set_body a (BEvent (set_fds (-1) (-1) (Event efd (-1) false true))))) (World (with_event a efd n k) s)
    = Ok ((), World k2 s)).
  { destruct k. unfold k2, sys_close, modify, mbind, K_bind, with_event, set_file, set_obj, set_body, set_objs, set_files. cbn in *.
    rewrite delete_insert_id by done. by rewrite alter_insert_eq. }
  unfold mbind at 1, K_bind at 1. unfold mbind at 1, K_bind at 1. cbn [ev_fd1] in *. rewrite Hcl.
  assert (He : event_at a (World k2 s) = Ok (Event (-1) (-1) false true, World k2 s)).
  { unfold event_at. rewrite (bind_object k2 s a (Object HANDLE_TYPE_EVENT FD_READ (Some EventOps) (BEvent (Event (-1) (-1) false true)))); [done|].
    cbn. by rewrite lookup_insert_eq. }
  kstep He. destruct k. unfold free, mbind, K_bind, modify, k2, set_files, set_obj, set_objs. cbn in *. by rewrite delete_insert_id.
Qed.

(** creation. A manual-reset event is created in the state asked for, and
    closing it gives back exactly the memory and the descriptor it took. When
    [calloc] or [eventfd] fails, NULL is returned and nothing has changed. An
    auto-reset event is refused (NULL), but its memory is never given back. *)
Theorem event_create_spec k s a efd init :
  valid_handle a → objs k !! a = None → files k !! efd = None →
  (0 <= efd → ∃ k1, CreateEventW a efd true init (World k s) = Ok (a, World k1 s) ∧
     is_event k1 a efd (if init : bool then 1 else 0) ∧ EventCloseHandle a (World k1 s) = Ok (true, World k s)) ∧
  CreateEventW 0 efd true init (World k s) = Ok (0, World k s) ∧
  (efd < 0 → CreateEventW a efd true init (World k s) = Ok (0, World k s)) ∧
  (∃ o, CreateEventW a efd false init (World k s) = Ok (0, World (set_obj a o k) s)).
Proof.
  intros Hv Ho Hf. pose proof Hv as [Ha _]. split_and!.
  - intros Hefd. rewrite (CreateEventW_body k s a efd init Ha Hefd).
    pose proof (is_event_with a efd 0 k Hv Hefd ltac:(unfold EVENTFD_MAX; lia)) as H0.
    exists (with_event a efd (if init then 1 else 0) k). destruct init.
    + split_and!; [|apply is_event_with; unfold EVENTFD_MAX; done || lia|apply EventCloseHandle_ok; unfold EVENTFD_MAX; done || lia].
      unfold mbind, K_bind. rewrite (SetEvent_ok _ s a efd 0 H0). cbn. unfold with_event. by rewrite set_file_twice.
    + split_and!; [done|done|apply EventCloseHandle_ok; unfold EVENTFD_MAX; done || lia].
  - done.
  - intros Hefd. by apply CreateEventW_failed.
  - eexists. unfold CreateEventW. destruct (Z.eqb_spec a 0); [done|]. reflexivity.
Qed.

Lemma event_create_spec_witness :
  let k := Kernel ∅ ∅ [] ∅ None 1 0 0 0 ∅ in
  objs k !! 16 = None ∧
  (∃ k1, CreateEventW 16 3 true true (World k []) = Ok (16, World k1 []) ∧ files k1 !! 3 = Some (FdEvent 1) ∧
         EventCloseHandle 16 (World k1 []) = Ok (true, World k [])) ∧
  (∃ o, CreateEventW 16 3 false true (World k []) = Ok (0, World (set_obj 16 o k) [])).
Proof.
  set (k := Kernel ∅ ∅ [] ∅ None 1 0 0 0 ∅).
  destruct (event_create_spec k [] 16 3 true) as (H1 & _ & _ & H4); [split; unfold INVALID_HANDLE_VALUE; lia|done|done|].
  split; [done|]. split; [|exact H4].
  destruct (H1 ltac:(lia)) as (k1 & Hc & Hev & Hcl). exists k1. split; [exact Hc|]. split; [apply Hev|exact Hcl].
Defined.
