(* ===== verification/Semaphore.v ===== *)
(** Semaphores on a pipe (src/libuzi/semaphore.c, with WINPR_PIPE_SEMAPHORE). *)

From stdpp Require Import list gmap.
From S2P Require Import Prelude Kernel Handle Wait.

Set Warnings "-clear-no-such-hyp".

(** [while (count > 0) { if (write(fd, "-", 1) != 1) ...; count--; }]: did every
    write succeed? *)
Fixpoint write_tokens (fd : Z) (count : nat) : K bool :=
  match count with
  | O => mret true
  | S count =>
    r ← sys_write fd 1 45;
    if negb (r.1 =? 1) then mret false else write_tokens fd count
  end.

(** [calloc] and [fds] are what [calloc] and [pipe] answer. *)
Definition CreateSemaphoreW (calloc : Z) (fds : Z * Z) (lInitialCount lMaximumCount : Z) : K Z :=
  if calloc =? 0 then mret 0
  else
    modify (set_obj calloc (Object 0 0 (Some SemaphoreOps) (BSemaphore (Semaphore (-1) (-1)))));;
    r ← sys_pipe fds;
    if r <? 0 then free calloc;; mret 0
    else
      modify (set_body calloc (BSemaphore (Semaphore fds.1 fds.2)));;
      ok ← write_tokens fds.2 (Z.to_nat lInitialCount);
      if negb ok then
        sys_close fds.1;; sys_close fds.2;; free calloc;; mret 0
      else
        o ← object_at calloc;
        modify (set_obj calloc (Object HANDLE_TYPE_SEMAPHORE UZI_FD_READ (ops o) (obody o)));;
        mret calloc.

Definition CreateSemaphoreA := CreateSemaphoreW.

Definition ReleaseSemaphore (h lReleaseCount : Z) : K bool :=
  i ← winpr_Handle_GetInfo h;
  match i with
  | None => mret false
  | Some type =>
    if type =? HANDLE_TYPE_SEMAPHORE then
      s ← semaphore_at h;
      if negb (sem_fd0 s =? -1) then
        ok ← write_tokens (sem_fd1 s) (Z.to_nat lReleaseCount);
        mret ok
      else mret true
    else mret false
  end.

Definition SemaphoreCloseHandle (h : Z) : K bool :=
  b ← SemaphoreIsHandled h;
  if negb b then mret false
  else
    s ← semaphore_at h;
    (if negb (sem_fd0 s =? -1) then
      sys_close (sem_fd0 s);;
      modify (set_body h (BSemaphore (Semaphore (-1) (sem_fd1 s))));;
      if negb (sem_fd1 s =? -1) then
        sys_close (sem_fd1 s);;
        modify (set_body h (BSemaphore (Semaphore (-1) (-1))))
      else mret ()
    else mret ());;
    free h;;
    mret true.

(** ** Specification: a semaphore is a counter *)

Definition is_semaphore (k : kernel) (h : Z) (fds : Z * Z) (p : nat) (n : Z) : Prop :=
  valid_handle h ∧ 0 <= fds.1 ∧ 0 <= fds.2 ∧ 0 <= n <= PIPE_CAPACITY ∧
  files k !! fds.1 = Some (FdPipeR p) ∧ files k !! fds.2 = Some (FdPipeW p) ∧ pipes k !! p = Some n ∧
  objs k !! h = Some (Object HANDLE_TYPE_SEMAPHORE UZI_FD_READ (Some SemaphoreOps) (BSemaphore (Semaphore fds.1 fds.2))).

Inductive semop := SRelease (c : Z) | STryWait.

Definition run_semop (h : Z) (o : semop) : K bool :=
  match o with
  | SRelease c => ReleaseSemaphore h c
  | STryWait => rc ← WaitForSingleObject h 0; mret (rc =? WAIT_OBJECT_0)
  end.

Fixpoint run_semops (h : Z) (l : list semop) : K (list bool) :=
  match l with
  | [] => mret []
  | o :: l => b ← run_semop h o; bs ← run_semops h l; mret (b :: bs)
  end.

(** A counter: releasing a count that is not positive adds nothing. *)
Definition counter_op (n : Z) (o : semop) : bool * Z :=
  match o with
  | SRelease c => (true, n + Z.max c 0)
  | STryWait => if 0 <? n then (true, n - 1) else (false, n)
  end.

Fixpoint counter_ops (n : Z) (l : list semop) : list bool * Z :=
  match l with
  | [] => ([], n)
  | o :: l => let '(b, m) := counter_op n o in let '(bs, f) := counter_ops m l in (b :: bs, f)
  end.

(** All that is ever released on top of the initial count. *)
Definition released (l : list semop) : Z :=
  foldr (λ o z, match o with SRelease c => Z.max c 0 | STryWait => 0 end + z) 0 l.

(** ** Lemmas *)

Lemma exists_file k fd f : files k !! fd = Some f → bool_decide (map_Exists (λ _ g, g = f) (files k)) = true.
Proof. intros H. apply bool_decide_eq_true. by exists fd, f. Qed.

Lemma is_semaphore_waitable k h fds p n : is_semaphore k h fds p n → waitable k h (Pollfd fds.1 POLLIN, RPipe p).
Proof.
  intros (Hv & H0 & H1 & Hn & Hr & Hw & Hp & Ho). apply (waitable_semaphore k h (Semaphore fds.1 fds.2) p Hv Ho H0 Hr).
  by eapply exists_file.
Qed.

Lemma is_semaphore_sig k h fds p n : is_semaphore k h fds p n → sig k (Pollfd fds.1 POLLIN) = (0 <? n).
Proof.
  intros (Hv & H0 & H1 & Hn & Hr & Hw & Hp & Ho). rewrite (sig_semaphore k fds.1 p H0 Hr) by (by eapply exists_file).
  unfold pipe_count. by rewrite Hp.
Qed.

Lemma is_semaphore_add k h fds p n m : is_semaphore k h fds p n → 0 <= m + n <= PIPE_CAPACITY →
  is_semaphore (pipe_add p m k) h fds p (m + n).
Proof.
  intros (Hv & H0 & H1 & Hn & Hr & Hw & Hp & Ho) Hm. split_and!; try done; try lia. cbn. by rewrite list_lookup_alter_eq, Hp.
Qed.

Lemma pipe_add_zero p k : pipe_add p 0 k = k.
Proof. destruct k. unfold pipe_add, set_pipes. cbn. f_equal. apply list_alter_id. done. Qed.

Lemma pipe_add_add p m n k : pipe_add p m (pipe_add p n k) = pipe_add p (m + n) k.
Proof.
  destruct k. unfold pipe_add, set_pipes. cbn. f_equal. apply list_eq. intros i.
  destruct (decide (p = i)) as [->|]; [|by rewrite !list_lookup_alter_ne]. rewrite !list_lookup_alter_eq.
  destruct (_ !! i); [|done]. cbn. f_equal. lia.
Qed.

(** Writing one token, and many. *)
Lemma write_token k s fds p n : files k !! fds.1 = Some (FdPipeR p) → files k !! fds.2 = Some (FdPipeW p) →
  pipes k !! p = Some n → n < PIPE_CAPACITY →
  sys_write fds.2 1 45 (World k s) = Ok ((1, 0), World (pipe_add p 1 k) s).
Proof.
  intros Hr Hw Hp Hn. unfold sys_write. rewrite (K_bind_ok (gets _) _ _ (Some (FdPipeW p)) (World k s)) by (unfold gets; cbn; by rewrite Hw).
  rewrite (K_bind_ok (awaitK _ _ _ _) _ _ (Woken 1) (World k s)); [done|]. apply await_now.
  unfold has_reader. rewrite (exists_file k fds.1) by done. unfold pipe_count. rewrite Hp. cbn [default from_option id].
  by rewrite (proj2 (Z.leb_le (n + 1) PIPE_CAPACITY)) by lia.
Qed.

Lemma write_tokens_ok s fds p c : ∀ k n, files k !! fds.1 = Some (FdPipeR p) → files k !! fds.2 = Some (FdPipeW p) →
  pipes k !! p = Some n → n + Z.of_nat c <= PIPE_CAPACITY →
  write_tokens fds.2 c (World k s) = Ok (true, World (pipe_add p (Z.of_nat c) k) s).
Proof.
  induction c as [|c IH]; intros k n Hr Hw Hp Hn; cbn [write_tokens]; [by rewrite pipe_add_zero|].
  kstep (write_token k s fds p n Hr Hw Hp ltac:(lia)). cbn [fst Z.eqb Pos.eqb negb].
  rewrite (IH (pipe_add p 1 k) (1 + n)); [|done|done| |lia].
  - rewrite pipe_add_add. by replace (Z.of_nat c + 1) with (Z.of_nat (S c)) by lia.
  - cbn. by rewrite list_lookup_alter_eq, Hp.
Qed.

(** With the pipe full and nobody to read it, the write does not return. *)
Lemma write_tokens_blocks fds p c : ∀ k n, files k !! fds.1 = Some (FdPipeR p) → files k !! fds.2 = Some (FdPipeW p) →
  pipes k !! p = Some n → n <= PIPE_CAPACITY → PIPE_CAPACITY < n + Z.of_nat c →
  write_tokens fds.2 c (World k []) = NoFuel.
Proof.
  induction c as [|c IH]; intros k n Hr Hw Hp Hle Hn; [lia|]. cbn [write_tokens].
  destruct (decide (n < PIPE_CAPACITY)) as [Hlt|Hge].
  - kstep (write_token k [] fds p n Hr Hw Hp Hlt). cbn [fst Z.eqb Pos.eqb negb].
    apply (IH (pipe_add p 1 k) (1 + n)); [done|done| |lia|lia]. cbn. by rewrite list_lookup_alter_eq, Hp.
  - unfold sys_write, mbind, K_bind, gets, awaitK, await. cbn [kern script]. rewrite Hw. cbn [kern script].
    unfold has_reader. rewrite (exists_file k fds.1) by done. unfold pipe_count. rewrite Hp. cbn [default from_option id].
    by rewrite (proj2 (Z.leb_gt (n + 1) PIPE_CAPACITY)) by lia.
Qed.

Lemma release_eq k s h fds p n c : is_semaphore k h fds p n →
  ReleaseSemaphore h c (World k s) = write_tokens fds.2 (Z.to_nat c) (World k s).
Proof.
  intros (Hv & H0 & H1 & Hn & Hr & Hw & Hp & Ho). unfold ReleaseSemaphore. kstep (info_ok k s h _ Hv Ho). cbn [Type_]. rewrite Z.eqb_refl.
  unfold semaphore_at. rewrite (K_bind_ok (o ← object_at h; _) _ _ (Semaphore fds.1 fds.2) (World k s)) by (by rewrite (bind_object _ _ _ _ _ Ho)).
  cbn [sem_fd0 sem_fd1]. destruct (Z.eqb_spec fds.1 (-1)); [lia|]. cbn [negb]. unfold mbind, K_bind.
  by destruct (write_tokens _ _ _) as [[b w]| |].
Qed.

Lemma trywait_ok k s h fds p n : is_semaphore k h fds p n →
  WaitForSingleObject h 0 (World k s) =
  if 0 <? n then Ok (WAIT_OBJECT_0, World (pipe_add p (-1) k) s) else Ok (WAIT_TIMEOUT, World k s).
Proof.
  intros H. pose proof (is_semaphore_waitable _ _ _ _ _ H) as Hw. rewrite (wait_single_eq (World k s) h _ 0 Hw).
  destruct (poll_one k h _ Hw) as [He Hc]. cbn [fst] in *. rewrite (is_semaphore_sig k h fds p n H) in *.
  destruct (0 <? n) eqn:En.
  - rewrite (retry_poll_ready _ _ _ (map (revents k) [Pollfd fds.1 POLLIN])) by (unfold poll_ready; cbn [kern]; by rewrite He).
    rewrite Hc by done. cbn -[map]. apply (cleanup_ok k s h _ Hw). cbn [fst]. by rewrite (is_semaphore_sig k h fds p n H).
  - rewrite retry_poll_zero; [done|]. unfold poll_ready. cbn [kern]. by rewrite He.
Qed.

Lemma run_semop_ok k s h fds p n o : is_semaphore k h fds p n → n + released [o] <= PIPE_CAPACITY →
  run_semop h o (World k s) = Ok ((counter_op n o).1, World (pipe_add p ((counter_op n o).2 - n) k) s) ∧
  0 <= (counter_op n o).2 <= PIPE_CAPACITY.
Proof.
  intros H Hb. pose proof H as (Hv & H0 & H1 & Hn & Hr & Hw & Hp & Ho). destruct o as [c|]; cbn in Hb; cbn [run_semop counter_op].
  - rewrite (release_eq k s h fds p n c H), (write_tokens_ok s fds p (Z.to_nat c) k n Hr Hw Hp) by lia.
    cbn [fst snd]. split; [|lia]. by replace (n + Z.max c 0 - n) with (Z.of_nat (Z.to_nat c)) by lia.
  - unfold mbind, K_bind. rewrite (trywait_ok k s h fds p n H). destruct (Z.ltb_spec 0 n); cbn [fst snd].
    + split; [|lia]. by replace (n - 1 - n) with (-1) by lia.
    + split; [|lia]. rewrite Z.sub_diag, pipe_add_zero. done.
Qed.

Lemma released_nonneg l : 0 <= released l.
Proof. unfold released. induction l as [|[c|] l IH]; cbn; lia. Qed.

(** ** Theorems *)

(** C33: a semaphore is a counter. While the releases fit into the pipe (65536),
    any sequence of ReleaseSemaphore and non-blocking waits answers what a
    counter answers, and only the bytes in the semaphore's pipe change: a
    release adds its count (none when it is not positive) and succeeds, whatever
    the maximum given at creation; a wait takes one exactly when one is there. *)
Theorem semaphore_refines_counter l k s h fds p n :
  is_semaphore k h fds p n → n + released l <= PIPE_CAPACITY →
  ∃ m, run_semops h l (World k s) = Ok ((counter_ops n l).1, World (pipe_add p m k) s) ∧
       m + n = (counter_ops n l).2 ∧ is_semaphore (pipe_add p m k) h fds p (m + n).
Proof.
  revert k n. induction l as [|o l IH]; intros k n H Hl; cbn [run_semops].
  { exists 0. rewrite pipe_add_zero. by split_and!. }
  pose proof (released_nonneg l) as Hnn. pose proof (released_nonneg [o]) as Hno.
  assert (Hro : released (o :: l) = released [o] + released l) by (unfold released; cbn [foldr]; lia).
  destruct (run_semop_ok k s h fds p n o H ltac:(lia)) as [Ho Hm]. kstep Ho.
  set (m := (counter_op n o).2) in *. pose proof (is_semaphore_add k h fds p n (m - n) H ltac:(lia)) as H'.
  replace (m - n + n) with m in H' by lia.
  assert (Hle : m <= n + released [o]) by (unfold m, released; destruct o; cbn [counter_op foldr snd]; [lia|]; destruct (0 <? n); cbn [snd]; lia).
  destruct (IH _ m H' ltac:(lia)) as (m' & Hrun & Heq & Hs). exists (m' + (m - n)). kstep Hrun.
  rewrite pipe_add_add in *. replace (m' + (m - n) + n) with (m' + m) by lia.
  assert (Hx : counter_ops n (o :: l) = ((counter_op n o).1 :: (counter_ops m l).1, (counter_ops m l).2)).
  { unfold m. cbn [counter_ops]. destruct (counter_op n o) as [b q]. cbn [fst snd]. by destruct (counter_ops q l). }
  rewrite Hx. by split_and!.
Qed.

Definition sem_demo : kernel :=
  Kernel {[ 32 := Object HANDLE_TYPE_SEMAPHORE UZI_FD_READ (Some SemaphoreOps) (BSemaphore (Semaphore 4 5)) ]}
    {[ 4 := FdPipeR 0; 5 := FdPipeW 0 ]} [1] ∅ None 1 0 0 0 ∅.

Lemma sem_demo_ok : is_semaphore sem_demo 32 (4, 5) 0 1.
Proof. unfold is_semaphore, valid_handle, INVALID_HANDLE_VALUE, PIPE_CAPACITY. split_and!; first [reflexivity|cbn; lia]. Qed.

Lemma semaphore_refines_counter_witness :
  is_semaphore sem_demo 32 (4, 5) 0 1 ∧
  ∃ m, run_semops 32 [STryWait; STryWait; SRelease 2; STryWait] (World sem_demo []) =
         Ok ([true; false; true; true], World (pipe_add 0 m sem_demo) []) ∧ m + 1 = 1.
Proof.
  pose proof sem_demo_ok as H. split; [exact H|].
  destruct (semaphore_refines_counter [STryWait; STryWait; SRelease 2; STryWait] sem_demo [] 32 (4, 5) 0 1 H ltac:(by vm_compute)) as (m & Hr & Hm & _).
  exists m. split; [exact Hr|exact Hm].
Defined.

(** *** Creation and closing *)

(** The kernel with a new pipe and a new semaphore on it. *)
Definition with_semaphore (a : Z) (fds : Z * Z) (n : Z) (k : kernel) : kernel :=
  set_obj a (Object HANDLE_TYPE_SEMAPHORE UZI_FD_READ (Some SemaphoreOps) (BSemaphore (Semaphore fds.1 fds.2)))
    (set_pipes (pipes k ++ [n]) (set_file fds.2 (FdPipeW (length (pipes k))) (set_file fds.1 (FdPipeR (length (pipes k))) k))).

Lemma is_semaphore_with a fds n k : valid_handle a → 0 <= fds.1 → 0 <= fds.2 → fds.1 ≠ fds.2 → 0 <= n <= PIPE_CAPACITY →
  is_semaphore (with_semaphore a fds n k) a fds (length (pipes k)) n.
Proof.
  intros Hv H0 H1 Hne Hn. split_and!; try done; try lia; cbn.
  - by rewrite lookup_insert_ne, lookup_insert_eq by done.
  - by rewrite lookup_insert_eq.
  - by apply list_lookup_middle.
  - by rewrite lookup_insert_eq.
Qed.

(** The state in which the initial tokens are written. *)
Definition half_semaphore (a : Z) (fds : Z * Z) (n : Z) (k : kernel) : kernel :=
  set_obj a (Object 0 0 (Some SemaphoreOps) (BSemaphore (Semaphore fds.1 fds.2)))
    (set_pipes (pipes k ++ [n]) (set_file fds.2 (FdPipeW (length (pipes k))) (set_file fds.1 (FdPipeR (length (pipes k))) k))).

Lemma CreateSemaphoreW_body k s a fds init max : a ≠ 0 → 0 <= fds.1 → 0 <= fds.2 →
  CreateSemaphoreW a fds init max (World k s) =
  (ok ← write_tokens fds.2 (Z.to_nat init);
   if negb ok then sys_close fds.1;; sys_close fds.2;; free a;; mret 0
   else o ← object_at a; modify (set_obj a (Object HANDLE_TYPE_SEMAPHORE UZI_FD_READ (ops o) (obody o)));; mret a)
    (World (half_semaphore a fds 0 k) s).
Proof.
  intros Ha H0 H1. unfold CreateSemaphoreW, sys_pipe. destruct (Z.eqb_spec a 0); [done|].
  rewrite (proj2 (Z.ltb_ge fds.1 0)), (proj2 (Z.ltb_ge fds.2 0)) by lia. destruct k.
  unfold half_semaphore, set_file, set_obj, modify, mbind, K_bind. cbn. unfold set_body, set_objs, set_pipes. cbn.
  by rewrite !alter_insert_eq.
Qed.

Lemma half_semaphore_files a fds n k : fds.1 ≠ fds.2 →
  files (half_semaphore a fds n k) !! fds.1 = Some (FdPipeR (length (pipes k))) ∧
  files (half_semaphore a fds n k) !! fds.2 = Some (FdPipeW (length (pipes k))) ∧
  pipes (half_semaphore a fds n k) !! length (pipes k) = Some n.
Proof.
  intros Hne. split_and!; cbn; [by rewrite lookup_insert_ne, lookup_insert_eq by done|by rewrite lookup_insert_eq|by apply list_lookup_middle].
Qed.

Lemma pipe_add_half a fds n m k : pipe_add (length (pipes k)) m (half_semaphore a fds n k) = half_semaphore a fds (m + n) k.
Proof.
  destruct k. unfold pipe_add, half_semaphore, set_pipes, set_obj, set_objs. cbn. f_equal.
  apply list_eq. intros i. destruct (decide (i = length pipes)) as [->|Hne].
  - rewrite list_lookup_alter_eq, !list_lookup_middle by done. done.
  - rewrite list_lookup_alter_ne by done. destruct (decide (i < length pipes)%nat).
    + by rewrite !lookup_app_l by lia.
    + rewrite !lookup_ge_None_2; rewrite ?length_app; cbn; done || lia.
Qed.

Lemma CreateSemaphoreW_ok k s a fds init max : a ≠ 0 → 0 <= fds.1 → 0 <= fds.2 → fds.1 ≠ fds.2 → init <= PIPE_CAPACITY →
  CreateSemaphoreW a fds init max (World k s) = Ok (a, World (with_semaphore a fds (Z.max init 0) k) s).
Proof.
  intros Ha H0 H1 Hne Hi. rewrite CreateSemaphoreW_body by done.
  destruct (half_semaphore_files a fds 0 k Hne) as (Hr & Hw & Hp).
  kstep (write_tokens_ok s fds _ (Z.to_nat init) (half_semaphore a fds 0 k) 0 Hr Hw Hp ltac:(unfold PIPE_CAPACITY in *; lia)).
  cbn [negb]. rewrite pipe_add_half, Z.add_0_r. replace (Z.of_nat (Z.to_nat init)) with (Z.max init 0) by lia.
  rewrite (bind_object _ _ _ (Object 0 0 (Some SemaphoreOps) (BSemaphore (Semaphore fds.1 fds.2)))) by (cbn; by rewrite lookup_insert_eq).
  unfold mbind, K_bind, modify. cbn. unfold half_semaphore, with_semaphore, set_obj, set_objs. cbn. by rewrite insert_insert_eq.
Qed.

Lemma SemaphoreCloseHandle_ok k s a fds n : valid_handle a → 0 <= fds.1 → 0 <= fds.2 → fds.1 ≠ fds.2 → 0 <= n <= PIPE_CAPACITY →
  objs k !! a = None → files k !! fds.1 = None → files k !! fds.2 = None →
  SemaphoreCloseHandle a (World (with_semaphore a fds n k) s) = Ok (true, World (set_pipes (pipes k ++ [n]) k) s).
Proof.
  intros Hv H0 H1 Hne Hn Ho Hf1 Hf2. pose proof (is_semaphore_with a fds n k Hv H0 H1 Hne Hn) as (_ & _ & _ & _ & _ & _ & _ & Hob).
  unfold SemaphoreCloseHandle. kstep (is_handled_ok _ s a _ Hv Hob). cbn [negb]. unfold semaphore_at.
  rewrite (K_bind_ok (o ← object_at a; _) _ _ (Semaphore fds.1 fds.2) (World (with_semaphore a fds n k) s))
    by (by rewrite (bind_object _ _ _ _ _ Hob)).
  cbn [sem_fd0 sem_fd1]. destruct (Z.eqb_spec fds.1 (-1)); [lia|]. destruct (Z.eqb_spec fds.2 (-1)); [lia|]. cbn [negb].
  unfold sys_close, free. krun. unfold modify, mret, K_ret. do 3 f_equal. kernel_eq.
  - by rewrite !delete_alter_eq, delete_insert_id.
  - rewrite (delete_insert_ne _ fds.1 fds.2) by done. rewrite !delete_insert_eq. rewrite (delete_id _ fds.1) by done.
    by rewrite delete_id.
Qed.

(** creation and its limits. A semaphore starts with its initial count (0
    when negative), whatever the maximum; closing it gives back its memory and
    both descriptors. When [calloc] or [pipe] fails, NULL is returned and
    nothing has changed. The count cannot exceed the pipe: creating with more
    than 65536, or releasing beyond it with no thread waiting, never returns. *)
Theorem semaphore_create_spec k s a fds init max :
  valid_handle a → objs k !! a = None → files k !! fds.1 = None → files k !! fds.2 = None → fds.1 ≠ fds.2 →
  (0 <= fds.1 → 0 <= fds.2 → init <= PIPE_CAPACITY → ∃ k1,
     CreateSemaphoreW a fds init max (World k s) = Ok (a, World k1 s) ∧
     is_semaphore k1 a fds (length (pipes k)) (Z.max init 0) ∧
     ∃ ps, SemaphoreCloseHandle a (World k1 s) = Ok (true, World (set_pipes ps k) s)) ∧
  CreateSemaphoreW 0 fds init max (World k s) = Ok (0, World k s) ∧
  (fds.1 < 0 → CreateSemaphoreW a fds init max (World k s) = Ok (0, World k s)) ∧
  (0 <= fds.1 → 0 <= fds.2 → PIPE_CAPACITY < init → CreateSemaphoreW a fds init max (World k []) = NoFuel) ∧
  (∀ k1 h p n c, is_semaphore k1 h fds p n → PIPE_CAPACITY < n + c → ReleaseSemaphore h c (World k1 []) = NoFuel).
Proof.
  intros Hv Ho Hf1 Hf2 Hne. pose proof Hv as [Ha _]. split_and!.
  - intros H0 H1 Hi. exists (with_semaphore a fds (Z.max init 0) k).
    split; [by apply CreateSemaphoreW_ok|]. split; [apply is_semaphore_with; unfold PIPE_CAPACITY in *; done || lia|].
    eexists. apply SemaphoreCloseHandle_ok; unfold PIPE_CAPACITY in *; done || lia.
  - done.
  - intros Hneg. unfold CreateSemaphoreW, sys_pipe. destruct (Z.eqb_spec a 0); [done|]. destruct (Z.ltb_spec fds.1 0); [|lia].
    destruct k. unfold free, modify, mbind, K_bind. cbn in *. unfold set_objs, set_obj. cbn. by rewrite delete_insert_id.
  - intros H0 H1 Hi. rewrite CreateSemaphoreW_body by done. destruct (half_semaphore_files a fds 0 k Hne) as (Hr & Hw & Hp).
    unfold mbind, K_bind at 1. rewrite (write_tokens_blocks fds _ (Z.to_nat init) _ 0 Hr Hw Hp); unfold PIPE_CAPACITY in *; done || lia.
  - intros k1 h p n c H Hc. rewrite (release_eq k1 [] h fds p n c H). pose proof H as (_ & _ & _ & Hn & Hr & Hw & Hp & _).
    apply (write_tokens_blocks fds p (Z.to_nat c) k1 n Hr Hw Hp); lia.
Qed.

Lemma semaphore_create_spec_witness :
  let k := Kernel ∅ ∅ [] ∅ None 1 0 0 0 ∅ in
  objs k !! 32 = None ∧
  (∃ k1, CreateSemaphoreW 32 (4, 5) 3 1 (World k []) = Ok (32, World k1 []) ∧ is_semaphore k1 32 (4, 5) 0 3 ∧
    ∃ ps, SemaphoreCloseHandle 32 (World k1 []) = Ok (true, World (set_pipes ps k) [])) ∧
  ReleaseSemaphore 32 65536 (World sem_demo []) = NoFuel.
Proof.
  set (k := Kernel ∅ ∅ [] ∅ None 1 0 0 0 ∅).
  destruct (semaphore_create_spec k [] 32 (4, 5) 3 1) as (H1 & _ & _ & _ & H5);
    [split; unfold INVALID_HANDLE_VALUE; lia|done|done|done|done|].
  split; [done|]. split; [exact (H1 ltac:(cbn; lia) ltac:(cbn; lia) ltac:(unfold PIPE_CAPACITY; lia))|].
  apply (H5 sem_demo 32 0%nat 1 65536); [exact sem_demo_ok|unfold PIPE_CAPACITY; lia].
Defined.
