(* ===== verification/EventPipe.v ===== *)
(** Events on a pipe: src/libuzi/event.c where the system has no eventfd. The
    event is set when its pipe holds a byte. *)

From stdpp Require Import list gmap.
From S2P Require Import Prelude Kernel Handle Wait Event Semaphore.

Set Warnings "-clear-no-such-hyp".

(** A byte is written unless the event is set. *)
Definition SetEvent (h : Z) : K bool :=
  i ← winpr_Handle_GetInfo h;
  match i with
  | None => mret false
  | Some _ =>
    e ← event_at h;
    rc ← WaitForSingleObject h 0;
    if negb (rc =? WAIT_OBJECT_0) then
      r ← sys_write (ev_fd1 e) 1 45;
      mret (r.1 =? 1)
    else mret true
  end.

(** Bytes are read until the event is not set; [status] is the state of the
    loop. *)
Definition reset_body (h : Z) (status : bool) : K (bool + bool) :=
  if negb status then mret (inr status)
  else
    rc ← WaitForSingleObject h 0;
    if negb (rc =? WAIT_OBJECT_0) then mret (inr status)
    else
      e ← event_at h;
      r ← retry (r ← sys_read (ev_fd0 e) 1; mret (r.1, r.2, ()));
      mret (inl (if r.1 <? 0 then false else status)).

Definition ResetEvent (fuel : nat) (h : Z) : K bool :=
  i ← winpr_Handle_GetInfo h;
  match i with
  | None => mret false
  | Some _ => kloop fuel (reset_body h) true
  end.

(** [calloc] and [fds] are what [calloc] and [pipe] answer. *)
Definition CreateEventW (calloc : Z) (fds : Z * Z) (bManualReset bInitialState : bool) : K Z :=
  if calloc =? 0 then mret 0
  else
    modify (set_obj calloc (Object HANDLE_TYPE_EVENT FD_READ (Some EventOps) (BEvent (Event 0 0 false bManualReset))));;
    if negb bManualReset then mret 0
    else
      modify (set_body calloc (BEvent (Event (-1) (-1) false bManualReset)));;
      r ← sys_pipe fds;
      if r <? 0 then free calloc;; mret 0
      else
        modify (set_body calloc (BEvent (Event fds.1 fds.2 false bManualReset)));;
        (if bInitialState then SetEvent calloc;; mret () else mret ());;
        mret calloc.

(** ** Specification *)

(** [is_pipe_event k h fds p n]: [h] is an event on the pipe [p], with [n] bytes
    in it. It is set when [n] is positive. *)
Definition is_pipe_event (k : kernel) (h : Z) (fds : Z * Z) (p : nat) (n : Z) : Prop :=
  valid_handle h ∧ 0 <= fds.1 ∧ 0 <= n <= PIPE_CAPACITY ∧
  files k !! fds.1 = Some (FdPipeR p) ∧ files k !! fds.2 = Some (FdPipeW p) ∧ pipes k !! p = Some n ∧
  objs k !! h = Some (Object HANDLE_TYPE_EVENT FD_READ (Some EventOps) (BEvent (Event fds.1 fds.2 false true))).

(** The operations in sequence, with their answers; [bytes]: how many bytes a
    reset may find. *)
Fixpoint run_evops (bytes : nat) (h : Z) (l : list evop) : K (list bool) :=
  match l with
  | [] => mret []
  | o :: l =>
    b ← match o with
        | OSet => SetEvent h
        | OReset => ResetEvent (S (S bytes)) h
        | OIsSet => rc ← WaitForSingleObject h 0; mret (rc =? WAIT_OBJECT_0)
        end;
    bs ← run_evops bytes h l; mret (b :: bs)
  end.

(** ** Lemmas *)

Section PipeEvent.
Context (h : Z) (fds : Z * Z) (p : nat).

Local Abbreviation is_ev := (λ k n, is_pipe_event k h fds p n).

Lemma is_pipe_event_add k n m : is_ev k n → 0 <= m + n <= PIPE_CAPACITY → is_ev (pipe_add p m k) (m + n).
Proof.
  intros (Hv & H0 & Hn & Hr & Hw & Hp & Ho) Hm. split_and!; try done; try lia. cbn. by rewrite list_lookup_alter_eq, Hp.
Qed.

Lemma pipe_event_at k s n : is_ev k n → event_at h (World k s) = Ok (Event fds.1 fds.2 false true, World k s).
Proof. intros (Hv & H0 & Hn & Hr & Hw & Hp & Ho). unfold event_at. by rewrite (bind_object _ _ _ _ _ Ho). Qed.

(** A test takes nothing. *)
Lemma pipe_is_set k s n : is_ev k n →
  WaitForSingleObject h 0 (World k s) = Ok (if 0 <? n then WAIT_OBJECT_0 else WAIT_TIMEOUT, World k s).
Proof.
  intros H. pose proof H as (Hv & H0 & Hn & Hr & Hw & Hp & Ho).
  assert (Hf : winpr_Handle_getFd h (World k s) = Ok (fds.1, World k s)).
  { unfold winpr_Handle_getFd. kstep (info_ok k s h _ Hv Ho). rewrite (bind_object _ _ _ _ _ Ho). cbn [ops ops_table GetFd].
    unfold EventGetFd. kstep (is_handled_ok k s h _ Hv Ho). by kstep (pipe_event_at k s n H). }
  rewrite (wait_fd_eq k s h _ fds.1 0 Hv Ho ltac:(done) Hf H0). cbn [Mode]. change (handle_mode_to_pollevent FD_READ) with POLLIN.
  assert (Hrev : map (revents k) [Pollfd fds.1 POLLIN] = [flag (0 <? n) POLLIN]).
  { unfold revents, poll_state. cbn [map pfd events]. rewrite Hr. destruct (Z.ltb_spec fds.1 0); [lia|].
    unfold has_writer. rewrite (exists_file k fds.2) by done. unfold pipe_count. rewrite Hp. cbn [default from_option id]. by destruct (0 <? n). }
  destruct (0 <? n) eqn:En.
  - rewrite (retry_poll_ready _ _ _ [POLLIN]) by (unfold poll_ready; cbn [kern]; by rewrite Hrev). cbn -[winpr_Handle_cleanup].
    unfold winpr_Handle_cleanup. kstep (info_ok k s h _ Hv Ho). by rewrite (bind_object _ _ _ _ _ Ho).
  - rewrite retry_poll_zero; [done|]. unfold poll_ready. cbn [kern]. by rewrite Hrev.
Qed.

Lemma pipe_set k s n : is_ev k n → SetEvent h (World k s) = Ok (true, World (if 0 <? n then k else pipe_add p 1 k) s).
Proof.
  intros H. pose proof H as (Hv & H0 & Hn & Hr & Hw & Hp & Ho). unfold SetEvent. kstep (info_ok k s h _ Hv Ho).
  kstep (pipe_event_at k s n H). kstep (pipe_is_set k s n H). destruct (Z.ltb_spec 0 n) as [|Hn0]; [done|]. cbn [negb Z.eqb WAIT_TIMEOUT WAIT_OBJECT_0].
  by kstep (write_token k s fds p n Hr Hw Hp ltac:(unfold PIPE_CAPACITY; lia)).
Qed.

Lemma pipe_read k s n : is_ev k n → 0 < n → sys_read fds.1 1 (World k s) = Ok ((1, 0), World (pipe_add p (-1) k) s).
Proof.
  intros (Hv & H0 & Hn & Hr & Hw & Hp & Ho) Hpos. unfold sys_read.
  rewrite (K_bind_ok (gets _) _ _ (Some (FdPipeR p)) (World k s)) by (unfold gets; cbn; by rewrite Hr).
  rewrite (K_bind_ok (awaitK _ _ _ _) _ _ (Woken 1) (World k s)); [done|]. apply await_now.
  unfold pipe_count. rewrite Hp. cbn [default from_option id]. rewrite (proj2 (Z.ltb_lt 0 n)) by done. by replace (Z.min 1 n) with 1 by lia.
Qed.

(** With no byte there, and nobody to write one, the read does not return: a
    reset whose byte is taken by another one after its test is stuck. *)
Lemma pipe_read_blocks k : is_ev k 0 → sys_read fds.1 1 (World k []) = NoFuel.
Proof.
  intros (Hv & H0 & Hn & Hr & Hw & Hp & Ho). unfold sys_read, mbind, K_bind, gets, awaitK, await. cbn [kern script]. rewrite Hr. cbn [kern script].
  unfold pipe_count. rewrite Hp. cbn [default from_option id]. change (0 <? 0) with false. cbv iota.
  unfold has_writer. by rewrite (exists_file k fds.2) by done.
Qed.

Lemma pipe_reset_body k s n : is_ev k n →
  reset_body h true (World k s) = Ok (if 0 <? n then inl true else inr true, World (if 0 <? n then pipe_add p (-1) k else k) s).
Proof.
  intros H. unfold reset_body. cbn [negb]. kstep (pipe_is_set k s n H). destruct (Z.ltb_spec 0 n) as [Hpos|]; [|done].
  cbn [negb Z.eqb WAIT_OBJECT_0]. kstep (pipe_event_at k s n H). cbn [ev_fd0].
  assert (Hc : (r ← sys_read fds.1 1; mret (r.1, r.2, ())) (World k s) = Ok ((1, 0, ()), World (pipe_add p (-1) k) s))
    by (by kstep (pipe_read k s n H Hpos)).
  by kstep (retry_once _ _ _ _ _ _ Hc ltac:(by left)).
Qed.

(** One round for each byte, and one more. *)
Lemma pipe_reset_loop s fuel : ∀ k n, is_ev k n → n <= Z.of_nat fuel →
  kloop (S fuel) (reset_body h) true (World k s) = Ok (true, World (pipe_add p (- n) k) s).
Proof.
  induction fuel as [|fuel IH]; intros k n H Hn; rewrite kloop_step, (pipe_reset_body k s n H); pose proof H as (_ & _ & Hr & _).
  - destruct (Z.ltb_spec 0 n); [lia|]. assert (n = 0) as -> by lia. by rewrite pipe_add_zero.
  - destruct (Z.ltb_spec 0 n).
    + rewrite (IH (pipe_add p (-1) k) (-1 + n)); [|by apply is_pipe_event_add; [|lia]|lia].
      rewrite pipe_add_add. by replace (- (-1 + n) + -1) with (- n) by lia.
    + assert (n = 0) as -> by lia. by rewrite pipe_add_zero.
Qed.

Lemma pipe_reset k s n fuel : is_ev k n → n <= Z.of_nat fuel →
  ResetEvent (S fuel) h (World k s) = Ok (true, World (pipe_add p (- n) k) s).
Proof.
  intros H Hn. pose proof H as (Hv & _ & _ & _ & _ & _ & Ho). unfold ResetEvent. kstep (info_ok k s h _ Hv Ho). by apply pipe_reset_loop.
Qed.

Definition run_evop (bytes : nat) (o : evop) : K bool :=
  match o with
  | OSet => SetEvent h
  | OReset => ResetEvent (S (S bytes)) h
  | OIsSet => rc ← WaitForSingleObject h 0; mret (rc =? WAIT_OBJECT_0)
  end.

Lemma pipe_evop k s n bytes o : is_ev k n → n <= Z.of_nat (S bytes) →
  ∃ m, run_evop bytes o (World k s) = Ok ((evop_flag (0 <? n) o).1, World (pipe_add p m k) s) ∧
       (0 <? m + n) = (evop_flag (0 <? n) o).2 ∧ 0 <= m + n <= Z.max n 1.
Proof.
  intros H Hb. pose proof H as (_ & _ & Hn & _). destruct o; cbn [run_evop evop_flag fst snd].
  - rewrite (pipe_set k s n H). destruct (Z.ltb_spec 0 n).
    + exists 0. rewrite pipe_add_zero. split_and!; [done|by apply Z.ltb_lt; lia|lia|lia].
    + exists 1. split_and!; [done|by apply Z.ltb_lt; lia|lia|lia].
  - exists (- n). rewrite (pipe_reset k s n (S bytes) H Hb). split_and!; [done|by apply Z.ltb_ge; lia|lia|lia].
  - exists 0. rewrite pipe_add_zero. kstep (pipe_is_set k s n H). split_and!; [by destruct (0 <? n)|done|lia|lia].
Qed.

Lemma flag_ops_cons b o l : flag_ops b (o :: l) = ((evop_flag b o).1 :: (flag_ops (evop_flag b o).2 l).1, (flag_ops (evop_flag b o).2 l).2).
Proof. destruct o; cbn [flag_ops evop_flag fst snd]; by destruct (flag_ops _ l). Qed.

Lemma pipe_evops l s bytes : ∀ k n, is_ev k n → n <= Z.of_nat (S bytes) →
  ∃ m, run_evops bytes h l (World k s) = Ok ((flag_ops (0 <? n) l).1, World (pipe_add p m k) s) ∧
       is_ev (pipe_add p m k) (m + n) ∧ (0 <? m + n) = (flag_ops (0 <? n) l).2 ∧ m + n <= Z.max n 1.
Proof.
  induction l as [|o l IH]; intros k n H Hb; cbn [run_evops].
  { exists 0. rewrite pipe_add_zero. split_and!; [done..|lia]. }
  destruct (pipe_evop k s n bytes o H Hb) as (m & Ho & Hf & Hm). pose proof H as (_ & _ & Hn & _).
  change (match o with OSet => _ | OReset => _ | OIsSet => _ end) with (run_evop bytes o). kstep Ho.
  destruct (IH (pipe_add p m k) (m + n)) as (m' & Hrun & Hev & Hfl & Hle);
    [apply is_pipe_event_add; unfold PIPE_CAPACITY in *; [done|lia]|lia|].
  exists (m' + m). kstep Hrun. rewrite pipe_add_add in *. rewrite flag_ops_cons, <- Hf. replace (m' + m + n) with (m' + (m + n)) by lia.
  split_and!; [done..|lia].
Qed.
End PipeEvent.

(** Creation: the event is in the state asked for; when [calloc] or [pipe]
    fails, nothing has changed. *)
Definition with_pipe_event (a : Z) (fds : Z * Z) (n : Z) (k : kernel) : kernel :=
  set_obj a (Object HANDLE_TYPE_EVENT FD_READ (Some EventOps) (BEvent (Event fds.1 fds.2 false true)))
    (set_pipes (pipes k ++ [n]) (set_file fds.2 (FdPipeW (length (pipes k))) (set_file fds.1 (FdPipeR (length (pipes k))) k))).

Lemma is_pipe_event_with a fds n k : valid_handle a → 0 <= fds.1 → fds.1 ≠ fds.2 → 0 <= n <= PIPE_CAPACITY →
  is_pipe_event (with_pipe_event a fds n k) a fds (length (pipes k)) n.
Proof.
  intros Hv H0 Hne Hn. split_and!; try done; try lia; cbn.
  - by rewrite lookup_insert_ne, lookup_insert_eq by done.
  - by rewrite lookup_insert_eq.
  - by apply list_lookup_middle.
  - by rewrite lookup_insert_eq.
Qed.

Lemma pipe_event_created k s a fds init : valid_handle a → objs k !! a = None → fds.1 ≠ fds.2 →
  (0 <= fds.1 → 0 <= fds.2 → ∃ k1, CreateEventW a fds true init (World k s) = Ok (a, World k1 s) ∧
     is_pipe_event k1 a fds (length (pipes k)) (if init : bool then 1 else 0)) ∧
  CreateEventW 0 fds true init (World k s) = Ok (0, World k s) ∧
  (fds.1 < 0 → CreateEventW a fds true init (World k s) = Ok (0, World k s)).
Proof.
  intros Hv Hno Hne. pose proof Hv as [Ha _]. split_and!; [|done|].
  - intros H0 H1. assert (E : CreateEventW a fds true init (World k s) =
      ((if init : bool then SetEvent a;; mret () else mret ());; mret a) (World (with_pipe_event a fds 0 k) s)).
    { unfold CreateEventW, sys_pipe. destruct (Z.eqb_spec a 0); [done|].
      rewrite (proj2 (Z.ltb_ge fds.1 0)), (proj2 (Z.ltb_ge fds.2 0)) by lia. destruct k.
      unfold with_pipe_event, set_file, set_obj, modify, mbind, K_bind. cbn. unfold set_body, set_objs, set_pipes. cbn.
      rewrite !alter_insert_eq. by destruct init. }
    rewrite E. pose proof (is_pipe_event_with a fds 0 k Hv H0 Hne ltac:(unfold PIPE_CAPACITY; lia)) as H. destruct init.
    + eexists. split; [rewrite bind_bind; by kstep (pipe_set a fds _ _ s 0 H)|]. by apply (is_pipe_event_add a fds _ _ 0 1).
    + eexists. split; [reflexivity|done].
  - intros Hneg. unfold CreateEventW, sys_pipe. destruct (Z.eqb_spec a 0); [done|]. destruct (Z.ltb_spec fds.1 0); [|lia].
    destruct k. unfold free, set_obj, modify, mbind, K_bind. cbn in *. unfold set_body, set_objs. cbn.
    by rewrite delete_alter_eq, delete_insert_id.
Qed.

(** ** Theorem *)

(** C36: an event on a pipe is the same flag as one on an eventfd. Whatever
    sequence of SetEvent, ResetEvent and tests is made on it, it answers what a
    boolean answers, however often it is set; so the two builds of the library
    answer alike on events that are set alike. There is never more than one byte
    written to an event that is not set, and a reset takes out all there are, in
    one round each. *)
Theorem pipe_event_refines_flag l k s h fds p n :
  is_pipe_event k h fds p n →
  (∃ m, run_evops (Z.to_nat n) h l (World k s) = Ok ((flag_ops (0 <? n) l).1, World (pipe_add p m k) s) ∧
        is_pipe_event (pipe_add p m k) h fds p (m + n) ∧ (0 <? m + n) = (flag_ops (0 <? n) l).2 ∧ m + n <= Z.max n 1) ∧
  (∀ k1 s1 h1 fd n1, is_event k1 h1 fd n1 → n1 + Z.of_nat (length l) <= EVENTFD_MAX → (0 <? n1) = (0 <? n) →
    ∃ bs w w1, run_evops (Z.to_nat n) h l (World k s) = Ok (bs, w) ∧ Event.run_evops h1 l (World k1 s1) = Ok (bs, w1)).
Proof.
  intros H. pose proof H as (_ & _ & Hn & _). destruct (pipe_evops h fds p l s (Z.to_nat n) k n H ltac:(lia)) as (m & Hrun & Hev & Hfl & Hle).
  split; [by exists m|]. intros k1 s1 h1 fd n1 H1 Hl E. destruct (run_evops_flag l k1 s1 h1 fd n1 H1 Hl) as (m1 & Hr1 & _).
  rewrite E in Hr1. by eexists _, _, _.
Qed.

(** An event on a pipe with three bytes in it. *)
Definition pipe_event_demo : kernel :=
  Kernel {[ 16 := Object HANDLE_TYPE_EVENT FD_READ (Some EventOps) (BEvent (Event 3 4 false true)) ]}
    {[ 3 := FdPipeR 0; 4 := FdPipeW 0 ]} [3] ∅ None 1 0 0 0 ∅.

Lemma pipe_event_refines_flag_witness :
  let l := [OIsSet; OSet; OReset; OIsSet; OSet; OSet; OIsSet] in
  ∃ m w1, run_evops 3 16 l (World pipe_event_demo []) = Ok ([true; true; true; false; true; true; true], World (pipe_add 0 m pipe_event_demo) []) ∧
    m + 3 <= 3 ∧ Event.run_evops 16 l (World (event_demo 1) []) = Ok ([true; true; true; false; true; true; true], w1).
Proof.
  destruct (pipe_event_refines_flag [OIsSet; OSet; OReset; OIsSet; OSet; OSet; OIsSet] pipe_event_demo [] 16 (3, 4) 0 3) as [(m & Hr & _ & _ & Hm) He].
  { unfold is_pipe_event, valid_handle, INVALID_HANDLE_VALUE, PIPE_CAPACITY. split_and!; first [reflexivity|cbn; lia]. }
  destruct (He (event_demo 1) [] 16 3 1) as (bs & w & w1 & H1 & H2);
    [unfold is_event, valid_handle, INVALID_HANDLE_VALUE, EVENTFD_MAX; split_and!; first [reflexivity|lia]|by vm_compute|done|].
  exists m, w1. rewrite Hr in H1. injection H1 as <- <-. split_and!; [exact Hr|exact Hm|exact H2].
Defined.
