(* ===== verification/MutexObj.v ===== *)
(** Mutex objects (src/libuzi/mutex.c). *)

From stdpp Require Import list gmap.
From S2P Require Import Prelude Kernel Handle Wait.

(** The result of [pthread_mutex_destroy] is not looked at. *)
Definition MutexCloseHandle (h : Z) : K bool :=
  b ← MutexIsHandled h;
  if negb b then mret false else mutex_at h;; free h;; mret true.

(** [calloc]: the address answered, 0 on failure. *)
Definition CreateMutexW (calloc : Z) (bInitialOwner : bool) : K Z :=
  if negb (calloc =? 0) then
    let attr := pthread_mutexattr_init in
    let attr := pthread_mutexattr_settype attr PTHREAD_MUTEX_RECURSIVE in
    modify (set_obj calloc (Object HANDLE_TYPE_MUTEX UZI_FD_READ (Some MutexOps) (BMutex (pthread_mutex_init attr))));;
    (if bInitialOwner then mutex_lock calloc None;; mret () else mret ());;
    mret calloc
  else mret 0.

Definition CreateMutexA := CreateMutexW.

Definition ReleaseMutex (h : Z) : K bool :=
  i ← winpr_Handle_GetInfo h;
  match i with
  | None => mret false
  | Some type =>
    if type =? HANDLE_TYPE_MUTEX then
      m ← mutex_at h;
      rc ← mutex_unlock h m;
      if negb (rc =? 0) then mret false else mret true
    else mret false
  end.

(** ** Specification *)

(** [is_mutex k h o]: [h] is a recursive mutex held as [o] says (thread, times). *)
Definition is_mutex (k : kernel) (h : Z) (o : option (Z * Z)) : Prop :=
  valid_handle h ∧ objs k !! h = Some (Object HANDLE_TYPE_MUTEX UZI_FD_READ (Some MutexOps) (BMutex (Mutex PTHREAD_MUTEX_RECURSIVE o))) ∧
  match o with Some (_, c) => 0 < c | None => True end.

(** The holder after the thread [t] acquires, or releases. *)
Definition acquire (t : Z) (o : option (Z * Z)) : option (option (Z * Z)) :=
  match o with
  | None => Some (Some (t, 1))
  | Some (t', c) => if t' =? t then Some (Some (t', c + 1)) else None
  end.

Definition release (t : Z) (o : option (Z * Z)) : option (option (Z * Z)) :=
  match o with
  | Some (t', c) => if t' =? t then Some (if c =? 1 then None else Some (t', c - 1)) else None
  | None => None
  end.

Definition set_holder (h : Z) (o : option (Z * Z)) (k : kernel) : kernel := set_body h (BMutex (Mutex PTHREAD_MUTEX_RECURSIVE o)) k.

(** ** Lemmas *)

Lemma mutex_at_ok k s h o : is_mutex k h o → mutex_at h (World k s) = Ok (Mutex PTHREAD_MUTEX_RECURSIVE o, World k s).
Proof. intros (Hv & Ho & _). unfold mutex_at. by rewrite (bind_object _ _ _ _ _ Ho). Qed.

Lemma is_mutex_set k h o o' : is_mutex k h o → match o' with Some (_, c) => 0 < c | None => True end →
  is_mutex (set_holder h o' k) h o'.
Proof.
  intros (Hv & Ho & _) Hc. split_and!; [apply Hv..| |done]. unfold set_holder, set_body. cbn. by rewrite lookup_alter_eq, Ho.
Qed.

Lemma mutex_free_eq k h o : is_mutex k h o →
  mutex_free h k = Mutex PTHREAD_MUTEX_RECURSIVE <$> acquire (self k) o.
Proof.
  intros (Hv & Ho & _). unfold mutex_free. rewrite Ho. destruct o as [[t c]|]; [|done]. cbn. by destruct (t =? self k).
Qed.

Lemma mutex_lock_now k s h o x dl : is_mutex k h o → acquire (self k) o = Some (Some x) →
  mutex_lock h dl (World k s) = Ok (0, World (set_holder h (Some x) k) s).
Proof.
  intros H Ha. unfold mutex_lock. rewrite (K_bind_ok (awaitK _ _ _ _) _ _ (Woken (Mutex PTHREAD_MUTEX_RECURSIVE (Some x))) (World k s)); [done|].
  apply await_now. by rewrite (mutex_free_eq k h o H), Ha.
Qed.

Lemma acquire_some t o x : acquire t o = Some x → ∃ y, x = Some y.
Proof. destruct o as [[t' c]|]; cbn; [destruct (t' =? t)|]; naive_solver. Qed.

(** The deadline of a timed wait, as [WaitForSingleObject] computes it. *)
Lemma ts_add_ms_ns t ms : 0 <= t → 0 <= ms →
  (ts_add_ms (t / 1000000000, t mod 1000000000) ms).1 * 1000000000 + (ts_add_ms (t / 1000000000, t mod 1000000000) ms).2 =
  t + ms * 1000000.
Proof. intros Ht Hms. unfold ts_add_ms. cbn [fst snd]. lia. Qed.

Lemma wait_mutex_eq k s h o ms : is_mutex k h o →
  WaitForSingleObject h ms (World k s) =
  (if negb (ms =? INFINITE) then
     timeout ← clock_gettime;
     let ts := ts_add_ms (timeout / 1000000000, timeout mod 1000000000) ms in
     status ← mutex_lock h (Some (ts.1 * 1000000000 + ts.2));
     if status =? ETIMEDOUT then mret WAIT_TIMEOUT else mret WAIT_OBJECT_0
   else mutex_lock h None;; mret WAIT_OBJECT_0) (World k s).
Proof.
  intros H. pose proof H as (Hv & Ho & _). unfold WaitForSingleObject. kstep (info_ok k s h _ Hv Ho). cbn [Type_].
  rewrite Z.eqb_refl. kstep (mutex_at_ok k s h o H). done.
Qed.

(** The environment acquires and releases the mutex but leaves it a mutex. *)
Definition leaves_mutex (h : Z) (e : env) : Prop :=
  match e with Act f => ∀ k o, is_mutex k h o → ∃ o', is_mutex (f k) h o' | Signal => True end.

Lemma evolves_mutex h w w' : evolves w w' → (∃ o, is_mutex (kern w) h o) → Forall (leaves_mutex h) (script w) →
  (∃ o, is_mutex (kern w') h o) ∧ Forall (leaves_mutex h) (script w').
Proof.
  induction 1 as [w|f k s w' _ IH|k s w' _ IH|d k w' _ _ IH]; intros Ho Hs; cbn [kern script] in *; [done|..].
  - apply Forall_cons in Hs as [Hf Hs]. apply IH; [|done]. destruct Ho as [o Ho]. by apply (Hf k o).
  - apply Forall_cons in Hs as [_ Hs]. by apply IH.
  - apply IH; [|done]. destruct Ho as [o (H1 & H2 & H3)]. exists o. by split_and!.
Qed.

(** What a lock call has done when it comes back: it has taken the mutex, that
    was free or held by the caller, or it has given up at its deadline, while
    another thread holds it. *)
Definition locked_or_held (h : Z) (dl : option Z) (w : world) (rc : Z) (w' : world) : Prop :=
  (rc = 0 ∧ ∃ k s o x, evolves w (World k s) ∧ is_mutex k h o ∧ acquire (self k) o = Some x ∧ w' = World (set_holder h x k) s) ∨
  (rc = ETIMEDOUT ∧ is_Some dl ∧ evolves w w' ∧ ∃ t c, is_mutex (kern w') h (Some (t, c)) ∧ t ≠ self (kern w')).

Lemma acquire_none t o : acquire t o = None → ∃ t' c, o = Some (t', c) ∧ t' ≠ t.
Proof. destruct o as [[t' c]|]; [|done]. cbn. destruct (Z.eqb_spec t' t); [done|]. eauto. Qed.

Lemma mutex_lock_result h dl w rc w' : (∃ o, is_mutex (kern w) h o) → Forall (leaves_mutex h) (script w) →
  mutex_lock h dl w = Ok (rc, w') → locked_or_held h dl w rc w'.
Proof.
  intros Ho Hs. unfold mutex_lock, awaitK, mbind, K_bind. destruct (await _ _ _ _ _ _) as [[r w1]| |] eqn:E; [|done..].
  destruct (await_woken _ _ _ _ _ _ _ _ E) as [He Hr]. replace (World (kern w) (script w)) with w in He by (by destruct w).
  destruct (evolves_mutex h w w1 He Ho Hs) as [[o1 Ho1] _]. destruct w1 as [k1 s1]. cbn [kern] in *.
  destruct r as [m| |]; cbn beta iota.
  - rewrite (mutex_free_eq k1 h o1 Ho1) in Hr. apply fmap_Some in Hr as (x & Hx & ->). intros [= <- <-]. left. split; [done|].
    exists k1, s1, o1, x. by split_and!.
  - destruct Hr as [Hd Hr]. rewrite (mutex_free_eq k1 h o1 Ho1) in Hr. apply fmap_None in Hr. intros [= <- <-]. right.
    destruct (acquire_none _ _ Hr) as (t & c & -> & Ht). split_and!; [done|done|done|]. by exists t, c.
  - by destruct Hr.
Qed.

Lemma wait_mutex_result k s h o ms rc w' : is_mutex k h o → Forall (leaves_mutex h) s →
  WaitForSingleObject h ms (World k s) = Ok (rc, w') →
  (rc = WAIT_OBJECT_0 ∧ ∃ k1 s1 o1 x, evolves (World k s) (World k1 s1) ∧ is_mutex k1 h o1 ∧ acquire (self k1) o1 = Some x ∧
     w' = World (set_holder h x k1) s1) ∨
  (rc = WAIT_TIMEOUT ∧ ms ≠ INFINITE ∧ evolves (World k s) w' ∧ ∃ t c, is_mutex (kern w') h (Some (t, c)) ∧ t ≠ self (kern w')).
Proof.
  intros H Hs. rewrite (wait_mutex_eq k s h o ms H). destruct (Z.eqb_spec ms INFINITE) as [->|Hms]; cbn [negb].
  - unfold mbind, K_bind. destruct (mutex_lock h None (World k s)) as [[st w1]| |] eqn:E; [|done..]. intros [= <- <-].
    destruct (mutex_lock_result h None (World k s) st w1 (ex_intro _ o H) Hs E) as [[_ Ht]|(_ & [? ?] & _)]; [|done]. by left.
  - assert (Hc : ∃ t w1, clock_gettime (World k s) = Ok (t, w1) ∧ evolves (World k s) w1).
    { destruct s as [|[f|] s]; eexists _, _; (split; [reflexivity|]); repeat constructor. }
    destruct Hc as (t0 & w1 & Hc & He). kstep Hc. cbv zeta. destruct (evolves_mutex h _ _ He (ex_intro _ o H) Hs) as [Ho1 Hs1].
    unfold mbind, K_bind. destruct (mutex_lock h _ w1) as [[st w2]| |] eqn:E; [|done..].
    destruct (mutex_lock_result h _ w1 st w2 Ho1 Hs1 E) as [[-> (k2 & s2 & o2 & x & He2 & Hx)]|(-> & _ & He2 & Hheld)]; cbn; intros [= <- <-].
    + left. split; [done|]. exists k2, s2, o2, x. split; [by eapply evolves_trans|done].
    + right. split_and!; [done|done|by eapply evolves_trans|done].
Qed.

Lemma create_mutex k s h owner : valid_handle h → ∃ k', CreateMutexW h owner (World k s) = Ok (h, World k' s) ∧
  is_mutex k' h (if owner then Some (self k, 1) else None) ∧ (∀ h', h' ≠ h → objs k' !! h' = objs k !! h').
Proof.
  intros Hv. pose proof Hv as [H0 _]. unfold CreateMutexW. rewrite (proj2 (Z.eqb_neq h 0)) by done. cbn [negb]. cbv zeta.
  set (k1 := set_obj h (Object HANDLE_TYPE_MUTEX UZI_FD_READ (Some MutexOps) (BMutex (Mutex PTHREAD_MUTEX_RECURSIVE None))) k).
  assert (H1 : is_mutex k1 h None) by (split_and!; [apply Hv..|by cbn; rewrite lookup_insert_eq|done]).
  krun. change (set_obj h _ k) with k1. destruct owner.
  - rewrite bind_bind. erewrite K_bind_ok by (by apply (mutex_lock_now k1 s h None (self k1, 1))). krun.
    eexists. split; [reflexivity|]. split; [by apply (is_mutex_set k1 h None)|].
    intros h' Hne. cbn. by rewrite lookup_alter_ne, lookup_insert_ne.
  - krun. exists k1. split_and!; [done|done|]. intros h' Hne. cbn. by rewrite lookup_insert_ne.
Qed.

(** A wait without a timeout for a mutex that nobody releases does not return. *)
Lemma wait_mutex_blocks k h o : is_mutex k h o → acquire (self k) o = None → WaitForSingleObject h INFINITE (World k []) = NoFuel.
Proof.
  intros H Ha. rewrite (wait_mutex_eq k [] h o INFINITE H). cbn [negb Z.eqb INFINITE Pos.eqb].
  unfold mutex_lock, awaitK, mbind, K_bind. cbn [script kern await]. by rewrite (mutex_free_eq k h o H), Ha.
Qed.

(** ** Theorems *)

(** C34: a mutex is a recursive lock. A mutex is made free, or held once by its
    creator. The thread that holds it, or anybody when it is free, acquires it at
    once, without waiting, and each acquisition is counted. A wait that answers
    WAIT_OBJECT_0 has acquired the mutex at a moment when it was free or held by
    the caller; one that answers WAIT_TIMEOUT has a timeout and leaves the mutex
    to the other thread that holds it; without a timeout there is no answer while
    another thread holds it for ever. Releasing succeeds only for the holder and
    undoes one acquisition; for everybody else it fails and changes nothing.
    Closing gives the memory back whatever the state. (While a call is blocked,
    the environment does anything that leaves the mutex a mutex.) *)
Theorem mutex_refines_lock k s h o :
  (valid_handle h → ∀ owner, ∃ k', CreateMutexW h owner (World k s) = Ok (h, World k' s) ∧
     is_mutex k' h (if owner then Some (self k, 1) else None) ∧ (∀ h', h' ≠ h → objs k' !! h' = objs k !! h')) ∧
  (is_mutex k h o →
  (∀ ms x, acquire (self k) o = Some x → (ms = INFINITE ∨ s = []) →
     WaitForSingleObject h ms (World k s) = Ok (WAIT_OBJECT_0, World (set_holder h x k) s) ∧ is_mutex (set_holder h x k) h x) ∧
  (∀ ms rc w', Forall (leaves_mutex h) s → WaitForSingleObject h ms (World k s) = Ok (rc, w') →
     (rc = WAIT_OBJECT_0 ∧ ∃ k1 s1 o1 x, evolves (World k s) (World k1 s1) ∧ is_mutex k1 h o1 ∧ acquire (self k1) o1 = Some x ∧
        w' = World (set_holder h x k1) s1) ∨
     (rc = WAIT_TIMEOUT ∧ ms ≠ INFINITE ∧ evolves (World k s) w' ∧ ∃ t c, is_mutex (kern w') h (Some (t, c)) ∧ t ≠ self (kern w'))) ∧
  (acquire (self k) o = None → WaitForSingleObject h INFINITE (World k []) = NoFuel) ∧
  (∀ x, release (self k) o = Some x →
     ReleaseMutex h (World k s) = Ok (true, World (set_holder h x k) s) ∧ is_mutex (set_holder h x k) h x) ∧
  (release (self k) o = None → ReleaseMutex h (World k s) = Ok (false, World k s)) ∧
  (∀ x y, acquire (self k) o = Some x → release (self k) x = Some y → y = o) ∧
  (∃ k', MutexCloseHandle h (World k s) = Ok (true, World k' s) ∧ objs k' = delete h (objs k) ∧ files k' = files k)).
Proof.
  split; [intros Hv owner; by apply create_mutex|].
  intros H. pose proof H as (Hv & Ho & Hc). split_and!.
  - intros ms x Hx Hs. destruct (acquire_some _ _ _ Hx) as [[t c] ->].
    assert (Hpos : 0 < c) by (destruct o as [[t' c']|]; cbn in Hx; [destruct (t' =? self k)|]; simplify_eq; lia).
    split; [|by apply (is_mutex_set k h o)]. rewrite (wait_mutex_eq k s h o ms H).
    destruct (Z.eqb_spec ms INFINITE) as [->|Hne]; cbn [negb].
    + by kstep (mutex_lock_now k s h o (t, c) None H Hx).
    + destruct Hs as [?| ->]; [done|]. rewrite (K_bind_ok clock_gettime _ _ (now k) (World k [])) by done. cbv zeta.
      by erewrite K_bind_ok by (by eapply mutex_lock_now).
  - intros ms rc w'. by apply wait_mutex_result with (o := o).
  - by apply wait_mutex_blocks.
  - intros x Hx. assert (Hpos : match x with Some (_, c) => 0 < c | None => True end).
    { destruct o as [[t c]|]; [|done]. cbn in Hx. destruct (t =? self k); [|done]. injection Hx as <-.
      destruct (Z.eqb_spec c 1); [done|]. lia. }
    split; [|by apply (is_mutex_set k h o)]. unfold ReleaseMutex. kstep (info_ok k s h _ Hv Ho). cbn [Type_]. rewrite Z.eqb_refl.
    kstep (mutex_at_ok k s h o H). destruct o as [[t c]|]; [|done]. cbn in Hx. unfold mutex_unlock, mbind, K_bind, gets. cbn [holder kern].
    destruct (t =? self k); [|done]. injection Hx as <-. done.
  - intros Hn. unfold ReleaseMutex. kstep (info_ok k s h _ Hv Ho). cbn [Type_]. rewrite Z.eqb_refl.
    kstep (mutex_at_ok k s h o H). unfold mutex_unlock, mbind, K_bind, gets. cbn [holder kern].
    destruct o as [[t c]|]; [|done]. cbn in Hn. by destruct (t =? self k).
  - intros x y Hx Hy. destruct o as [[t c]|]; cbn in Hx.
    + destruct (t =? self k) eqn:E; [|done]. injection Hx as <-. cbn in Hy. rewrite E in Hy. injection Hy as <-.
      destruct (Z.eqb_spec (c + 1) 1); [lia|]. f_equal. f_equal. lia.
    + injection Hx as <-. cbn in Hy. rewrite Z.eqb_refl in Hy. by injection Hy as <-.
  - eexists. unfold MutexCloseHandle. kstep (is_handled_ok k s h _ Hv Ho). cbn [negb]. kstep (mutex_at_ok k s h o H). by split_and!.
Qed.

(** a timed wait for a mutex held by another thread does not wait. Its
    deadline is taken from CLOCK_MONOTONIC, but [pthread_mutex_timedlock]
    compares it with CLOCK_REALTIME: on a machine whose real time is ahead of
    the time since boot by more than the timeout (any machine with the date
    set), WAIT_TIMEOUT is returned without giving the holder a chance to act. *)
Theorem mutex_timed_wait_expires k s k1 s1 h o t c ms :
  is_mutex k h o → clock_gettime (World k s) = Ok (now k1, World k1 s1) →
  is_mutex k1 h (Some (t, c)) → t ≠ self k1 → 0 <= ms < INFINITE → 0 <= now k1 → ms * 1000000 <= realtime k1 →
  WaitForSingleObject h ms (World k s) = Ok (WAIT_TIMEOUT, World k1 s1).
Proof.
  intros H Hclk H1 Ht Hms Hnow Hrt. rewrite (wait_mutex_eq k s h o ms H).
  destruct (Z.eqb_spec ms INFINITE); [lia|]. cbn [negb]. kstep Hclk. cbv zeta.
  rewrite (ts_add_ms_ns (now k1) ms) by lia.
  rewrite (K_bind_ok (mutex_lock h (Some (now k1 + ms * 1000000))) _ _ ETIMEDOUT (World k1 s1)); [done|].
  unfold mutex_lock. rewrite (K_bind_ok (awaitK _ _ _ _) _ _ TimedOut (World k1 s1)); [done|].
  unfold awaitK. cbn [script kern].
  assert (Hfree : mutex_free h k1 = None).
  { rewrite (mutex_free_eq k1 h _ H1). cbn. by destruct (Z.eqb_spec t (self k1)). }
  assert (Hpast : (now k1 + ms * 1000000 <=? now k1 + realtime k1) = true) by (apply Z.leb_le; lia).
  destruct s1; cbn [await]; by rewrite Hfree, Hpast.
Qed.

Definition mutex_demo (o : option (Z * Z)) : kernel :=
  Kernel {[ 16 := Object HANDLE_TYPE_MUTEX UZI_FD_READ (Some MutexOps) (BMutex (Mutex PTHREAD_MUTEX_RECURSIVE o)) ]}
    ∅ [] ∅ None 1 0 1000 1700000000000000000 ∅.

Lemma mutex_demo_ok o : match o with Some (_, c) => 0 < c | None => True end → is_mutex (mutex_demo o) 16 o.
Proof. intros Hc. split_and!; [split; unfold INVALID_HANDLE_VALUE; lia|reflexivity|exact Hc]. Qed.

Lemma mutex_refines_lock_witness :
  is_mutex (mutex_demo None) 16 None ∧
  WaitForSingleObject 16 INFINITE (World (mutex_demo None) []) =
    Ok (WAIT_OBJECT_0, World (set_holder 16 (Some (1, 1)) (mutex_demo None)) []) ∧
  ReleaseMutex 16 (World (mutex_demo None) []) = Ok (false, World (mutex_demo None) []).
Proof.
  pose proof (mutex_demo_ok None I) as H. split; [exact H|].
  destruct (proj2 (mutex_refines_lock (mutex_demo None) [] 16 None) H) as (Ha & _ & _ & _ & Hn & _).
  split; [exact (proj1 (Ha INFINITE (Some (1, 1)) eq_refl (or_introl eq_refl)))|exact (Hn eq_refl)].
Defined.

Lemma mutex_timed_wait_expires_witness :
  is_mutex (mutex_demo (Some (2, 1))) 16 (Some (2, 1)) ∧
  WaitForSingleObject 16 60000 (World (mutex_demo (Some (2, 1))) [Act (λ k, k); Act (set_holder 16 None)]) =
    Ok (WAIT_TIMEOUT, World (mutex_demo (Some (2, 1))) [Act (set_holder 16 None)]).
Proof.
  assert (H : is_mutex (mutex_demo (Some (2, 1))) 16 (Some (2, 1))) by (apply mutex_demo_ok; lia).
  split; [exact H|].
  apply (mutex_timed_wait_expires (mutex_demo (Some (2, 1))) [Act (λ k, k); Act (set_holder 16 None)] (mutex_demo (Some (2, 1))) [Act (set_holder 16 None)] 16 (Some (2, 1)) 2 1 60000 H eq_refl H);
    cbn; unfold INFINITE; lia.
Defined.
