(* ===== verification/TimedLock.v ===== *)
(** The replacement of [pthread_mutex_timedlock] (src/libuzi/wait.c), compiled
    where the system has none: the mutex is tried, and between tries the thread
    sleeps.

    The deadline is absolute on CLOCK_MONOTONIC, the clock that
    [WaitForSingleObject] takes it from. *)

From stdpp Require Import list gmap.
From S2P Require Import Prelude Kernel Handle Wait MutexObj.

Set Warnings "-clear-no-such-hyp".

Definition EBUSY := 16.

(** The mutex is taken where locking it would not block. *)
Definition pthread_mutex_trylock (h : Z) : K Z :=
  mutex_at h;;
  f ← gets (mutex_free h);
  match f with
  | Some m => modify (set_body h (BMutex m));; mret 0
  | None => mret EBUSY
  end.

(** Sleeping ends when the time has passed or a signal arrives. *)
Definition nanosleep (d : Z) : K unit :=
  t ← gets now;
  awaitK (λ _ : kernel, @None unit) now (Some (t + d)) true;;
  mret ().

(** One iteration of the loop; [diff]: the time computed before it. *)
Definition timedlock_round (h timeout diff : Z) (_ : unit) : K (unit + Z) :=
  retcode ← pthread_mutex_trylock h;
  if retcode =? EBUSY then
    timenow ← clock_gettime;
    if 0 <=? ts_difftime timeout timenow then mret (inr ETIMEDOUT)
    else nanosleep diff;; mret (inl ())
  else mret (inr retcode).

(** Each iteration consumes an action of the script or lets time pass. *)
Definition pthread_mutex_timedlock (h timeout : Z) : K Z := λ w,
  (timenow ← clock_gettime;
   let diff := u64 (ts_difftime timenow timeout) in
   kloop (S (S (length (script w)))) (timedlock_round h timeout diff) ()) w.

(** ** The environment *)

Section TimedLock.
Context (h dl : Z).

(** Other threads acquire and release the mutex but leave it alive; the clock
    does not go back. *)
Definition lives (e : env) : Prop :=
  match e with
  | Act f => ∀ k o, is_mutex k h o → (∃ o', is_mutex (f k) h o') ∧ now k <= now (f k)
  | Signal => True
  end.

Definition alive (w : world) : Prop := (∃ o, is_mutex (kern w) h o) ∧ Forall lives (script w).

Lemma is_mutex_set_now d k o : is_mutex k h o → is_mutex (set_now d k) h o.
Proof. intros (? & ? & ?). by split_and!. Qed.

Lemma evolves_alive w w' : evolves w w' → alive w → alive w' ∧ now (kern w) <= now (kern w').
Proof.
  induction 1 as [w|f k s w' _ IH|k s w' _ IH|d k w' Hd _ IH]; intros [[o Ho] Hs]; cbn [kern script] in *.
  - split; [split; [by exists o|done]|lia].
  - apply Forall_cons in Hs as [Hf Hs]. destruct (Hf k o Ho) as [[o' Ho'] Hle].
    destruct IH as [IH1 IH2]; [by split; [exists o'|]|]. cbn [kern] in *. split; [done|lia].
  - apply Forall_cons in Hs as [_ Hs]. apply IH. by split; [exists o|].
  - destruct IH as [IH1 IH2]; [split; [exists o; by apply is_mutex_set_now|done]|]. cbn [kern] in *. cbn in IH2. split; [done|lia].
Qed.

Lemma evolves_elem w w' e : evolves w w' → e ∈ script w' → e ∈ script w.
Proof. induction 1; cbn in *; [done|intros ?; right; eauto..|by eauto]. Qed.

(** ** The steps *)

Lemma clock_step w : ∃ w1, clock_gettime w = Ok (now (kern w1), w1) ∧ evolves w w1 ∧
  (script w = [] ∧ w1 = w ∨ (length (script w1) < length (script w))%nat).
Proof.
  destruct w as [k [|[f|] s]]; cbn.
  - exists (World k []). split; [done|]. split; [constructor|by left].
  - exists (World (f k) s). split; [done|]. split; [repeat constructor|right; cbn; lia].
  - exists (World k s). split; [done|]. split; [repeat constructor|right; cbn; lia].
Qed.

(** A sleep comes back when its time has passed, or is cut short by a signal. *)
Lemma sleep_await d s k : ∃ r w', await (λ _ : kernel, @None unit) now (Some d) true s k = Ok (r, w') ∧
  evolves (World k s) w' ∧ (length (script w') ≤ length s)%nat ∧
  (d <= now (kern w') ∨ Signal ∈ s ∧ (length (script w') < length s)%nat).
Proof.
  revert k. induction s as [|e s IH]; intros k; cbn; destruct (Z.leb_spec d (now k)) as [Hd|Hd].
  - eexists _, _. split; [done|]. split; [constructor|]. split; [done|by left].
  - eexists _, _. split; [done|]. split; [apply (evolves_time (now k + (d - now k))); [lia|constructor]|]. split; [done|left; cbn; lia].
  - eexists _, _. split; [done|]. split; [constructor|]. split; [done|by left].
  - destruct e as [f|].
    + destruct (IH (f k)) as (r & w' & Hr & He & Hl & Hx). exists r, w'. split; [done|]. split; [by constructor|]. split; [lia|].
      destruct Hx as [?|[? ?]]; [by left|right; split; [by right|lia]].
    + eexists _, _. split; [done|]. split; [repeat constructor|]. split; [cbn; lia|right; split; [left|cbn; lia]].
Qed.

Lemma nanosleep_step d w : ∃ w', nanosleep d w = Ok ((), w') ∧ evolves w w' ∧ (length (script w') ≤ length (script w))%nat ∧
  (now (kern w) + d <= now (kern w') ∨ Signal ∈ script w ∧ (length (script w') < length (script w))%nat).
Proof.
  destruct w as [k s]. destruct (sleep_await (now k + d) s k) as (r & w' & Hr & Hx). exists w'. split; [|exact Hx].
  unfold nanosleep, gets, awaitK, mbind, K_bind. cbn [kern script]. by rewrite Hr.
Qed.

Lemma trylock_step w : alive w →
  (∃ o x, is_mutex (kern w) h o ∧ acquire (self (kern w)) o = Some x ∧
    pthread_mutex_trylock h w = Ok (0, World (set_holder h x (kern w)) (script w))) ∨
  (mutex_free h (kern w) = None ∧ pthread_mutex_trylock h w = Ok (EBUSY, w)).
Proof.
  intros [[o Ho] _]. destruct w as [k s]. cbn [kern script] in *. unfold pthread_mutex_trylock.
  kstep (mutex_at_ok k s h o Ho). unfold gets, mbind, K_bind. cbn [kern].
  rewrite (mutex_free_eq k h o Ho). destruct (acquire (self k) o) as [x|] eqn:E; [left|by right].
  destruct (acquire_some _ _ _ E) as [y ->]. by exists o, (Some y).
Qed.

(** ** The loop *)

(** The thread takes the mutex when it is free, or held by itself. *)
Definition taken (w w' : world) : Prop :=
  ∃ k s o x, evolves w (World k s) ∧ is_mutex k h o ∧ acquire (self k) o = Some x ∧ w' = World (set_holder h x k) s.

(** It gives up after the deadline, and after having found the mutex held. *)
Definition given_up (w w' : world) : Prop :=
  evolves w w' ∧ dl <= now (kern w') ∧ ∃ w1, evolves w w1 ∧ mutex_free h (kern w1) = None ∧ evolves w1 w'.

Definition lock_result (w : world) (r : Z * world) : Prop :=
  r.1 = 0 ∧ taken w r.2 ∨ r.1 = ETIMEDOUT ∧ given_up w r.2.

Lemma lock_result_step w w1 r : evolves w w1 → lock_result w1 r → lock_result w r.
Proof.
  intros He [[H1 (k & s & o & x & H2 & H3)]|[H1 (H2 & H3 & w2 & H4 & H5)]].
  - left. split; [done|]. exists k, s, o, x. split; [by eapply evolves_trans|done].
  - right. split; [done|]. split; [by eapply evolves_trans|]. split; [done|]. exists w2. split; [by eapply evolves_trans|done].
Qed.

(** How many iterations there can still be. *)
Definition tries (w : world) : nat := length (script w) + (if dl <=? now (kern w) then 0 else 1).

Lemma evolves_tries w w' : evolves w w' → alive w → (tries w' ≤ tries w)%nat.
Proof.
  intros He Ha. destruct (evolves_alive _ _ He Ha) as [_ Hn]. pose proof (evolves_script _ _ He). unfold tries.
  destruct (Z.leb_spec dl (now (kern w))), (Z.leb_spec dl (now (kern w'))); lia.
Qed.

Lemma timedlock_loop t0 fuel : ∀ w, 0 <= dl - t0 < 2 ^ 64 ∨ dl <= now (kern w) → t0 <= now (kern w) → alive w → (tries w < fuel)%nat →
  runs (kloop fuel (timedlock_round h dl (u64 (ts_difftime t0 dl))) () w) (lock_result w).
Proof.
  induction fuel as [|fuel IH]; intros w Hdl Ht0 Ha Hf; [lia|]. rewrite kloop_step. unfold timedlock_round at 1.
  destruct (trylock_step w Ha) as [(o & x & Ho & Hx & Ht)|[Hfree Ht]].
  { rewrite (K_bind_ok _ _ _ _ _ Ht). cbn. apply runs_ok. left. split; [done|]. exists (kern w), (script w), o, x.
    split; [destruct w; constructor|done]. }
  rewrite (K_bind_ok _ _ _ _ _ Ht). cbn [Z.eqb EBUSY Pos.eqb]. destruct (clock_step w) as (w1 & Hc & He1 & Hcons).
  rewrite (K_bind_ok _ _ _ _ _ Hc). unfold ts_difftime at 1. destruct (evolves_alive _ _ He1 Ha) as [Ha1 Hn1].
  destruct (Z.leb_spec 0 (now (kern w1) - dl)) as [Hpast|Hpast].
  { apply runs_ok. right. split; [done|]. split; [done|]. split; [cbn; lia|]. exists w. split; [constructor|done]. }
  destruct (nanosleep_step (u64 (ts_difftime t0 dl)) w1) as (w2 & Hs & He2 & Hlen & Hwake).
  rewrite (K_bind_ok _ _ _ _ _ Hs). cbn beta iota. destruct (evolves_alive _ _ He2 Ha1) as [Ha2 Hn2].
  destruct Hdl as [Hdl|?]; [|lia]. unfold ts_difftime in Hwake. rewrite (wrap_id 64) in Hwake by (unfold urange; lia).
  assert (Hdec : (tries w2 < tries w)%nat).
  { pose proof (evolves_tries _ _ He2 Ha1). unfold tries in *.
    destruct (Z.leb_spec dl (now (kern w))), (Z.leb_spec dl (now (kern w2))); try lia; destruct Hcons as [[Hs1 ->]|?], Hwake as [?|[_ ?]]; lia. }
  eapply runs_mono; [apply (IH w2); [by left|lia|done|lia]|]. intros r. apply lock_result_step. by eapply evolves_trans.
Qed.

Lemma lock_result_time w r : alive w → lock_result w r → now (kern w) <= now (kern r.2).
Proof.
  intros Ha [[_ (k & s & o & x & He & _ & _ & ->)]|[_ (He & _)]]; by destruct (evolves_alive _ _ He Ha) as [_ Hn].
Qed.

(** When the first try fails and no signal arrives, the mutex is not taken
    before the deadline: a thread that releases it earlier goes unnoticed. *)
Lemma timedlock_late t0 fuel w r : mutex_free h (kern w) = None → Signal ∉ script w →
  0 <= dl - t0 < 2 ^ 64 → t0 <= now (kern w) → alive w → (tries w < fuel)%nat →
  kloop fuel (timedlock_round h dl (u64 (ts_difftime t0 dl))) () w = Ok r → dl <= now (kern r.2).
Proof.
  intros Hfree Hsig Hdl Ht0 Ha. destruct fuel as [|fuel]; [done|]. intros Hf. rewrite kloop_step. unfold timedlock_round at 1.
  destruct (trylock_step w Ha) as [(o & x & Ho & Hx & Ht)|[_ Ht]].
  { exfalso. rewrite (mutex_free_eq _ _ _ Ho), Hx in Hfree. by destruct (acquire_some _ _ _ Hx) as [y ->]. }
  rewrite (K_bind_ok _ _ _ _ _ Ht). cbn [Z.eqb EBUSY Pos.eqb]. destruct (clock_step w) as (w1 & Hc & He1 & Hcons).
  rewrite (K_bind_ok _ _ _ _ _ Hc). unfold ts_difftime at 1. destruct (evolves_alive _ _ He1 Ha) as [Ha1 Hn1].
  destruct (Z.leb_spec 0 (now (kern w1) - dl)) as [Hpast|Hpast]; [intros [= <-]; cbn; lia|].
  destruct (nanosleep_step (u64 (ts_difftime t0 dl)) w1) as (w2 & Hs & He2 & Hlen & Hwake).
  rewrite (K_bind_ok _ _ _ _ _ Hs). cbn beta iota. unfold ts_difftime in Hwake. rewrite (wrap_id 64) in Hwake by (unfold urange; lia).
  destruct (evolves_alive _ _ He2 Ha1) as [Ha2 Hn2]. intros Hr.
  destruct Hwake as [Hwake|[Hin _]]; [|by apply (evolves_elem _ _ _ He1) in Hin].
  destruct (timedlock_loop t0 fuel w2) as (r' & Hr' & Hres); [by left|lia|done| |].
  - pose proof (evolves_tries _ _ He2 Ha1). unfold tries in *.
    destruct (Z.leb_spec dl (now (kern w))), (Z.leb_spec dl (now (kern w2))); try lia; destruct Hcons as [[Hs1 ->]|?]; lia.
  - assert (E : Ok r = Ok r') by (rewrite <- Hr'; symmetry; exact Hr). injection E as ->. pose proof (lock_result_time _ _ Ha2 Hres). lia.
Qed.
End TimedLock.

(** ** The theorem *)

(** C28: the replacement of pthread_mutex_timedlock. In any environment that
    leaves the mutex alive and whose clock does not go back, the call returns:
    it answers 0 and has taken the mutex at a moment when it was free or held
    by the caller, or it answers ETIMEDOUT, after the deadline and after having
    found the mutex held by another thread. It sleeps for the whole remaining
    time at once: when the mutex is held at the first try and no signal arrives,
    it answers before the deadline in no case, even if the mutex is released
    long before. *)
Theorem timedlock_spec h timeout w : alive h w → timeout - now (kern w) < 2 ^ 64 →
  runs (pthread_mutex_timedlock h timeout w) (lock_result h timeout w) ∧
  (∀ t w1 r, clock_gettime w = Ok (t, w1) → mutex_free h (kern w1) = None → Signal ∉ script w →
    pthread_mutex_timedlock h timeout w = Ok r → timeout <= now (kern r.2)).
Proof.
  intros Ha Hdl. unfold pthread_mutex_timedlock. destruct (clock_step w) as (w1 & Hc & He & Hcons).
  destruct (evolves_alive _ _ _ He Ha) as [Ha1 Hn]. rewrite (K_bind_ok _ _ _ _ _ Hc). cbv zeta.
  assert (Hrange : 0 <= timeout - now (kern w1) < 2 ^ 64 ∨ timeout <= now (kern w1)) by lia.
  assert (Htries : (tries timeout w1 < S (S (length (script w))))%nat).
  { pose proof (evolves_script _ _ He). unfold tries. destruct (timeout <=? now (kern w1)); lia. }
  pose proof (timedlock_loop h timeout (now (kern w1)) _ w1 Hrange ltac:(lia) Ha1 Htries) as Hrun. split.
  - eapply runs_mono; [exact Hrun|]. intros r. by apply lock_result_step.
  - intros t w1' r Hc' Hfree Hsig Hr. rewrite Hc in Hc'. injection Hc' as <- <-. destruct Hrange as [Hr0|Hr0].
    + eapply timedlock_late; [exact Hfree| |exact Hr0|lia|exact Ha1|exact Htries|exact Hr].
      intros Hin. by apply (evolves_elem _ _ _ He) in Hin.
    + destruct Hrun as (r' & Hr' & Hres). rewrite Hr in Hr'. injection Hr' as <-.
      pose proof (lock_result_time h timeout _ _ Ha1 Hres). lia.
Qed.

(** Thread 2 holds the mutex and releases it after a microsecond; the caller,
    with a timeout of a second, takes it when the second is over. *)
Definition release_soon : list env := [Act (λ k, k); Act (λ k, k); Act (λ k, set_now (now k + 1000) (set_holder 16 None k))].

Lemma release_soon_lives : Forall (lives 16) release_soon.
Proof.
  repeat (apply Forall_cons; split); [..|constructor]; intros k o H; [split; [by exists o|lia]..|].
  split; [|cbn; lia]. exists None. apply is_mutex_set_now. by apply (is_mutex_set k 16 o).
Qed.

Lemma timedlock_spec_witness :
  let w := World (mutex_demo (Some (2, 1))) release_soon in
  alive 16 w ∧ 1000001000 - now (kern w) < 2 ^ 64 ∧ (Signal ∉ release_soon) ∧
  (∃ w', pthread_mutex_timedlock 16 1000001000 w = Ok (0, w') ∧ objs (kern w') !! 16 = Some (Object HANDLE_TYPE_MUTEX UZI_FD_READ (Some MutexOps) (BMutex (Mutex PTHREAD_MUTEX_RECURSIVE (Some (1, 1)))))) ∧
  runs (pthread_mutex_timedlock 16 1000001000 w) (λ r, lock_result 16 1000001000 w r ∧ 1000001000 <= now (kern r.2)).
Proof.
  intros w. assert (H1 : alive 16 w) by (split; [exists (Some (2, 1)); by apply mutex_demo_ok|exact release_soon_lives]).
  assert (H2 : 1000001000 - now (kern w) < 2 ^ 64) by by_decision.
  assert (H3 : Signal ∉ release_soon) by (intros Hin; unfold release_soon in Hin; rewrite !elem_of_cons in Hin; destruct Hin as [?|[?|[?|[]%elem_of_nil]]]; done).
  split; [exact H1|]. split; [exact H2|]. split; [exact H3|]. split; [eexists; split; [vm_compute; reflexivity|reflexivity]|].
  destruct (timedlock_spec 16 1000001000 w H1 H2) as [(r & Hr & Hres) Hlate]. exists r. split; [exact Hr|]. split; [exact Hres|].
  exact (Hlate (now (kern w)) (World (mutex_demo (Some (2, 1))) (tail release_soon)) r eq_refl eq_refl H3 Hr).
Defined.
