(* ===== verification/WaitTimer.v ===== *)
(** Waitable timers (src/libuzi/timer.c, first part; timerfd and POSIX timers). *)

From stdpp Require Import list gmap.
From S2P Require Import Prelude Kernel Handle Wait.

Set Warnings "-clear-no-such-hyp".

(** What the system answers: [timerfd_create], [fcntl], and [timer_create]
    with the identifier of the new POSIX timer. *)
Record timer_os := TimerOs { os_fd : Z; os_fcntl : Z; os_tid : Z; os_create : Z }.

Definition SIGALRM := 14.

Definition set_tm_fd fd (t : WINPR_TIMER) := Timer fd (bInit t) (lPeriod t) (tm_bManualReset t) (pfnCompletionRoutine t)
  (lpArgToCompletionRoutine t) (tm_tid t) (it_interval t) (it_value t).
Definition set_bInit (t : WINPR_TIMER) := Timer (tm_fd t) true (lPeriod t) (tm_bManualReset t) (pfnCompletionRoutine t)
  (lpArgToCompletionRoutine t) (tm_tid t) (it_interval t) (it_value t).
Definition set_tid tid (t : WINPR_TIMER) := Timer (tm_fd t) (bInit t) (lPeriod t) (tm_bManualReset t) (pfnCompletionRoutine t)
  (lpArgToCompletionRoutine t) tid (it_interval t) (it_value t).
Definition set_routine period pfn arg (t : WINPR_TIMER) := Timer (tm_fd t) (bInit t) period (tm_bManualReset t) pfn arg
  (tm_tid t) (it_interval t) (it_value t).
Definition set_timeout interval value (t : WINPR_TIMER) := Timer (tm_fd t) (bInit t) (lPeriod t) (tm_bManualReset t)
  (pfnCompletionRoutine t) (lpArgToCompletionRoutine t) (tm_tid t) interval value.

Definition upd_timer (h : Z) (f : WINPR_TIMER → WINPR_TIMER) : K unit :=
  t ← timer_at h; modify (set_body h (BTimer (f t))).

Definition TimerCloseHandle (h : Z) : K bool :=
  b ← TimerIsHandled h;
  if negb b then mret false
  else
    t ← timer_at h;
    (if negb (tm_fd t =? -1) then sys_close (tm_fd t) else mret ());;
    free h;;
    mret true.

(** Milliseconds as seconds and nanoseconds. *)
Definition ms_to_time (lPeriod : Z) : Z * Z := (lPeriod ÷ 1000, Z.rem lPeriod 1000 * 1000000).

(** The handler of SIGALRM; [call] is the completion routine, called with its
    argument. *)
Definition WaitableTimerSignalHandler (call : Z → Z → K unit) (signum h : Z) : K unit :=
  if (h =? 0) || negb (signum =? SIGALRM) then mret ()
  else
    t ← timer_at h;
    if negb (pfnCompletionRoutine t =? 0) then
      call (pfnCompletionRoutine t) (lpArgToCompletionRoutine t);;
      t ← timer_at h;
      if negb (lPeriod t =? 0) then
        upd_timer h (set_timeout (ms_to_time (lPeriod t)) (it_value t));;
        timer_settime (tm_tid t) (ms_to_time (lPeriod t)) (it_value t);;
        mret ()
      else mret ()
    else mret ().

Definition InitializeWaitableTimer (os : timer_os) (h : Z) : K Z :=
  t ← timer_at h;
  if lpArgToCompletionRoutine t =? 0 then
    fd ← sys_timerfd_create (os_fd os);
    upd_timer h (set_tm_fd fd);;
    if fd <=? 0 then free h;; mret (-1)
    else if negb (os_fcntl os =? 0) then sys_close fd;; mret (-1)
    else upd_timer h set_bInit;; mret 0
  else
    rc ← timer_create (os_tid os) (os_create os);
    if negb (rc =? 0) then mret (-1)
    else upd_timer h (set_tid (os_tid os));; upd_timer h set_bInit;; mret 0.

(** [calloc]: the address answered, 0 on failure. *)
Definition CreateWaitableTimerA (calloc : Z) (bManualReset : bool) : K Z :=
  if negb (calloc =? 0) then
    modify (set_obj calloc (Object HANDLE_TYPE_TIMER UZI_FD_READ (Some TimerOps)
      (BTimer (Timer (-1) false 0 bManualReset 0 0 0 (0, 0) (0, 0)))));;
    mret calloc
  else mret 0.

Definition CreateWaitableTimerW (calloc : Z) (bManualReset : bool) : K Z := mret 0.

Definition CREATE_WAITABLE_TIMER_MANUAL_RESET := 1.

Definition CreateWaitableTimerExA (calloc dwFlags : Z) : K Z :=
  CreateWaitableTimerA calloc (nonzero (Z.land dwFlags CREATE_WAITABLE_TIMER_MANUAL_RESET)).

Definition CreateWaitableTimerExW (calloc dwFlags : Z) : K Z := mret 0.

(** A relative due time, in 100 ns, as seconds and nanoseconds. *)
Definition due_to_time (due : Z) : Z * Z := (due / 10000000, due mod 10000000 * 100).

(** The second half of [SetWaitableTimer]: the times, and the timer they are
    given to. Negating the smallest due time overflows. *)
Definition program_timer (h due period : Z) : K bool :=
  if due =? - 2 ^ 63 then undefined
  else if 0 <? due then upd_timer h (set_timeout (0, 0) (0, 0));; mret false
  else
    let interval := if 0 <? period then ms_to_time period else (0, 0) in
    let value := if negb (due =? 0) then due_to_time (- due) else interval in
    upd_timer h (set_timeout interval value);;
    t ← timer_at h;
    if pfnCompletionRoutine t =? 0 then
      status ← timerfd_settime (tm_fd t) interval value;
      mret (status =? 0)
    else
      status ← timer_settime (tm_tid t) interval value;
      mret (status =? 0).

(** [lpDueTime]: [None] is a null pointer. *)
Definition SetWaitableTimer (os : timer_os) (h : Z) (lpDueTime : option Z) (period pfn arg : Z) : K bool :=
  i ← winpr_Handle_GetInfo h;
  match i, lpDueTime with
  | None, _ => mret false
  | Some type, due =>
    if negb (type =? HANDLE_TYPE_TIMER) then mret false
    else match due with
    | None => mret false
    | Some due =>
      if period <? 0 then mret false
      else
        upd_timer h (set_routine period pfn arg);;
        t ← timer_at h;
        r ← (if negb (bInit t) then InitializeWaitableTimer os h else mret 0);
        if r <? 0 then mret false else program_timer h due period
    end
  end.

(** Neither of these does anything to the timer. *)
Definition SetWaitableTimerEx (h : Z) : K bool :=
  i ← winpr_Handle_GetInfo h;
  match i with None => mret false | Some type => if type =? HANDLE_TYPE_TIMER then mret true else mret true end.

Definition CancelWaitableTimer (h : Z) : K bool := mret true.

(** ** Specification *)

(** The timer that [CreateWaitableTimerA] makes, and a timer on its timerfd. *)
Definition fresh_timer (manual : bool) : WINPR_TIMER := Timer (-1) false 0 manual 0 0 0 (0, 0) (0, 0).

Definition with_timer (h : Z) (t : WINPR_TIMER) (k : kernel) : kernel :=
  set_obj h (Object HANDLE_TYPE_TIMER UZI_FD_READ (Some TimerOps) (BTimer t)) k.

(** The expiration times of a timer set at [t0]: the first after [due] units of
    100 ns (0: after one period), then every [period] ms. *)
Definition first_expiry (t0 due period : Z) : Z := if due =? 0 then t0 + period * 1000000 else t0 + due * 100.


(** ** Lemmas *)

Lemma with_timer_lookup h t k : objs (with_timer h t k) !! h = Some (Object HANDLE_TYPE_TIMER UZI_FD_READ (Some TimerOps) (BTimer t)).
Proof. cbn. by rewrite lookup_insert_eq. Qed.

Lemma with_timer_twice h t t' k : with_timer h t' (with_timer h t k) = with_timer h t' k.
Proof. unfold with_timer. kernel_eq. by rewrite insert_insert_eq. Qed.

Lemma timer_at_ok h t k s : timer_at h (World (with_timer h t k) s) = Ok (t, World (with_timer h t k) s).
Proof. unfold timer_at. by rewrite (bind_object _ _ _ _ _ (with_timer_lookup h t k)). Qed.

Lemma upd_timer_ok h f t k s : upd_timer h f (World (with_timer h t k) s) = Ok ((), World (with_timer h (f t) k) s).
Proof.
  unfold upd_timer. kstep (timer_at_ok h t k s). unfold modify. do 3 f_equal. unfold set_body, with_timer. kernel_eq.
  by rewrite alter_insert_eq.
Qed.

Lemma ms_to_time_ok p : 0 <= p → valid_time (ms_to_time p) = true ∧ ns_of (ms_to_time p) = p * 1000000.
Proof.
  intros Hp. unfold ms_to_time, valid_time, ns_of. cbn [fst snd]. rewrite Z.quot_div_nonneg, Z.rem_mod_nonneg by lia.
  split; [|lia]. rewrite !andb_true_iff, !Z.leb_le, Z.ltb_lt. lia.
Qed.

Lemma due_to_time_ok d : 0 <= d → valid_time (due_to_time d) = true ∧ ns_of (due_to_time d) = d * 100.
Proof.
  intros Hd. unfold due_to_time, valid_time, ns_of. cbn [fst snd].
  split; [|lia]. rewrite !andb_true_iff, !Z.leb_le, Z.ltb_lt. lia.
Qed.

Lemma files_with_timer h t k fd f : files k !! fd = Some f → files (with_timer h t k) !! fd = Some f.
Proof. done. Qed.

(** The interval and the value that [SetWaitableTimer] programs. *)
Definition timer_program (due period : Z) : (Z * Z) * (Z * Z) :=
  let interval := if 0 <? period then ms_to_time period else (0, 0) in
  (interval, if negb (due =? 0) then due_to_time due else interval).

Lemma timer_program_ok due period : 0 <= due → 0 <= period →
  valid_time (timer_program due period).1 = true ∧ valid_time (timer_program due period).2 = true ∧
  ns_of (timer_program due period).1 = period * 1000000 ∧
  ns_of (timer_program due period).2 = if due =? 0 then period * 1000000 else due * 100.
Proof.
  intros Hd Hp. unfold timer_program. cbn [fst snd].
  assert (Hi : valid_time (if 0 <? period then ms_to_time period else (0, 0)) = true ∧
               ns_of (if 0 <? period then ms_to_time period else (0, 0)) = period * 1000000).
  { destruct (Z.ltb_spec 0 period); [by apply ms_to_time_ok; lia|]. replace period with 0 by lia. done. }
  destruct (Z.eqb_spec due 0); cbn [negb]; split_and!; try apply Hi; apply due_to_time_ok; lia.
Qed.

(** A timer that can be set: already on the timerfd [fd], or new, with the
    system answering the descriptor [fd]. *)
Definition settable (os : timer_os) (t : WINPR_TIMER) (fd : Z) (k : kernel) : Prop :=
  (bInit t = true ∧ tm_fd t = fd ∧ 0 <= fd ∧ ∃ d i, files k !! fd = Some (FdTimer d i)) ∨
  (bInit t = false ∧ os_fd os = fd ∧ 0 < fd ∧ os_fcntl os = 0).

(** What the initialisation leaves. *)
Definition initialised (t : WINPR_TIMER) (fd : Z) : WINPR_TIMER := set_bInit (set_tm_fd fd t).

(** The kernel after [timerfd_create]. *)
Definition opened (fd : Z) (k : kernel) : kernel := if fd <? 0 then k else set_file fd (FdTimer 0 0) k.

Lemma timerfd_create_ok fd h t k s :
  sys_timerfd_create fd (World (with_timer h t k) s) = Ok (fd, World (with_timer h t (opened fd k)) s).
Proof. unfold sys_timerfd_create, opened. by destruct (fd <? 0). Qed.

Lemma initialise_failed os h t k s : os_fd os <= 0 → lpArgToCompletionRoutine t = 0 →
  InitializeWaitableTimer os h (World (with_timer h t k) s) =
  Ok (-1, World (set_objs (delete h (objs k)) (opened (os_fd os) k)) s).
Proof.
  intros Hfd Ha. unfold InitializeWaitableTimer. kstep (timer_at_ok h t k s). rewrite Ha. cbn [Z.eqb].
  kstep (timerfd_create_ok (os_fd os) h t k s). kstep (upd_timer_ok h (set_tm_fd (os_fd os)) t (opened (os_fd os) k) s).
  destruct (Z.leb_spec (os_fd os) 0); [|lia]. unfold free. krun. unfold mret, K_ret. do 3 f_equal. unfold opened.
  destruct (os_fd os <? 0); kernel_eq; by rewrite delete_insert_eq.
Qed.

Lemma initialise_ok os h t fd k s : settable os t fd k → lpArgToCompletionRoutine t = 0 →
  ∃ k1, (if negb (bInit t) then InitializeWaitableTimer os h else mret 0) (World (with_timer h t k) s) =
        Ok (0, World (with_timer h (initialised t fd) k1) s) ∧
        now k1 = now k ∧ ptimers k1 = ptimers k ∧ ∃ d i, files k1 !! fd = Some (FdTimer d i).
Proof.
  intros [(Hb & <- & Hfd & d & i & Hf)|(Hb & Hos & Hfd & Hfc)] Ha; rewrite Hb; cbn [negb].
  - exists k. split_and!; [|done|done|eauto]. replace (initialised t (tm_fd t)) with t; [done|]. destruct t. cbn in *. by subst.
  - exists (opened fd k). unfold opened. destruct (Z.ltb_spec fd 0) as [|Hfd']; [lia|].
    split_and!; [|done|done|exists 0, 0; cbn; by rewrite lookup_insert_eq].
    unfold InitializeWaitableTimer. kstep (timer_at_ok h t k s). rewrite Ha, Hos. cbn [Z.eqb].
    kstep (timerfd_create_ok fd h t k s). unfold opened. rewrite (proj2 (Z.ltb_ge fd 0)) by lia.
    kstep (upd_timer_ok h (set_tm_fd fd) t (set_file fd (FdTimer 0 0) k) s).
    destruct (Z.leb_spec fd 0); [lia|]. rewrite Hfc. cbn [Z.eqb negb].
    by kstep (upd_timer_ok h set_bInit (set_tm_fd fd t) (set_file fd (FdTimer 0 0) k) s).
Qed.


Lemma timerfd_settime_bad fd interval value k s : files k !! fd = None →
  timerfd_settime fd interval value (World k s) = Ok (-1, World k s).
Proof. intros Hf. unfold timerfd_settime, mbind, K_bind, gets. cbn [kern]. by rewrite Hf. Qed.

Lemma timer_settime_ok tid p interval value k s : ptimers k !! tid = Some p →
  valid_time interval = true → valid_time value = true →
  timer_settime tid interval value (World k s) =
  Ok (0, World (set_ptimers (<[tid := (if ns_of value =? 0 then 0 else now k + ns_of value, ns_of interval)]> (ptimers k)) k) s).
Proof. intros Hf Hi Hv. unfold timer_settime, mbind, K_bind, gets. cbn [kern]. rewrite Hf, Hi, Hv. done. Qed.


Lemma program_timer_eq h t k s due period : 0 <= due < 2 ^ 63 →
  let prog := timer_program due period in
  program_timer h (- due) period (World (with_timer h t k) s) =
  (status ← (if pfnCompletionRoutine t =? 0 then timerfd_settime (tm_fd t) prog.1 prog.2 else timer_settime (tm_tid t) prog.1 prog.2);
   mret (status =? 0)) (World (with_timer h (set_timeout prog.1 prog.2 t) k) s).
Proof.
  intros Hdue prog. unfold program_timer. destruct (Z.eqb_spec (- due) (- 2 ^ 63)); [lia|]. destruct (Z.ltb_spec 0 (- due)); [lia|].
  cbv zeta. rewrite Z.opp_involutive. replace (- due =? 0) with (due =? 0) by (destruct (Z.eqb_spec due 0), (Z.eqb_spec (- due) 0); done || lia).
  change (if 0 <? period then ms_to_time period else (0, 0)) with prog.1.
  change (if negb (due =? 0) then due_to_time due else prog.1) with prog.2.
  kstep (upd_timer_ok h (set_timeout prog.1 prog.2) t k s). kstep (timer_at_ok h (set_timeout prog.1 prog.2 t) k s).
  cbn [pfnCompletionRoutine set_timeout tm_fd tm_tid]. by destruct (pfnCompletionRoutine t =? 0).
Qed.

(** The first half of [SetWaitableTimer]. *)
Lemma set_timer_start os h t k s due period pfn arg : valid_handle h → 0 <= period →
  SetWaitableTimer os h (Some due) period pfn arg (World (with_timer h t k) s) =
  (r ← (if negb (bInit t) then InitializeWaitableTimer os h else mret 0);
   if r <? 0 then mret false else program_timer h due period)
  (World (with_timer h (set_routine period pfn arg t) k) s).
Proof.
  intros Hv Hp. unfold SetWaitableTimer. kstep (info_ok (with_timer h t k) s h _ Hv (with_timer_lookup h t k)). cbn [Type_].
  rewrite Z.eqb_refl. cbn [negb]. destruct (Z.ltb_spec period 0); [lia|].
  kstep (upd_timer_ok h (set_routine period pfn arg) t k s). by kstep (timer_at_ok h (set_routine period pfn arg t) k s).
Qed.






(** *** Programming the two kinds of timer *)






(** ** Theorems *)


(** where setting a new waitable timer goes wrong, since the initialisation
    looks at the argument of the completion routine and the programming at the
    routine. (1) An argument without a routine: a POSIX timer is created, the
    timerfd is not, and the call fails. (2) A routine without an argument: a
    timerfd is created and POSIX timer number 0, which the object does not own,
    is reprogrammed. (3) When no timerfd can be had, the object is freed under
    its handle: the call returns FALSE and closing the handle is undefined.
    (4) The handler of the POSIX timer, after the routine, re-arms it with the
    original due time instead of the period. *)
Theorem SetWaitableTimer_defects os h manual k s due period pfn arg :
  valid_handle h → 0 <= due < 2 ^ 63 → 0 <= period < 2 ^ 31 → pfn ≠ 0 → arg ≠ 0 → files k !! (-1) = None →
  (os_create os = 0 → ∃ w, SetWaitableTimer os h (Some (- due)) period 0 arg (World (with_timer h (fresh_timer manual) k) s) = Ok (false, w) ∧
     is_Some (ptimers (kern w) !! os_tid os)) ∧
  (∀ p, 0 < os_fd os → os_fcntl os = 0 → ptimers k !! 0 = Some p → ∃ w i,
     SetWaitableTimer os h (Some (- due)) period pfn 0 (World (with_timer h (fresh_timer manual) k) s) = Ok (true, w) ∧
     ptimers (kern w) !! 0 = Some (if (due =? 0) && (period =? 0) then 0 else first_expiry (now k) due period, i)) ∧
  (os_fd os <= 0 → ∃ k', SetWaitableTimer os h (Some (- due)) period 0 0 (World (with_timer h (fresh_timer manual) k) s) = Ok (false, World k' s) ∧
     TimerCloseHandle h (World k' s) = UB) ∧
  (∀ call t p, pfnCompletionRoutine t = pfn → lPeriod t = period → 0 < period → it_value t = due_to_time due → 0 < due → ptimers k !! tm_tid t = Some p →
     call pfn (lpArgToCompletionRoutine t) (World (with_timer h t k) s) = Ok ((), World (with_timer h t k) s) →
     ∃ w i, WaitableTimerSignalHandler call SIGALRM h (World (with_timer h t k) s) = Ok ((), w) ∧
     ptimers (kern w) !! tm_tid t = Some (now k + due * 100, i)).
Proof.
  intros Hv Hdue Hper Hpfn Harg Hno. pose proof Hv as [Hh _].
  destruct (timer_program_ok due period) as (Hvi & Hvv & Hni & Hnv); [lia|lia|].
  set (prog := timer_program due period) in *. set (t0 := fresh_timer manual). split_and!.
  - intros Hcr. rewrite set_timer_start by (done || lia). cbn [bInit fresh_timer negb t0].
    set (t1 := set_routine period 0 arg _). set (tid := os_tid os).
    set (k1 := set_ptimers (<[tid := (0, 0)]> (ptimers k)) k).
    assert (Hinit : InitializeWaitableTimer os h (World (with_timer h t1 k) s) =
                    Ok (0, World (with_timer h (set_bInit (set_tid tid t1)) k1) s)).
    { unfold InitializeWaitableTimer. kstep (timer_at_ok h t1 k s). cbn [lpArgToCompletionRoutine t1 set_routine].
      rewrite (proj2 (Z.eqb_neq arg 0)) by done. unfold timer_create. rewrite Hcr. cbn [Z.eqb]. krun. cbn [Z.eqb negb].
      change (set_ptimers _ _) with (with_timer h t1 k1). kstep (upd_timer_ok h (set_tid tid) t1 k1 s).
      by kstep (upd_timer_ok h set_bInit (set_tid tid t1) k1 s). }
    kstep Hinit. cbn [Z.ltb Z.compare]. rewrite program_timer_eq by lia. fold prog.
    change (pfnCompletionRoutine (set_bInit (set_tid tid t1)) =? 0) with true. cbn [tm_fd set_bInit set_tid t1 set_routine t0 fresh_timer].
    kstep (timerfd_settime_bad (-1) prog.1 prog.2 (with_timer h (set_timeout prog.1 prog.2 (set_bInit (set_tid tid t1))) k1) s Hno).
    eexists. split; [reflexivity|]. cbn. by rewrite lookup_insert_eq.
  - intros p Hfd Hfc Hp. rewrite set_timer_start by (done || lia). set (t1 := set_routine period pfn 0 t0).
    destruct (initialise_ok os h t1 (os_fd os) k s) as (k1 & Hinit & Hn1 & Hpt & _); [right; by split_and!|done|].
    assert (Hp1 : ptimers k1 !! 0 = Some p) by (by rewrite Hpt).
    kstep Hinit. cbn [Z.ltb Z.compare]. rewrite program_timer_eq by lia. fold prog.
    cbn [pfnCompletionRoutine tm_tid initialised set_bInit set_tm_fd t1 set_routine t0 fresh_timer].
    rewrite (proj2 (Z.eqb_neq pfn 0)) by done.
    kstep (timer_settime_ok 0 p prog.1 prog.2 (with_timer h (set_timeout prog.1 prog.2 (initialised t1 (os_fd os))) k1) s Hp1 Hvi Hvv).
    eexists _, _. split; [reflexivity|]. cbn [kern ptimers set_ptimers]. rewrite lookup_insert_eq. do 2 f_equal.
    cbn [now with_timer set_obj set_objs]. rewrite Hn1, Hnv. unfold first_expiry.
    destruct (Z.eqb_spec due 0), (Z.eqb_spec period 0); cbn [andb]; subst; try done.
    + by destruct (Z.eqb_spec (period * 1000000) 0); [lia|].
    + by destruct (Z.eqb_spec (due * 100) 0); [lia|].
    + by destruct (Z.eqb_spec (due * 100) 0); [lia|].
  - intros Hfd. rewrite set_timer_start by (done || lia). cbn [bInit fresh_timer negb t0]. set (t1 := set_routine period 0 0 _).
    kstep (initialise_failed os h t1 k s Hfd eq_refl). eexists. split; [reflexivity|].
    unfold TimerCloseHandle, TimerIsHandled, IsHandledAs.
    destruct (Z.eqb_spec h 0); [done|]. unfold mbind, K_bind, object_at, lift, get. cbn [kern objs set_objs]. by rewrite lookup_delete_eq.
  - intros call t p Hpf Hpe Hpp Hval Hd Hp Hcall. unfold WaitableTimerSignalHandler. destruct (Z.eqb_spec h 0); [done|]. cbn [orb negb Z.eqb SIGALRM Pos.eqb].
    kstep (timer_at_ok h t k s). rewrite Hpf, (proj2 (Z.eqb_neq pfn 0)) by lia. cbn [negb]. kstep Hcall.
    kstep (timer_at_ok h t k s). rewrite Hpe, (proj2 (Z.eqb_neq period 0)) by lia. cbn [negb]. rewrite Hval. destruct (ms_to_time_ok period ltac:(lia)) as [Hv1 Hn1]. destruct (due_to_time_ok due ltac:(lia)) as [Hv2 Hn2].
    krun. kstep (upd_timer_ok h (set_timeout (ms_to_time period) (due_to_time due)) t k s). krun.
    kstep (timer_settime_ok (tm_tid t) p (ms_to_time period) (due_to_time due) (with_timer h (set_timeout (ms_to_time period) (due_to_time due) t) k) s Hp Hv1 Hv2).
    eexists _, _. split; [reflexivity|]. cbn [kern ptimers set_ptimers]. rewrite lookup_insert_eq, Hn2.
    by destruct (Z.eqb_spec (due * 100) 0); [lia|].
Qed.

Definition timer_demo (posix : gmap Z (Z * Z)) : kernel := Kernel ∅ ∅ [] ∅ None 1 0 1000 0 posix.

Lemma demo_handle : valid_handle 48.
Proof. split; unfold INVALID_HANDLE_VALUE; lia. Qed.


Lemma SetWaitableTimer_defects_witness :
  let w := World (with_timer 48 (fresh_timer true) (timer_demo {[ 0 := (77, 0) ]})) [] in
  (∃ w', SetWaitableTimer (TimerOs 6 0 9 0) 48 (Some (- 50)) 2 0 8 w = Ok (false, w')) ∧
  (∃ w' i, SetWaitableTimer (TimerOs 6 0 9 0) 48 (Some (- 50)) 2 7 0 w = Ok (true, w') ∧ ptimers (kern w') !! 0 = Some (6000, i)) ∧
  (∃ k', SetWaitableTimer (TimerOs (-1) 0 9 0) 48 (Some (- 50)) 2 0 0 w = Ok (false, World k' []) ∧
    TimerCloseHandle 48 (World k' []) = UB).
Proof.
  set (k := timer_demo {[ 0 := (77, 0) ]}).
  destruct (SetWaitableTimer_defects (TimerOs 6 0 9 0) 48 true k [] 50 2 7 8) as (H1 & H2 & _ & _);
    [exact demo_handle|lia|lia|lia|lia|done|].
  destruct (SetWaitableTimer_defects (TimerOs (-1) 0 9 0) 48 true k [] 50 2 7 8) as (_ & _ & H3 & _);
    [exact demo_handle|lia|lia|lia|lia|done|].
  split; [destruct (H1 eq_refl) as (w' & He & _); exists w'; exact He|].
  split; [exact (H2 (77, 0) eq_refl eq_refl eq_refl)|apply H3; cbn; lia].
Defined.
