(* ===== verification/Thread.v ===== *)
(** Threads (src/libuzi/thread.c): creation, the launcher that runs in the new
    thread, exit, waiting and closing.

    The list of started threads is a ListDictionary whose keys point into the
    thread objects and are compared by [thread_compare]; it is kept here as the
    list of its values, with the operations of its specification (Dictionary.v).
    The calls on the thread's own mutexes and condition variables succeed. *)

From stdpp Require Import list gmap.
From S2P Require Import Prelude Kernel Handle Wait Event.

Set Warnings "-clear-no-such-hyp".

Definition CREATE_SUSPENDED := 4.

Definition set_started b fd0 th (t : WINPR_THREAD) := Thread b fd0 (th_fd1 t) (detached t) (joined t) (exited t) (dwExitCode t) th
  (lpStartAddress t) (lpParameter t).
Definition set_detached (t : WINPR_THREAD) := Thread (started t) (th_fd0 t) (th_fd1 t) true (joined t) (exited t) (dwExitCode t)
  (th_thread t) (lpStartAddress t) (lpParameter t).
Definition set_exit e code (t : WINPR_THREAD) := Thread (started t) (th_fd0 t) (th_fd1 t) (detached t) (joined t) e code
  (th_thread t) (lpStartAddress t) (lpParameter t).

Definition upd_thread (h : Z) (f : WINPR_THREAD → WINPR_THREAD) : K unit :=
  t ← thread_at h; modify (set_body h (BThread (f t))).

Definition set_event (h : Z) : K bool :=
  t ← thread_at h; r ← retry (eventfd_write (th_fd0 t) 1); mret (r.1 =? 0).

(** [eventfd_read] answers 0 on success, but a positive length is looked for. *)
Definition reset_event (h : Z) : K bool :=
  t ← thread_at h; r ← retry (eventfd_read (th_fd0 t)); mret (0 <? r.1).

(** [thread_compare] on the threads of two objects, through the keys' pointers. *)
Definition thread_compare (tid : Z) (h : Z) : K bool := t ← thread_at h; mret (th_thread t =? tid).

(** The first entry of the list whose key equals [tid], and its removal. *)
Fixpoint find_thread (l : list Z) (tid : Z) : K (option Z) :=
  match l with
  | [] => mret None
  | h :: l => b ← thread_compare tid h; if b : bool then mret (Some h) else find_thread l tid
  end.

Definition thread_list_GetItemValue (tid : Z) : K (option Z) :=
  l ← gets thread_list;
  match l with None => mret None | Some l => find_thread l tid end.

Definition thread_list_Contains (tid : Z) : K bool := r ← thread_list_GetItemValue tid; mret (bool_decide (is_Some r)).

(** The list without its first entry [h]. *)
Fixpoint remove_first (h : Z) (l : list Z) : list Z :=
  match l with [] => [] | x :: l => if x =? h then l else x :: remove_first h l end.

Definition thread_list_Remove (tid : Z) : K unit :=
  r ← thread_list_GetItemValue tid;
  match r with
  | None => mret ()
  | Some h => modify (λ k, set_thread_list (remove_first h <$> thread_list k) k)
  end.

Definition cleanup_handle (h : Z) : K unit :=
  t ← thread_at h;
  (if 0 <=? th_fd0 t then sys_close (th_fd0 t) else mret ());;
  (if 0 <=? th_fd1 t then sys_close (th_fd1 t) else mret ());;
  b ← thread_list_Contains (th_thread t);
  (if b : bool then thread_list_Remove (th_thread t) else mret ());;
  free h.

(** The label [exit] of the launcher: code, event, and the memory when nobody
    else will give it back. *)
Definition launcher_exit (h rc : Z) : K unit :=
  t ← thread_at h;
  (if negb (exited t) then upd_thread h (set_exit (exited t) (u32 rc)) else mret ());;
  set_event h;;
  t ← thread_at h;
  if detached t || negb (started t) then cleanup_handle h else mret ().

(** What runs in the new thread: it waits until it is in the list of threads,
    then calls the start routine [fkt]. *)
Definition thread_launcher (fkt : Z → K Z) (h : Z) : K Z :=
  if h =? 0 then mret 0
  else
    t ← thread_at h;
    rc ← (if lpStartAddress t =? 0 then mret 0
          else
            b ← thread_list_Contains (th_thread t);
            (if b : bool then mret (Woken ())
             else awaitK (λ k, match thread_list k with Some l => if bool_decide (h ∈ l) then Some () else None | None => None end) now None false);;
            b ← thread_list_Contains (th_thread t);
            if negb b then undefined else fkt (lpParameter t));
    launcher_exit h rc;;
    mret rc.

(** What the system answers: [calloc], [eventfd], [pthread_create] with the new
    thread's identifier, and whether the list and its entry can be allocated. *)
Record thread_os := ThreadOs { th_calloc : Z; th_eventfd : Z; th_create : Z; th_tid : Z; th_list : bool; th_add : bool }.

(** [ListDictionary_Add] appends. *)
Definition thread_list_Add (ok : bool) (h : Z) : K bool :=
  l ← gets thread_list;
  match l with
  | Some l => if ok then modify (set_thread_list (Some (l ++ [h])));; mret true else mret false
  | None => mret false
  end.

Definition winpr_StartThread (os : thread_os) (h : Z) : K bool :=
  upd_thread h (λ t, set_started true (th_fd0 t) (th_thread t) t);;
  reset_event h;;
  if negb (th_create os =? 0) then mret false
  else
    modify (λ k, set_threads (<[th_tid os := false]> (threads k)) k);;
    upd_thread h (λ t, set_started (started t) (th_fd0 t) (th_tid os) t);;
    thread_list_Add (th_add os) h.

(** The labels [error_thread_list] to [error_pipefd0]. *)
Definition create_error (h : Z) : K Z :=
  t ← thread_at h;
  (if 0 <=? th_fd1 t then sys_close (th_fd1 t) else mret ());;
  (if 0 <=? th_fd0 t then sys_close (th_fd0 t) else mret ());;
  free h;;
  mret 0.

Definition CreateThread (os : thread_os) (startAddress param dwCreationFlags : Z) : K Z :=
  if th_calloc os =? 0 then mret 0
  else
    let h := th_calloc os in
    modify (set_obj h (Object 0 0 (Some ThreadOps) (BThread (Thread false (-1) (-1) false false false 0 0 startAddress param))));;
    fd ← sys_eventfd (th_eventfd os);
    upd_thread h (λ t, set_started (started t) fd (th_thread t) t);;
    if fd <? 0 then free h;; mret 0
    else
      o ← object_at h;
      modify (set_obj h (Object HANDLE_TYPE_THREAD UZI_FD_READ (ops o) (obody o)));;
      l ← gets thread_list;
      (match l with None => if th_list os then modify (set_thread_list (Some [])) else mret () | Some _ => mret () end);;
      l ← gets thread_list;
      match l with
      | None => create_error h
      | Some _ =>
        ok ← (if negb (nonzero (Z.land dwCreationFlags CREATE_SUSPENDED)) then winpr_StartThread os h else set_event h);
        if negb ok then create_error h else mret h
      end.

(** [pthread_detach]: the system forgets the thread. *)
Definition pthread_detach (tid : Z) : K unit := modify (λ k, set_threads (delete tid (threads k)) k).

Definition ThreadCloseHandle (h : Z) : K bool :=
  l ← gets thread_list;
  match l with
  | None => mret true
  | Some _ =>
    t ← thread_at h;
    b ← thread_list_Contains (th_thread t);
    if negb b then mret true
    else
      detach ← (if started t then rc ← WaitForSingleObject h 0; mret (negb (rc =? WAIT_OBJECT_0)) else mret false);
      (if detach : bool then upd_thread h set_detached;; pthread_detach (th_thread t) else cleanup_handle h);;
      l ← gets thread_list;
      (match l with Some [] => modify (set_thread_list None) | _ => mret () end);;
      mret true
  end.

(** [ExitThread] in the calling thread: its exit code, when it is one of ours. *)
Definition ExitThread (code : Z) : K Z :=
  tid ← gets self;
  r ← thread_list_GetItemValue tid;
  match r with
  | None => mret 0
  | Some h =>
    upd_thread h (set_exit true (u32 code));;
    set_event h;;
    t ← thread_at h;
    (if detached t || negb (started t) then cleanup_handle h else mret ());;
    mret (dwExitCode t)
  end.

Definition GetExitCodeThread (h : Z) : K (option Z) :=
  i ← winpr_Handle_GetInfo h;
  match i with None => mret None | Some _ => t ← thread_at h; mret (Some (dwExitCode t)) end.

Definition _GetCurrentThread : K Z :=
  tid ← gets self; r ← thread_list_GetItemValue tid; mret (default 0 r).

Definition ResumeThread (os : thread_os) (h : Z) : K Z :=
  i ← winpr_Handle_GetInfo h;
  match i with
  | None => mret (u32 (-1))
  | Some _ =>
    t ← thread_at h;
    if negb (started t) then
      ok ← winpr_StartThread os h;
      if negb ok then mret (u32 (-1)) else mret 0
    else mret 0
  end.

(** [pthread_cancel] only asks the thread to end; its object is told at once. *)
Definition TerminateThread (h code : Z) : K bool :=
  i ← winpr_Handle_GetInfo h;
  match i with
  | None => mret false
  | Some _ => upd_thread h (set_exit true (u32 code));; set_event h;; mret true
  end.

Definition SwitchToThread : K bool := mret true.

Definition GetCurrentThreadId : K Z := tid ← gets self; mret (Z.land (u32 tid) 4294967295).

(** ** Specification *)

(** The kernel [k] with a thread object [t] at [h] on the eventfd [fd] with
    count [n], the list of threads [l] and the system's threads [ths]. *)
Definition thread_state (h fd n : Z) (t : WINPR_THREAD) (l : option (list Z)) (ths : gmap Z bool) (k : kernel) : kernel :=
  set_obj h (Object HANDLE_TYPE_THREAD UZI_FD_READ (Some ThreadOps) (BThread t))
    (set_file fd (FdEvent n) (set_threads ths (set_thread_list l k))).

(** A started thread: running, or ended with an exit code. *)
Definition started_thread (fd tid start param : Z) : WINPR_THREAD := Thread true fd (-1) false false false 0 tid start param.

(** The other threads in the list: live objects with other identifiers. *)
Definition others (k : kernel) (h tid : Z) (l : list Z) : Prop :=
  Forall (λ x, x ≠ h ∧ ∃ ty mo op t, objs k !! x = Some (Object ty mo op (BThread t)) ∧ th_thread t ≠ tid) l.

(** What another thread does, as an action of the environment. *)
Definition by_thread (m : K unit) : env := Act (λ k, match m (World k []) with Ok (_, w) => kern w | _ => k end).

(** The thread [tid] ends: a joinable thread remains until it is joined. *)
Definition thread_end (tid : Z) : K unit :=
  modify (λ k, set_threads (alter (λ _, true) tid (threads k)) k).

(** ** Lemmas *)

Section ThreadState.
Context (h fd : Z) (Hv : valid_handle h) (Hfd : 0 <= fd).

Local Abbreviation state := (thread_state h fd).

Lemma state_obj n t l ths k : objs (state n t l ths k) !! h = Some (Object HANDLE_TYPE_THREAD UZI_FD_READ (Some ThreadOps) (BThread t)).
Proof. cbn. by rewrite lookup_insert_eq. Qed.

Lemma thread_at_ok n t l ths k s : thread_at h (World (state n t l ths k) s) = Ok (t, World (state n t l ths k) s).
Proof. unfold thread_at. by rewrite (bind_object _ _ _ _ _ (state_obj n t l ths k)). Qed.

Lemma upd_thread_ok f n t l ths k s : upd_thread h f (World (state n t l ths k) s) = Ok ((), World (state n (f t) l ths k) s).
Proof.
  unfold upd_thread. kstep (thread_at_ok n t l ths k s). unfold modify. do 3 f_equal. unfold thread_state, set_body. kernel_eq.
  by rewrite alter_insert_eq.
Qed.

Lemma state_file n t l ths k : files (state n t l ths k) !! fd = Some (FdEvent n).
Proof. cbn. by rewrite lookup_insert_eq. Qed.

Lemma state_set_file n m t l ths k : set_file fd (FdEvent m) (state n t l ths k) = state m t l ths k.
Proof. unfold thread_state. kernel_eq. by rewrite insert_insert_eq. Qed.

(** Writing and reading the eventfd of a descriptor with a known count. *)
Lemma eventfd_write_ok k s n : files k !! fd = Some (FdEvent n) → 0 <= n < EVENTFD_MAX →
  retry (eventfd_write fd 1) (World k s) = Ok ((0, ()), World (set_file fd (FdEvent (n + 1)) k) s).
Proof.
  intros Hf Hn. apply (retry_once (eventfd_write fd 1) _ 0 0 ()); [|by left]. unfold eventfd_write, sys_write, gets, mbind, K_bind. cbn. rewrite Hf. cbn.
  change (1 =? 2 ^ 64 - 1) with false. cbn. by destruct (Z.ltb_spec EVENTFD_MAX (n + 1)); [lia|].
Qed.

Lemma eventfd_read_ok k s n : files k !! fd = Some (FdEvent n) → 0 <= n →
  retry (eventfd_read fd) (World k s) = Ok ((if n =? 0 then -1 else 0, ()), World (set_file fd (FdEvent 0) k) s).
Proof.
  intros Hf Hn. unfold eventfd_read.
  assert (Hc : ∀ e, (n =? 0) = false ∧ e = 0 ∨ (n =? 0) = true ∧ e = EAGAIN →
    (r ← sys_read fd 8; mret (if r.1 =? 8 then 0 else -1, r.2, ())) (World k s) =
    Ok ((if n =? 0 then -1 else 0, e, ()), World (set_file fd (FdEvent 0) k) s)).
  { intros e He. unfold sys_read, gets, mbind, K_bind. cbn. rewrite Hf. cbn.
    destruct (Z.eqb_spec n 0) as [->|]; destruct He as [[? ->]|[? ->]]; try done. cbn. by rewrite set_file_id. }
  destruct (n =? 0) eqn:En.
  - apply (retry_once _ _ (-1) EAGAIN ()); [apply Hc; by right|by left].
  - apply (retry_once _ _ 0 0 ()); [apply Hc; by left|by left].
Qed.

Lemma set_event_ok n t l ths k s : th_fd0 t = fd → 0 <= n < EVENTFD_MAX →
  set_event h (World (state n t l ths k) s) = Ok (true, World (state (n + 1) t l ths k) s).
Proof.
  intros Ht Hn. unfold set_event. kstep (thread_at_ok n t l ths k s). rewrite Ht.
  kstep (eventfd_write_ok (state n t l ths k) s n (state_file n t l ths k) Hn). by rewrite state_set_file.
Qed.

(** [reset_event] clears the event, and always answers FALSE. *)
Lemma reset_event_ok n t l ths k s : th_fd0 t = fd → 0 <= n →
  reset_event h (World (state n t l ths k) s) = Ok (false, World (state 0 t l ths k) s).
Proof.
  intros Ht Hn. unfold reset_event. kstep (thread_at_ok n t l ths k s). rewrite Ht.
  kstep (eventfd_read_ok (state n t l ths k) s n (state_file n t l ths k) Hn). rewrite state_set_file.
  cbn [fst]. by destruct (n =? 0).
Qed.

(** Looking a thread up in the list. *)
Lemma find_thread_skip k s tid l r : Forall (λ x, ∃ ty mo op t, objs k !! x = Some (Object ty mo op (BThread t)) ∧ th_thread t ≠ tid) l →
  find_thread (l ++ r) tid (World k s) = find_thread r tid (World k s).
Proof.
  induction 1 as [|x l (ty & mo & op & t & Hx & Ht) _ IH]; [done|]. cbn [app find_thread]. unfold thread_compare, thread_at.
  rewrite bind_bind, bind_bind. rewrite (bind_object _ _ _ _ _ Hx). cbn [obody]. krun.
  rewrite (proj2 (Z.eqb_neq (th_thread t) tid)) by done. exact IH.
Qed.

Lemma others_state n t l ths k tid r : others k h tid r →
  Forall (λ x, ∃ ty mo op t', objs (state n t l ths k) !! x = Some (Object ty mo op (BThread t')) ∧ th_thread t' ≠ tid) r.
Proof.
  intros H. eapply Forall_impl; [exact H|]. intros x (Hne & ty & mo & op & t' & Hx & Ht). exists ty, mo, op, t'. cbn.
  by rewrite lookup_insert_ne.
Qed.

Lemma get_item_ok n t r ths k s : others k h (th_thread t) r →
  thread_list_GetItemValue (th_thread t) (World (state n t (Some (r ++ [h])) ths k) s) =
  Ok (Some h, World (state n t (Some (r ++ [h])) ths k) s).
Proof.
  intros Ho. unfold thread_list_GetItemValue. unfold gets. unfold mbind, K_bind at 1. cbn [kern].
  change (thread_list (state n t (Some (r ++ [h])) ths k)) with (Some (r ++ [h])). cbv iota.
  rewrite find_thread_skip by (by apply others_state). cbn [find_thread]. unfold thread_compare. rewrite bind_bind.
  kstep (thread_at_ok n t (Some (r ++ [h])) ths k s). rewrite Z.eqb_refl. by krun.
Qed.

Lemma contains_ok n t r ths k s : others k h (th_thread t) r →
  thread_list_Contains (th_thread t) (World (state n t (Some (r ++ [h])) ths k) s) =
  Ok (true, World (state n t (Some (r ++ [h])) ths k) s).
Proof. intros Ho. unfold thread_list_Contains. by kstep (get_item_ok n t r ths k s Ho). Qed.

Lemma remove_first_app r : h ∉ r → remove_first h (r ++ [h]) = r.
Proof.
  induction r as [|x r IH]; intros Hn; cbn; [by rewrite Z.eqb_refl|]. apply not_elem_of_cons in Hn as [Hne Hn].
  destruct (Z.eqb_spec x h); [congruence|]. by rewrite IH.
Qed.

Lemma others_not_in k tid r : others k h tid r → h ∉ r.
Proof. intros Ho Hin. unfold others in Ho. rewrite Forall_forall in Ho. by destruct (Ho h Hin). Qed.
End ThreadState.

(** Polling the eventfd of a thread. *)
Lemma poll_event k fd n : 0 <= fd → files k !! fd = Some (FdEvent n) →
  poll_ready [Pollfd fd POLLIN] k = if 0 <? n then Some [POLLIN] else None.
Proof.
  intros Hfd Hf. unfold poll_ready, revents, poll_state. cbn [map pfd events]. rewrite Hf.
  destruct (Z.ltb_spec fd 0); [lia|]. by destruct (0 <? n), (n <? EVENTFD_MAX).
Qed.

Lemma await_act {A} (ready : kernel → option A) clock intr f s k : ready k = None →
  await ready clock None intr (Act f :: s) k = await ready clock None intr s (f k).
Proof. intros E. cbn. by rewrite E. Qed.

(** A wait without a deadline that the next action of the environment ends. *)
Lemma retry_poll_act l f s k r : poll_ready l k = None → poll_ready l (f k) = Some r →
  retry (sys_poll l INFINITE) (World k (Act f :: s)) = Ok ((poll_count r, r), World (f k) s).
Proof.
  intros H0 H1. unfold retry. rewrite retry_unfold. unfold sys_poll.
  rewrite (K_bind_ok (gets now) _ _ (now k) (World k (Act f :: s))) by done.
  change (s32 INFINITE <? 0) with true. cbv iota.
  rewrite (K_bind_ok (awaitK _ _ _ _) _ _ (Woken r) (World (f k) s)).
  - cbn. replace (poll_count r <? 0) with false; [done|]. symmetry. apply Z.ltb_ge. unfold poll_count. lia.
  - unfold awaitK. cbn [script kern]. rewrite await_act by done. by apply await_now.
Qed.

Section Lifecycle.
Context (h fd : Z) (Hv : valid_handle h) (Hfd : 0 <= fd).
Local Abbreviation state := (thread_state h fd).

Lemma thread_wait_eq n t l ths k s ms : th_fd0 t = fd →
  WaitForSingleObject h ms (World (state n t l ths k) s) =
  match retry (sys_poll [Pollfd fd POLLIN] ms) (World (state n t l ths k) s) with
  | Ok ((status, _), w1) =>
    if status <? 0 then (SetLastError ERROR_INTERNAL_ERROR;; mret WAIT_FAILED) w1
    else if negb (status =? 1) then Ok (WAIT_TIMEOUT, w1)
    else winpr_Handle_cleanup h w1
  | UB => UB | NoFuel => NoFuel
  end.
Proof.
  intros Ht. pose proof (state_obj h fd n t l ths k) as Ho.
  assert (Hgf : winpr_Handle_getFd h (World (state n t l ths k) s) = Ok (fd, World (state n t l ths k) s)).
  { unfold winpr_Handle_getFd. kstep (info_ok _ s h _ Hv Ho). rewrite (bind_object _ _ _ _ _ Ho). cbn [ops ops_table GetFd].
    unfold ThreadGetFd. kstep (is_handled_ok _ s h _ Hv Ho). kstep (thread_at_ok h fd n t l ths k s). by rewrite Ht. }
  by rewrite (wait_fd_eq _ s h _ fd ms Hv Ho ltac:(done) Hgf Hfd).
Qed.

(** Cleaning up after the wait joins the ended thread, the first time. *)
Lemma thread_cleanup_ok n t l ths k s : joined t = false → ths !! th_thread t = Some true →
  winpr_Handle_cleanup h (World (state n t l ths k) s) =
  Ok (WAIT_OBJECT_0, World (state n (set_joined t) l (delete (th_thread t) ths) k) s).
Proof.
  intros Hj Ht. pose proof (state_obj h fd n t l ths k) as Ho. unfold winpr_Handle_cleanup.
  kstep (info_ok _ s h _ Hv Ho). rewrite (bind_object _ _ _ _ _ Ho). cbn [ops ops_table CleanupHandle].
  unfold ThreadCleanupHandle. kstep (is_handled_ok _ s h _ Hv Ho). kstep (thread_at_ok h fd n t l ths k s). rewrite Hj.
  rewrite (K_bind_ok (pthread_join (th_thread t)) _ _ 0 (World (state n t l (delete (th_thread t) ths) k) s)).
  - cbn [Z.eqb negb]. kstep (thread_at_ok h fd n t l (delete (th_thread t) ths) k s).
    rewrite bind_modify. unfold mret, K_ret. do 3 f_equal. unfold thread_state, set_body. kernel_eq. by rewrite alter_insert_eq.
  - unfold pthread_join. rewrite (K_bind_ok (awaitK _ _ _ _) _ _ (Woken true) (World (state n t l ths k) s)); [done|].
    apply await_now. change (threads (state n t l ths k)) with ths. by rewrite Ht.
Qed.

Lemma thread_cleanup_again n t l ths k s : joined t = true →
  winpr_Handle_cleanup h (World (state n t l ths k) s) = Ok (WAIT_OBJECT_0, World (state n t l ths k) s).
Proof.
  intros Hj. pose proof (state_obj h fd n t l ths k) as Ho. unfold winpr_Handle_cleanup.
  kstep (info_ok _ s h _ Hv Ho). rewrite (bind_object _ _ _ _ _ Ho). cbn [ops ops_table CleanupHandle].
  unfold ThreadCleanupHandle. kstep (is_handled_ok _ s h _ Hv Ho). kstep (thread_at_ok h fd n t l ths k s). by rewrite Hj.
Qed.

(** A poll of the event when it is set, and when it is not. *)
Lemma thread_wait_set n t l ths k s ms : th_fd0 t = fd → 0 < n →
  WaitForSingleObject h ms (World (state n t l ths k) s) = winpr_Handle_cleanup h (World (state n t l ths k) s).
Proof.
  intros Ht Hn. rewrite thread_wait_eq by done. rewrite (retry_poll_ready _ _ _ [POLLIN]); [done|]. cbn [kern].
  rewrite (poll_event _ fd n Hfd (state_file h fd n t l ths k)). by rewrite (proj2 (Z.ltb_lt 0 n)).
Qed.

Lemma thread_wait_unset t l ths k s : th_fd0 t = fd →
  WaitForSingleObject h 0 (World (state 0 t l ths k) s) = Ok (WAIT_TIMEOUT, World (state 0 t l ths k) s).
Proof.
  intros Ht. rewrite thread_wait_eq by done. rewrite retry_poll_zero; [done|]. cbn [kern].
  by rewrite (poll_event _ fd 0 Hfd (state_file h fd 0 t l ths k)).
Qed.

(** Removing a thread: its descriptor, its entry in the list, its memory. *)
Lemma cleanup_handle_ok n t r ths k s : th_fd0 t = fd → th_fd1 t = -1 → others k h (th_thread t) r →
  objs k !! h = None → files k !! fd = None →
  cleanup_handle h (World (state n t (Some (r ++ [h])) ths k) s) =
  Ok ((), World (set_threads ths (set_thread_list (Some r) k)) s).
Proof.
  intros Hf0 Hf1 Ho Hnone Hfn. unfold cleanup_handle. kstep (thread_at_ok h fd n t (Some (r ++ [h])) ths k s). rewrite Hf0, Hf1.
  rewrite (proj2 (Z.leb_le 0 fd)) by done. change (0 <=? -1) with false. cbv iota.
  unfold sys_close, free. krun.
  set (kc := set_files (delete fd (files (state n t (Some (r ++ [h])) ths k))) (state n t (Some (r ++ [h])) ths k)).
  assert (Hat : ∀ x A (g : object → K A) o, objs (state n t (Some (r ++ [h])) ths k) !! x = Some o → (object_at x ≫= g) (World kc s) = g o (World kc s))
    by (intros x A g o Hx; by apply bind_object).
  assert (Hget : thread_list_GetItemValue (th_thread t) (World kc s) = Ok (Some h, World kc s)).
  { unfold thread_list_GetItemValue, gets. unfold mbind, K_bind at 1. cbn [kern].
    change (thread_list kc) with (Some (r ++ [h])). cbv iota.
    rewrite find_thread_skip by (exact (others_state h fd n t (Some (r ++ [h])) ths k (th_thread t) r Ho)).
    cbn [find_thread]. unfold thread_compare, thread_at. rewrite !bind_bind.
    rewrite (Hat h _ _ _ (state_obj h fd n t (Some (r ++ [h])) ths k)). cbn [obody]. krun. by rewrite Z.eqb_refl. }
  unfold thread_list_Contains. rewrite bind_bind. kstep Hget. cbn [bool_decide]. rewrite bind_ret.
  rewrite bool_decide_true by eauto. unfold thread_list_Remove. rewrite bind_bind. kstep Hget.
  rewrite bind_modify. unfold modify. do 3 f_equal. kernel_eq.
  - by rewrite delete_insert_id.
  - by rewrite delete_insert_id.
  - by rewrite (remove_first_app h r (others_not_in h k _ r Ho)).
Qed.
End Lifecycle.

(** *** Creation *)

Definition list_ready (os : thread_os) (k : kernel) (r : list Z) : Prop :=
  thread_list k = Some r ∨ (thread_list k = None ∧ th_list os = true ∧ r = []).

(** Up to the start of the thread. *)
Lemma CreateThread_start os a p flags k s r : valid_handle (th_calloc os) → 0 <= th_eventfd os → list_ready os k r →
  let h := th_calloc os in let fd := th_eventfd os in
  CreateThread os a p flags (World k s) =
  (ok ← (if negb (nonzero (Z.land flags CREATE_SUSPENDED)) then winpr_StartThread os h else set_event h);
   if negb ok then create_error h else mret h)
  (World (thread_state h fd 0 (Thread false fd (-1) false false false 0 0 a p) (Some r) (threads k) k) s).
Proof.
  intros Hv Hfd Hl h fd. pose proof Hv as [Hh _]. unfold CreateThread. rewrite (proj2 (Z.eqb_neq (th_calloc os) 0)) by done.
  fold h fd. cbv zeta. unfold sys_eventfd. rewrite (proj2 (Z.ltb_ge fd 0)) by lia. krun.
  set (t0 := Thread false (-1) (-1) false false false 0 0 a p). set (t1 := Thread false fd (-1) false false false 0 0 a p).
  set (ka := set_file fd (FdEvent 0) (set_obj h (Object 0 0 (Some ThreadOps) (BThread t0)) k)).
  set (kb := set_file fd (FdEvent 0) (set_obj h (Object 0 0 (Some ThreadOps) (BThread t1)) k)).
  assert (Hup : upd_thread h (λ t, set_started (started t) fd (th_thread t) t) (World ka s) = Ok ((), World kb s)).
  { unfold upd_thread, thread_at. rewrite bind_bind. rewrite (bind_object ka s h (Object 0 0 (Some ThreadOps) (BThread t0))) by (cbn; by rewrite lookup_insert_eq).
    cbn [obody]. krun. unfold modify. do 3 f_equal. unfold kb, ka, set_body. kernel_eq. by rewrite alter_insert_eq. }
  kstep Hup. rewrite (proj2 (Z.ltb_ge fd 0)) by lia. rewrite (bind_object kb s h (Object 0 0 (Some ThreadOps) (BThread t1))) by (cbn; by rewrite lookup_insert_eq).
  cbn [ops obody]. krun.
  set (kc := set_obj h (Object HANDLE_TYPE_THREAD UZI_FD_READ (Some ThreadOps) (BThread t1)) kb).
  assert (Hkc : set_thread_list (Some r) kc = thread_state h fd 0 t1 (Some r) (threads k) k).
  { unfold kc, kb, thread_state. kernel_eq. by rewrite insert_insert_eq. }
  rewrite <- Hkc. destruct Hl as [Hl|(Hl & Hnew & ->)].
  - assert (Hid : set_thread_list (Some r) kc = kc) by (unfold kc, kb; kernel_eq; by rewrite Hl). rewrite Hid.
    unfold gets. unfold mbind at 1, K_bind at 1. cbn [kern]. change (thread_list kc) with (thread_list k). rewrite Hl. krun.
    unfold mbind at 1, K_bind at 1. cbn [kern]. change (thread_list kc) with (thread_list k). by rewrite Hl.
  - unfold gets. unfold mbind at 1, K_bind at 1. cbn [kern]. change (thread_list kc) with (thread_list k). rewrite Hl, Hnew. krun. done.
Qed.

Lemma StartThread_ok os a p k s r : th_create os = 0 → th_add os = true → 0 <= th_eventfd os →
  let h := th_calloc os in let fd := th_eventfd os in
  winpr_StartThread os h (World (thread_state h fd 0 (Thread false fd (-1) false false false 0 0 a p) (Some r) (threads k) k) s) =
  Ok (true, World (thread_state h fd 0 (started_thread fd (th_tid os) a p) (Some (r ++ [h])) (<[th_tid os := false]> (threads k)) k) s).
Proof.
  intros Hc Ha Hfd h fd. set (t0 := Thread false fd (-1) false false false 0 0 a p). set (t1 := set_started true fd 0 t0).
  set (ths := <[th_tid os := false]> (threads k)). unfold winpr_StartThread.
  kstep (upd_thread_ok h fd (λ t, set_started true (th_fd0 t) (th_thread t) t) 0 t0 (Some r) (threads k) k s).
  change (set_started true (th_fd0 t0) (th_thread t0) t0) with t1.
  kstep (reset_event_ok h fd 0 t1 (Some r) (threads k) k s eq_refl ltac:(lia)).
  rewrite Hc, Ha. cbn [Z.eqb negb]. rewrite bind_modify.
  change (set_threads _ _) with (thread_state h fd 0 t1 (Some r) ths k).
  by kstep (upd_thread_ok h fd (λ t, set_started (started t) (th_fd0 t) (th_tid os) t) 0 t1 (Some r) ths k s).
Qed.

(** The exit of a running thread, as an action of the environment. *)
Lemma thread_exit_ok h fd tid a p rc l ths k : ths !! tid = Some false →
  (launcher_exit h rc;; thread_end tid) (World (thread_state h fd 0 (started_thread fd tid a p) l ths k) []) =
  Ok ((), World (thread_state h fd 1 (set_exit false (u32 rc) (started_thread fd tid a p)) l (<[tid := true]> ths) k) []).
Proof.
  intros Ht. set (t := started_thread fd tid a p). unfold launcher_exit. rewrite bind_bind. kstep (thread_at_ok h fd 0 t l ths k []).
  cbn [exited t started_thread negb]. rewrite bind_bind. kstep (upd_thread_ok h fd (set_exit false (u32 rc)) 0 t l ths k []).
  rewrite bind_bind. kstep (set_event_ok h fd 0 (set_exit false (u32 rc) t) l ths k [] eq_refl ltac:(unfold EVENTFD_MAX; lia)).
  rewrite bind_bind. kstep (thread_at_ok h fd 1 (set_exit false (u32 rc) t) l ths k []). cbn [detached started set_exit t started_thread negb orb].
  krun. unfold thread_end, modify. do 3 f_equal. unfold thread_state. kernel_eq.
  replace (alter (λ _, true) tid ths) with (<[tid := true]> ths); [done|].
  apply map_eq. intros i. destruct (decide (i = tid)) as [->|]; [by rewrite lookup_insert_eq, lookup_alter_eq, Ht|].
  by rewrite lookup_insert_ne, lookup_alter_ne.
Qed.

(** ** Theorems *)

(** C29: the life of a thread. The thread that CreateThread starts is not
    signalled while it runs; when it ends with [rc], a waiting thread wakes up
    with 0, GetExitCodeThread gives [rc] modulo 2^32 and every later wait
    succeeds at once; closing the handle then gives back the descriptor, the
    memory, the entry in the list of threads (the list itself when it becomes
    empty) and leaves the rest of the system as it was. *)
Theorem thread_lifecycle os a p rc k s r :
  let h := th_calloc os in let fd := th_eventfd os in let tid := th_tid os in
  valid_handle h → 0 <= fd → objs k !! h = None → files k !! fd = None → th_create os = 0 → th_add os = true →
  list_ready os k r → others k h tid r →
  ∃ running ended,
    CreateThread os a p 0 (World k s) = Ok (h, World running s) ∧
    WaitForSingleObject h 0 (World running s) = Ok (WAIT_TIMEOUT, World running s) ∧
    WaitForSingleObject h INFINITE (World running (by_thread (launcher_exit h rc;; thread_end tid) :: s)) = Ok (WAIT_OBJECT_0, World ended s) ∧
    GetExitCodeThread h (World ended s) = Ok (Some (u32 rc), World ended s) ∧
    WaitForSingleObject h INFINITE (World ended s) = Ok (WAIT_OBJECT_0, World ended s) ∧
    ThreadCloseHandle h (World ended s) =
      Ok (true, World (set_thread_list (match r with [] => None | _ => Some r end) (set_threads (delete tid (threads k)) k)) s).
Proof.
  intros h fd tid Hv Hfd Hno Hnf Hc Ha Hl Hoth.
  set (ths := <[tid := false]> (threads k)). set (t := started_thread fd tid a p). set (l := Some (r ++ [h])).
  set (t' := set_joined (set_exit false (u32 rc) t)).
  assert (Hths : delete tid (<[tid := true]> ths) = delete tid (threads k)) by (unfold ths; by rewrite !delete_insert_eq).
  assert (Hlook : ths !! tid = Some false) by (unfold ths; by rewrite lookup_insert_eq).
  exists (thread_state h fd 0 t l ths k), (thread_state h fd 1 t' l (delete tid (threads k)) k). split_and!.
  - rewrite (CreateThread_start os a p 0 k s r Hv Hfd Hl). change (negb (nonzero (Z.land 0 CREATE_SUSPENDED))) with true. cbv iota.
    by kstep (StartThread_ok os a p k s r Hc Ha Hfd).
  - by apply thread_wait_unset.
  - rewrite (thread_wait_eq h fd Hv Hfd) by done. unfold by_thread. rewrite (retry_poll_act _ _ _ _ [POLLIN]).
    + cbn -[winpr_Handle_cleanup]. pose proof (thread_exit_ok h fd tid a p rc l ths k Hlook) as He. fold t in He. rewrite He. cbn [kern].
      rewrite (thread_cleanup_ok h fd Hv 1 (set_exit false (u32 rc) t) l (<[tid := true]> ths) k s eq_refl) by (cbn; by rewrite lookup_insert_eq).
      cbn [th_thread set_exit t started_thread]. by rewrite Hths.
    + rewrite (poll_event _ fd 0 Hfd (state_file h fd 0 t l ths k)). done.
    + pose proof (thread_exit_ok h fd tid a p rc l ths k Hlook) as He. fold t in He. rewrite He. cbn [kern].
      by rewrite (poll_event _ fd 1 Hfd (state_file h fd 1 _ l _ k)).
  - unfold GetExitCodeThread. kstep (info_ok _ s h _ Hv (state_obj h fd 1 t' l (delete tid (threads k)) k)).
    by kstep (thread_at_ok h fd 1 t' l (delete tid (threads k)) k s).
  - rewrite (thread_wait_set h fd Hv Hfd) by (done || lia). by apply thread_cleanup_again.
  - unfold ThreadCloseHandle. unfold gets. unfold mbind at 1, K_bind at 1. cbn [kern].
    change (thread_list (thread_state h fd 1 t' l (delete tid (threads k)) k)) with l. unfold l at 1. cbv iota.
    kstep (thread_at_ok h fd 1 t' l (delete tid (threads k)) k s).
    kstep (contains_ok h fd 1 t' r (delete tid (threads k)) k s Hoth). cbn [negb started t' set_joined set_exit t started_thread].
    rewrite (K_bind_ok (rc ← WaitForSingleObject h 0; mret (negb (rc =? WAIT_OBJECT_0))) _ _ false
      (World (thread_state h fd 1 t' l (delete tid (threads k)) k) s)).
    + kstep (cleanup_handle_ok h fd Hfd 1 t' r (delete tid (threads k)) k s eq_refl eq_refl Hoth Hno Hnf).
      unfold mbind, K_bind. cbn [kern]. change (thread_list _) with (Some r) at 1. cbv iota. destruct r; done.
    + unfold mbind at 1, K_bind at 1. rewrite (thread_wait_set h fd Hv Hfd) by (done || lia). by rewrite (thread_cleanup_again h fd Hv).
Qed.

(** *** Closing a running thread

    The steps of [launcher_exit] and [ThreadCloseHandle] that look at or change
    the event and the flag [detached], as they interleave. *)

Inductive launcher_pc := LRunning | LEventSet | LEnded.
Inductive closer_pc := CStart | CNotSignalled | CSignalled | CDone.
Record race := Race { l_pc : launcher_pc; c_pc : closer_pc; is_set : bool; is_detached : bool; frees : nat }.

Inductive race_step : race → race → Prop :=
  | launcher_sets c e d n : race_step (Race LRunning c e d n) (Race LEventSet c true d n)
  | launcher_frees c e n : race_step (Race LEventSet c e true n) (Race LEnded c e true (S n))
  | launcher_leaves c e n : race_step (Race LEventSet c e false n) (Race LEnded c e false n)
  | closer_polls l e d n : race_step (Race l CStart e d n) (Race l (if e : bool then CSignalled else CNotSignalled) e d n)
  | closer_detaches l e d n : race_step (Race l CNotSignalled e d n) (Race l CDone e true n)
  | closer_joins e d n : race_step (Race LEnded CSignalled e d n) (Race LEnded CDone e d (S n)).

Definition race_init (s : race) : Prop := s = Race LRunning CStart false false 0.

Definition race_ok (s : race) : Prop :=
  (frees s ≤ 1)%nat ∧ (l_pc s ≠ LEnded → frees s = 0%nat) ∧ (c_pc s ≠ CDone → is_detached s = false ∧ frees s = 0%nat).

Lemma race_inv s : reachable race_init race_step s → race_ok s.
Proof.
  apply (reachable_inv race_init race_step race_ok); clear s.
  - intros s ->. split_and!; [cbn; lia|done|done].
  - intros s s' (H1 & H2 & H3) Hs.
    destruct Hs; unfold race_ok; cbn in *; split_and!; try done; try (intros; naive_solver lia).
Qed.

(** closing the handle of a thread while the thread ends. In every
    interleaving the object is freed at most once, and never while the thread
    still runs; but when the thread sets its event and tests [detached] between
    the closer's poll and its setting of the flag, neither frees it: a leak. *)
Theorem thread_close_race :
  (∀ s, reachable race_init race_step s → (frees s ≤ 1)%nat ∧ (l_pc s ≠ LEnded → frees s = 0%nat)) ∧
  (∃ s, reachable race_init race_step s ∧ l_pc s = LEnded ∧ c_pc s = CDone ∧ frees s = 1%nat) ∧
  (∃ s, reachable race_init race_step s ∧ l_pc s = LEnded ∧ c_pc s = CDone ∧ frees s = 0%nat).
Proof.
  assert (H0 : reachable race_init race_step (Race LRunning CStart false false 0)) by by apply reach_init.
  split; [intros s H; destruct (race_inv s H) as (? & ? & _); done|].
  pose proof (reach_step _ _ _ _ H0 (closer_polls _ _ _ _)) as H1. cbn in H1. split.
  - pose proof (reach_step _ _ _ _ H1 (closer_detaches _ _ _ _)) as H2.
    pose proof (reach_step _ _ _ _ H2 (launcher_sets _ _ _ _)) as H3.
    pose proof (reach_step _ _ _ _ H3 (launcher_frees _ _ _)) as H4. by eexists.
  - pose proof (reach_step _ _ _ _ H1 (launcher_sets _ _ _ _)) as H2.
    pose proof (reach_step _ _ _ _ H2 (launcher_leaves _ _ _)) as H3.
    pose proof (reach_step _ _ _ _ H3 (closer_detaches _ _ _ _)) as H4. by eexists.
Qed.

(** A thread that is not in the list. *)
Lemma get_item_none h fd n t r ths k s tid : others k h tid r →
  thread_list_GetItemValue tid (World (thread_state h fd n t (Some r) ths k) s) =
  Ok (None, World (thread_state h fd n t (Some r) ths k) s).
Proof.
  intros Ho. unfold thread_list_GetItemValue, gets. unfold mbind at 1, K_bind at 1. cbn [kern].
  change (thread_list (thread_state h fd n t (Some r) ths k)) with (Some r). cbv iota.
  rewrite <- (app_nil_r r) at 1. rewrite find_thread_skip by (by apply others_state). done.
Qed.

(** Closing the second of two threads with the same identifier. *)
Definition after_reused (h fd : Z) (t : WINPR_THREAD) (ths : gmap Z bool) (k : kernel) : kernel :=
  set_objs (delete h (objs k)) (set_files (delete fd (files k)) (set_threads (delete (th_thread t) ths) (set_thread_list (Some [h]) k))).

Lemma close_reused h fd (Hv : valid_handle h) (Hfd : 0 <= fd) ty mo op h1 t1 t ths k s :
  h1 ≠ h → objs k !! h1 = Some (Object ty mo op (BThread t1)) → th_thread t1 = th_thread t →
  th_fd0 t = fd → th_fd1 t = -1 → started t = true → joined t = false → ths !! th_thread t = Some true →
  ThreadCloseHandle h (World (thread_state h fd 1 t (Some [h1; h]) ths k) s) = Ok (true, World (after_reused h fd t ths k) s).
Proof.
  intros Hne Hh1 Heq Hf0 Hf1 Hst Hj Hths. set (st := thread_state h fd 1 t (Some [h1; h]) ths k).
  assert (Hfind : ∀ k', objs k' !! h1 = Some (Object ty mo op (BThread t1)) → thread_list k' = Some [h1; h] →
    thread_list_GetItemValue (th_thread t) (World k' s) = Ok (Some h1, World k' s)).
  { intros k' Ho Hl. unfold thread_list_GetItemValue, gets. unfold mbind at 1, K_bind at 1. cbn [kern]. rewrite Hl. cbn [find_thread].
    unfold thread_compare, thread_at. rewrite !bind_bind. rewrite (bind_object _ _ _ _ _ Ho). cbn [obody]. krun. by rewrite Heq, Z.eqb_refl. }
  assert (Hst1 : objs st !! h1 = Some (Object ty mo op (BThread t1))) by (cbn; by rewrite lookup_insert_ne).
  unfold ThreadCloseHandle, gets. unfold mbind at 1, K_bind at 1. cbn [kern]. change (thread_list st) with (Some [h1; h]). cbv iota.
  kstep (thread_at_ok h fd 1 t (Some [h1; h]) ths k s). fold st. unfold thread_list_Contains at 1. rewrite bind_bind.
  kstep (Hfind st Hst1 eq_refl). rewrite bool_decide_true by eauto. rewrite bind_ret. cbn [negb]. rewrite Hst.
  set (st2 := thread_state h fd 1 (set_joined t) (Some [h1; h]) (delete (th_thread t) ths) k).
  rewrite (K_bind_ok (rc ← WaitForSingleObject h 0; mret (negb (rc =? WAIT_OBJECT_0))) _ _ false (World st2 s)).
  2: { unfold mbind at 1, K_bind at 1, st. rewrite (thread_wait_set h fd Hv Hfd) by (done || lia). by rewrite (thread_cleanup_ok h fd Hv). }
  assert (Hst2 : objs st2 !! h1 = Some (Object ty mo op (BThread t1))) by (cbn; by rewrite lookup_insert_ne).
  unfold cleanup_handle. rewrite bind_bind. kstep (thread_at_ok h fd 1 (set_joined t) (Some [h1; h]) (delete (th_thread t) ths) k s).
  fold st2. cbn [th_fd0 th_fd1 set_joined th_thread]. rewrite Hf0, Hf1. rewrite (proj2 (Z.leb_le 0 fd)) by done.
  change (0 <=? -1) with false. cbv iota. unfold sys_close, free. krun.
  set (st3 := set_files (delete fd (files st2)) st2).
  pose proof (Hfind st3 Hst2 eq_refl) as Hf3.
  unfold thread_list_Contains. krun. kstep Hf3. rewrite bool_decide_true by eauto. krun.
  unfold thread_list_Remove. krun. kstep Hf3. krun.
  unfold mbind, K_bind. cbn [kern]. change (thread_list _) with (remove_first h1 <$> Some [h1; h]) at 1.
  assert (Hr : remove_first h1 <$> Some [h1; h] = Some [h]) by (cbn; by rewrite Z.eqb_refl). rewrite Hr.
  unfold mret, K_ret. do 3 f_equal. unfold after_reused. kernel_eq.
  - by rewrite delete_insert_eq.
  - by rewrite delete_insert_eq.
  - by rewrite Z.eqb_refl.
Qed.

(** two errors of the thread list. (1) A thread created suspended is already
    signalled: a wait for it goes on to join a thread that does not exist
    (undefined), and closing its handle answers TRUE but gives nothing back.
    (2) Identifiers are reused once a thread is joined: when the list still
    holds a joined thread with the identifier of the one being closed, the wrong
    entry is removed, and the next use of the list, by any thread, reads the
    freed object. *)
Theorem thread_list_defects os a p k s r :
  let h := th_calloc os in let fd := th_eventfd os in
  valid_handle h → 0 <= fd → 
  (list_ready os k r → others k h 0 r → threads k !! 0 = None → ∃ w,
     CreateThread os a p CREATE_SUSPENDED (World k s) = Ok (h, w) ∧
     (∀ ms, WaitForSingleObject h ms w = UB) ∧ ThreadCloseHandle h w = Ok (true, w)) ∧
  (∀ ty mo op h1 t1 t2 ths, h1 ≠ h → objs k !! h1 = Some (Object ty mo op (BThread t1)) → th_thread t1 = th_thread t2 →
     th_fd0 t2 = fd → th_fd1 t2 = -1 → started t2 = true → joined t2 = false → ths !! th_thread t2 = Some true → ∃ w,
     ThreadCloseHandle h (World (thread_state h fd 1 t2 (Some [h1; h]) ths k) s) = Ok (true, w) ∧
     thread_list (kern w) = Some [h] ∧ objs (kern w) !! h = None ∧ _GetCurrentThread w = UB).
Proof.
  intros h fd Hv Hfd. split.
  - intros Hl Ho Hth. set (t := Thread false fd (-1) false false false 0 0 a p).
    exists (World (thread_state h fd 1 t (Some r) (threads k) k) s). split_and!.
    + rewrite (CreateThread_start os a p CREATE_SUSPENDED k s r Hv Hfd Hl).
      change (negb (nonzero (Z.land CREATE_SUSPENDED CREATE_SUSPENDED))) with false. cbv iota.
      by kstep (set_event_ok h fd 0 t (Some r) (threads k) k s eq_refl ltac:(unfold EVENTFD_MAX; lia)).
    + intros ms. rewrite (thread_wait_set h fd Hv Hfd) by (done || lia). pose proof (state_obj h fd 1 t (Some r) (threads k) k) as Hob.
      unfold winpr_Handle_cleanup. kstep (info_ok _ s h _ Hv Hob). rewrite (bind_object _ _ _ _ _ Hob). cbn [ops ops_table CleanupHandle].
      unfold ThreadCleanupHandle. kstep (is_handled_ok _ s h _ Hv Hob). kstep (thread_at_ok h fd 1 t (Some r) (threads k) k s).
      cbn [joined t th_thread]. unfold pthread_join. rewrite bind_bind.
      rewrite (K_bind_ok (awaitK _ _ _ _) _ _ (Woken false) (World (thread_state h fd 1 t (Some r) (threads k) k) s)); [done|].
      apply await_now. change (threads (thread_state h fd 1 t (Some r) (threads k) k)) with (threads k). by rewrite Hth.
    + unfold ThreadCloseHandle, gets. unfold mbind at 1, K_bind at 1. cbn [kern].
      change (thread_list (thread_state h fd 1 t (Some r) (threads k) k)) with (Some r). cbv iota.
      kstep (thread_at_ok h fd 1 t (Some r) (threads k) k s). cbn [th_thread t]. unfold thread_list_Contains. rewrite bind_bind.
      by kstep (get_item_none h fd 1 t r (threads k) k s 0 Ho).
  - intros ty mo op h1 t1 t2 ths Hne Hh1 Heq Hf0 Hf1 Hst Hj Hths.
    eexists. rewrite (close_reused h fd Hv Hfd) with (ty := ty) (mo := mo) (op := op) (h1 := h1) (t1 := t1) by done.
    split; [reflexivity|]. cbn [kern]. split; [done|]. split; [cbn; by rewrite lookup_delete_eq|].
    set (k' := after_reused h fd t2 ths k). unfold _GetCurrentThread, thread_list_GetItemValue, gets.
    unfold mbind at 1, K_bind at 1. unfold mbind at 1, K_bind at 1. unfold mbind at 1, K_bind at 1. cbn [kern].
    change (thread_list k') with (Some [h]). cbn [find_thread].
    unfold thread_compare, thread_at, object_at, lift, get, mbind, K_bind. cbn [kern].
    change (objs k') with (delete h (objs k)). by rewrite lookup_delete_eq.
Qed.

Lemma thread_lifecycle_witness :
  let k := Kernel ∅ ∅ [] ∅ None 1 0 0 0 ∅ in
  ∃ running ended,
    CreateThread (ThreadOs 64 7 0 9 true true) 5 6 0 (World k []) = Ok (64, World running []) ∧
    WaitForSingleObject 64 0 (World running []) = Ok (WAIT_TIMEOUT, World running []) ∧
    GetExitCodeThread 64 (World ended []) = Ok (Some 3, World ended []) ∧
    ThreadCloseHandle 64 (World ended []) = Ok (true, World k []).
Proof.
  set (k := Kernel ∅ ∅ [] ∅ None 1 0 0 0 ∅).
  destruct (thread_lifecycle (ThreadOs 64 7 0 9 true true) 5 6 (2 ^ 32 + 3) k [] []) as (running & ended & H1 & H2 & _ & H4 & _ & H6);
    [split; unfold INVALID_HANDLE_VALUE; cbn; lia|cbn; lia|done|done|done|done|right; by split_and!|by constructor|].
  exists running, ended. split; [exact H1|]. split; [exact H2|]. split; [exact H4|exact H6].
Defined.

Lemma thread_list_defects_witness :
  let k := Kernel {[ 32 := Object 2 1 None (BThread (started_thread 8 9 5 6)) ]} ∅ [] ∅ (Some []) 1 0 0 0 ∅ in
  (∃ w, CreateThread (ThreadOs 64 7 0 9 true true) 5 6 CREATE_SUSPENDED (World k []) = Ok (64, w) ∧
     ThreadCloseHandle 64 w = Ok (true, w)) ∧
  (∃ w, ThreadCloseHandle 64 (World (thread_state 64 7 1 (started_thread 7 9 5 6) (Some [32; 64]) {[ 9 := true ]} k) []) = Ok (true, w) ∧
     _GetCurrentThread w = UB).
Proof.
  set (k := Kernel {[ 32 := Object 2 1 None (BThread (started_thread 8 9 5 6)) ]} ∅ [] ∅ (Some []) 1 0 0 0 ∅).
  destruct (thread_list_defects (ThreadOs 64 7 0 9 true true) 5 6 k [] []) as (H1 & H2);
    [split; unfold INVALID_HANDLE_VALUE; cbn; lia|cbn; lia|].
  split.
  - destruct H1 as (w & Hc & _ & Hcl); [by left|by constructor|done|]. exists w. split; [exact Hc|exact Hcl].
  - destruct (H2 2 1 None 32 (started_thread 8 9 5 6) (started_thread 7 9 5 6) {[ 9 := true ]}) as (w & Hc & _ & _ & Hg);
      try done. exists w. split; [exact Hc|exact Hg].
Defined.
