(* ===== verification/ThreadList.v ===== *)
(** The list of threads is a dictionary (src/libuzi/thread.c,
    src/libuzi/dictionary.c).

    thread.c keeps its started threads in a ListDictionary whose keys are the
    addresses of the [thread] fields of the objects and whose equality is
    [thread_compare]; Thread.v works with the list of its values. Here the two
    are composed: the operations of Thread.v answer what the dictionary's
    operations answer, and keep the two in step. *)

From stdpp Require Import list gmap.
From S2P Require Import Prelude Interlocked Critical Kernel Handle Wait Event.
From S2P Require Dictionary Thread.
Import Dictionary Thread.

Set Warnings "-clear-no-such-hyp".

Section ThreadList.
Context {L : Type} `{!Lock L}.

(** [pthread_at p]: the identifier stored at [p]; [field h]: the address of the
    field [thread] of the object [h]. *)
Context (pthread_at : Z → Z) (field : Z → Z) (malloc : iheap → Z) (calloc_ok : bool).

(** [thread_compare], on the keys. *)
Definition compare_keys (a b : Z) : bool := pthread_at a =? pthread_at b.

(** The entries of the threads [l]. *)
Definition entries (l : list Z) : pairs := (λ h, (field h, h)) <$> l.

(** An object of the list, with its identifier in memory. *)
Definition thread_entry (k : kernel) (h : Z) : Prop :=
  h ≠ 0 ∧ ∃ ty mo op t, objs k !! h = Some (Object ty mo op (BThread t)) ∧ pthread_at (field h) = th_thread t.

(** The list of the kernel and the dictionary hold the same threads; [r]: how
    often the running thread has the dictionary's lock. *)
Definition in_step (r : Z) (k : kernel) (d : @wListDictionary L) : Prop :=
  ∃ l fr, thread_list k = Some l ∧ models d (entries l) fr r ∧ keyEquals d = compare_keys ∧ Forall (thread_entry k) l.

Definition in_step_list (k : kernel) : Prop := ∃ l, thread_list k = Some l ∧ Forall (thread_entry k) l.

(** ** The operations of thread.c *)

(** Keys are the addresses of identifiers; [TlAdd h] is the new entry of [h]. *)
Inductive tl_op : Type :=
  | TlGet (key : Z)
  | TlContains (key : Z)
  | TlRemove (key : Z)
  | TlAdd (h : Z).

Definition dict_op_of (o : tl_op) : dict_op :=
  match o with
  | TlGet p => OpGet p
  | TlContains p => OpContains p
  | TlRemove p => OpRemove p
  | TlAdd h => OpAdd (field h) h
  end.

(** [ok]: whether memory for the entry can be had. *)
Definition list_exec (ok : bool) (o : tl_op) : K dict_ans :=
  match o with
  | TlGet p => r ← thread_list_GetItemValue (pthread_at p); mret (AnsInt (default 0 r))
  | TlContains p => b ← thread_list_Contains (pthread_at p); mret (AnsTruth b)
  | TlRemove p =>
    r ← thread_list_GetItemValue (pthread_at p);
    thread_list_Remove (pthread_at p);;
    mret (AnsInt (default 0 r))
  | TlAdd h => b ← thread_list_Add ok h; mret (AnsTruth b)
  end.

Definition tl_op_ok (k : kernel) (o : tl_op) : Prop := match o with TlAdd h => thread_entry k h | _ => True end.

(** ** Searching *)

(** The first thread with an identifier. *)
Fixpoint first_thread (tid : Z) (l : list Z) : option Z :=
  match l with [] => None | h :: l => if pthread_at (field h) =? tid then Some h else first_thread tid l end.

Lemma assoc_entries p l : assoc compare_keys p (entries l) = first_thread (pthread_at p) l.
Proof. induction l as [|h l IH]; [done|]. cbn. unfold compare_keys at 1. destruct (_ =? _); [done|apply IH]. Qed.

Lemma find_thread_first k s tid l : Forall (thread_entry k) l → find_thread l tid (World k s) = Ok (first_thread tid l, World k s).
Proof.
  induction 1 as [|h l (_ & ty & mo & op & t & Ho & Ht) _ IH]; [done|]. cbn [find_thread first_thread].
  unfold thread_compare, thread_at. rewrite bind_bind, bind_bind. rewrite (bind_object _ _ _ _ _ Ho). cbn [obody]. krun. rewrite Ht.
  destruct (th_thread t =? tid); [done|apply IH].
Qed.

Lemma get_item k s tid l : thread_list k = Some l → Forall (thread_entry k) l →
  thread_list_GetItemValue tid (World k s) = Ok (first_thread tid l, World k s).
Proof.
  intros Hl Hf. unfold thread_list_GetItemValue, gets. unfold mbind at 1, K_bind at 1. cbn [kern]. rewrite Hl. by apply find_thread_first.
Qed.

Lemma remove_entries p l : Dictionary.remove_first compare_keys p (entries l) =
  entries (match first_thread (pthread_at p) l with Some h => Thread.remove_first h l | None => l end).
Proof.
  induction l as [|h l IH]; [done|]. cbn [first_thread].
  change (Dictionary.remove_first compare_keys p (entries (h :: l))) with
    (if compare_keys (field h) p then entries l else (field h, h) :: Dictionary.remove_first compare_keys p (entries l)).
  unfold compare_keys at 1. destruct (pthread_at (field h) =? pthread_at p) eqn:E; [cbn [Thread.remove_first]; by rewrite Z.eqb_refl|].
  rewrite IH. destruct (first_thread (pthread_at p) l) as [x|] eqn:Ef; [|done].
  cbn [Thread.remove_first]. destruct (Z.eqb_spec h x) as [->|Hne]; [|done]. exfalso. clear -E Ef.
  induction l as [|y l IH]; [done|]. cbn in Ef. destruct (Z.eqb_spec (pthread_at (field y)) (pthread_at p)) as [Ey|Ey].
  - injection Ef as ->. by rewrite Ey, Z.eqb_refl in E.
  - by apply IH.
Qed.

Lemma first_thread_pos k tid l : Forall (thread_entry k) l → ∀ h, first_thread tid l = Some h → h ≠ 0.
Proof. induction 1 as [|x l [Hx _] _ IH]; intros h; cbn; [done|]. destruct (_ =? _); [by intros [= <-]|apply IH]. Qed.

Lemma remove_first_Forall (P : Z → Prop) h l : Forall P l → Forall P (Thread.remove_first h l).
Proof. induction 1 as [|x l Hx Hl IH]; cbn; [done|]. destruct (x =? h); [done|by constructor]. Qed.

(** ** One operation *)

Definition step_ok (r : Z) (k : kernel) (s : list env) (o : tl_op) (q : option (@wListDictionary L) * dict_ans) : Prop :=
  ∃ d' ok k', q.1 = Some d' ∧ list_exec ok o (World k s) = Ok (q.2, World k' s) ∧ objs k' = objs k ∧ in_step r k' d'.

Lemma in_step_intro r k d d' l fr : same_setup d d' → keyEquals d = compare_keys → thread_list k = Some l →
  models d' (entries l) fr r → Forall (thread_entry k) l → in_step r k d'.
Proof. intros (_ & He & _) Hk Hl Hm Hf. exists l, fr. split_and!; [done|done|by rewrite He|done]. Qed.

Lemma tl_step r k s d o : 0 <= r → r + 1 < 2 ^ 31 → (∀ l, thread_list k = Some l → Z.of_nat (length l) < 2 ^ 31) →
  (∀ h, malloc h = 0 ∨ malloc h ≠ 0 ∧ h !! malloc h = None) → in_step r k d → tl_op_ok k o →
  runs (dict_exec malloc calloc_ok (Some d) (dict_op_of o)) (step_ok r k s o).
Proof.
  intros Hr0 Hr Hlen Hmal (l & fr & Hl & Hm & Hk & Hf) Ho.
  eapply runs_mono; [apply (dict_op_ok malloc calloc_ok d r (entries l) fr (dict_op_of o)); try done|].
  { unfold entries. rewrite length_fmap. by apply Hlen. }
  intros [q a] (d' & l' & fr' & E & Hspec & Hm' & Hset). cbn [fst snd] in *. subst q.
  destruct o as [p|p|p|h]; cbn [dict_op_of dict_spec] in Hspec; rewrite ?Hk, ?assoc_entries in Hspec.
  - destruct Hspec as (-> & -> & ->). exists d', true, k. split; [done|]. split; [|split; [done|by eapply in_step_intro]].
    cbn [list_exec]. by rewrite (K_bind_ok _ _ _ _ _ (get_item k s _ l Hl Hf)).
  - destruct Hspec as (-> & -> & ->). exists d', true, k. split; [done|]. split; [|split; [done|by eapply in_step_intro]].
    cbn [list_exec]. unfold thread_list_Contains. rewrite bind_bind. by rewrite (K_bind_ok _ _ _ _ _ (get_item k s _ l Hl Hf)).
  - destruct Hspec as (-> & -> & ->). rewrite remove_entries in Hm'.
    exists d', true, (match first_thread (pthread_at p) l with Some h => set_thread_list (Some (Thread.remove_first h l)) k | None => k end).
    split; [done|]. split; [|split; [by destruct (first_thread _ _)|]].
    + cbn [list_exec]. rewrite (K_bind_ok _ _ _ _ _ (get_item k s _ l Hl Hf)). unfold thread_list_Remove. rewrite bind_bind.
      rewrite (K_bind_ok _ _ _ _ _ (get_item k s _ l Hl Hf)). destruct (first_thread _ _) as [h|]; [|done].
      rewrite bind_modify. cbn [fmap option_fmap option_map]. by rewrite Hl.
    + destruct (first_thread (pthread_at p) l) as [h|]; [|by eapply in_step_intro].
      eapply in_step_intro; [done|done|done|done|]. by apply remove_first_Forall.
  - destruct Hspec as [-> [[-> ->]|[-> ->]]].
    + exists d', true, (set_thread_list (Some (l ++ [h])) k). split; [done|]. split; [|split; [done|]].
      * cbn [list_exec]. unfold thread_list_Add, gets. unfold mbind, K_bind. cbn [kern script]. by rewrite Hl.
      * eapply in_step_intro; [done|done|reflexivity| |]; [|apply Forall_app; split; [done|by constructor]].
        unfold entries. rewrite fmap_app. exact Hm'.
    + exists d', false, k. split; [done|]. split; [|split; [done|by eapply in_step_intro]].
      cbn [list_exec]. unfold thread_list_Add, gets. unfold mbind, K_bind. cbn [kern script]. by rewrite Hl.
Qed.

(** ** Sequences of operations *)

Fixpoint list_execs (os : list (bool * tl_op)) : K (list dict_ans) :=
  match os with
  | [] => mret []
  | (ok, o) :: os => a ← list_exec ok o; as' ← list_execs os; mret (a :: as')
  end.

Definition list_size (k : kernel) : nat := match thread_list k with Some l => length l | None => O end.

Lemma remove_thread_length h l : (length (Thread.remove_first h l) ≤ length l)%nat.
Proof. induction l as [|x l IH]; cbn; [done|]. destruct (x =? h); cbn; lia. Qed.

Lemma list_exec_size ok o k s a k' : in_step_list k → list_exec ok o (World k s) = Ok (a, World k' s) → (list_size k' ≤ S (list_size k))%nat.
Proof.
  intros (l & Hl & Hf). destruct o as [p|p|p|h]; cbn [list_exec].
  - rewrite (K_bind_ok _ _ _ _ _ (get_item k s _ l Hl Hf)). intros [= _ <-]. lia.
  - unfold thread_list_Contains. rewrite bind_bind, (K_bind_ok _ _ _ _ _ (get_item k s _ l Hl Hf)). intros [= _ <-]. lia.
  - rewrite (K_bind_ok _ _ _ _ _ (get_item k s _ l Hl Hf)). unfold thread_list_Remove.
    rewrite bind_bind, (K_bind_ok _ _ _ _ _ (get_item k s _ l Hl Hf)). destruct (first_thread _ _) as [h|]; [|intros [= _ <-]; lia].
    rewrite bind_modify. intros [= _ <-]. unfold list_size. cbn. rewrite Hl. cbn. pose proof (remove_thread_length h l). lia.
  - unfold thread_list_Add, gets, mbind, K_bind. cbn [kern script]. rewrite Hl.
    destruct ok; intros [= _ <-]; [|lia]. unfold list_size. cbn. rewrite Hl, length_app. cbn. lia.
Qed.

Lemma in_step_is_list r k d : in_step r k d → in_step_list k.
Proof. intros (l & fr & Hl & _ & _ & Hf). by exists l. Qed.

Lemma tl_steps os : ∀ r k s d, 0 <= r → r + 1 < 2 ^ 31 → Z.of_nat (list_size k + length os) < 2 ^ 31 →
  (∀ h, malloc h = 0 ∨ malloc h ≠ 0 ∧ h !! malloc h = None) → in_step r k d → Forall (tl_op_ok k) os →
  runs (dict_execs malloc calloc_ok (Some d) (dict_op_of <$> os)) (λ q, ∃ d' oks k', q.1 = Some d' ∧ length oks = length os ∧
    list_execs (zip oks os) (World k s) = Ok (q.2, World k' s) ∧ in_step r k' d').
Proof.
  induction os as [|o os IH]; intros r k s d Hr0 Hr Hlen Hmal Hs Hok.
  { apply runs_ok. by exists d, [], k. }
  apply Forall_cons in Hok as [Ho Hos]. cbn [fmap list_fmap dict_execs]. cbn [length] in Hlen.
  eapply runs_bind; [apply (tl_step r k s d o); try done|].
  { intros l Hl. unfold list_size in Hlen. rewrite Hl in Hlen. lia. }
  intros [q a] (d1 & ok & k1 & E & Hexec & Hobj & Hs1). cbn [fst snd] in *. subst q.
  pose proof (list_exec_size _ _ _ _ _ _ (in_step_is_list _ _ _ Hs) Hexec) as Hsz.
  eapply runs_bind; [apply (IH r k1 s d1); try done; [lia|]|].
  { eapply Forall_impl; [exact Hos|]. intros x Hx. destruct x; [done..|]. cbn in *. destruct Hx as [? Hx]. split; [done|]. by rewrite Hobj. }
  intros [q as'] (d2 & oks & k2 & E & Hl & Hexecs & Hs2). cbn [fst snd] in *. subst q. apply runs_ok.
  exists d2, (ok :: oks), k2. split_and!; [done|cbn; by rewrite Hl| |done].
  cbn [zip_with list_execs zip]. rewrite (K_bind_ok _ _ _ _ _ Hexec). by rewrite (K_bind_ok _ _ _ _ _ Hexecs).
Qed.
End ThreadList.

(** C25: the list of threads is its dictionary. For any sequence of the
    operations that thread.c performs on its list (lookup, membership and
    removal by identifier, adding a new thread), run on the ListDictionary with
    [thread_compare] over any lock and any allocator, and run on the list of
    values that the thread functions are verified with: both are defined, give
    the same answers and hold the same threads in the same order afterwards. *)
Theorem thread_list_refines {L : Type} (lk : Lock L) pthread_at field malloc calloc_ok (d : @wListDictionary L) os r k s :
  0 <= r → r + 1 < 2 ^ 31 → Z.of_nat (list_size k + length os) < 2 ^ 31 →
  (∀ h, malloc h = 0 ∨ malloc h ≠ 0 ∧ h !! malloc h = None) →
  in_step pthread_at field r k d → Forall (tl_op_ok pthread_at field k) os →
  runs (dict_execs malloc calloc_ok (Some d) (dict_op_of field <$> os)) (λ q, ∃ d' oks k', q.1 = Some d' ∧ length oks = length os ∧
    list_execs pthread_at (zip oks os) (World k s) = Ok (q.2, World k' s) ∧ in_step pthread_at field r k' d').
Proof. intros. by apply tl_steps. Qed.

(** Two threads at 1000 and 2000 whose identifiers are 50 words further, and a
    local variable of the caller at 9 holding the identifier 71. *)
Definition two_threads : kernel :=
  Kernel {[ 1000 := Object HANDLE_TYPE_THREAD UZI_FD_READ (Some ThreadOps) (BThread (started_thread 3 70 0 0));
            2000 := Object HANDLE_TYPE_THREAD UZI_FD_READ (Some ThreadOps) (BThread (started_thread 4 71 0 0)) ]}
    ∅ [] ∅ (Some []) 71 0 0 0 ∅.
Definition two_ids (p : Z) : Z := if p =? 1050 then 70 else if p =? 2050 then 71 else if p =? 9 then 71 else 0.
Definition two_ops : list tl_op := [TlAdd 1000; TlAdd 2000; TlGet 9; TlRemove 1050; TlContains 1050; TlGet 9].

Lemma thread_list_refines_witness :
  let lk := cs_lock 7 seven true true 4 in let field := λ h, h + 50 in
  let d := Dict true (UziInitCS true true 4 fresh_cs 0 0).1 0 (compare_keys two_ids) false false ∅ [] in
  (∀ h, first_fit h = 0 ∨ first_fit h ≠ 0 ∧ h !! first_fit h = None) ∧
  in_step two_ids field 0 two_threads d ∧ Forall (tl_op_ok two_ids field two_threads) two_ops ∧
  list_execs two_ids (zip (replicate 6 true) two_ops) (World two_threads []) =
    Ok ([AnsTruth true; AnsTruth true; AnsInt 2000; AnsInt 1000; AnsTruth false; AnsInt 2000], World (set_thread_list (Some [2000]) two_threads) []) ∧
  runs (dict_execs first_fit true (Some d) (dict_op_of field <$> two_ops)) (λ q, ∃ d' oks k', q.1 = Some d' ∧ length oks = 6%nat ∧
    list_execs two_ids (zip oks two_ops) (World two_threads []) = Ok (q.2, World k' []) ∧ in_step two_ids field 0 k' d').
Proof.
  intros lk field d. assert (H1 := first_fit_ok).
  assert (H2 : in_step two_ids field 0 two_threads d).
  { exists [], []. split; [done|]. split; [|split; [done|constructor]]. split; [|split; [done|by split_and!]].
    exists []. split; [|done]. split_and!; [done|constructor|done]. }
  assert (H3 : Forall (tl_op_ok two_ids field two_threads) two_ops).
  { apply Forall_cons; split; [split; [done|by do 4 eexists]|]. apply Forall_cons; split; [split; [done|by do 4 eexists]|].
    by repeat constructor. }
  split; [exact H1|]. split; [exact H2|]. split; [exact H3|]. split; [vm_compute; reflexivity|].
  exact (thread_list_refines lk two_ids field first_fit true d two_ops 0 two_threads [] ltac:(lia) ltac:(lia) ltac:(by vm_compute) H1 H2 H3).
Defined.
