(* ===== verification/Objects.v ===== *)
(** Closing handles and the uzi interface (src/libuzi/handle.c, uzi.c), and the
    typing of the heap of handle objects under every call of the library. *)

From stdpp Require Import list gmap.
From S2P Require Import Prelude Kernel Handle Wait Event Semaphore MutexObj WaitTimer Thread.

Set Warnings "-clear-no-such-hyp".

(** The entry [CloseHandle] of the tables of operations. *)
Definition close_op (i : opsid) : Z → K bool :=
  match i with
  | EventOps => EventCloseHandle
  | MutexOps => MutexCloseHandle
  | SemaphoreOps => SemaphoreCloseHandle
  | TimerOps => TimerCloseHandle
  | ThreadOps => ThreadCloseHandle
  end.

Definition CloseHandle (h : Z) : K bool :=
  i ← winpr_Handle_GetInfo h;
  match i with
  | None => mret false
  | Some _ =>
    o ← object_at h;
    match ops o with None => mret false | Some t => close_op t h end
  end.

(** The copy of a handle is the handle itself, and nothing counts the copies. *)
Definition DuplicateHandle (hSourceHandle : Z) : K (bool * Z) := mret (true, hSourceHandle).

(** ** uzi.c *)

Definition UziCreateEvent (calloc efd : Z) (manualReset initialState : bool) : K Z :=
  CreateEventA calloc efd manualReset initialState.
Definition UziSetEvent (handle : Z) : K bool := SetEvent handle.
Definition UziResetEvent (fuel : nat) (handle : Z) : K bool := ResetEvent fuel handle.
Definition UziWaitSingle (handle timeout : Z) : K Z := WaitForSingleObject handle timeout.
Definition UziEventIsSet (handle : Z) : K bool := rc ← UziWaitSingle handle 0; mret (rc =? WAIT_OBJECT_0).
Definition UziCloseHandle (handle : Z) : K bool := CloseHandle handle.
Definition UziWaitMulti (fuel : nat) (handles : list Z) (waitAll : bool) (timeout : Z) : K Z :=
  WaitForMultipleObjects fuel handles waitAll timeout.

(** ** The calls of the library *)

Inductive call :=
  | CCreateEvent (calloc efd : Z) (manual init : bool)
  | CCreateFileDescriptorEvent (calloc : Z) (manual : bool) (fd mode : Z)
  | CSetEvent (h : Z) | CResetEvent (fuel : nat) (h : Z)
  | CGetEventFileDescriptor (h : Z) | CSetEventFileDescriptor (h fd mode : Z)
  | CCreateSemaphore (calloc : Z) (fds : Z * Z) (init max : Z) | CReleaseSemaphore (h n : Z)
  | CCreateMutex (calloc : Z) (owner : bool) | CReleaseMutex (h : Z)
  | CCreateWaitableTimer (calloc : Z) (manual : bool)
  | CSetWaitableTimer (os : timer_os) (h : Z) (due : option Z) (period pfn arg : Z)
  | CWaitableTimerSignal (signum h : Z)
  | CCreateThread (os : thread_os) (start param flags : Z)
  | CThreadEnds (h rc : Z) | CExitThread (code : Z) | CGetExitCodeThread (h : Z)
  | CResumeThread (os : thread_os) (h : Z) | CTerminateThread (h code : Z)
  | CWaitForSingleObject (h ms : Z)
  | CWaitForMultipleObjects (fuel : nat) (hs : list Z) (all : bool) (ms : Z)
  | CCloseHandle (h : Z).

(** The address a call creates an object at, and the kind of the object. *)
Definition creates (c : call) : option (Z * opsid) :=
  match c with
  | CCreateEvent a _ _ _ | CCreateFileDescriptorEvent a _ _ _ => Some (a, EventOps)
  | CCreateSemaphore a _ _ _ => Some (a, SemaphoreOps)
  | CCreateMutex a _ => Some (a, MutexOps)
  | CCreateWaitableTimer a _ => Some (a, TimerOps)
  | CCreateThread os _ _ _ => Some (th_calloc os, ThreadOps)
  | _ => None
  end.

Definition drop_result {A} (m : K A) : K unit := m ≫= λ _, mret ().

(** [routine] is what the completion routines of waitable timers do. *)
Definition run_call (routine : Z → Z → K unit) (c : call) : K unit :=
  match c with
  | CCreateEvent a e m i => drop_result (CreateEventW a e m i)
  | CCreateFileDescriptorEvent a m fd mode => drop_result (CreateFileDescriptorEventW a m fd mode)
  | CSetEvent h => drop_result (SetEvent h)
  | CResetEvent fuel h => drop_result (ResetEvent fuel h)
  | CGetEventFileDescriptor h => drop_result (GetEventFileDescriptor h)
  | CSetEventFileDescriptor h fd mode => drop_result (SetEventFileDescriptor h fd mode)
  | CCreateSemaphore a fds i m => drop_result (CreateSemaphoreW a fds i m)
  | CReleaseSemaphore h n => drop_result (ReleaseSemaphore h n)
  | CCreateMutex a o => drop_result (CreateMutexW a o)
  | CReleaseMutex h => drop_result (ReleaseMutex h)
  | CCreateWaitableTimer a m => drop_result (CreateWaitableTimerA a m)
  | CSetWaitableTimer os h d p f a => drop_result (SetWaitableTimer os h d p f a)
  | CWaitableTimerSignal s h => WaitableTimerSignalHandler routine s h
  | CCreateThread os s p f => drop_result (CreateThread os s p f)
  | CThreadEnds h rc => launcher_exit h rc
  | CExitThread code => drop_result (ExitThread code)
  | CGetExitCodeThread h => drop_result (GetExitCodeThread h)
  | CResumeThread os h => drop_result (ResumeThread os h)
  | CTerminateThread h code => drop_result (TerminateThread h code)
  | CWaitForSingleObject h ms => drop_result (WaitForSingleObject h ms)
  | CWaitForMultipleObjects fuel hs all ms => drop_result (WaitForMultipleObjects fuel hs all ms)
  | CCloseHandle h => drop_result (CloseHandle h)
  end.

(** ** Heap typing

    A heap typing gives the kind of the object each address is used for. *)

Definition kind_of (b : body) : opsid :=
  match b with
  | BEvent _ => EventOps | BMutex _ => MutexOps | BSemaphore _ => SemaphoreOps | BTimer _ => TimerOps | BThread _ => ThreadOps
  end.

Definition type_of (i : opsid) : Z :=
  match i with
  | EventOps => HANDLE_TYPE_EVENT | MutexOps => HANDLE_TYPE_MUTEX | SemaphoreOps => HANDLE_TYPE_SEMAPHORE
  | TimerOps => HANDLE_TYPE_TIMER | ThreadOps => HANDLE_TYPE_THREAD
  end.

(** The tag, the table of operations and the layout of an object agree; while an
    object is under construction its tag is still 0. *)
Definition object_ok (i : opsid) (o : object) : Prop :=
  ops o = Some i ∧ kind_of (obody o) = i ∧ (Type_ o = type_of i ∨ Type_ o = 0).

Definition heap_typed (Γ : Z → opsid) (k : kernel) : Prop := ∀ h o, objs k !! h = Some o → object_ok (Γ h) o.

(** *** Invariants of the heap

    What the calls keep of the heap is shown once, for every invariant with the
    laws below: it tells at which addresses which kind of object may be found,
    made and freed. *)

Record heap_invariant := HeapInvariant {
  holds :> kernel → Prop;
  fits : Z → object → Prop;
  may : Z → opsid → Prop;
  may_new : Z → opsid → Prop;
  may_free : Z → Prop;
  inv_objs k k' : objs k' = objs k → holds k → holds k';
  inv_read k h o : holds k → objs k !! h = Some o → fits h o;
  inv_body k h b : may h (kind_of b) → holds k → holds (set_body h b k);
  inv_put k h o : fits h o → holds k → holds (set_obj h o k);
  inv_delete k h : may_free h → holds k → holds (set_objs (delete h (objs k)) k);
  fits_may h o : fits h o → may h (kind_of (obody o));
  fits_replace h o mode b : fits h o → may h (kind_of b) → fits h (Object (Type_ o) mode (ops o) b);
  fits_new h i ty mode b : may_new h i → ty = type_of i ∨ ty = 0 → kind_of b = i → fits h (Object ty mode (Some i) b);
  fits_finish h i o mode : may_new h i → fits h o → fits h (Object (type_of i) mode (ops o) (obody o));
  new_may h i : may_new h i → may h i;
  new_free h i : may_new h i → may_free h }.

(** Actions of the environment, and computations, that keep the invariant. *)
Definition env_keeps (Inv : heap_invariant) (e : env) : Prop :=
  match e with Act f => ∀ k, Inv k → Inv (f k) | Signal => True end.

Definition inv_world (Inv : heap_invariant) (w : world) : Prop := Inv (kern w) ∧ Forall (env_keeps Inv) (script w).

Definition keeps (Inv : heap_invariant) {A} (m : K A) : Prop := ∀ w a w', inv_world Inv w → m w = Ok (a, w') → inv_world Inv w'.

Program Definition heap_typing (Γ : Z → opsid) : heap_invariant := {|
  holds := heap_typed Γ; fits h o := object_ok (Γ h) o; may h i := Γ h = i; may_new h i := Γ h = i; may_free h := True |}.
Next Obligation. intros Γ k k' E Hk h o. rewrite E. apply Hk. Qed.
Next Obligation. intros Γ k h o Hk. apply Hk. Qed.
Next Obligation.
  intros Γ k h b Hb Hk h' o. cbn. destruct (decide (h' = h)) as [->|].
  - rewrite lookup_alter_eq. destruct (objs k !! h) as [o1|] eqn:E; intros [= <-].
    destruct (Hk h o1 E) as (H1 & _ & H3). by split_and!.
  - rewrite lookup_alter_ne by done. apply Hk.
Qed.
Next Obligation.
  intros Γ k h o Ho Hk h' o'. cbn. destruct (decide (h' = h)) as [->|].
  - rewrite lookup_insert_eq. by intros [= <-].
  - rewrite lookup_insert_ne by done. apply Hk.
Qed.
Next Obligation. intros Γ k h _ Hk h' o. cbn. intros [_ H]%lookup_delete_Some. by apply Hk. Qed.
Next Obligation. by intros Γ h o (_ & H & _). Qed.
Next Obligation. intros Γ h o mode b (H1 & H2 & H3) Hb. by split_and!. Qed.
Next Obligation. intros Γ h i ty mode b <- Hty Hb. by split_and!. Qed.
Next Obligation. intros Γ h i o mode <- (H1 & H2 & H3). split_and!; [done|done|by left]. Qed.
Next Obligation. done. Qed.
Next Obligation. done. Qed.

Create HintDb keeps.

Section Keeps.
Context (Inv : heap_invariant).

Local Abbreviation keeps := (keeps Inv).
Local Abbreviation may := (may Inv).
Local Abbreviation may_new := (may_new Inv).
Local Abbreviation may_free := (may_free Inv).
Local Abbreviation fits := (fits Inv).

Lemma bind_ok_inv {A B} (m : K A) (f : A → K B) w b w' :
  (m ≫= f) w = Ok (b, w') → ∃ a w1, m w = Ok (a, w1) ∧ f a w1 = Ok (b, w').
Proof. unfold mbind, K_bind. destruct (m w) as [[a w1]| |]; try done. eauto. Qed.

Lemma keeps_ret {A} (a : A) : keeps (mret a).
Proof. intros w a' w' Ht [= <- <-]. done. Qed.

Lemma keeps_undefined {A} : keeps (@undefined A).
Proof. intros w a w' _ [=]. Qed.

Lemma keeps_gets {A} (f : kernel → A) : keeps (gets f).
Proof. intros w a w' Ht [= <- <-]. by destruct w. Qed.

Lemma keeps_lift {A} (r : kernel → res A) : keeps (lift r).
Proof. intros w a w' Ht H. unfold lift in H. destruct (r (kern w)); simplify_eq. done. Qed.

Lemma keeps_bind {A B} (m : K A) (f : A → K B) : keeps m → (∀ a, keeps (f a)) → keeps (m ≫= f).
Proof. intros Hm Hf w b w' Ht H. destruct (bind_ok_inv _ _ _ _ _ H) as (a & w1 & H1 & H2). eapply Hf; [|exact H2]. by eapply Hm. Qed.

Lemma keeps_modify f : (∀ k, Inv k → Inv (f k)) → keeps (modify f).
Proof. intros Hf w a w' [Hk Hs] [= <- <-]. split; [by apply Hf|done]. Qed.

(** State changes that leave the objects alone. *)
Lemma keeps_same f : (∀ k, objs (f k) = objs k) → keeps (modify f).
Proof. intros Hf. apply keeps_modify. intros k. by apply inv_objs. Qed.

Lemma keeps_set_body h b : may h (kind_of b) → keeps (modify (set_body h b)).
Proof. intros Hb. apply keeps_modify. intros k. by apply inv_body. Qed.

Lemma keeps_set_obj h o : fits h o → keeps (modify (set_obj h o)).
Proof. intros Ho. apply keeps_modify. intros k. by apply inv_put. Qed.

Lemma keeps_free h : may_free h → keeps (free h).
Proof. intros Hh. apply keeps_modify. intros k. by apply inv_delete. Qed.

(** What a cast of a handle that succeeds says of the object. *)
Lemma keeps_object_at {B} h (f : object → K B) : (∀ o, fits h o → keeps (f o)) → keeps (object_at h ≫= f).
Proof.
  intros Hf w b w' Ht H. destruct (bind_ok_inv _ _ _ _ _ H) as (o & w1 & H1 & H2).
  unfold object_at, lift, get in H1. destruct (objs (kern w) !! h) as [o'|] eqn:E; simplify_eq.
  eapply Hf; [|exact Ht|exact H2]. eapply inv_read; [apply Ht|done].
Qed.

(** The same proof for the five kinds of object. *)
Ltac keeps_cast x_at := intros Hf; unfold x_at;
  let w := fresh "w" in let Ht := fresh "Ht" in let H := fresh "H" in
  intros w ? ? Ht H; rewrite bind_bind in H;
  match type of H with (object_at ?h ≫= ?g) _ = _ => eapply (keeps_object_at h g); [|exact Ht|exact H] end;
  let o := fresh "o" in let Hk := fresh "Hk" in let E := fresh "E" in
  intros o Hk%fits_may; destruct (obody o) eqn:E; try (intros ? ? ? ? [=]; fail);
  intros ? ? ? ?; apply Hf; [exact Hk|done].

Lemma keeps_event_at {B} h (f : WINPR_EVENT → K B) : (∀ e, may h EventOps → keeps (f e)) → keeps (event_at h ≫= f).
Proof. keeps_cast event_at. Qed.
Lemma keeps_mutex_at {B} h (f : WINPR_MUTEX → K B) : (∀ m, may h MutexOps → keeps (f m)) → keeps (mutex_at h ≫= f).
Proof. keeps_cast mutex_at. Qed.
Lemma keeps_semaphore_at {B} h (f : WINPR_SEMAPHORE → K B) : (∀ s, may h SemaphoreOps → keeps (f s)) → keeps (semaphore_at h ≫= f).
Proof. keeps_cast semaphore_at. Qed.
Lemma keeps_timer_at {B} h (f : WINPR_TIMER → K B) : (∀ t, may h TimerOps → keeps (f t)) → keeps (timer_at h ≫= f).
Proof. keeps_cast timer_at. Qed.
Lemma keeps_thread_at {B} h (f : WINPR_THREAD → K B) : (∀ t, may h ThreadOps → keeps (f t)) → keeps (thread_at h ≫= f).
Proof. keeps_cast thread_at. Qed.

(** A blocked call: the environment keeps the invariant, and what it waited for
    holds when it wakes. *)
Lemma await_inv {A} (ready : kernel → option A) clock d intr s k r w' :
  Inv k → Forall (env_keeps Inv) s → await ready clock d intr s k = Ok (r, w') →
  inv_world Inv w' ∧ (∀ a, r = Woken a → ready (kern w') = Some a).
Proof.
  revert k. induction s as [|[f|] s IH]; intros k Hk Hs; cbn [await]; destruct (ready k) as [a|] eqn:E;
    try (intros [= <- <-]; by split; [|intros ? [= <-]]);
    destruct (match d with Some d => d <=? clock k | None => false end) eqn:Ep; try (intros [= <- <-]; by split).
  - destruct d as [d|]; [|done]. set (k' := set_now _ k). assert (Hk' : Inv k') by (by apply (inv_objs Inv k)).
    destruct (ready k') as [a|] eqn:E2; intros [= <- <-]; split; try done. by intros ? [= <-].
  - intros H. inversion Hs as [|? ? Hf Hs']; subst. by eapply IH; [apply Hf| |exact H].
  - inversion Hs as [|? ? _ Hs']; subst. destruct intr; [intros [= <- <-]; by split|]. intros H. by eapply IH.
Qed.

Lemma keeps_await {A} (ready : kernel → option A) clock d intr : keeps (awaitK ready clock d intr).
Proof. intros w r w' [Hk Hs] H. by destruct (await_inv _ _ _ _ _ _ _ _ Hk Hs H). Qed.

Lemma keeps_loop {S R} (body : S → K (S + R)) fuel s : (∀ s, keeps (body s)) → keeps (kloop fuel body s).
Proof.
  intros Hb w r w' Ht. unfold kloop. revert s w Ht. induction fuel as [|n IH]; intros s w Ht; [done|]. cbn [loop].
  unfold mbind, res_bind. cbn [fst snd]. destruct (body s w) as [[[s1|r1] w1]| |] eqn:E; try done.
  - apply IH. by eapply Hb.
  - intros [= <- <-]. by eapply Hb.
Qed.

Lemma keeps_retry {A} (c : K (Z * Z * A)) : keeps c → keeps (retry c).
Proof.
  intros Hc w r w' Ht H. unfold retry in H. eapply keeps_loop; [|exact Ht|exact H]. intros [].
  apply keeps_bind; [done|]. intros [[st e] a]. destruct (_ && _); apply keeps_ret.
Qed.

Lemma keeps_clock : keeps clock_gettime.
Proof.
  intros w a w' [Hk Hs]. unfold clock_gettime. destruct w as [k [|[f|] s]]; cbn in *; intros [= <- <-]; [by split|..];
    inversion Hs as [|? ? Hf Hs']; subst; split; try done. by apply Hf.
Qed.

Lemma keeps_mutex_lock h d : keeps (mutex_lock h d).
Proof.
  intros w a w' [Hk Hs] H. unfold mutex_lock in H. destruct (bind_ok_inv _ _ _ _ _ H) as (r & w1 & H1 & H2).
  destruct (await_inv _ _ _ _ _ _ _ _ Hk Hs H1) as [Ht Hr]. destruct r as [o| |].
  - specialize (Hr o eq_refl). assert (Hg : may h MutexOps).
    { unfold mutex_free in Hr. destruct (objs (kern w1) !! h) as [[ty mo op b]|] eqn:E; [|done].
      pose proof (fits_may _ _ _ (inv_read _ _ _ _ (proj1 Ht) E)) as Hb. by destruct b. }
    eapply (keeps_bind (modify (set_body h (BMutex o))) (λ _, mret 0)); [|intros; apply keeps_ret|exact Ht|exact H2].
    by apply keeps_set_body.
  - by eapply keeps_ret.
  - by eapply keeps_ret.
Qed.
End Keeps.

#[export] Hint Resolve keeps_ret keeps_undefined keeps_gets keeps_lift keeps_free keeps_await keeps_clock keeps_mutex_lock : keeps.

(** Go through a computation: casts first, then binds and case distinctions. *)
Ltac keeps_step :=
  first
  [ solve [auto with keeps nocore]
  | apply keeps_same; intros ?; reflexivity
  | apply keeps_event_at; intros ? ?
  | apply keeps_mutex_at; intros ? ?
  | apply keeps_semaphore_at; intros ? ?
  | apply keeps_timer_at; intros ? ?
  | apply keeps_thread_at; intros ? ?
  | apply keeps_object_at; intros ? ?
  | apply keeps_set_body; cbn; assumption
  | apply keeps_bind; [|intros ?]
  | apply keeps_retry
  | apply keeps_loop; intros ?
  | match goal with |- keeps _ (match ?x with _ => _ end) => destruct x end
  | match goal with |- keeps _ (match ?x with _ => _ end _) => destruct x end ].
Ltac keeps := repeat keeps_step.

(** ** Every operation keeps the typing *)

Section Operations.
Context (Inv : heap_invariant).

Local Abbreviation keeps := (keeps Inv).
Local Abbreviation may := (may Inv).
Local Abbreviation may_new := (may_new Inv).
Local Abbreviation may_free := (may_free Inv).
Local Abbreviation fits := (fits Inv).

Lemma keeps_SetLastError e : keeps (SetLastError e). Proof. unfold SetLastError. keeps. Qed.
Lemma keeps_close fd : keeps (sys_close fd). Proof. unfold sys_close. keeps. Qed.
Lemma keeps_eventfd fd : keeps (sys_eventfd fd). Proof. unfold sys_eventfd. keeps. Qed.
Lemma keeps_timerfd fd : keeps (sys_timerfd_create fd). Proof. unfold sys_timerfd_create. keeps. Qed.
Lemma keeps_pipe fds : keeps (sys_pipe fds). Proof. unfold sys_pipe. keeps. Qed.
Lemma keeps_read fd n : keeps (sys_read fd n). Proof. unfold sys_read. keeps. Qed.
Lemma keeps_write fd n v : keeps (sys_write fd n v). Proof. unfold sys_write. keeps. Qed.
Lemma keeps_poll l t : keeps (sys_poll l t). Proof. unfold sys_poll. keeps. Qed.
Lemma keeps_timerfd_settime fd i v : keeps (timerfd_settime fd i v). Proof. unfold timerfd_settime. keeps. Qed.
Lemma keeps_timer_create t rc : keeps (timer_create t rc). Proof. unfold timer_create. keeps. Qed.
Lemma keeps_timer_settime t i v : keeps (timer_settime t i v). Proof. unfold timer_settime. keeps. Qed.
Lemma keeps_join t : keeps (pthread_join t). Proof. unfold pthread_join. keeps. Qed.
Lemma keeps_detach t : keeps (pthread_detach t). Proof. unfold pthread_detach. keeps. Qed.
#[local] Hint Resolve keeps_SetLastError keeps_close keeps_eventfd keeps_timerfd keeps_pipe keeps_read keeps_write keeps_poll
  keeps_timerfd_settime keeps_timer_create keeps_timer_settime keeps_join keeps_detach : keeps.

Lemma keeps_object h : keeps (object_at h). Proof. apply keeps_lift. Qed.
#[local] Hint Resolve keeps_object : keeps.
Lemma keeps_GetInfo h : keeps (winpr_Handle_GetInfo h). Proof. unfold winpr_Handle_GetInfo. keeps. Qed.
Lemma keeps_IsHandled t h : keeps (IsHandledAs t h). Proof. unfold IsHandledAs. keeps. Qed.
Lemma keeps_EventIsHandled h : keeps (EventIsHandled h). Proof. apply keeps_IsHandled. Qed.
Lemma keeps_MutexIsHandled h : keeps (MutexIsHandled h). Proof. apply keeps_IsHandled. Qed.
Lemma keeps_SemaphoreIsHandled h : keeps (SemaphoreIsHandled h). Proof. apply keeps_IsHandled. Qed.
Lemma keeps_TimerIsHandled h : keeps (TimerIsHandled h). Proof. apply keeps_IsHandled. Qed.
Lemma keeps_ThreadIsHandled h : keeps (ThreadIsHandled h). Proof. apply keeps_IsHandled. Qed.
#[local] Hint Resolve keeps_GetInfo keeps_EventIsHandled keeps_MutexIsHandled keeps_SemaphoreIsHandled keeps_TimerIsHandled
  keeps_ThreadIsHandled : keeps.

Lemma keeps_upd_timer h f : keeps (upd_timer h f). Proof. unfold upd_timer. keeps. Qed.
Lemma keeps_upd_thread h f : keeps (upd_thread h f). Proof. unfold upd_thread. keeps. Qed.
#[local] Hint Resolve keeps_upd_timer keeps_upd_thread : keeps.

Lemma keeps_GetFd i h : keeps (GetFd (ops_table i) h).
Proof. destruct i; cbn; unfold EventGetFd, MutexGetFd, SemaphoreGetFd, TimerGetFd, ThreadGetFd; keeps. Qed.

Lemma keeps_CleanupHandle i f h : CleanupHandle (ops_table i) = Some f → keeps (f h).
Proof.
  destruct i; cbn; intros [= <-]; unfold SemaphoreCleanupHandle, TimerCleanupHandle, ThreadCleanupHandle; keeps.
Qed.
#[local] Hint Resolve keeps_GetFd : keeps.

Lemma keeps_getFd h : keeps (winpr_Handle_getFd h).
Proof. unfold winpr_Handle_getFd. keeps. Qed.

Lemma keeps_cleanup h : keeps (winpr_Handle_cleanup h).
Proof.
  unfold winpr_Handle_cleanup. apply keeps_bind; [keeps|]. intros [i|]; [|keeps]. apply keeps_object_at. intros o Ho.
  destruct (ops o) as [t|]; [|keeps]. destruct (CleanupHandle (ops_table t)) eqn:E; [by eapply keeps_CleanupHandle|keeps].
Qed.
#[local] Hint Resolve keeps_getFd keeps_cleanup : keeps.

Lemma keeps_wait_single h ms : keeps (WaitForSingleObject h ms).
Proof. unfold WaitForSingleObject, waitOnFd. keeps. Qed.
#[local] Hint Resolve keeps_wait_single : keeps.

(** *** Waiting for several objects *)

Lemma keeps_poll_entry h : keeps (poll_entry h). Proof. unfold poll_entry. keeps. Qed.
#[local] Hint Resolve keeps_poll_entry : keeps.

Lemma keeps_collect hs idx all i : keeps (collect hs idx all i).
Proof. revert i. induction hs as [|h hs IH]; intros i; cbn [collect]; [keeps|]. case_match; [apply IH|keeps; apply IH]. Qed.
#[local] Hint Resolve keeps_collect : keeps.

Lemma keeps_scan hs all polled idx n b : keeps (scan hs all polled idx n b).
Proof.
  revert idx n b. induction polled as [|[[i p] rev] rest IH]; intros idx n b; cbn [scan]; [keeps|].
  destruct (hs !! i) as [h|]; [|keeps]. apply keeps_bind; [keeps|]. intros [q|]; [|keeps].
  destruct (nonzero _); [|apply IH]. apply keeps_bind; [keeps|]. intros rc. destruct (negb _); [keeps|].
  destruct (negb all); [keeps|]. cbv zeta. destruct (_ <=? _)%nat; [keeps|apply IH].
Qed.
#[local] Hint Resolve keeps_scan : keeps.

Lemma keeps_wait_round hs all st : keeps (wait_round hs all st).
Proof.
  destruct st as [[idx n] ms]. unfold wait_round. cbv zeta. apply keeps_bind; [keeps|]. intros t0.
  apply keeps_bind; [keeps|]. intros [polled|]; [|keeps]. apply keeps_bind; [keeps|]. intros [status revs].
  destruct (status <? 0); [keeps|]. destruct (status =? 0); [keeps|]. apply keeps_bind; [keeps|]. intros t1.
  destruct (_ && _); [keeps|]. apply keeps_bind; [keeps|]. intros [[[a b] c]|rc]; keeps.
Qed.
#[local] Hint Resolve keeps_wait_round : keeps.

Lemma keeps_wait_multiple fuel hs all ms : keeps (WaitForMultipleObjects fuel hs all ms).
Proof. unfold WaitForMultipleObjects. cbv zeta. keeps. Qed.

(** *** Events, semaphores and mutexes *)

Lemma keeps_eventfd_write fd v : keeps (eventfd_write fd v). Proof. unfold eventfd_write. keeps. Qed.
Lemma keeps_eventfd_read fd : keeps (eventfd_read fd). Proof. unfold eventfd_read. keeps. Qed.
#[local] Hint Resolve keeps_eventfd_write keeps_eventfd_read : keeps.
Lemma keeps_SetEvent h : keeps (SetEvent h). Proof. unfold SetEvent. keeps. Qed.
Lemma keeps_reset_body h b : keeps (reset_body h b). Proof. unfold reset_body. keeps. Qed.
#[local] Hint Resolve keeps_SetEvent keeps_reset_body : keeps.
Lemma keeps_ResetEvent fuel h : keeps (ResetEvent fuel h). Proof. unfold ResetEvent. keeps. Qed.
Lemma keeps_EventCloseHandle h : may_free h → keeps (EventCloseHandle h). Proof. intros Hf. unfold EventCloseHandle. keeps. Qed.
Lemma keeps_GetEventFileDescriptor h : keeps (GetEventFileDescriptor h). Proof. unfold GetEventFileDescriptor. keeps. Qed.

(** Objects under construction: put at their address, filled in, freed on failure. *)
Lemma keeps_new h i ty mode b : may_new h i → ty = type_of i ∨ ty = 0 → kind_of b = i →
  keeps (modify (set_obj h (Object ty mode (Some i) b))).
Proof. intros Hn Hty Hb. by apply keeps_set_obj, fits_new. Qed.

Lemma keeps_fill h i b : may_new h i → kind_of b = i → keeps (modify (set_body h b)).
Proof. intros Hn <-. by apply keeps_set_body, new_may. Qed.

Lemma keeps_drop_new h i : may_new h i → keeps (free h).
Proof. intros Hn. by eapply keeps_free, new_free. Qed.

Ltac new_object Hn := first [by eapply keeps_fill; [exact Hn|] | by eapply keeps_drop_new; exact Hn
  | by eapply keeps_new; [exact Hn|first [by left|by right]|] ].

Lemma keeps_SetEventFileDescriptor h fd mode : keeps (SetEventFileDescriptor h fd mode).
Proof.
  unfold SetEventFileDescriptor. apply keeps_bind; [keeps|]. intros [i|]; [|keeps]. apply keeps_event_at. intros e He.
  apply keeps_bind; [keeps|]. intros _. apply keeps_object_at. intros o Ho. apply keeps_bind; [|keeps].
  by apply keeps_set_obj, fits_replace.
Qed.

Lemma keeps_CreateEventW a efd m i : may_new a EventOps → keeps (CreateEventW a efd m i).
Proof. intros Ha. unfold CreateEventW. keeps; new_object Ha. Qed.

Lemma keeps_CreateFileDescriptorEventW a m fd mode : may_new a EventOps → keeps (CreateFileDescriptorEventW a m fd mode).
Proof. intros Ha. unfold CreateFileDescriptorEventW. keeps; new_object Ha. Qed.

Lemma keeps_write_tokens fd n : keeps (write_tokens fd n).
Proof. induction n as [|n IH]; cbn [write_tokens]; keeps. Qed.
#[local] Hint Resolve keeps_write_tokens : keeps.

Lemma keeps_CreateSemaphoreW a fds i m : may_new a SemaphoreOps → keeps (CreateSemaphoreW a fds i m).
Proof.
  intros Ha. unfold CreateSemaphoreW. keeps; try new_object Ha. by apply keeps_set_obj, (fits_finish _ _ SemaphoreOps).
Qed.

Lemma keeps_ReleaseSemaphore h n : keeps (ReleaseSemaphore h n). Proof. unfold ReleaseSemaphore. keeps. Qed.
Lemma keeps_SemaphoreCloseHandle h : may_free h → keeps (SemaphoreCloseHandle h). Proof. intros Hf. unfold SemaphoreCloseHandle. keeps. Qed.
Lemma keeps_CreateMutexW a o : may_new a MutexOps → keeps (CreateMutexW a o).
Proof. intros Ha. unfold CreateMutexW. keeps; new_object Ha. Qed.
Lemma keeps_ReleaseMutex h : keeps (ReleaseMutex h). Proof. unfold ReleaseMutex, mutex_unlock. keeps. Qed.
Lemma keeps_MutexCloseHandle h : may_free h → keeps (MutexCloseHandle h). Proof. intros Hf. unfold MutexCloseHandle. keeps. Qed.

(** *** Timers and threads *)

Lemma keeps_TimerCloseHandle h : may_free h → keeps (TimerCloseHandle h). Proof. intros Hf. unfold TimerCloseHandle. keeps. Qed.
Lemma keeps_WaitableTimerSignalHandler call s h : (∀ f a, keeps (call f a)) → keeps (WaitableTimerSignalHandler call s h).
Proof. intros Hc. unfold WaitableTimerSignalHandler. keeps. Qed.
Lemma keeps_new_fd {B} fd (f : Z → K B) : keeps (f fd) → keeps (sys_timerfd_create fd ≫= f).
Proof.
  intros Hf w b w' Hw H. unfold sys_timerfd_create in H. rewrite bind_bind in H.
  refine (keeps_bind Inv _ (λ _, mret fd ≫= f) _ _ w b w' Hw H); [keeps|]. by intros [].
Qed.
Lemma keeps_InitializeWaitableTimer os h : (os_fd os <= 0 → may_free h) → keeps (InitializeWaitableTimer os h).
Proof.
  intros Hf. unfold InitializeWaitableTimer. apply keeps_timer_at. intros t Ht. case_match; [|keeps].
  apply keeps_new_fd. destruct (Z.leb_spec (os_fd os) 0); [specialize (Hf ltac:(done))|]; keeps.
Qed.
Lemma keeps_program_timer h d p : keeps (program_timer h d p). Proof. unfold program_timer. cbv zeta. keeps. Qed.
#[local] Hint Resolve keeps_InitializeWaitableTimer keeps_program_timer : keeps.
Lemma keeps_SetWaitableTimer os h d p f a : (os_fd os <= 0 → may_free h) → keeps (SetWaitableTimer os h d p f a). Proof. intros Hf. unfold SetWaitableTimer. keeps. Qed.
Lemma keeps_CreateWaitableTimerA a m : may_new a TimerOps → keeps (CreateWaitableTimerA a m).
Proof. intros Ha. unfold CreateWaitableTimerA. keeps; new_object Ha. Qed.

Lemma keeps_set_event h : keeps (set_event h). Proof. unfold set_event. keeps. Qed.
Lemma keeps_reset_event h : keeps (reset_event h). Proof. unfold reset_event. keeps. Qed.
Lemma keeps_find_thread l tid : keeps (find_thread l tid).
Proof. induction l as [|h l IH]; cbn [find_thread]; unfold thread_compare; keeps. Qed.
#[local] Hint Resolve keeps_set_event keeps_reset_event keeps_find_thread : keeps.
Lemma keeps_GetItemValue tid : keeps (thread_list_GetItemValue tid). Proof. unfold thread_list_GetItemValue. keeps. Qed.
#[local] Hint Resolve keeps_GetItemValue : keeps.
Lemma keeps_Contains tid : keeps (thread_list_Contains tid). Proof. unfold thread_list_Contains. keeps. Qed.
Lemma keeps_Remove tid : keeps (thread_list_Remove tid). Proof. unfold thread_list_Remove. keeps. Qed.
Lemma keeps_Add ok h : keeps (thread_list_Add ok h). Proof. unfold thread_list_Add. keeps. Qed.
#[local] Hint Resolve keeps_Contains keeps_Remove keeps_Add : keeps.
Lemma keeps_cleanup_handle h : may_free h → keeps (cleanup_handle h). Proof. intros Hf. unfold cleanup_handle. keeps. Qed.
#[local] Hint Resolve keeps_cleanup_handle : keeps.
Lemma keeps_launcher_exit h rc : may_free h → keeps (launcher_exit h rc). Proof. intros Hf. unfold launcher_exit. keeps. Qed.
Lemma keeps_StartThread os h : keeps (winpr_StartThread os h). Proof. unfold winpr_StartThread. keeps. Qed.
Lemma keeps_create_error h : may_free h → keeps (create_error h). Proof. intros Hf. unfold create_error. keeps. Qed.
#[local] Hint Resolve keeps_StartThread keeps_create_error : keeps.
Lemma keeps_ThreadCloseHandle h : may_free h → keeps (ThreadCloseHandle h). Proof. intros Hf. unfold ThreadCloseHandle. keeps. Qed.
Lemma keeps_ExitThread code : (∀ h, may_free h) → keeps (ExitThread code). Proof. intros Hf. unfold ExitThread. keeps. Qed.
Lemma keeps_GetExitCodeThread h : keeps (GetExitCodeThread h). Proof. unfold GetExitCodeThread. keeps. Qed.
Lemma keeps_ResumeThread os h : keeps (ResumeThread os h). Proof. unfold ResumeThread. keeps. Qed.
Lemma keeps_TerminateThread h code : keeps (TerminateThread h code). Proof. unfold TerminateThread. keeps. Qed.

Lemma keeps_CreateThread os a p flags : may_new (th_calloc os) ThreadOps → keeps (CreateThread os a p flags).
Proof.
  intros Ha. pose proof (new_free _ _ _ Ha) as Hf. unfold CreateThread. cbv zeta. keeps; try new_object Ha.
  by apply keeps_set_obj, (fits_finish _ _ ThreadOps).
Qed.

Lemma keeps_CloseHandle h : may_free h → keeps (CloseHandle h).
Proof.
  intros Hf. unfold CloseHandle. keeps. match goal with |- keeps (close_op ?i h) => destruct i end; cbn [close_op];
    auto using keeps_EventCloseHandle, keeps_MutexCloseHandle, keeps_SemaphoreCloseHandle, keeps_TimerCloseHandle, keeps_ThreadCloseHandle.
Qed.
End Operations.

(** A call that creates an object is given an address for it, and one that may
    free an object one that may be freed. *)
Definition call_frees (c : call) (h : Z) : Prop :=
  match c with
  | CCloseHandle h' | CThreadEnds h' _ => h = h'
  | CSetWaitableTimer os h' _ _ _ _ => h = h' ∧ os_fd os <= 0
  | CExitThread _ => True
  | _ => False
  end.

Definition call_fits (Inv : heap_invariant) (c : call) : Prop :=
  match creates c with Some (a, i) => a ≠ 0 → may_new Inv a i | None => ∀ h, call_frees c h → may_free Inv h end.

Lemma keeps_drop Inv {A} (m : K A) : keeps Inv m → keeps Inv (drop_result m).
Proof. intros Hm. apply keeps_bind; [done|]. intros a. apply keeps_ret. Qed.

(** An allocation that fails makes nothing. *)
Lemma keeps_no_memory Inv c routine i : creates c = Some (0, i) → keeps Inv (run_call routine c).
Proof.
  destruct c; cbn [creates run_call]; try done; intros [= E _]; apply keeps_drop;
    unfold CreateEventW, CreateFileDescriptorEventW, CreateSemaphoreW, CreateMutexW, CreateWaitableTimerA, CreateThread;
    rewrite E; apply keeps_ret.
Qed.

Lemma keeps_call Inv routine c : (∀ f a, keeps Inv (routine f a)) → call_fits Inv c → keeps Inv (run_call routine c).
Proof.
  intros Hr Hfit. assert (Hc : (∃ i, creates c = Some (0, i)) ∨
    match creates c with Some (a, i) => may_new Inv a i | None => ∀ h, call_frees c h → may_free Inv h end).
  { unfold call_fits in Hfit. destruct (creates c) as [[a i]|]; [|by right]. destruct (decide (a = 0)) as [->|]; [left; by exists i|right; auto]. }
  clear Hfit. destruct Hc as [[i Hc]|Hc]; [by eapply keeps_no_memory|]. revert Hc.
  destruct c; cbn [creates call_frees run_call]; intros Hc; try apply keeps_drop;
    eauto using keeps_CreateEventW, keeps_CreateFileDescriptorEventW, keeps_SetEvent, keeps_ResetEvent, keeps_GetEventFileDescriptor,
      keeps_SetEventFileDescriptor, keeps_CreateSemaphoreW, keeps_ReleaseSemaphore, keeps_CreateMutexW, keeps_ReleaseMutex.
  all: eauto using keeps_CreateWaitableTimerA, keeps_SetWaitableTimer, keeps_WaitableTimerSignalHandler, keeps_CreateThread,
      keeps_launcher_exit, keeps_ExitThread, keeps_GetExitCodeThread, keeps_ResumeThread.
  all: eauto using keeps_TerminateThread, keeps_wait_single, keeps_wait_multiple, keeps_CloseHandle.
Qed.

(** ** Theorems *)

(** What other threads do keeps the invariant when they only make calls of the library. *)
Lemma by_thread_keeps Inv (m : K unit) : keeps Inv m → env_keeps Inv (by_thread m).
Proof.
  intros Hm k Hk. destruct (m (World k [])) as [[[] w]| |] eqn:E; try done.
  destruct (Hm (World k []) _ _ (conj Hk (List.Forall_nil _)) E). done.
Qed.

(** A call that creates an object is given an address of the right kind. *)
Definition call_ok (Γ : Z → opsid) (c : call) : Prop :=
  match creates c with Some (a, i) => a ≠ 0 → Γ a = i | None => True end.

Lemma call_ok_fits Γ c : call_ok Γ c → call_fits (heap_typing Γ) c.
Proof. unfold call_ok, call_fits. by destruct (creates c) as [[a i]|]. Qed.

(** *** Histories

    A history of a process: one call after the other, each made by some thread
    and run to its end while other threads make calls or signals arrive. The
    allocator answers what it likes that is not in use: the addresses it gives
    out during a call were free when the call began, and none is given out twice
    before it ends. Between calls, memory is used again for any kind of object. *)

Definition set_self t (k : kernel) := Kernel (objs k) (files k) (pipes k) (threads k) (thread_list k) t (g_LastError k) (now k) (realtime k) (ptimers k).

(** What happens while a thread is blocked: a call of another thread, or a
    signal. *)
Definition meanwhile (routine : Z → Z → K unit) (o : option call) : env :=
  match o with Some c => by_thread (run_call routine c) | None => Signal end.

Definition their_calls (others : list (option call)) : list call := omap id others.

Definition address (c : call) : option Z :=
  match creates c with Some (a, _) => if a =? 0 then None else Some a | None => None end.

Definition fresh (k : kernel) (l : list call) : Prop := NoDup (omap address l) ∧ ∀ a, a ∈ omap address l → objs k !! a = None.

Inductive made_call (routine : Z → Z → K unit) (k k' : kernel) : Prop :=
  | a_call t c others s : fresh k (c :: their_calls others) →
      run_call routine c (World (set_self t k) (map (meanwhile routine) others)) = Ok ((), World k' s) → made_call routine k k'.

Definition history (routine : Z → Z → K unit) : kernel → kernel → Prop := rtc (made_call routine).

(** Every object is of some kind. *)
Definition well_kinded (k : kernel) : Prop := ∀ h o, objs k !! h = Some o → ∃ i, object_ok i o.

(** The typing of one call: the objects there are, and those that are made. *)
Fixpoint kinds (k : kernel) (l : list call) (h : Z) : opsid :=
  match l with
  | [] => from_option (λ o, kind_of (obody o)) EventOps (objs k !! h)
  | c :: l => match creates c with Some (a, i) => if negb (a =? 0) && (h =? a) then i else kinds k l h | None => kinds k l h end
  end.

Lemma kinds_typed k l : well_kinded k → (∀ a, a ∈ omap address l → objs k !! a = None) → heap_typed (kinds k l) k.
Proof.
  intros Hk Hl h o Ho. destruct (Hk h o Ho) as (i & Hi). replace (kinds k l h) with i; [done|].
  induction l as [|c l IH]; cbn; [rewrite Ho; cbn; by destruct Hi as (_ & -> & _)|].
  cbn [omap list_omap] in Hl. unfold address in Hl. destruct (creates c) as [[a j]|]; cbn in Hl; [|by apply IH].
  destruct (a =? 0); cbn [negb andb]; [by apply IH|].
  destruct (Z.eqb_spec h a) as [->|]; [rewrite (Hl a) in Ho by (by left); done|]. apply IH. intros b Hb. apply Hl. by right.
Qed.

Lemma kinds_calls k l : NoDup (omap address l) → Forall (call_ok (kinds k l)) l.
Proof.
  assert (H : ∀ l c a i, NoDup (omap address l) → c ∈ l → creates c = Some (a, i) → a ≠ 0 → kinds k l a = i); [|].
  { clear. intros l. induction l as [|d l IH]; intros c a i Hnd Hc Ha H0; [by apply not_elem_of_nil in Hc|]. cbn.
    cbn [omap list_omap] in Hnd. unfold address in Hnd. apply Z.eqb_neq in H0 as H0'.
    apply elem_of_cons in Hc as [<-|Hc]; [by rewrite Ha, H0', Z.eqb_refl|].
    destruct (creates d) as [[b j]|]; cbn in Hnd; [|by eapply IH]. destruct (b =? 0); cbn [negb andb]; [by eapply IH|].
    apply NoDup_cons in Hnd as [Hb Hnd]. destruct (Z.eqb_spec a b) as [->|]; [|by eapply IH].
    destruct Hb. apply list_elem_of_omap. exists c. split; [done|]. unfold address. by rewrite Ha, H0'. }
  intros Hnd. apply Forall_forall. intros c Hc. unfold call_ok. destruct (creates c) as [[a i]|] eqn:E; [|done]. by eapply H.
Qed.

Lemma meanwhile_keeps Inv routine others : (∀ f a, keeps Inv (routine f a)) → Forall (call_fits Inv) (their_calls others) →
  Forall (env_keeps Inv) (map (meanwhile routine) others).
Proof.
  intros Hr Ho. apply Forall_map, Forall_forall. intros [c|] Hc; [|done]. apply by_thread_keeps, keeps_call; [done|].
  rewrite Forall_forall in Ho. apply Ho, list_elem_of_omap. by exists (Some c).
Qed.

(** A call keeps a typing in which everything that happens during it fits. *)
Lemma made_call_typed routine k k' : (∀ Γ f a, keeps (heap_typing Γ) (routine f a)) → made_call routine k k' → well_kinded k →
  ∃ Γ, heap_typed Γ k ∧ heap_typed Γ k'.
Proof.
  intros Hr [t c others s [Hnd Hf] H] Hk. set (l := c :: their_calls others) in *. exists (kinds k l).
  assert (Ht := kinds_typed k l Hk Hf). split; [done|]. assert (Hc := kinds_calls k l Hnd). apply Forall_cons in Hc as [Hc Ho].
  apply (keeps_call (heap_typing (kinds k l)) routine c) in H; [apply H|by intros|by apply call_ok_fits|].
  split; [exact Ht|]. apply meanwhile_keeps; [by intros|]. eapply Forall_impl; [exact Ho|]. intros ?. apply call_ok_fits.
Qed.

(** C17: the kinds of objects. Whatever calls the threads of a process make,
    right or wrong, on whatever handles and descriptors, and whatever calls others
    make and signals arrive while one is blocked, as long as no call is undefined:
    in every object the tag, the table of operations and the layout agree
    afterwards, and an object there before and after a call is of the kind it
    was. (Memory that is freed while a call is blocked is not given out again
    before it returns; between calls it may be, for any kind.) *)
Theorem calls_well_typed routine k k' : (∀ Γ f a, keeps (heap_typing Γ) (routine f a)) → well_kinded k → history routine k k' →
  well_kinded k' ∧
  (∀ k2, made_call routine k' k2 → ∀ h o o2, objs k' !! h = Some o → objs k2 !! h = Some o2 → ops o2 = ops o ∧ kind_of (obody o2) = kind_of (obody o)).
Proof.
  intros Hr Hk Hh. assert (Hk' : well_kinded k').
  { induction Hh as [|k k1 k' Hc _ IH]; [done|]. apply IH. destruct (made_call_typed routine k k1 Hr Hc Hk) as (Γ & _ & Ht).
    intros h o Ho. exists (Γ h). by apply Ht. }
  split; [done|]. intros k2 Hc h o o2 Ho Ho2. destruct (made_call_typed routine k' k2 Hr Hc Hk') as (Γ & H1 & H2).
  destruct (H1 h o Ho) as (-> & -> & _), (H2 h o2 Ho2) as (-> & -> & _). done.
Qed.

(** The checks on a live object of a known kind. *)
Section Live.
Context (k : kernel) (s : list env) (h : Z) (i : opsid) (mode : Z) (b : body).
Local Abbreviation o := (Object (type_of i) mode (Some i) b).
Context (Hv : valid_handle h) (Ho : objs k !! h = Some o) (Hb : kind_of b = i).

Lemma live_info {A} (f : option Z → K A) : (winpr_Handle_GetInfo h ≫= f) (World k s) = f (Some (type_of i)) (World k s).
Proof. by rewrite (K_bind_ok _ _ _ _ _ (info_ok k s h o Hv Ho)). Qed.

Lemma live_handled {A} (f : bool → K A) : (IsHandledAs (type_of i) h ≫= f) (World k s) = f true (World k s).
Proof. by rewrite (K_bind_ok _ _ _ _ _ (is_handled_ok k s h o Hv Ho)). Qed.

Lemma live_object {A} (f : object → K A) : (object_at h ≫= f) (World k s) = f o (World k s).
Proof. exact (bind_object _ _ _ _ _ Ho). Qed.

(** A cast to the wrong kind is undefined. *)
Lemma wrong_cast {A B} (sel : body → K A) (f : A → K B) : sel b = undefined →
  ((object_at h ≫= λ x, sel (obody x)) ≫= f) (World k s) = UB.
Proof. intros Hs. rewrite bind_bind, live_object. cbn [obody]. by rewrite Hs. Qed.

(** The descriptor and the closing of each kind. *)
Lemma live_getFd : ∃ fd, winpr_Handle_getFd h (World k s) = Ok (fd, World k s).
Proof.
  unfold winpr_Handle_getFd. rewrite live_info, live_object. cbn [ops]. pose proof (@live_handled Z) as Hh. revert Hh Ho.
  destruct b; cbn [kind_of] in Hb; subst i; cbn [ops_table GetFd type_of]; intros Hh Ho';
    unfold EventGetFd, MutexGetFd, SemaphoreGetFd, TimerGetFd, ThreadGetFd, EventIsHandled, MutexIsHandled, SemaphoreIsHandled,
      TimerIsHandled, ThreadIsHandled, event_at, semaphore_at, timer_at, thread_at;
    rewrite Hh; rewrite ?bind_bind, ?(bind_object _ _ _ _ _ Ho'); eexists; reflexivity.
Qed.

Lemma live_close : i ≠ ThreadOps → ∃ k', CloseHandle h (World k s) = Ok (true, World k' s) ∧ objs k' = delete h (objs k).
Proof.
  intros Hi. unfold CloseHandle. rewrite live_info, live_object. cbn [ops]. pose proof (@live_handled bool) as Hh. revert Hh Ho.
  destruct b as [e|m|sm|t|t]; cbn [kind_of] in Hb; subst i; cbn [close_op type_of]; intros Hh Ho'; try done;
    unfold EventCloseHandle, MutexCloseHandle, SemaphoreCloseHandle, TimerCloseHandle, EventIsHandled, MutexIsHandled,
      SemaphoreIsHandled, TimerIsHandled; rewrite Hh; cbn [negb];
    unfold event_at, mutex_at, semaphore_at, timer_at; rewrite bind_bind, (bind_object _ _ _ _ _ Ho'); cbn [obody]; krun.
  - destruct (bAttached e); cbn [negb]; [krun; eexists; split; reflexivity|].
    destruct (ev_fd0 e =? -1); cbn [negb]; unfold sys_close, free; krun.
    + rewrite (bind_object _ _ _ _ _ Ho'); cbn [obody]; krun. destruct (ev_fd1 e =? -1); cbn [negb]; krun;
        (eexists; split; [reflexivity|]); cbn; by rewrite ?delete_alter_eq.
    + rewrite (bind_object _ _ h (Object (type_of EventOps) mode (Some EventOps) (BEvent (set_fds (-1) (ev_fd1 e) e))))
        by (cbn; by rewrite lookup_alter_eq, Ho').
      cbn [obody]; krun. cbn [ev_fd1 set_fds]. destruct (ev_fd1 e =? -1); cbn [negb]; krun;
        (eexists; split; [reflexivity|]); cbn; by rewrite ?delete_alter_eq.
  - eexists; split; reflexivity.
  - destruct (sem_fd0 sm =? -1); cbn [negb]; unfold sys_close, free; krun; [eexists; split; reflexivity|].
    destruct (sem_fd1 sm =? -1); cbn [negb]; krun; (eexists; split; [reflexivity|]); cbn; by rewrite ?delete_alter_eq.
  - destruct (tm_fd t =? -1); cbn [negb]; unfold sys_close, free; krun; eexists; split; reflexivity.
Qed.
End Live.

Lemma object_ok_eq i o : object_ok i o → Type_ o = type_of i →
  ∃ mode b, o = Object (type_of i) mode (Some i) b ∧ kind_of b = i.
Proof. destruct o as [ty mode op b]. intros (H1 & H2 & _) H3. cbn in *. subst. eauto. Qed.

(** The calls that test the tag of the handle answer FALSE on another kind of object. *)
Lemma wrong_type_false Γ k s h o : heap_typed Γ k → valid_handle h → objs k !! h = Some o → Type_ o = type_of (Γ h) →
  (Γ h ≠ SemaphoreOps → ∀ n, ReleaseSemaphore h n (World k s) = Ok (false, World k s)) ∧
  (Γ h ≠ MutexOps → ReleaseMutex h (World k s) = Ok (false, World k s)) ∧
  (Γ h ≠ TimerOps → ∀ os d p f a, SetWaitableTimer os h d p f a (World k s) = Ok (false, World k s)).
Proof.
  intros Hk Hv Ho Hty. pose proof (info_ok k s h o Hv Ho) as Hi. rewrite Hty in Hi.
  split_and!; intros Hne; intros; unfold ReleaseSemaphore, ReleaseMutex, SetWaitableTimer; kstep Hi;
    destruct (Γ h); try done; by repeat match goal with |- context [match ?d with Some _ => _ | None => _ end] => destruct d end.
Qed.

(** The calls that only test the handle for null read another kind of object as
    their own. *)
Lemma wrong_type_undefined Γ k s h o : heap_typed Γ k → valid_handle h → objs k !! h = Some o →
  (Γ h ≠ EventOps → SetEvent h (World k s) = UB ∧ GetEventFileDescriptor h (World k s) = UB) ∧
  (Γ h ≠ ThreadOps → GetExitCodeThread h (World k s) = UB ∧ ∀ code, TerminateThread h code (World k s) = UB).
Proof.
  intros Hk Hv Ho. pose proof (info_ok k s h o Hv Ho) as Hi. destruct (Hk h o Ho) as (_ & Hb & _).
  split; intros Hne; split; intros; unfold SetEvent, GetEventFileDescriptor, GetExitCodeThread, TerminateThread, upd_thread, event_at, thread_at;
    kstep Hi; rewrite ?bind_bind, (bind_object _ _ _ _ _ Ho); destruct (obody o); cbn in Hb; try done; congruence.
Qed.

(** what the kinds of objects protect. On a live object, whatever its kind,
    the dispatch through the table of operations never reads it as another
    kind: its descriptor is found, and CloseHandle of anything but a thread
    answers TRUE and frees exactly that object (a second close, of the handle or
    of a duplicate, which is the same pointer, is a use after free).
    ReleaseSemaphore, ReleaseMutex and SetWaitableTimer answer FALSE on the wrong
    kind; SetEvent, GetEventFileDescriptor, GetExitCodeThread and TerminateThread
    do not look at the tag and are undefined on the wrong kind. *)
Theorem handle_kind_safety Γ k s h o : heap_typed Γ k → valid_handle h → objs k !! h = Some o → Type_ o = type_of (Γ h) →
  (∃ fd, winpr_Handle_getFd h (World k s) = Ok (fd, World k s)) ∧
  (Γ h ≠ ThreadOps → ∃ k', CloseHandle h (World k s) = Ok (true, World k' s) ∧ objs k' = delete h (objs k) ∧
     heap_typed Γ k' ∧ DuplicateHandle h (World k s) = Ok ((true, h), World k s) ∧ CloseHandle h (World k' s) = UB) ∧
  ((Γ h ≠ SemaphoreOps → ∀ n, ReleaseSemaphore h n (World k s) = Ok (false, World k s)) ∧
   (Γ h ≠ MutexOps → ReleaseMutex h (World k s) = Ok (false, World k s)) ∧
   (Γ h ≠ TimerOps → ∀ os d p f a, SetWaitableTimer os h d p f a (World k s) = Ok (false, World k s))) ∧
  (Γ h ≠ EventOps → SetEvent h (World k s) = UB ∧ GetEventFileDescriptor h (World k s) = UB) ∧
  (Γ h ≠ ThreadOps → GetExitCodeThread h (World k s) = UB ∧ ∀ code, TerminateThread h code (World k s) = UB).
Proof.
  intros Hk Hv Ho Hty. destruct (object_ok_eq _ _ (Hk h o Ho) Hty) as (mode & b & He & Hb). subst o.
  pose proof (wrong_type_undefined Γ k s h _ Hk Hv Ho) as [Hu1 Hu2].
  split_and!; [by eapply live_getFd| |by eapply wrong_type_false..|exact Hu1|exact Hu2].
  intros Hi. destruct (live_close k s h (Γ h) mode b Hv Ho Hb Hi) as (k' & Hc & Hd). exists k'. split_and!; try done.
  - intros h' o'. rewrite Hd. intros [_ H]%lookup_delete_Some. by apply Hk.
  - destruct Hv as [H0 H1]. unfold CloseHandle, winpr_Handle_GetInfo.
    destruct (Z.eqb_spec h 0), (Z.eqb_spec h INVALID_HANDLE_VALUE); try done. cbn [orb].
    unfold object_at, lift, get, mbind, K_bind. cbn [kern]. by rewrite Hd, lookup_delete_eq.
Qed.

(** A kernel with a mutex at 16 and an event at 32. *)
Definition kinds_demo (h : Z) : opsid := if h =? 16 then MutexOps else if h =? 48 then SemaphoreOps else EventOps.
Definition kinds_kernel : kernel :=
  Kernel {[ 16 := Object HANDLE_TYPE_MUTEX UZI_FD_READ (Some MutexOps) (BMutex (Mutex PTHREAD_MUTEX_RECURSIVE None));
            32 := Object HANDLE_TYPE_EVENT FD_READ (Some EventOps) (BEvent (Event 3 (-1) false true)) ]}
    {[ 3 := FdEvent 0 ]} [] ∅ None 1 0 0 0 ∅.

Lemma kinds_demo_typed : heap_typed kinds_demo kinds_kernel.
Proof.
  intros h o. unfold kinds_kernel. cbn [objs]. intros [[<- <-]|[_ H]]%lookup_insert_Some; [by split_and!; [..|left]|].
  apply lookup_singleton_Some in H as [<- <-]. by split_and!; [..|left].
Qed.

(** A wait that another thread ends; then the event is closed, and its memory used
    for a semaphore. *)
Lemma calls_well_typed_witness :
  ∃ k1 k2 k3, made_call (λ _ _, mret ()) kinds_kernel k1 ∧ made_call (λ _ _, mret ()) k1 k2 ∧ made_call (λ _ _, mret ()) k2 k3 ∧
    well_kinded kinds_kernel ∧ well_kinded k3 ∧
    (∃ o, objs k1 !! 32 = Some o ∧ kind_of (obody o) = EventOps) ∧ (∃ o, objs k3 !! 32 = Some o ∧ kind_of (obody o) = SemaphoreOps).
Proof.
  assert (H1 : ∃ k1, made_call (λ _ _, mret ()) kinds_kernel k1 ∧ objs k1 !! 32 = objs kinds_kernel !! 32 ∧
    ∃ k2, made_call (λ _ _, mret ()) k1 k2 ∧ ∃ k3, made_call (λ _ _, mret ()) k2 k3 ∧ ∃ o, objs k3 !! 32 = Some o ∧ kind_of (obody o) = SemaphoreOps).
  { eexists. split; [apply (a_call _ _ _ 1 (CWaitForSingleObject 32 INFINITE) [None; Some (CSetEvent 32)] []); [split; [constructor|by intros ? ?%elem_of_nil]|vm_compute; reflexivity]|].
    split; [vm_compute; reflexivity|].
    eexists. split; [apply (a_call _ _ _ 2 (CCloseHandle 32) [] []); [split; [constructor|by intros ? ?%elem_of_nil]|vm_compute; reflexivity]|].
    eexists. split; [apply (a_call _ _ _ 1 (CCreateSemaphore 32 (4, 5) 1 1) [] []); [split; [apply NoDup_singleton|by intros a ->%list_elem_of_singleton]|vm_compute; reflexivity]|].
    eexists. split; vm_compute; reflexivity. }
  destruct H1 as (k1 & C1 & E1 & k2 & C2 & k3 & C3 & Hs). exists k1, k2, k3. split; [exact C1|]. split; [exact C2|]. split; [exact C3|].
  assert (Hk : well_kinded kinds_kernel) by (intros h o Ho; exists (kinds_demo h); by apply kinds_demo_typed). split; [exact Hk|].
  split; [|split; [rewrite E1; eexists; split; reflexivity|exact Hs]].
  apply (calls_well_typed (λ _ _, mret ()) kinds_kernel k3); [intros; apply keeps_ret|exact Hk|].
  apply (rtc_l _ _ k1); [exact C1|]. apply (rtc_l _ _ k2); [exact C2|]. apply (rtc_l _ _ k3); [exact C3|constructor].
Defined.

Lemma handle_kind_safety_witness :
  (∃ k', CloseHandle 16 (World kinds_kernel []) = Ok (true, World k' []) ∧ CloseHandle 16 (World k' []) = UB) ∧
  ReleaseSemaphore 16 1 (World kinds_kernel []) = Ok (false, World kinds_kernel []) ∧ SetEvent 16 (World kinds_kernel []) = UB.
Proof.
  destruct (handle_kind_safety kinds_demo kinds_kernel [] 16 (Object HANDLE_TYPE_MUTEX UZI_FD_READ (Some MutexOps) (BMutex (Mutex PTHREAD_MUTEX_RECURSIVE None))))
    as (_ & Hc & (Hs & _) & He & _); [exact kinds_demo_typed|split; unfold INVALID_HANDLE_VALUE; lia|reflexivity|reflexivity|].
  split; [|split; [by apply Hs|by apply He]].
  destruct (Hc ltac:(done)) as (k' & H1 & _ & _ & _ & H2). exists k'. split; [exact H1|exact H2].
Defined.
