(* ===== verification/Clients.v ===== *)
(** Clients that keep the rules do not go wrong (all calls on handles but those
    of threads).

    Objects.v shows that the calls keep the heap of objects well typed as long
    as they are defined. Here a client is a program that makes calls and goes
    on with their answers; the rules it has to keep are the documented ones
    (handles are live, of the right kind where the call does not look, and
    closed once) and one that the code makes necessary (a timer that could not
    be set is given up), and keeping them is shown to be enough: no call reads an
    object that does not exist or is of another kind. *)

From stdpp Require Import list gmap.
From S2P Require Import Prelude Kernel Handle Wait Event Semaphore MutexObj WaitTimer Thread Objects.

Set Warnings "-clear-no-such-hyp".

(** ** Live handles *)

(** The kind and the tag of an object; the tag is 0 while it is made. *)
Abbreviation role := (opsid * Z)%type.
Abbreviation roles := (gmap Z role).

Definition plays (k : kernel) (h : Z) (r : role) : Prop :=
  ∃ mode b, objs k !! h = Some (Object r.2 mode (Some r.1) b) ∧ kind_of b = r.1.

(** A finished object of kind [i]. *)
Definition finished (i : opsid) : role := (i, type_of i).

Section Sound.
(** The addresses of the client's objects. *)
Context (Own : Z → Prop).

(** Other threads may do anything to their own objects; to those of the client
    they make calls that leave them what they are. *)
Definition polite (e : env) : Prop :=
  match e with Act f => ∀ k h r, Own h → plays k h r → plays (f k) h r | Signal => True end.

Definition live (G : roles) (k : kernel) : Prop := ∀ h r, G !! h = Some r → valid_handle h ∧ Own h ∧ plays k h r.

Definition live_in (G : roles) (w : world) : Prop := live G (kern w) ∧ Forall polite (script w).

(** From live handles [G] the computation is defined, and with the answer [a]
    the handles [Q a] are live afterwards. *)
Definition sound (G : roles) {A} (m : K A) (Q : A → roles) : Prop :=
  ∀ w, live_in G w → match m w with Ok (a, w') => live_in (Q a) w' | UB => False | NoFuel => True end.

Lemma live_mono G G' k : G' ⊆ G → live G k → live G' k.
Proof. intros Hs Hl h r Hh. apply Hl. by eapply lookup_weaken. Qed.

Lemma sound_weaken G {A} (m : K A) Q Q' : (∀ a, Q' a ⊆ Q a) → sound G m Q → sound G m Q'.
Proof.
  intros Hq Hm w Hw. specialize (Hm w Hw). destruct (m w) as [[a w']| |]; [|done..]. split; [|apply Hm].
  eapply live_mono; [apply Hq|apply Hm].
Qed.

Lemma sound_ret G {A} (a : A) Q : Q a ⊆ G → sound G (mret a) Q.
Proof. intros Hs w [Hl He]. split; [by eapply live_mono|done]. Qed.

Lemma sound_seq G {A B} (m : K A) (f : A → K B) P Q : sound G m P → (∀ a, sound (P a) (f a) Q) → sound G (m ≫= f) Q.
Proof.
  intros Hm Hf w Hw. specialize (Hm w Hw). unfold mbind, K_bind. destruct (m w) as [[a w']| |]; [|done..]. by apply Hf.
Qed.

Lemma sound_bind G {A B} (m : K A) (f : A → K B) Q : sound G m (λ _, G) → (∀ a, sound G (f a) Q) → sound G (m ≫= f) Q.
Proof. intros Hm Hf. by eapply sound_seq. Qed.

Lemma sound_gets G {A} (f : kernel → A) : sound G (gets f) (λ _, G).
Proof. intros [k s] Hw. exact Hw. Qed.

Lemma sound_modify G G' f : (∀ k, live G k → live G' (f k)) → sound G (modify f) (λ _, G').
Proof. intros Hf w [Hl He]. split; [by apply Hf|done]. Qed.

(** State changes that leave the objects alone. *)
Lemma sound_same G f : (∀ k, objs (f k) = objs k) → sound G (modify f) (λ _, G).
Proof. intros Hf. apply sound_modify. intros k Hl h r Hh. unfold plays. rewrite Hf. by apply Hl. Qed.

Lemma sound_set_body G h b r : G !! h = Some r → kind_of b = r.1 → sound G (modify (set_body h b)) (λ _, G).
Proof.
  intros Hg Hb. apply sound_modify. intros k Hl h' r' Hh'. destruct (Hl h' r' Hh') as (Hv & Ho & mode & b' & Hob & Hk).
  split; [done|]. split; [done|]. unfold plays. cbn. destruct (decide (h' = h)) as [->|Hne].
  - rewrite lookup_alter_eq, Hob. exists mode, b. split; [done|]. congruence.
  - rewrite lookup_alter_ne by done. by exists mode, b'.
Qed.

Lemma sound_set_obj G h ty mode i b : valid_handle h → Own h → kind_of b = i →
  sound G (modify (set_obj h (Object ty mode (Some i) b))) (λ _, <[h := (i, ty)]> G).
Proof.
  intros Hv Ho Hb. apply sound_modify. intros k Hl h' r. unfold plays. cbn. intros [[<- <-]|[Hne Hh]]%lookup_insert_Some.
  - split; [done|]. split; [done|]. rewrite lookup_insert_eq. by exists mode, b.
  - destruct (Hl h' r Hh) as (? & ? & ?). rewrite lookup_insert_ne by done. done.
Qed.

Lemma sound_put G h ty mode i b : G !! h = Some (i, ty) → kind_of b = i →
  sound G (modify (set_obj h (Object ty mode (Some i) b))) (λ _, G).
Proof.
  intros Hg Hb w Hw. destruct (proj1 Hw h _ Hg) as (Hv & Ho & _).
  pose proof (sound_set_obj G h ty mode i b Hv Ho Hb w Hw) as H. cbn in *. by rewrite insert_id in H.
Qed.

Lemma sound_free G h : sound G (free h) (λ _, delete h G).
Proof.
  apply sound_modify. intros k Hl h' r [Hne Hh]%lookup_delete_Some. destruct (Hl h' r Hh) as (? & ? & ?).
  split; [done|]. split; [done|]. unfold plays. cbn. by rewrite lookup_delete_ne.
Qed.

Lemma sound_object_at G {B} h r (f : object → K B) Q : G !! h = Some r →
  (∀ mode b, kind_of b = r.1 → sound G (f (Object r.2 mode (Some r.1) b)) Q) → sound G (object_at h ≫= f) Q.
Proof.
  intros Hg Hf w Hw. destruct (proj1 Hw h r Hg) as (_ & _ & mode & b & Ho & Hb).
  unfold object_at, lift, get, mbind, K_bind. rewrite Ho. by apply Hf.
Qed.

(** The same proof for the four kinds of object. *)
Ltac sound_cast x_at := intros Hg Hf; unfold x_at; let w := fresh "w" in let Hw := fresh "Hw" in intros w Hw; rewrite bind_bind;
  match goal with |- match (object_at ?h ≫= ?g) _ with _ => _ end => refine (sound_object_at _ h _ g _ Hg _ w Hw) end;
  intros mode b Hb; cbn [obody]; destruct b; try done; apply Hf.

Lemma sound_event_at G {B} h ty (f : WINPR_EVENT → K B) Q : G !! h = Some (EventOps, ty) →
  (∀ e, sound G (f e) Q) → sound G (event_at h ≫= f) Q.
Proof. sound_cast event_at. Qed.
Lemma sound_mutex_at G {B} h ty (f : WINPR_MUTEX → K B) Q : G !! h = Some (MutexOps, ty) →
  (∀ e, sound G (f e) Q) → sound G (mutex_at h ≫= f) Q.
Proof. sound_cast mutex_at. Qed.
Lemma sound_semaphore_at G {B} h ty (f : WINPR_SEMAPHORE → K B) Q : G !! h = Some (SemaphoreOps, ty) →
  (∀ e, sound G (f e) Q) → sound G (semaphore_at h ≫= f) Q.
Proof. sound_cast semaphore_at. Qed.
Lemma sound_timer_at G {B} h ty (f : WINPR_TIMER → K B) Q : G !! h = Some (TimerOps, ty) →
  (∀ e, sound G (f e) Q) → sound G (timer_at h ≫= f) Q.
Proof. sound_cast timer_at. Qed.

(** *** Blocked calls and loops *)

Lemma live_act G k f s : live G k → Forall polite (Act f :: s) → live G (f k) ∧ Forall polite s.
Proof. intros Hl [Hf Hs]%Forall_cons. split; [|done]. intros h r Hh. destruct (Hl h r Hh) as (? & ? & ?). auto. Qed.

Lemma await_keeps_live {A} (ready : kernel → option A) clock d intr s G k r w' :
  live G k → Forall polite s → await ready clock d intr s k = Ok (r, w') → live_in G w'.
Proof.
  revert k. induction s as [|[f|] s IH]; intros k Hl Hs; cbn [await]; destruct (ready k);
    try (intros [= <- <-]; by split); destruct (match d with Some d => d <=? clock k | None => false end); try (intros [= <- <-]; by split).
  - destruct d as [d|]; [|done]. destruct (ready (set_now _ k)); intros [= <- <-]; by split.
  - intros H. destruct (live_act _ _ _ _ Hl Hs). by eapply IH.
  - apply Forall_cons in Hs as [_ Hs]. destruct intr; [intros [= <- <-]; by split|]. by apply IH.
Qed.

Lemma await_defined {A} (ready : kernel → option A) clock d intr s k : await ready clock d intr s k ≠ UB.
Proof.
  revert k. induction s as [|[f|] s IH]; intros k; cbn [await]; destruct (ready k); try done;
    destruct (match d with Some d => d <=? clock k | None => false end); try done.
  - destruct d as [d|]; [|done]. by destruct (ready (set_now _ k)).
  - by destruct intr.
Qed.

Lemma sound_await G {A} (ready : kernel → option A) clock d intr : sound G (awaitK ready clock d intr) (λ _, G).
Proof.
  intros [k s] [Hl Hs]. unfold awaitK. cbn [script kern]. pose proof (await_defined ready clock d intr s k).
  destruct (await ready clock d intr s k) as [[r w']| |] eqn:E; try done. by eapply await_keeps_live.
Qed.

Lemma sound_clock G : sound G clock_gettime (λ _, G).
Proof.
  intros [k [|[f|] s]] [Hl Hs]; unfold clock_gettime; cbn [script kern]; [done|by eapply live_act|].
  apply Forall_cons in Hs as [_ Hs]. done.
Qed.

Lemma sound_loop G {S R} (body : S → K (S + R)) fuel s : (∀ s, sound G (body s) (λ _, G)) → sound G (kloop fuel body s) (λ _, G).
Proof.
  intros Hb w Hw. unfold kloop. revert s w Hw. induction fuel as [|n IH]; intros s w Hw; [done|]. cbn [loop].
  specialize (Hb s w Hw). unfold mbind, res_bind. cbn [fst snd]. destruct (body s w) as [[[s1|r1] w1]| |]; try done. by apply IH.
Qed.

Lemma sound_retry G {A} (c : K (Z * Z * A)) : sound G c (λ _, G) → sound G (retry c) (λ _, G).
Proof.
  intros Hc w Hw. unfold retry. refine (sound_loop G _ _ _ _ w Hw). intros []. eapply sound_bind; [done|].
  intros [[st e] a]. destruct (_ && _); by apply sound_ret.
Qed.

Lemma sound_mutex_lock G h ty d : G !! h = Some (MutexOps, ty) → sound G (mutex_lock h d) (λ _, G).
Proof.
  intros Hg. unfold mutex_lock. apply sound_bind; [apply sound_await|]. intros [o| |]; [|by apply sound_ret..].
  apply sound_bind; [|intros _; by apply sound_ret]. by eapply sound_set_body.
Qed.

(** *** The checks on a handle

    [usable G h]: [h] is not a handle, or a live one of any kind but a thread;
    [uses G i h]: of the kind [i]. *)

Definition usable (G : roles) (h : Z) : Prop := ¬ valid_handle h ∨ ∃ i, G !! h = Some (finished i) ∧ i ≠ ThreadOps.
Definition uses (G : roles) (i : opsid) (h : Z) : Prop := ¬ valid_handle h ∨ G !! h = Some (finished i).

Lemma invalid_info h w : ¬ valid_handle h → winpr_Handle_GetInfo h w = Ok (None, w).
Proof.
  intros Hv. unfold winpr_Handle_GetInfo, valid_handle in *.
  destruct (Z.eqb_spec h 0), (Z.eqb_spec h INVALID_HANDLE_VALUE); try done. tauto.
Qed.

Lemma sound_info_live G {B} h i (f : option Z → K B) Q : G !! h = Some (finished i) →
  sound G (f (Some (type_of i))) Q → sound G (winpr_Handle_GetInfo h ≫= f) Q.
Proof.
  intros Hg Hf [k s] Hw. destruct (proj1 Hw h _ Hg) as (Hv & _ & mode & b & Ho & Hb).
  rewrite (K_bind_ok _ _ _ _ _ (info_ok k s h _ Hv Ho)). by apply Hf.
Qed.

Lemma sound_info_invalid G {B} h (f : option Z → K B) Q : ¬ valid_handle h →
  sound G (f None) Q → sound G (winpr_Handle_GetInfo h ≫= f) Q.
Proof. intros Hv Hf w Hw. rewrite (K_bind_ok _ _ _ _ _ (invalid_info h w Hv)). by apply Hf. Qed.

Lemma sound_info G {B} h (f : option Z → K B) Q : usable G h → sound G (f None) Q →
  (∀ i, G !! h = Some (finished i) → i ≠ ThreadOps → sound G (f (Some (type_of i))) Q) → sound G (winpr_Handle_GetInfo h ≫= f) Q.
Proof. intros [Hv|(i & Hg & Hi)] H0 H1; [by apply sound_info_invalid|]. eapply sound_info_live; [done|]. by apply H1. Qed.

Lemma sound_info_kind G {B} i h (f : option Z → K B) Q : uses G i h → sound G (f None) Q →
  (G !! h = Some (finished i) → sound G (f (Some (type_of i))) Q) → sound G (winpr_Handle_GetInfo h ≫= f) Q.
Proof. intros [Hv|Hg] H0 H1; [by apply sound_info_invalid|]. eapply sound_info_live; [done|]. by apply H1. Qed.

Lemma sound_IsHandled G t h r : G !! h = Some r → sound G (IsHandledAs t h) (λ _, G).
Proof.
  intros Hg. unfold IsHandledAs, SetLastError. destruct (h =? 0); [apply sound_bind; [by apply sound_same|intros _; by apply sound_ret]|].
  eapply sound_object_at; [done|]. intros mode b _. destruct (_ =? t); [by apply sound_ret|].
  apply sound_bind; [by apply sound_same|intros _; by apply sound_ret].
Qed.
End Sound.

Create HintDb sound.
#[export] Hint Resolve sound_gets sound_free sound_await sound_clock sound_mutex_lock sound_IsHandled : sound.

(** Go through a computation on known roles: casts first, then binds and case
    distinctions. *)
Ltac sound_step :=
  first
  [ match goal with H : context [type_of ?i =? _] |- _ => is_var i; destruct i; try discriminate H; try done; clear H end
  | solve [eauto with sound nocore]
  | apply sound_ret; reflexivity
  | apply sound_same; intros ?; reflexivity
  | eapply sound_event_at; [eassumption|intros ?]
  | eapply sound_mutex_at; [eassumption|intros ?]
  | eapply sound_semaphore_at; [eassumption|intros ?]
  | eapply sound_timer_at; [eassumption|intros ?]
  | eapply sound_object_at; [eassumption|intros ? ? ?; cbn [ops Mode Type_ obody snd fst finished kind_of]]
  | eapply sound_set_body; [eassumption|reflexivity]
  | eapply sound_put; [eassumption|reflexivity]
  | apply sound_info; [eassumption| |intros ? ? ?]
  | eapply sound_info_kind; [eassumption| |intros ?]
  | eapply sound_info_live; [eassumption|]
  | apply sound_bind; [|intros ?]
  | apply sound_retry
  | apply sound_loop; intros ?
  | match goal with |- sound _ _ (match ?x with _ => _ end) _ => destruct x eqn:? end
  | match goal with |- sound _ _ (match ?x with _ => _ end _) _ => destruct x end ].
Ltac sound := repeat sound_step.

(** ** The operations *)

Section Operations.
Context (Own : Z → Prop).

Local Abbreviation sound := (sound Own).
Local Abbreviation stays G m := (sound G m (λ _, G)).

Lemma sound_SetLastError G e : stays G (SetLastError e). Proof. unfold SetLastError. sound. Qed.
Lemma sound_close G fd : stays G (sys_close fd). Proof. unfold sys_close. sound. Qed.
Lemma sound_eventfd G fd : stays G (sys_eventfd fd). Proof. unfold sys_eventfd. sound. Qed.
Lemma sound_timerfd G fd : stays G (sys_timerfd_create fd). Proof. unfold sys_timerfd_create. sound. Qed.
Lemma sound_pipe G fds : stays G (sys_pipe fds). Proof. unfold sys_pipe. sound. Qed.
Lemma sound_read G fd n : stays G (sys_read fd n). Proof. unfold sys_read. sound. Qed.
Lemma sound_write G fd n v : stays G (sys_write fd n v). Proof. unfold sys_write. sound. Qed.
Lemma sound_poll G l t : stays G (sys_poll l t). Proof. unfold sys_poll. sound. Qed.
Lemma sound_timerfd_settime G fd i v : stays G (timerfd_settime fd i v). Proof. unfold timerfd_settime. sound. Qed.
Lemma sound_timer_create G t rc : stays G (timer_create t rc). Proof. unfold timer_create. sound. Qed.
Lemma sound_timer_settime G t i v : stays G (timer_settime t i v). Proof. unfold timer_settime. sound. Qed.
#[local] Hint Resolve sound_SetLastError sound_close sound_eventfd sound_timerfd sound_pipe sound_read sound_write sound_poll
  sound_timerfd_settime sound_timer_create sound_timer_settime : sound.

Lemma sound_write_tokens G fd n : stays G (write_tokens fd n).
Proof. induction n as [|n IH]; cbn [write_tokens]; sound. Qed.
Lemma sound_eventfd_write G fd v : stays G (eventfd_write fd v). Proof. unfold eventfd_write. sound. Qed.
Lemma sound_eventfd_read G fd : stays G (eventfd_read fd). Proof. unfold eventfd_read. sound. Qed.
#[local] Hint Resolve sound_write_tokens sound_eventfd_write sound_eventfd_read : sound.

(** *** Waiting *)

Lemma sound_GetFd G h i : G !! h = Some (finished i) → i ≠ ThreadOps → stays G (GetFd (ops_table i) h).
Proof.
  intros Hg Hi. destruct i; try done; cbn [ops_table GetFd]; unfold EventGetFd, MutexGetFd, SemaphoreGetFd, TimerGetFd,
    EventIsHandled, MutexIsHandled, SemaphoreIsHandled, TimerIsHandled; sound.
Qed.

Lemma sound_CleanupHandle G h i f : G !! h = Some (finished i) → i ≠ ThreadOps → CleanupHandle (ops_table i) = Some f → stays G (f h).
Proof.
  intros Hg Hi. destruct i; try done; intros [= <-]; unfold SemaphoreCleanupHandle, TimerCleanupHandle, SemaphoreIsHandled,
    TimerIsHandled; sound.
Qed.
#[local] Hint Resolve sound_GetFd sound_CleanupHandle : sound.

Lemma sound_getFd G h : usable G h → stays G (winpr_Handle_getFd h).
Proof. intros Hu. unfold winpr_Handle_getFd. sound. Qed.

Lemma sound_cleanup G h : usable G h → stays G (winpr_Handle_cleanup h).
Proof. intros Hu. unfold winpr_Handle_cleanup. sound. Qed.
#[local] Hint Resolve sound_getFd sound_cleanup : sound.

Lemma sound_wait_single G h ms : usable G h → stays G (WaitForSingleObject h ms).
Proof.
  intros Hu. unfold WaitForSingleObject, waitOnFd. sound.
Qed.
#[local] Hint Resolve sound_wait_single : sound.

Lemma sound_poll_entry G h : usable G h → stays G (poll_entry h). Proof. intros Hu. unfold poll_entry. sound. Qed.
#[local] Hint Resolve sound_poll_entry : sound.

Lemma sound_collect G hs idx all i : Forall (usable G) hs → stays G (collect hs idx all i).
Proof.
  intros Hu. revert i. induction Hu as [|h hs Hh Hu IH]; intros i; cbn [collect]; [sound|]. case_match; [apply IH|sound; apply IH].
Qed.

Lemma collect_indices hs idx all i w l w' : collect hs idx all i w = Ok (Some l, w') → Forall (λ e, (i <= e.1 < i + length hs)%nat) l.
Proof.
  revert i w l w'. induction hs as [|h hs IH]; intros i w l w'; cbn [collect length]; [by intros [= <- <-]|].
  assert (Hm : ∀ w l w', collect hs idx all (S i) w = Ok (Some l, w') → Forall (λ e, (i <= e.1 < i + S (length hs))%nat) l).
  { intros w1 l1 w2 H. eapply Forall_impl; [eapply IH, H|]. cbn. lia. }
  case_match; [apply Hm|]. intros Hx. apply bind_ok_inv in Hx as (e & w1 & _ & Hx). destruct e as [p|]; [|done].
  apply bind_ok_inv in Hx as (r & w2 & Hr & Hx). destruct r as [l1|]; [|done]. injection Hx as <- <-.
  constructor; [cbn; lia|]. by eapply Hm.
Qed.

Lemma sound_scan G hs all polled idx n b : Forall (usable G) hs → Forall (λ e, (e.1.1 < length hs)%nat) polled →
  stays G (scan hs all polled idx n b).
Proof.
  intros Hu Hp. revert idx n b. induction Hp as [|[[i p] rev] rest Hi Hp IH]; intros idx n b; cbn [scan]; [sound|].
  cbn in Hi. destruct (hs !! i) as [h|] eqn:E; [|apply lookup_ge_None in E; lia]. assert (Hh : usable G h) by by eapply Forall_lookup.
  apply sound_bind; [sound|]. intros [q|]; [|sound].
  destruct (nonzero _); [|apply IH]. apply sound_bind; [sound|]. intros rc. destruct (negb _); [sound|].
  destruct (negb all); [sound|]. cbv zeta. destruct (_ <=? _)%nat; [sound|apply IH].
Qed.

Lemma sound_wait_round G hs all st : Forall (usable G) hs → stays G (wait_round hs all st).
Proof.
  intros Hu. destruct st as [[idx n] ms]. unfold wait_round. cbv zeta. apply sound_bind; [sound|]. intros t0 w Hw.
  pose proof (sound_collect G hs idx all 0 Hu w Hw) as Hc.
  destruct (collect hs idx all 0 w) as [[[polled|] w']| |] eqn:E; unfold mbind at 1, K_bind at 1; rewrite E; try done.
  apply collect_indices in E. revert w' Hc.
  match goal with |- ∀ w', _ → match ?m w' with _ => _ end => change (stays G m) end.
  apply sound_bind; [sound|]. intros [status revs].
  destruct (status <? 0); [sound|]. destruct (status =? 0); [sound|]. apply sound_bind; [sound|]. intros t1.
  destruct (_ && _); [sound|]. apply sound_bind; [|intros [[[a b] c]|rc]; sound].
  apply sound_scan; [done|]. apply Forall_forall. intros [[j q] rev] Hin%list_elem_of_lookup. destruct Hin as [x Hx].
  apply lookup_zip_with_Some in Hx as (y & z & Hyz & Hy & _). injection Hyz as <- <-.
  apply (Forall_lookup_1 _ _ _ _ E) in Hy. cbn in *. lia.
Qed.
#[local] Hint Resolve sound_wait_round : sound.

Lemma sound_wait_multiple G fuel hs all ms : Forall (usable G) hs → stays G (WaitForMultipleObjects fuel hs all ms).
Proof. intros Hu. unfold WaitForMultipleObjects. cbv zeta. sound. Qed.

(** *** Events, semaphores, mutexes and timers *)

Lemma sound_SetEvent G h : uses G EventOps h → stays G (SetEvent h). Proof. intros Hu. unfold SetEvent. sound. Qed.
Lemma sound_reset_body G h b : G !! h = Some (finished EventOps) → stays G (reset_body h b).
Proof. intros Hg. assert (usable G h) by by right; exists EventOps. unfold reset_body. sound. Qed.
#[local] Hint Resolve sound_SetEvent sound_reset_body : sound.
Lemma sound_ResetEvent G fuel h : uses G EventOps h → stays G (ResetEvent fuel h). Proof. intros Hu. unfold ResetEvent. sound. Qed.
Lemma sound_GetEventFileDescriptor G h : uses G EventOps h → stays G (GetEventFileDescriptor h).
Proof. intros Hu. unfold GetEventFileDescriptor. sound. Qed.
Lemma sound_SetEventFileDescriptor G h fd mode : uses G EventOps h → stays G (SetEventFileDescriptor h fd mode).
Proof. intros Hu. unfold SetEventFileDescriptor. sound. Qed.
Lemma sound_ReleaseSemaphore G h n : usable G h → stays G (ReleaseSemaphore h n).
Proof. intros Hu. unfold ReleaseSemaphore. sound. Qed.
Lemma sound_ReleaseMutex G h : usable G h → stays G (ReleaseMutex h).
Proof. intros Hu. unfold ReleaseMutex, mutex_unlock. sound. Qed.

Lemma sound_upd_timer G h f : G !! h = Some (finished TimerOps) → stays G (upd_timer h f).
Proof. intros Hg. unfold upd_timer. sound. Qed.
#[local] Hint Resolve sound_upd_timer : sound.

Lemma sound_new_fd G {B} fd (f : Z → K B) Q : sound G (f fd) Q → sound G (sys_timerfd_create fd ≫= f) Q.
Proof.
  intros Hf w Hw. unfold sys_timerfd_create. rewrite bind_bind.
  refine (sound_bind Own G _ (λ _, mret fd ≫= f) Q _ _ w Hw); [sound|]. by intros [].
Qed.

(** What is live after [SetWaitableTimer] has answered: a timer that it could not
    set may be gone, since [InitializeWaitableTimer] frees it when there is no
    descriptor for it. *)
Definition after_set (G : roles) (h : Z) (ok : bool) : roles :=
  match G !! h with Some (TimerOps, _) => if ok then G else delete h G | _ => G end.

Lemma after_set_sub G h ok : after_set G h ok ⊆ G.
Proof. unfold after_set. destruct (G !! h) as [[[] ?]|]; try done. destruct ok; [done|apply delete_subseteq]. Qed.

Lemma after_set_timer G h ty ok : G !! h = Some (TimerOps, ty) → after_set G h ok = if ok then G else delete h G.
Proof. intros Hg. unfold after_set. by rewrite Hg. Qed.

Lemma sound_InitializeWaitableTimer G os h : G !! h = Some (finished TimerOps) →
  sound G (InitializeWaitableTimer os h) (λ r, if r <? 0 then delete h G else G).
Proof.
  intros Hg. unfold InitializeWaitableTimer. eapply sound_timer_at; [exact Hg|]. intros t. case_match.
  - apply sound_new_fd. apply sound_bind; [unfold upd_timer; sound|]. intros _. destruct (os_fd os <=? 0).
    { eapply sound_seq; [apply sound_free|]. intros []. by apply sound_ret. }
    destruct (negb _); (apply sound_bind; [unfold upd_timer; sound|intros _]); apply sound_ret; [apply delete_subseteq|done].
  - apply sound_bind; [sound|]. intros r. destruct (negb _); [apply sound_ret, delete_subseteq|].
    do 2 (apply sound_bind; [unfold upd_timer; sound|intros _]). by apply sound_ret.
Qed.
Lemma sound_program_timer G h due period : G !! h = Some (finished TimerOps) → due ≠ - 2 ^ 63 → stays G (program_timer h due period).
Proof. intros Hg Hd. unfold program_timer. cbv zeta. destruct (Z.eqb_spec due (- 2 ^ 63)); [done|]. sound. Qed.
#[local] Hint Resolve sound_program_timer : sound.
Lemma sound_SetWaitableTimer G os h d p f a : usable G h → d ≠ Some (- 2 ^ 63) →
  sound G (SetWaitableTimer os h d p f a) (after_set G h).
Proof.
  intros Hu Hd. unfold SetWaitableTimer. apply sound_info; [done|apply sound_ret, after_set_sub|]. intros i Hg Hi.
  destruct (negb _) eqn:Hty; [apply sound_ret, after_set_sub|]. assert (i = TimerOps) as -> by (by destruct i).
  destruct d as [due|]; [|apply sound_ret, after_set_sub]. destruct (p <? 0); [apply sound_ret, after_set_sub|].
  apply sound_bind; [unfold upd_timer; sound|]. intros _. eapply sound_timer_at; [exact Hg|]. intros t.
  eapply (sound_seq _ _ _ _ (λ r, if r <? 0 then delete h G else G)).
  { destruct (negb (bInit t)); [by apply sound_InitializeWaitableTimer|by apply sound_ret]. }
  intros r. destruct (r <? 0); [apply sound_ret; by rewrite (after_set_timer _ _ _ _ Hg)|].
  eapply sound_weaken; [intros b; apply after_set_sub|]. apply sound_program_timer; congruence.
Qed.

(** *** Closing and creating *)

(** A call that may free [h] in its end. *)
Local Abbreviation closes G h m := (sound G m (λ _, delete h G)).

Lemma closes_free G h {A} (a : A) : closes G h (free h;; mret a).
Proof. eapply sound_seq; [apply sound_free|]. intros []. by apply sound_ret. Qed.

Lemma closes_ret G h {A} (a : A) : closes G h (mret a).
Proof. apply sound_ret, delete_subseteq. Qed.

Lemma sound_CloseHandle G h : usable G h → closes G h (CloseHandle h).
Proof.
  intros Hu. unfold CloseHandle. apply sound_info; [done|apply closes_ret|]. intros i Hg Hi.
  eapply sound_object_at; [exact Hg|]. intros mode b Hb. cbn [ops fst finished].
  destruct i; try done; cbn [close_op]; unfold EventCloseHandle, MutexCloseHandle, SemaphoreCloseHandle, TimerCloseHandle,
    EventIsHandled, MutexIsHandled, SemaphoreIsHandled, TimerIsHandled;
  (apply sound_bind; [sound|]; intros [|]; cbn [negb]; [|apply closes_ret]).
  all: first [eapply sound_event_at | eapply sound_mutex_at | eapply sound_semaphore_at | eapply sound_timer_at]; [exact Hg|intros ?].
  all: first [apply closes_free | apply sound_bind; [sound|intros ?]; apply closes_free].
Qed.

(** A call that makes an object of kind [i] at [a] and answers its address; the
    address 0 is none, and then nothing is live at [a]. *)
Definition made (G : roles) (i : opsid) (a r : Z) : roles := if r =? 0 then delete a G else <[r := finished i]> G.
Local Abbreviation makes G i a m := (sound G m (made G i a)).

(** From an object under construction, its address or 0 is answered. *)
Lemma makes_done G i a : a ≠ 0 → sound (<[a := finished i]> G) (mret a) (made G i a).
Proof. intros Ha. apply sound_ret. unfold made. by rewrite (proj2 (Z.eqb_neq a 0) Ha). Qed.

Lemma makes_none G G' i a : delete a G ⊆ G' → sound G' (mret 0) (made G i a).
Proof. intros Hs. by apply sound_ret. Qed.

Lemma makes_free G r i a : sound (<[a := r]> G) (free a;; mret 0) (made G i a).
Proof. eapply sound_seq; [apply sound_free|]. intros []. apply makes_none. by rewrite delete_insert_eq. Qed.

Definition new_address (a : Z) : Prop := a = 0 ∨ valid_handle a ∧ Own a.

Lemma makes_start G i a ty mode b m : a ≠ 0 → new_address a → kind_of b = i →
  (∀ G1, G1 = <[a := (i, ty)]> G → G1 !! a = Some (i, ty) → sound G1 (m ()) (made G i a)) →
  makes G i a (modify (set_obj a (Object ty mode (Some i) b)) ≫= m).
Proof.
  intros Ha [Hn|[Hv Ho]] Hb Hm; [done|]. eapply sound_seq; [by apply sound_set_obj|]. intros [].
  apply Hm; [done|apply lookup_insert_eq].
Qed.

Lemma delete_sub_insert (G : roles) a r : delete a G ⊆ <[a := r]> G.
Proof. apply map_subseteq_spec. intros j x [Hne Hj]%lookup_delete_Some. by rewrite lookup_insert_ne. Qed.

Lemma makes_address G i a m : new_address a → (a ≠ 0 → makes G i a m) → makes G i a (if a =? 0 then mret 0 else m).
Proof.
  intros Hn Hm. destruct (Z.eqb_spec a 0); [|auto]. apply makes_none, delete_subseteq.
Qed.

Lemma sound_CreateEventW G a efd m i : new_address a → makes G EventOps a (CreateEventW a efd m i).
Proof.
  intros Ha. unfold CreateEventW. apply makes_address; [done|]. intros H0. apply makes_start; [done..|]. intros G1 -> Hg.
  destruct (negb m); [apply makes_none, delete_sub_insert|].
  do 3 (apply sound_bind; [sound|intros ?]). destruct (_ <? 0); [apply makes_free|].
  apply sound_bind; [|intros _; by apply makes_done]. destruct i; [|sound]. apply sound_bind; [|intros ?; sound].
  apply sound_SetEvent. by right.
Qed.

Lemma sound_CreateFileDescriptorEventW G a m fd mode : new_address a → makes G EventOps a (CreateFileDescriptorEventW a m fd mode).
Proof.
  intros Ha. unfold CreateFileDescriptorEventW. apply makes_address; [done|]. intros H0. apply makes_start; [done..|].
  intros G1 -> Hg. by apply makes_done.
Qed.

Lemma sound_CreateSemaphoreW G a fds i m : new_address a → makes G SemaphoreOps a (CreateSemaphoreW a fds i m).
Proof.
  intros Ha. unfold CreateSemaphoreW. apply makes_address; [done|]. intros H0. apply makes_start; [done..|]. intros G1 -> Hg.
  apply sound_bind; [sound|]. intros r. destruct (r <? 0); [apply makes_free|].
  do 2 (apply sound_bind; [sound|intros ?]). destruct (negb _).
  - do 2 (apply sound_bind; [sound|intros ?]). apply makes_free.
  - eapply sound_object_at; [exact Hg|]. intros mode b Hb. cbn [ops obody fst].
    destruct Ha as [?|[Hv Ho]]; [done|]. eapply sound_seq; [by apply sound_set_obj|]. intros []. rewrite insert_insert_eq. by apply makes_done.
Qed.

Lemma sound_CreateMutexW G a o : new_address a → makes G MutexOps a (CreateMutexW a o).
Proof.
  intros Ha. unfold CreateMutexW. destruct (Z.eqb_spec a 0) as [->|H0]; [apply makes_none, delete_subseteq|]. apply makes_start; [done..|].
  intros G1 -> Hg. apply sound_bind; [sound|]. intros _. by apply makes_done.
Qed.

Lemma sound_CreateWaitableTimerA G a m : new_address a → makes G TimerOps a (CreateWaitableTimerA a m).
Proof.
  intros Ha. unfold CreateWaitableTimerA. destruct (Z.eqb_spec a 0) as [->|H0]; [apply makes_none, delete_subseteq|].
  apply makes_start; [done..|]. intros G1 -> Hg. by apply makes_done.
Qed.
End Operations.

(** ** Clients *)

(** What a call answers; TRUE is 1. *)
Definition answer (c : call) : K Z :=
  match c with
  | CCreateEvent a e m i => CreateEventW a e m i
  | CCreateFileDescriptorEvent a m fd mode => CreateFileDescriptorEventW a m fd mode
  | CCreateSemaphore a fds i m => CreateSemaphoreW a fds i m
  | CCreateMutex a o => CreateMutexW a o
  | CCreateWaitableTimer a m => CreateWaitableTimerA a m
  | CSetEvent h => b ← SetEvent h; mret (Z.b2z b)
  | CResetEvent fuel h => b ← ResetEvent fuel h; mret (Z.b2z b)
  | CGetEventFileDescriptor h => GetEventFileDescriptor h
  | CSetEventFileDescriptor h fd mode => SetEventFileDescriptor h fd mode
  | CReleaseSemaphore h n => b ← ReleaseSemaphore h n; mret (Z.b2z b)
  | CReleaseMutex h => b ← ReleaseMutex h; mret (Z.b2z b)
  | CSetWaitableTimer os h d p f a => b ← SetWaitableTimer os h d p f a; mret (Z.b2z b)
  | CWaitForSingleObject h ms => WaitForSingleObject h ms
  | CWaitForMultipleObjects fuel hs all ms => WaitForMultipleObjects fuel hs all ms
  | CCloseHandle h => b ← CloseHandle h; mret (Z.b2z b)
  | c => run_call (λ _ _, mret ()) c;; mret 0
  end.

(** A program makes a call and goes on with its answer. *)
Inductive client := Stop | Make (c : call) (next : Z → client).

Fixpoint run_client (p : client) : K (list Z) :=
  match p with
  | Stop => mret []
  | Make c next => r ← answer c; l ← run_client (next r); mret (r :: l)
  end.

(** The rules. The calls of events want an event; the others look at the kind
    themselves. A null or invalid handle is always allowed. New objects are put
    at addresses that are valid handles of the client. [SetWaitableTimer] cannot
    negate the least due time, and a timer that could not be set is not used
    again. The calls on threads are left out. *)
Definition allowed (Own : Z → Prop) (G : roles) (c : call) : Prop :=
  match c with
  | CCreateEvent a _ _ _ | CCreateFileDescriptorEvent a _ _ _ | CCreateSemaphore a _ _ _ | CCreateMutex a _
  | CCreateWaitableTimer a _ => new_address Own a
  | CSetEvent h | CResetEvent _ h | CGetEventFileDescriptor h | CSetEventFileDescriptor h _ _ => uses G EventOps h
  | CReleaseSemaphore h _ | CReleaseMutex h | CWaitForSingleObject h _ | CCloseHandle h => usable G h
  | CSetWaitableTimer os h due _ _ _ => usable G h ∧ due ≠ Some (- 2 ^ 63)
  | CWaitForMultipleObjects _ hs _ _ => Forall (usable G) hs
  | _ => False
  end.

(** What is live after a call that answers [r]. *)
Definition after (G : roles) (c : call) (r : Z) : roles :=
  match creates c, c with
  | Some (a, i), _ => made G i a r
  | None, CCloseHandle h => delete h G
  | None, CSetWaitableTimer _ h _ _ _ _ => after_set G h (negb (r =? 0))
  | None, _ => G
  end.

(** What a call may answer: a call that creates an object its address or 0. *)
Definition may_answer (c : call) (r : Z) : Prop := match creates c with Some (a, _) => r = 0 ∨ r = a | None => True end.

Fixpoint keeps_rules (Own : Z → Prop) (G : roles) (p : client) : Prop :=
  match p with
  | Stop => True
  | Make c next => allowed Own G c ∧ ∀ r, may_answer c r → keeps_rules Own (after G c r) (next r)
  end.

(** What is live in the end, by the answers. *)
Fixpoint finally (G : roles) (p : client) (l : list Z) : roles :=
  match p, l with Make c next, r :: l => finally (after G c r) (next r) l | _, _ => G end.

(** ** Theorems *)

Lemma sound_map Own G {A B} (m : K A) (f : A → B) G' : sound Own G m (λ _, G') → sound Own G (a ← m; mret (f a)) (λ _, G').
Proof. intros Hm. eapply sound_seq; [exact Hm|]. intros a. by apply sound_ret. Qed.

Lemma sound_answer Own G c : allowed Own G c → sound Own G (answer c) (after G c).
Proof.
  destruct c; intros Hc; try done; cbn [allowed] in Hc; cbn [answer]; unfold after; cbn [creates];
    try apply sound_map;
    eauto using sound_CreateEventW, sound_CreateFileDescriptorEventW, sound_CreateSemaphoreW, sound_CreateMutexW,
      sound_CreateWaitableTimerA, sound_SetEvent, sound_ResetEvent, sound_GetEventFileDescriptor, sound_SetEventFileDescriptor.
  all: eauto using sound_ReleaseSemaphore, sound_ReleaseMutex, sound_wait_single, sound_wait_multiple, sound_CloseHandle.
  destruct Hc as [Hu Hd]. eapply sound_seq; [by apply sound_SetWaitableTimer|]. intros b. apply sound_ret. by destruct b.
Qed.

(** [ends a m]: [m] answers [a] or 0. *)
Definition ends (a : Z) (m : K Z) : Prop := ∀ w r w', m w = Ok (r, w') → r = 0 ∨ r = a.

Lemma ends_ret a r : r = 0 ∨ r = a → ends a (mret r).
Proof. intros Hr w r' w' [= <- <-]. done. Qed.

Lemma ends_bind a {A} (m : K A) f : (∀ x, ends a (f x)) → ends a (m ≫= f).
Proof. intros Hf w r w' (x & w1 & _ & H)%bind_ok_inv. by eapply Hf. Qed.

Ltac ends := repeat first [apply ends_ret; tauto | apply ends_bind; intros ? | case_match].

Lemma answer_may c w r w' : answer c w = Ok (r, w') → may_answer c r.
Proof.
  unfold may_answer. destruct c; cbn [creates answer]; try done;
    match goal with |- ?m _ = _ → _ ∨ _ = ?a => assert (ends a m); [|naive_solver] end;
    unfold CreateEventW, CreateFileDescriptorEventW, CreateSemaphoreW, CreateMutexW, CreateWaitableTimerA; ends.
Qed.

Lemma sound_client Own p G : keeps_rules Own G p → sound Own G (run_client p) (finally G p).
Proof.
  revert G. induction p as [|c next IH]; intros G Hp; cbn [run_client]; [by apply sound_ret|].
  destruct Hp as [Hc Hn]. intros w Hw. pose proof (sound_answer Own G c Hc w Hw) as Ha. unfold mbind at 1, K_bind at 1.
  destruct (answer c w) as [[r w1]| |] eqn:E; [|done..]. specialize (Hn r (answer_may _ _ _ _ E)).
  revert w1 E Ha. cbn beta. intros w1 _ Ha. refine (sound_seq Own _ _ _ _ _ (IH r _ Hn) _ w1 Ha). intros l. by apply sound_ret.
Qed.

(** *** Other threads *)

(** That the object at [h] stays what it is, as an invariant of the heap. *)
Program Definition role_kept (h0 : Z) (r : role) : heap_invariant := {|
  holds k := plays k h0 r;
  fits h o := h = h0 → Type_ o = r.2 ∧ ops o = Some r.1 ∧ kind_of (obody o) = r.1;
  may h i := h = h0 → i = r.1; may_new h i := h ≠ h0; may_free h := h ≠ h0 |}.
Next Obligation. intros h0 r k k' E. unfold plays. by rewrite E. Qed.
Next Obligation. intros h0 r k h o (mode & b & Ho & Hb) H ->. rewrite Ho in H. injection H as <-. done. Qed.
Next Obligation.
  intros h0 r k h b Hb (mode & b0 & Ho & Hb0). unfold plays. cbn. destruct (decide (h = h0)) as [->|Hne].
  - rewrite lookup_alter_eq, Ho. exists mode, b. split; [done|by apply Hb].
  - rewrite lookup_alter_ne by done. by exists mode, b0.
Qed.
Next Obligation.
  intros h0 r k h [ty mode op b] Hf (mode0 & b0 & Ho & Hb0). unfold plays. cbn. destruct (decide (h = h0)) as [->|Hne].
  - rewrite lookup_insert_eq. destruct (Hf eq_refl) as (H1 & H2 & H3). cbn in *. subst. by exists mode, b.
  - rewrite lookup_insert_ne by done. by exists mode0, b0.
Qed.
Next Obligation. intros h0 r k h Hne (mode & b & Ho & Hb). exists mode, b. cbn. by rewrite lookup_delete_ne. Qed.
Next Obligation. intros h0 r h o Hf Hh. by apply Hf. Qed.
Next Obligation. intros h0 r h o mode b Hf Hb Hh. destruct (Hf Hh) as (H1 & H2 & _). split_and!; [done|done|by apply Hb]. Qed.
Next Obligation. by intros. Qed.
Next Obligation. by intros. Qed.
Next Obligation. intros h0 r h i Hne Hh. by destruct (Hne Hh). Qed.
Next Obligation. by intros. Qed.

(** A call that frees no object of the client, and is not given their memory for
    a new one. Any other use of the client's handles is allowed. *)
Definition spares (Own : Z → Prop) (c : call) : Prop :=
  match creates c with Some (a, _) => a = 0 ∨ ¬ Own a | None => ∀ h, call_frees c h → ¬ Own h end.

Lemma spares_polite Own c : spares Own c → polite Own (by_thread (run_call (λ _ _, mret ()) c)).
Proof.
  intros Hs k h r Hh. apply (by_thread_keeps (role_kept h r)), keeps_call; [intros; apply keeps_ret|].
  unfold spares, call_fits in *. destruct (creates c) as [[a i]|]; [intros H0|intros h' Hf]; cbn; intros ->; naive_solver.
Qed.

Definition spared (Own : Z → Prop) (o : option call) : Prop := match o with Some c => spares Own c | None => True end.

(** C16: clients of events, semaphores, mutexes and waitable timers that keep the
    rules do not go wrong. The rules: the program passes null, invalid or live
    handles, to the calls of events only those of events; it closes a handle
    once, and does not use a timer again after SetWaitableTimer has answered FALSE
    for it, nor asks for the least due time; it makes no calls on threads. What it
    calls next may depend on the answers. Then, whatever the system and the calls
    answer, failures included, and whatever calls other threads make on any
    handles while it is blocked (calls that block or are undefined are not made),
    as long as they do not close the client's: no call of it is undefined, so that
    none reads a freed object or one of another kind, and every object that was
    neither closed nor given up is live and of its kind in the end. Without the
    rules this fails (see [wrong_type_undefined] and [handle_kind_safety]). *)
Theorem client_safe Own G p k others : live Own G k → Forall (spared Own) others → keeps_rules Own G p →
  run_client p (World k (map (meanwhile (λ _ _, mret ())) others)) ≠ UB ∧
  (∀ l w, run_client p (World k (map (meanwhile (λ _ _, mret ())) others)) = Ok (l, w) → live Own (finally G p l) (kern w)).
Proof.
  intros Hk Ho Hp. assert (Hs : Forall (polite Own) (map (meanwhile (λ _ _, mret ())) others)).
  { apply Forall_map. eapply Forall_impl; [exact Ho|]. intros [c|]; [apply spares_polite|done]. }
  pose proof (sound_client Own p G Hp (World k (map (meanwhile (λ _ _, mret ())) others)) (conj Hk Hs)) as H.
  destruct (run_client p _) as [[l w]| |]; split; try done. intros ? ? [= <- <-]. apply H.
Qed.

(** A client of a mutex at 16 and an event at 32 makes a semaphore, waits for it
    and for the event, that another thread sets, and closes what it has made. *)
Definition demo_owned (h : Z) : Prop := h = 16 ∨ h = 32 ∨ h = 48.
Definition demo_roles : roles := {[ 16 := finished MutexOps; 32 := finished EventOps ]}.
Definition demo_client : client :=
  Make (CCreateSemaphore 48 (8, 9) 1 5) (λ s,
    if s =? 0 then Stop
    else Make (CWaitForMultipleObjects 3 [s; 32] true INFINITE) (λ rc,
      Make (CReleaseSemaphore s 2) (λ _, Make (CReleaseMutex s) (λ _, Make (CCloseHandle s) (λ _,
        if rc =? 0 then Make (CResetEvent 3 32) (λ _, Stop) else Stop))))).

Lemma demo_usable h i : <[48 := finished SemaphoreOps]> demo_roles !! h = Some (finished i) → i ≠ ThreadOps →
  usable (<[48 := finished SemaphoreOps]> demo_roles) h.
Proof. intros Hh Hi. right. by exists i. Qed.

Lemma demo_keeps_rules : keeps_rules demo_owned demo_roles demo_client.
Proof.
  split; [right; split; [split; done|by right; right]|]. intros s Hs. change (s = 0 ∨ s = 48) in Hs.
  destruct Hs as [->| ->]; [done|]. cbn. pose proof (demo_usable 48 SemaphoreOps eq_refl ltac:(done)) as Hu.
  split; [constructor; [done|]; constructor; [by apply (demo_usable 32 EventOps)|done]|]. intros rc _. do 3 (split; [done|intros _ _]).
  destruct (rc =? 0); [|done]. split; [by right|done].
Qed.

Lemma demo_live : live demo_owned demo_roles kinds_kernel.
Proof.
  intros h r. unfold demo_roles, demo_owned. intros [[<- <-]|[_ [<- <-]%lookup_singleton_Some]]%lookup_insert_Some.
  - split; [by split|]. split; [by left|]. by exists UZI_FD_READ, (BMutex (Mutex PTHREAD_MUTEX_RECURSIVE None)).
  - split; [by split|]. split; [tauto|]. by exists FD_READ, (BEvent (Event 3 (-1) false true)).
Qed.

Lemma client_safe_witness :
  ∃ w, run_client demo_client (World kinds_kernel (map (meanwhile (λ _ _, mret ())) [Some (CReleaseMutex 16); None; Some (CSetEvent 32)])) =
    Ok ([48; 0; 1; 0; 1; 1], w) ∧
  objs (kern w) !! 48 = None ∧ plays (kern w) 16 (finished MutexOps) ∧ plays (kern w) 32 (finished EventOps).
Proof.
  destruct (client_safe demo_owned demo_roles demo_client kinds_kernel [Some (CReleaseMutex 16); None; Some (CSetEvent 32)]) as [_ H];
    [exact demo_live|rewrite !Forall_cons; by split_and!; try (intros h [])|exact demo_keeps_rules|].
  eexists. split; [vm_compute; reflexivity|].
  specialize (H [48; 0; 1; 0; 1; 1] _ ltac:(vm_compute; reflexivity)).
  split; [reflexivity|]. split; [by apply (H 16)|by apply (H 32)].
Defined.
