(* ===== verification/CpuFeatures.v ===== *)
(** CPU features (src/libuzi/cpu-features.c): reading and parsing the text files
    of the kernel, the set of CPUs, and the feature flags. Text is a list of
    bytes; pointers into a buffer are positions, and a read outside it is
    undefined. *)

From stdpp Require Import list numbers.
From Stdlib Require Import String Ascii.
From S2P Require Import Prelude.

Set Warnings "-clear-no-such-hyp".

(** String literals as bytes. *)
Definition bytes (s : string) : list Z := map (λ a, Z.of_nat (nat_of_ascii a)) (list_ascii_of_string s).
Definition NL := 10.
Definition SPACE := 32.
Definition TAB := 9.
Definition COLON := 58.
Definition COMMA := 44.
Definition DASH := 45.

(** ** Reading a file *)

(** An open file: what is left of it, and what the next reads do ([inl n]: give
    at most [n + 1] bytes; [inr e]: fail with the error [e]; then as much as
    asked for). *)
Record open_file := OpenFile { rest : list Z; reads : list (nat + Z) }.
Definition EINTR := 4.

(** [read]: the bytes, or the error. *)
Definition sys_read (f : open_file) (n : nat) : (list Z + Z) * open_file :=
  match reads f with
  | inr e :: s => (inr e, OpenFile (rest f) s)
  | inl m :: s => (inl (take (Nat.min (S m) n) (rest f)), OpenFile (drop (Nat.min (S m) n) (rest f)) s)
  | [] => (inl (take n (rest f)), OpenFile (drop n (rest f)) [])
  end.

Definition read_fuel (f : open_file) : nat := S (S (length (rest f) + length (reads f))).

Definition size_body (st : Z * open_file) : res (Z * open_file + Z) :=
  let '(result, f) := st in
  match sys_read f 256 with
  | (inr e, f) => if e =? EINTR then Ok (inl (result, f)) else Ok (inr result)
  | (inl [], f) => Ok (inr result)
  | (inl l, f) => if 2 ^ 31 <=? result + Z.of_nat (length l) then UB else Ok (inl (result + Z.of_nat (length l), f))
  end.

(** [None]: the file cannot be opened. *)
Definition get_file_size (file : option open_file) : res Z :=
  match file with None => Ok (-1) | Some f => loop (read_fuel f) size_body (0, f) end.

(** The state is what the buffer holds; the result its length, or -1. *)
Definition read_body (buffsize : nat) (st : list Z * open_file) : res (list Z * open_file + Z * list Z) :=
  let '(buffer, f) := st in
  if negb (Z.of_nat (length buffer) <? s32 (Z.of_nat buffsize)) then Ok (inr (Z.of_nat (length buffer), buffer))
  else
    match sys_read f (buffsize - length buffer) with
    | (inr e, f) => if e =? EINTR then Ok (inl (buffer, f))
                    else Ok (inr (if Z.of_nat (length buffer) =? 0 then -1 else Z.of_nat (length buffer), buffer))
    | (inl [], f) => Ok (inr (Z.of_nat (length buffer), buffer))
    | (inl l, f) => Ok (inl (buffer ++ l, f))
    end.

Definition read_file (file : option open_file) (buffsize : nat) : res (Z * list Z) :=
  match file with None => Ok (-1, []) | Some f => loop (read_fuel f) (read_body buffsize) ([], f) end.

(** ** Numbers *)

(** The value of a digit, by the unsigned comparisons of the code. *)
Definition digit_of (c base : Z) : option Z :=
  let d := c - 48 in
  if u32 d <? 10 then if base <=? d then None else Some d
  else
    let d := c - 97 in
    let d := if 6 <=? u32 d then c - 65 else d in
    if 6 <=? u32 d then None
    else let d := d + 10 in if base <=? d then None else Some d.

Definition parse_body (buf : list Z) (limit base : Z) (st : Z * Z) : res (Z * Z + Z * Z) :=
  let '(p, val) := st in
  if limit <=? p then Ok (inr (p, val))
  else
    c ← rd buf p;
    match digit_of c base with
    | None => Ok (inr (p, val))
    | Some d => if 2 ^ 31 <=? val * base + d then UB else Ok (inl (p + 1, val * base + d))
    end.

(** [None] is a null pointer; else the new position and the value. *)
Definition parse_number (buf : list Z) (input limit base : Z) : res (option (Z * Z)) :=
  r ← loop (S (Z.to_nat (limit - input))) (parse_body buf limit base) (input, 0);
  Ok (if r.1 =? input then None else Some r).

Definition parse_decimal (buf : list Z) (input limit : Z) := parse_number buf input limit 10.
Definition parse_hexadecimal (buf : list Z) (input limit : Z) := parse_number buf input limit 16.

(** ** Sets of CPUs: a mask of 32 bits *)

Definition cpulist_init : Z := 0.
Definition cpulist_and (mask1 mask2 : Z) : Z := Z.land mask1 mask2.
Definition cpulist_set (mask index : Z) : Z :=
  if u32 index <? 32 then Z.lor mask (u32 (Z.shiftl 1 index)) else mask.
Definition cpulist_count (mask : Z) : Z := Z.of_nat (length (filter (λ i, Z.testbit mask i = true) (seqZ 0 32))).

(** [for (val = start_value; val <= end_value; val++)]: the increment of the
    largest [int] is undefined. *)
Definition set_body (end_value : Z) (st : Z * Z) : res (Z * Z + Z) :=
  let '(mask, val) := st in
  if negb (val <=? end_value) then Ok (inr mask)
  else if val =? 2 ^ 31 - 1 then UB
  else Ok (inl (cpulist_set mask val, val + 1)).

Definition set_range (mask start_value end_value : Z) : res Z :=
  loop (S (Z.to_nat (end_value - start_value + 1))) (set_body end_value) (mask, start_value).

(** One item; [BAD_FORMAT] leaves the loop with what has been read. *)
Definition item_body (buf : list Z) (st : Z * Z) : res (Z * Z + Z) :=
  let '(p, mask) := st in
  let endp := Z.of_nat (length buf) in
  c ← (if p <? endp then rd buf p else Ok NL);
  if negb (p <? endp) || (c =? NL) then Ok (inr mask)
  else
    let q := default endp (memchr buf p COMMA endp) in
    r ← parse_decimal buf p q;
    match r with
    | None => Ok (inr mask)
    | Some (p, start_value) =>
      c ← (if p <? q then rd buf p else Ok 0);
      r ← (if (p <? q) && (c =? DASH) then parse_decimal buf (p + 1) q else Ok (Some (p, start_value)));
      match r with
      | None => Ok (inr mask)
      | Some (p, end_value) =>
        mask ← set_range mask start_value end_value;
        Ok (inl (if q <? endp then q + 1 else q, mask))
      end
    end.

Definition cpulist_parse (mask : Z) (line : list Z) : res Z :=
  loop (S (length line)) (item_body line) (0, mask).

Definition cpulist_read_from (file : option open_file) : res Z :=
  r ← read_file file 64;
  if r.1 <? 0 then Ok cpulist_init else cpulist_parse cpulist_init (take (Z.to_nat r.1) r.2).

Definition get_cpu_count (present possible : option open_file) : res Z :=
  cpus_present ← cpulist_read_from present;
  cpus_possible ← cpulist_read_from possible;
  Ok (cpulist_count (cpulist_and cpus_present cpus_possible)).

(** ** Fields of /proc/cpuinfo *)

(** [memmem]: the first position from [p] at which [field] lies in the buffer. *)
Definition occurs (buf field : list Z) (p : Z) : bool := bool_decide (zslice buf p (p + Z.of_nat (length field)) = field).

Fixpoint first_from (test : Z → bool) (p : Z) (n : nat) : option Z :=
  match n with O => None | S n => if test p then Some p else first_from test (p + 1) n end.

Definition memmem (buf : list Z) (p : Z) (field : list Z) : option Z :=
  first_from (occurs buf field) p (Z.to_nat (Z.of_nat (length buf) - p - Z.of_nat (length field) + 1)).

(** The search for an occurrence that starts a line. *)
Definition field_body (buf field : list Z) (p : Z) : res (Z + option Z) :=
  match memmem buf p field with
  | None => Ok (inr None)
  | Some p =>
    c ← (if p =? 0 then Ok NL else rd buf (p - 1));
    if (p =? 0) || (c =? NL) then Ok (inr (Some p)) else Ok (inl (p + Z.of_nat (length field)))
  end.

(** [None] is a null pointer; the copy of the text is taken to succeed. *)
Definition extract_cpuinfo_field (buf field : list Z) : res (option (list Z)) :=
  let bufend := Z.of_nat (length buf) in
  r ← loop (S (length buf)) (field_body buf field) 0;
  match r with
  | None => Ok None
  | Some p =>
    match memchr buf (p + Z.of_nat (length field)) COLON bufend with
    | None => Ok None
    | Some p =>
      c ← rd buf (p + 1);
      if negb (c =? SPACE) then Ok None
      else
        let p := p + 2 in
        let q := default bufend (memchr buf p NL bufend) in
        Ok (Some (zslice buf p q))
    end
  end.

Definition blank (c : Z) : bool := (c =? SPACE) || (c =? TAB).

(** The two inner loops of [has_list_item], on a zero-terminated list. *)
Definition skip_body (l : list Z) (p : Z) : res (Z + Z) :=
  c ← rd l p; if blank c then Ok (inl (p + 1)) else Ok (inr p).
Definition end_body (l : list Z) (q : Z) : res (Z + Z) :=
  c ← rd l q; if negb (c =? 0) && negb (blank c) then Ok (inl (q + 1)) else Ok (inr q).

Definition list_body (l item : list Z) (p : Z) : res (Z + bool) :=
  c ← rd l p;
  if c =? 0 then Ok (inr false)
  else
    p ← loop (S (length l)) (skip_body l) p;
    q ← loop (S (length l)) (end_body l) p;
    if (Z.of_nat (length item) =? q - p) && bool_decide (zslice l p q = item) then Ok (inr true)
    else Ok (inl q).

Definition has_list_item (l item : list Z) : res bool := loop (S (length l)) (list_body l item) 0.

(** ** Feature flags *)

Definition bit (n : Z) : Z := Z.shiftl 1 n.
Definition flags (l : list Z) : Z := foldr (λ n m, Z.lor (bit n) m) 0 l.
Definition test (v m : Z) : bool := negb (Z.land v m =? 0).
Definition or_if (b : bool) (m v : Z) : Z := if b then Z.lor v m else v.

Definition HWCAP_VFP := bit 6.
Definition HWCAP_IWMMXT := bit 9.
Definition HWCAP_NEON := bit 12.
Definition HWCAP_VFPv3 := bit 13.
Definition HWCAP_VFPv3D16 := bit 14.
Definition HWCAP_VFPv4 := bit 16.
Definition HWCAP_IDIVA := bit 17.
Definition HWCAP_IDIVT := bit 18.
Definition HWCAP_SET_FOR_ARMV8 := flags [6; 12; 13; 16; 17; 18].

Definition ARMv7 := bit 0.
Definition VFPv3 := bit 1.
Definition NEON := bit 2.
Definition LDREX_STREX := bit 3.
Definition VFPv2 := bit 4.
Definition VFP_D32 := bit 5.
Definition VFP_FP16 := bit 6.
Definition VFP_FMA := bit 7.
Definition NEON_FMA := bit 8.
Definition IDIV_ARM := bit 9.
Definition IDIV_THUMB2 := bit 10.
Definition iWMMXt := bit 11.
Definition AES := bit 12.
Definition PMULL := bit 13.
Definition SHA1 := bit 14.
Definition SHA2 := bit 15.
Definition CRC32 := bit 16.

(** [strtol(s, &end, 10)]: the value, clamped to [long] (of 32 bits on this
    processor), and whether a number was found. *)
Fixpoint decimal_prefix (l : list Z) (v : Z) (any : bool) : Z * bool :=
  match l with
  | c :: l => if (48 <=? c) && (c <=? 57) then decimal_prefix l (v * 10 + (c - 48)) true else (v, any)
  | [] => (v, any)
  end.
Definition isspace (c : Z) : bool := (c =? 32) || ((9 <=? c) && (c <=? 13)).
Fixpoint skip_spaces (l : list Z) : list Z := match l with c :: l' => if isspace c then skip_spaces l' else l | [] => [] end.
Definition strtol (l : list Z) : Z * bool :=
  let l := skip_spaces l in
  let '(sign, l) := match l with 45 :: l' => (-1, l') | 43 :: l' => (1, l') | _ => (1, l) end in
  let '(v, any) := decimal_prefix l 0 false in
  (Z.max (- 2 ^ 31) (Z.min (2 ^ 31 - 1) (sign * v)), any).

Definition has_item (l : list Z) (item : string) : res bool := has_list_item (l ++ [0]) (bytes item).

Definition get_elf_hwcap_from_proc_cpuinfo (cpuinfo : list Z) : res Z :=
  cpuArch ← extract_cpuinfo_field cpuinfo (bytes "CPU architecture");
  let architecture := match cpuArch with Some a => (strtol a).1 | None => 0 end in
  if 8 <=? architecture then Ok HWCAP_SET_FOR_ARMV8
  else
    cpuFeatures ← extract_cpuinfo_field cpuinfo (bytes "Features");
    match cpuFeatures with
    | None => Ok 0
    | Some f =>
      vfp ← has_item f "vfp"; vfpv3 ← has_item f "vfpv3"; vfpv3d16 ← has_item f "vfpv3d16"; vfpv4 ← has_item f "vfpv4";
      neon ← has_item f "neon"; idiva ← has_item f "idiva"; idivt ← has_item f "idivt"; idiv ← has_item f "idiv";
      iwmmxt ← has_item f "iwmmxt";
      Ok (or_if iwmmxt HWCAP_IWMMXT (or_if idiv (Z.lor HWCAP_IDIVA HWCAP_IDIVT) (or_if idivt HWCAP_IDIVT (or_if idiva HWCAP_IDIVA
        (or_if neon HWCAP_NEON (or_if vfpv4 HWCAP_VFPv4 (or_if vfpv3d16 HWCAP_VFPv3D16 (or_if vfpv3 HWCAP_VFPv3 (or_if vfp HWCAP_VFP 0)))))))))
    end.

(** The entries of /proc/self/auxv; [None] is an error or the end of the file. *)
Fixpoint get_elf_hwcap_from_proc_self_auxv (entries : list (option (Z * Z))) : Z :=
  match entries with
  | [] | None :: _ => 0
  | Some (tag, value) :: l =>
    if (tag =? 0) && (value =? 0) then 0
    else if tag =? 16 then value
    else get_elf_hwcap_from_proc_self_auxv l
  end.

(** The flags of a 32-bit ARM processor from its ELF hardware capabilities. *)
Definition arm_hwcaps (hwcaps g_cpuFeatures : Z) : Z :=
  if hwcaps =? 0 then g_cpuFeatures
  else
    let has_vfp := test hwcaps HWCAP_VFP in
    let has_vfpv3 := test hwcaps HWCAP_VFPv3 in
    let has_vfpv3d16 := test hwcaps HWCAP_VFPv3D16 in
    let has_vfpv4 := test hwcaps HWCAP_VFPv4 in
    let has_neon := test hwcaps HWCAP_NEON in
    let has_idiva := test hwcaps HWCAP_IDIVA in
    let has_idivt := test hwcaps HWCAP_IDIVT in
    let has_iwmmxt := test hwcaps HWCAP_IWMMXT in
    let f := or_if has_vfpv4 (Z.lor VFPv3 (Z.lor VFP_FP16 VFP_FMA)) g_cpuFeatures in
    let f := or_if (has_vfpv3 || has_vfpv3d16) VFPv3 f in
    let f := if has_vfp then if test f ARMv7 then Z.lor f VFPv3 else Z.lor f VFPv2 else f in
    let f := if has_neon then or_if has_vfpv4 NEON_FMA (Z.lor f (Z.lor VFPv3 (Z.lor NEON VFP_D32))) else f in
    let f := or_if (test f VFPv3) (Z.lor VFPv2 ARMv7) f in
    let f := or_if has_idiva IDIV_ARM f in
    let f := or_if has_idivt IDIV_THUMB2 f in
    or_if has_iwmmxt iWMMXt f.

Definition arm_hwcaps2 (hwcaps2 g_cpuFeatures : Z) : Z :=
  if hwcaps2 =? 0 then g_cpuFeatures
  else
    or_if (test hwcaps2 (bit 4)) CRC32 (or_if (test hwcaps2 (bit 3)) SHA2 (or_if (test hwcaps2 (bit 2)) SHA1
      (or_if (test hwcaps2 (bit 1)) PMULL (or_if (test hwcaps2 (bit 0)) AES g_cpuFeatures)))).

(** The architecture, from the fields "CPU architecture" and "Processor". *)
Definition arm_architecture (cpuinfo : list Z) : res Z :=
  cpuArch ← extract_cpuinfo_field cpuinfo (bytes "CPU architecture");
  match cpuArch with
  | None => Ok 0
  | Some a =>
    let '(archNumber, found) := strtol a in
    hasARMv7 ←
      (if found && (7 <=? archNumber) then
         cpuProc ← extract_cpuinfo_field cpuinfo (bytes "Processor");
         match cpuProc with None => Ok true | Some p => v6l ← has_item p "(v6l)"; Ok (negb v6l) end
       else Ok false);
    Ok (or_if (6 <=? archNumber) LDREX_STREX (or_if hasARMv7 ARMv7 0))
  end.

Record CpuIdEntry := CpuId { field : string; format : Z; bit_lshift : Z; bit_length : Z }.
Definition cpu_id_entries : list CpuIdEntry :=
  [CpuId "CPU implementer" 120 24 8; CpuId "CPU variant" 120 20 4; CpuId "CPU part" 120 4 12; CpuId "CPU revision" 100 0 4].

(** The part of the cpuid that one field gives; shifting into the sign bit is
    undefined. *)
Definition cpu_id_field (cpuinfo : list Z) (e : CpuIdEntry) (g_cpuIdArm : Z) : res Z :=
  v ← extract_cpuinfo_field cpuinfo (bytes (field e));
  match v with
  | None => Ok g_cpuIdArm
  | Some value =>
    let value_end := Z.of_nat (length value) in
    let value0 := value ++ [0] in
    let at_ i := default 0 (value0 !! i) in
    r ← (if (at_ 0%nat =? 48) && ((at_ 1%nat =? 120) || (at_ 1%nat =? 88)) then parse_hexadecimal value0 2 value_end
         else if format e =? 120 then parse_hexadecimal value0 0 value_end
         else parse_decimal value0 0 value_end);
    match r with
    | None => Ok g_cpuIdArm
    | Some (_, val) =>
      let val := Z.shiftl (Z.land val (bit (bit_length e) - 1)) (bit_lshift e) in
      if 2 ^ 31 <=? val then UB else Ok (Z.lor g_cpuIdArm (u32 val))
    end
  end.

Fixpoint cpu_id (cpuinfo : list Z) (entries : list CpuIdEntry) (g_cpuIdArm : Z) : res Z :=
  match entries with
  | [] => Ok g_cpuIdArm
  | e :: l => i ← cpu_id_field cpuinfo e g_cpuIdArm; cpu_id cpuinfo l i
  end.

Definition cpu_fixes : list (Z * Z) :=
  [(0x510006f2, Z.lor IDIV_ARM IDIV_THUMB2); (0x510006f3, Z.lor IDIV_ARM IDIV_THUMB2)].
Definition apply_fixes (g_cpuIdArm g_cpuFeatures : Z) : Z :=
  foldl (λ f e, or_if (g_cpuIdArm =? e.1) e.2 f) g_cpuFeatures cpu_fixes.

(** The emulator's processor; the condition tests the family, not the features. *)
Definition goldfish_fix (hardware : option (list Z)) (g_cpuIdArm g_cpuFamily g_cpuFeatures : Z) : Z :=
  match hardware with
  | None => g_cpuFeatures
  | Some h => or_if (bool_decide (h = bytes "Goldfish") && (g_cpuIdArm =? 0x4100c080) && test g_cpuFamily ARMv7) IDIV_ARM g_cpuFeatures
  end.

Definition ANDROID_CPU_FAMILY_UNKNOWN := 0.
Definition ANDROID_CPU_FAMILY_ARM := 1.
Definition ANDROID_CPU_FAMILY_X86 := 2.
Definition ANDROID_CPU_FAMILY_MIPS := 3.
Definition ANDROID_CPU_FAMILY_ARM64 := 4.
Definition ANDROID_CPU_FAMILY_X86_64 := 5.
Definition ANDROID_CPU_FAMILY_MIPS64 := 6.

(** The family, from the macros that the compiler defines; __mips64 comes before
    __mips__, which is defined with it. *)
Definition android_cpuInitFamily (defined : string → bool) : Z :=
  if defined "__arm__"%string then ANDROID_CPU_FAMILY_ARM
  else if defined "__i386__"%string then ANDROID_CPU_FAMILY_X86
  else if defined "__mips64"%string then ANDROID_CPU_FAMILY_MIPS64
  else if defined "__mips__"%string then ANDROID_CPU_FAMILY_MIPS
  else if defined "__aarch64__"%string then ANDROID_CPU_FAMILY_ARM64
  else if defined "__x86_64__"%string then ANDROID_CPU_FAMILY_X86_64
  else ANDROID_CPU_FAMILY_UNKNOWN.

Record cpu := Cpu { g_once : bool; g_inited : bool; g_cpuFamily : Z; g_cpuFeatures : Z; g_cpuCount : Z; g_cpuIdArm : Z }.

(** What the system holds: /proc/cpuinfo (opened twice), the two lists of CPUs,
    [getauxval] and /proc/self/auxv, and the processor's [cpuid]. *)
Record system := System {
  cpuinfo1 : option open_file; cpuinfo2 : option open_file; malloc_ok : bool;
  present : option open_file; possible : option open_file;
  getauxval : Z → Z; self_auxv : list (option (Z * Z)); cpuid : Z → Z * Z * Z }.

Definition arm_init (s : system) (cpuinfo : list Z) (c : cpu) : res cpu :=
  f ← arm_architecture cpuinfo;
  let f := Z.lor (g_cpuFeatures c) f in
  let hwcaps := getauxval s 16 in
  let hwcaps := if hwcaps =? 0 then get_elf_hwcap_from_proc_self_auxv (self_auxv s) else hwcaps in
  hwcaps ← (if hwcaps =? 0 then get_elf_hwcap_from_proc_cpuinfo cpuinfo else Ok hwcaps);
  let f := arm_hwcaps2 (getauxval s 26) (arm_hwcaps hwcaps f) in
  i ← cpu_id cpuinfo cpu_id_entries (g_cpuIdArm c);
  hardware ← extract_cpuinfo_field cpuinfo (bytes "Hardware");
  Ok (Cpu (g_once c) (g_inited c) (g_cpuFamily c) (goldfish_fix hardware i (g_cpuFamily c) (apply_fixes i f)) (g_cpuCount c) i).

(** 64-bit ARM: the bits of FP, ASIMD, AES, PMULL, SHA1, SHA2 and CRC32. *)
Definition arm64_features (hwcaps : Z) : Z :=
  if hwcaps =? 0 then 0
  else
    or_if (test hwcaps (bit 7)) (bit 6) (or_if (test hwcaps (bit 6)) (bit 5) (or_if (test hwcaps (bit 5)) (bit 4)
      (or_if (test hwcaps (bit 4)) (bit 3) (or_if (test hwcaps (bit 3)) (bit 2) (or_if (test hwcaps (bit 1)) (bit 1)
      (or_if (test hwcaps (bit 0)) (bit 0) 0)))))).

(** x86: registers ebx, ecx and edx of the leaves 0, 1 and 7. *)
Definition x86_features (cpuid : Z → Z * Z * Z) : Z :=
  let '(b0, c0, d0) := cpuid 0 in
  let vendorIsIntel := (b0 =? 0x756e6547) && (c0 =? 0x6c65746e) && (d0 =? 0x49656e69) in
  let '(_, c1, _) := cpuid 1 in
  let f := or_if (test c1 (bit 9)) (bit 0) 0 in
  let f := or_if (test c1 (bit 23)) (bit 1) f in
  let f := or_if (test c1 (bit 19)) (bit 3) f in
  let f := or_if (test c1 (bit 20)) (bit 4) f in
  let f := or_if (vendorIsIntel && test c1 (bit 22)) (bit 2) f in
  let f := or_if (test c1 (bit 25)) (bit 5) f in
  let f := or_if (test c1 (bit 28)) (bit 6) f in
  let f := or_if (test c1 (bit 30)) (bit 7) f in
  let '(b7, _, _) := cpuid 7 in
  let f := or_if (test b7 (bit 5)) (bit 8) f in
  or_if (test b7 (bit 29)) (bit 9) f.

Definition mips_features (hwcaps : Z) : Z :=
  if hwcaps =? 0 then 0 else or_if (test hwcaps (bit 1)) (bit 1) (or_if (test hwcaps (bit 0)) (bit 0) 0).

(** The initialisation, for the family the code is compiled for (that
    [android_cpuInitFamily] answers). *)
Definition android_cpuInit (family : Z) (s : system) (c : cpu) : res cpu :=
  let c := Cpu (g_once c) true family 0 1 (g_cpuIdArm c) in
  len ← get_file_size (cpuinfo1 s);
  if len <? 0 then Ok c
  else if negb (malloc_ok s) then Ok c
  else
    r ← read_file (cpuinfo2 s) (Z.to_nat len);
    if r.1 <? 0 then Ok c
    else
      n ← get_cpu_count (present s) (possible s);
      let count := if n =? 0 then 1 else n in
      let with_features f := Cpu (g_once c) true family f count (g_cpuIdArm c) in
      if family =? ANDROID_CPU_FAMILY_ARM then arm_init s r.2 (with_features 0)
      else if family =? ANDROID_CPU_FAMILY_ARM64 then Ok (with_features (arm64_features (getauxval s 16)))
      else if (family =? ANDROID_CPU_FAMILY_X86) || (family =? ANDROID_CPU_FAMILY_X86_64) then Ok (with_features (x86_features (cpuid s)))
      else if (family =? ANDROID_CPU_FAMILY_MIPS) || (family =? ANDROID_CPU_FAMILY_MIPS64) then Ok (with_features (mips_features (getauxval s 16)))
      else Ok (with_features 0).

(** [pthread_once]. *)
Definition pthread_once (init : cpu → res cpu) (c : cpu) : res cpu :=
  if g_once c then Ok c
  else c ← init c; Ok (Cpu true (g_inited c) (g_cpuFamily c) (g_cpuFeatures c) (g_cpuCount c) (g_cpuIdArm c)).

Definition android_getCpuFamily (family : Z) (s : system) (c : cpu) : res (Z * cpu) :=
  c ← pthread_once (android_cpuInit family s) c; Ok (g_cpuFamily c, c).
Definition android_getCpuFeatures (family : Z) (s : system) (c : cpu) : res (Z * cpu) :=
  c ← pthread_once (android_cpuInit family s) c; Ok (g_cpuFeatures c, c).
Definition android_getCpuCount (family : Z) (s : system) (c : cpu) : res (Z * cpu) :=
  c ← pthread_once (android_cpuInit family s) c; Ok (g_cpuCount c, c).
Definition android_getCpuIdArm (family : Z) (s : system) (c : cpu) : res (Z * cpu) :=
  c ← pthread_once (android_cpuInit family s) c; Ok (g_cpuIdArm c, c).

Definition android_cpuInitDummy (c : cpu) : res cpu :=
  Ok (Cpu (g_once c) true (g_cpuFamily c) (g_cpuFeatures c) (g_cpuCount c) (g_cpuIdArm c)).

Definition android_setCpu (family cpu_count cpu_features : Z) (c : cpu) : res (bool * cpu) :=
  if g_inited c then Ok (false, c)
  else
    c ← pthread_once android_cpuInitDummy
          (Cpu (g_once c) (g_inited c) family cpu_features (if cpu_count <=? 0 then 1 else cpu_count) (g_cpuIdArm c));
    Ok (true, c).

Definition android_setCpuArm (family cpu_count cpu_features cpu_id : Z) (c : cpu) : res (bool * cpu) :=
  r ← android_setCpu family cpu_count cpu_features c;
  let '(ok, c) := r in
  Ok (ok, if ok : bool then Cpu (g_once c) (g_inited c) (g_cpuFamily c) (g_cpuFeatures c) (g_cpuCount c) cpu_id else c).

(** ** Reading: the whole file, whatever the sizes of the reads *)

(** Only interruptions, no other error. *)
Definition only_interrupts (f : open_file) : Prop := ∀ e, inr e ∈ reads f → e = EINTR.

Lemma sys_read_cases f n : only_interrupts f → (0 < n)%nat →
  (∃ f', sys_read f n = (inr EINTR, f') ∧ only_interrupts f' ∧ rest f' = rest f ∧ (length (reads f') < length (reads f))%nat) ∨
  (∃ l f', sys_read f n = (inl l, f') ∧ only_interrupts f' ∧ rest f = l ++ rest f' ∧ (length l ≤ n)%nat ∧
     (length (reads f') ≤ length (reads f))%nat ∧ (l = [] → rest f = [])).
Proof.
  intros Hf Hn. destruct f as [r [|[m|e] s]]; unfold sys_read; cbn [reads rest].
  - right. exists (take n r), (OpenFile (drop n r) []). cbn. rewrite take_drop, length_take.
    split_and!; try done; [lia|]. destruct n, r; done || lia.
  - right. exists (take (Nat.min (S m) n) r), (OpenFile (drop (Nat.min (S m) n) r) s). cbn [rest reads]. rewrite take_drop, length_take.
    split_and!; try done; [intros e He; apply Hf; by right|lia|cbn; lia|]. destruct n; [lia|]. by destruct r.
  - left. assert (e = EINTR) as -> by (apply Hf; by left). exists (OpenFile r s). split_and!; try done; [|cbn; lia].
    intros e He. apply Hf. by right.
Qed.

Lemma get_file_size_ok content f : only_interrupts f → rest f = content → Z.of_nat (length content) < 2 ^ 31 →
  get_file_size (Some f) = Ok (Z.of_nat (length content)).
Proof.
  intros Hf Hr Hlen. unfold get_file_size.
  destruct (loop_total size_body
    (λ st, only_interrupts st.2 ∧ 0 <= st.1 ∧ st.1 + Z.of_nat (length (rest st.2)) = Z.of_nat (length content))
    (λ st, length (rest st.2) + length (reads st.2))%nat (λ r, r = Z.of_nat (length content))) with (fuel := read_fuel f) (s := (0, f))
    as (r & -> & ->); [| |cbn; unfold read_fuel; lia|done].
  - intros [result g] (Hg & Hp & Hs). cbn [fst snd] in *. unfold size_body.
    destruct (sys_read_cases g 256 Hg ltac:(lia)) as [(g' & -> & Hg' & He & Hl)|(l & g' & -> & Hg' & He & Hn & Hl & Hnil)].
    + rewrite Z.eqb_refl. apply runs_ok. cbn. rewrite He. split; [done|lia].
    + destruct l as [|x l]; [rewrite (Hnil eq_refl) in Hs; apply runs_ok; cbn in Hs; lia|].
      rewrite He in *. rewrite length_app in *. cbn [length] in *.
      destruct (Z.leb_spec (2 ^ 31) (result + Z.of_nat (S (length l)))); [lia|]. apply runs_ok. cbn [fst snd length].
      split; [split_and!; [done|lia|lia]|lia].
  - cbn. by rewrite Hr.
Qed.

Lemma read_file_ok content f n : only_interrupts f → rest f = content → Z.of_nat n < 2 ^ 31 →
  read_file (Some f) n = Ok (Z.of_nat (Nat.min n (length content)), take n content).
Proof.
  intros Hf Hr Hn. unfold read_file.
  destruct (loop_total (read_body n)
    (λ st, only_interrupts st.2 ∧ (length st.1 ≤ n)%nat ∧ st.1 ++ rest st.2 = content)
    (λ st, length (rest st.2) + length (reads st.2))%nat
    (λ r, r = (Z.of_nat (Nat.min n (length content)), take n content))) with (fuel := read_fuel f) (s := ([] : list Z, f))
    as (r & -> & ->); [| |cbn; unfold read_fuel; lia|done].
  - intros [buffer g] (Hg & Hle & Hc). cbn [fst snd] in *. unfold read_body.
    rewrite (swrap_id 32) by (unfold srange; lia).
    destruct (Z.ltb_spec (Z.of_nat (length buffer)) (Z.of_nat n)); cbn [negb].
    + destruct (sys_read_cases g (n - length buffer) Hg ltac:(lia)) as [(g' & -> & Hg' & He & Hl)|(l & g' & -> & Hg' & He & Hb & Hl & Hnil)].
      * rewrite Z.eqb_refl. apply runs_ok. cbn. rewrite He. split; [done|lia].
      * destruct l as [|x l].
        -- apply runs_ok. rewrite (Hnil eq_refl), app_nil_r in Hc. subst buffer. rewrite Nat.min_r, take_ge by lia. done.
        -- apply runs_ok. cbn [fst snd]. rewrite He in *. rewrite !length_app in *. cbn [length] in *. rewrite <- app_assoc.
           split; [split_and!; [done|lia|done]|lia].
    + apply runs_ok. cbn [fst snd]. rewrite <- Hc, length_app, Nat.min_l, take_app_length' by lia. f_equal; lia.
  - cbn. split_and!; [done|lia|done].
Qed.

(** ** Numbers *)

(** The value of a sequence of digits, after the value [v]. *)
Definition number (base v : Z) (ds : list Z) : Z := foldl (λ v d, v * base + d) v ds.

(** [c] is the character of the digit [d]. *)
Definition digit (base c d : Z) : Prop := digit_of c base = Some d ∧ 0 <= d < base.

Lemma number_ge base v ds : 0 < base → 0 <= v → Forall (λ d, 0 <= d) ds → v <= number base v ds.
Proof.
  intros Hb Hv Hd. revert v Hv. induction Hd as [|d ds Hd _ IH]; intros v Hv; [done|]. cbn.
  assert (0 <= v * base + d) by nia. specialize (IH (v * base + d) ltac:(done)). unfold number in *. nia.
Qed.

(** The longest sequence of digits in the window is read, and its value. *)
Lemma parse_digits buf limit base pre ds vals post v fuel : 0 < base → buf = pre ++ ds ++ post →
  Forall2 (digit base) ds vals → 0 <= v →
  let p := Z.of_nat (length pre) in let e := Z.of_nat (length pre + length ds) in
  e <= limit → limit = e ∨ (∃ c post', post = c :: post' ∧ digit_of c base = None) →
  number base v vals < 2 ^ 31 → (length ds < fuel)%nat →
  loop fuel (parse_body buf limit base) (p, v) = Ok (e, number base v vals).
Proof.
  intros Hb Hbuf Hds. revert pre v fuel Hbuf. induction Hds as [|c d ds vals [Hc Hd] Hds IH]; intros pre v fuel Hbuf Hv p e He Hend Hnum Hfuel.
  - destruct fuel as [|fuel]; [cbn in Hfuel; lia|]. cbn [loop number foldl length] in *.
    assert (Hep : e = p) by (unfold e, p; lia). rewrite Hep.
    assert (Hstep : parse_body buf limit base (p, v) = Ok (inr (p, v))).
    { unfold parse_body. destruct (Z.leb_spec limit p); [done|]. destruct Hend as [?|(c & post' & -> & Hc)]; [lia|].
      rewrite Hbuf. cbn [app]. rewrite rd_app_mid by done. by rewrite bind_Ok, Hc. }
    by rewrite Hstep.
  - destruct fuel as [|fuel]; [cbn in Hfuel; lia|]. cbn [loop number foldl length] in *.
    assert (Hle : v * base + d <= number base (v * base + d) vals).
    { apply number_ge; [done|nia|]. clear -Hds. induction Hds as [|? ? ? ? [_ Hd] _ IH]; constructor; [lia|done]. }
    assert (Hstep : parse_body buf limit base (p, v) = Ok (inl (p + 1, v * base + d))).
    { unfold parse_body. destruct (Z.leb_spec limit p); [unfold e, p in *; lia|]. rewrite Hbuf. cbn [app]. rewrite rd_app_mid by done.
      rewrite bind_Ok, Hc. unfold number in *. by destruct (Z.leb_spec (2 ^ 31) (v * base + d)); [lia|]. }
    rewrite Hstep, bind_Ok. specialize (IH (pre ++ [c]) (v * base + d) fuel). rewrite length_app in IH. cbn [length] in IH.
    replace (p + 1) with (Z.of_nat (length pre + 1)) by (unfold p; lia). rewrite IH; [|by rewrite <- app_assoc|nia|unfold e in *; lia| |done|lia].
    + do 2 f_equal. unfold e. lia.
    + destruct Hend as [?|?]; [left; unfold e in *; lia|by right].
Qed.

Lemma parse_number_ok buf limit base pre ds vals post : 0 < base → buf = pre ++ ds ++ post →
  Forall2 (digit base) ds vals →
  let e := Z.of_nat (length pre + length ds) in
  e <= limit → limit = e ∨ (∃ c post', post = c :: post' ∧ digit_of c base = None) → number base 0 vals < 2 ^ 31 →
  parse_number buf (Z.of_nat (length pre)) limit base = Ok (if bool_decide (ds = []) then None else Some (e, number base 0 vals)).
Proof.
  intros Hb Hbuf Hds e He Hend Hnum. unfold parse_number.
  rewrite (parse_digits buf limit base pre ds vals post 0) by (done || lia).
  rewrite bind_Ok. cbn [fst]. case_bool_decide as Hd.
  - subst ds. cbn [length]. by destruct (Z.eqb_spec (Z.of_nat (length pre + 0)) (Z.of_nat (length pre))); [|lia].
  - destruct ds as [|c ds]; [done|]. cbn [length] in *. by destruct (Z.eqb_spec (Z.of_nat (length pre + S (length ds))) (Z.of_nat (length pre))); [lia|].
Qed.

(** The decimal digits of a number below 10^n. *)
Fixpoint dec_digits (n : nat) (z : Z) : list Z :=
  match n with
  | O => []
  | S n => if z <? 10 then [z] else dec_digits n (z / 10) ++ [z mod 10]
  end.
Definition decimal (z : Z) : list Z := map (Z.add 48) (dec_digits 10 z).

Lemma dec_digits_ok n z : 0 <= z < 10 ^ Z.of_nat n →
  number 10 0 (dec_digits n z) = z ∧ Forall (λ d, 0 <= d < 10) (dec_digits n z) ∧ (0 < n → dec_digits n z ≠ [])%nat.
Proof.
  revert z. induction n as [|n IH]; intros z Hz; [cbn in Hz; split_and!; [cbn; lia|constructor|lia]|].
  cbn [dec_digits]. destruct (Z.ltb_spec z 10); [split_and!; [cbn; lia|repeat constructor; lia|done]|].
  rewrite Nat2Z.inj_succ, Z.pow_succ_r in Hz by lia.
  destruct (IH (z / 10)) as (H1 & H2 & _); [split; [lia|apply Z.div_lt_upper_bound; lia]|].
  split_and!; [|apply Forall_app; split; [done|repeat constructor; lia]|by destruct (dec_digits n (z / 10))].
  unfold number in *. rewrite foldl_app, H1. cbn. lia.
Qed.

Lemma decimal_ok z : 0 <= z < 2 ^ 31 → ∃ vals, Forall2 (digit 10) (decimal z) vals ∧ number 10 0 vals = z ∧ decimal z ≠ [].
Proof.
  intros Hz. destruct (dec_digits_ok 10 z) as (H1 & H2 & H3); [cbn; lia|]. exists (dec_digits 10 z). split_and!; [|done|].
  - unfold decimal. clear -H2. induction H2 as [|d l Hd _ IH]; constructor; [|done]. split; [|lia]. unfold digit_of, wrap.
    rewrite (Z.mod_small (48 + d - 48)) by lia. destruct (Z.ltb_spec (48 + d - 48) 10); [|lia].
    destruct (Z.leb_spec 10 (48 + d - 48)); [lia|]. f_equal. lia.
  - intros H%fmap_nil_inv. by apply H3; [lia|].
Qed.

(** ** Lists of CPUs *)

Lemma u32_small z : 0 <= z < 2 ^ 32 → u32 z = z.
Proof. intros H. by apply wrap_id. Qed.

Lemma cpulist_set_bit mask v i : 0 <= v < 2 ^ 31 → 0 <= i →
  Z.testbit (cpulist_set mask v) i = Z.testbit mask i || ((v <? 32) && (i =? v)).
Proof.
  intros Hv Hi. unfold cpulist_set. rewrite (u32_small v) by (pow2_lit; lia). destruct (Z.ltb_spec v 32); [|by rewrite orb_false_r].
  assert (2 ^ v < 2 ^ 32) by (apply Z.pow_lt_mono_r; lia).
  rewrite Z.lor_spec, Z.shiftl_1_l, u32_small, Z.pow2_bits_eqb by lia.
  f_equal. cbn [andb]. apply Z.eqb_sym.
Qed.

Lemma set_range_ok mask a b : 0 <= a → b < 2 ^ 31 - 1 → ∃ mask', set_range mask a b = Ok mask' ∧
  ∀ i, 0 <= i → Z.testbit mask' i = Z.testbit mask i || ((i <? 32) && (a <=? i) && (i <=? b)).
Proof.
  intros Ha Hb. unfold set_range.
  apply (loop_total (set_body b)
    (λ st, a <= st.2 <= Z.max a (b + 1) ∧ ∀ i, 0 <= i → Z.testbit st.1 i = Z.testbit mask i || ((i <? 32) && (a <=? i) && (i <? st.2)))
    (λ st, Z.to_nat (b - st.2 + 1))); [| |cbn; lia].
  - intros [m v] [Hr Hm]. cbn [fst snd] in *. unfold set_body. destruct (Z.leb_spec v b); cbn [negb].
    + destruct (Z.eqb_spec v (2 ^ 31 - 1)); [lia|]. apply runs_ok. cbn [fst snd]. split; [|lia]. split; [lia|].
      intros i Hi. rewrite cpulist_set_bit, Hm by (pow2_lit; lia). rewrite <- orb_assoc. f_equal.
      destruct (Z.ltb_spec i 32), (Z.leb_spec a i), (Z.ltb_spec i v), (Z.ltb_spec v 32), (Z.eqb_spec i v), (Z.ltb_spec i (v + 1)); cbn; done || lia.
    + apply runs_ok. intros i Hi. rewrite Hm by done. f_equal.
      destruct (Z.ltb_spec i 32), (Z.leb_spec a i), (Z.ltb_spec i v), (Z.leb_spec i b); try done; lia.
  - cbn. split; [lia|]. intros i Hi. destruct (Z.leb_spec a i), (Z.ltb_spec i a); try lia; by rewrite ?andb_false_r, ?orb_false_r.
Qed.

(** A list of CPUs as the kernel writes it: numbers and ranges. *)
Definition cpu_item : Type := Z * option Z.
Definition item_ok (x : cpu_item) : Prop := 0 <= x.1 < 2 ^ 31 - 1 ∧ match x.2 with None => True | Some b => 0 <= b < 2 ^ 31 - 1 end.
Definition in_item (i : Z) (x : cpu_item) : bool := match x.2 with None => (i =? x.1) | Some b => (x.1 <=? i) && (i <=? b) end.
Definition render_item (x : cpu_item) : list Z :=
  decimal x.1 ++ match x.2 with None => [] | Some b => DASH :: decimal b end.
Fixpoint render (l : list cpu_item) : list Z :=
  match l with [] => [] | [x] => render_item x | x :: l => render_item x ++ COMMA :: render l end.

Lemma digit_chars ds vals : Forall2 (digit 10) ds vals → Forall (λ c, c ≠ COMMA ∧ c ≠ DASH ∧ c ≠ NL) ds.
Proof.
  induction 1 as [|c d ds vals [Hc _] _ IH]; constructor; [|done]. split_and!; intros ->; by vm_compute in Hc.
Qed.

Lemma render_item_chars x : item_ok x → (COMMA ∉ render_item x) ∧ ∃ c l, render_item x = c :: l ∧ c ≠ NL.
Proof.
  intros [Ha Hb]. unfold render_item. destruct (decimal_ok x.1 ltac:(lia)) as (vals & Hv & _ & Hne).
  pose proof (digit_chars _ _ Hv) as Hf. split.
  - intros [H|H]%elem_of_app; [by destruct (proj1 (Forall_forall _ _) Hf _ H)|].
    destruct x.2 as [b|]; [|by apply elem_of_nil in H]. apply elem_of_cons in H as [H|H]; [done|].
    destruct (decimal_ok b ltac:(lia)) as (vb & Hvb & _). by destruct (proj1 (Forall_forall _ _) (digit_chars _ _ Hvb) _ H).
  - destruct (decimal x.1) as [|c l]; [done|]. inversion Hf as [|? ? (_ & _ & ?) ?]; subst. by eexists _, _.
Qed.

(** What follows an item in the line, and where the next one starts. *)
Definition item_end (post : list Z) : Prop := post = [] ∨ post = [NL] ∨ ∃ l, post = COMMA :: l.
Definition item_next (e : Z) (post : list Z) : Z := match post with c :: _ => if c =? COMMA then e + 1 else e + Z.of_nat (length post) | [] => e end.

Lemma no_digit c : c = COMMA ∨ c = DASH ∨ c = NL → digit_of c 10 = None.
Proof. intros [H|[H|H]]; subst c; done. Qed.

(** The end [q] of the item that the code finds. *)
Lemma item_limit pre x post : item_ok x → item_end post →
  let line := pre ++ render_item x ++ post in let e := Z.of_nat (length pre + length (render_item x)) in
  let q := default (Z.of_nat (length line)) (memchr line (Z.of_nat (length pre)) COMMA (Z.of_nat (length line))) in
  (q = e ∨ (post = [NL] ∧ q = e + 1)) ∧ (if q <? Z.of_nat (length line) then q + 1 else q) = item_next e post.
Proof.
  intros Hx Hp line e q. destruct (render_item_chars x Hx) as [Hr _]. unfold q, line, e. clear line e q. revert Hr.
  generalize (render_item x). intros r Hr. set (e := Z.of_nat (length pre + length r)).
  rewrite memchr_app, memchr_from_app by done.
  replace (Z.of_nat (length pre) + Z.of_nat (length r)) with e by (unfold e; lia). rewrite !length_app.
  destruct Hp as [Hp|[Hp|(l & Hp)]]; subst post; cbn [memchr_from default length Nat.add item_next NL COMMA Z.eqb Pos.eqb].
  - assert (He : Z.of_nat (length pre + (length r + 0)) = e) by (unfold e; lia). rewrite He, Z.ltb_irrefl. split; [by left|done].
  - assert (He : Z.of_nat (length pre + (length r + 1)) = e + 1) by (unfold e; lia). rewrite He, Z.ltb_irrefl. split; [by right|done].
  - unfold id. split; [by left|]. by destruct (Z.ltb_spec e (Z.of_nat (length pre + (length r + S (length l))))); [|unfold e in *; lia].
Qed.

(** The end value of an item. *)
Definition item_last (x : cpu_item) : Z := default x.1 x.2.

Lemma item_values pre x post q : item_ok x →
  let line := pre ++ render_item x ++ post in let e := Z.of_nat (length pre + length (render_item x)) in
  q = e ∨ (post = [NL] ∧ q = e + 1) →
  ∃ p, parse_decimal line (Z.of_nat (length pre)) q = Ok (Some (p, x.1)) ∧
    ∃ c, (if p <? q then rd line p else Ok 0) = Ok c ∧
    ∃ p', (if (p <? q) && (c =? DASH) then parse_decimal line (p + 1) q else Ok (Some (p, x.1))) = Ok (Some (p', item_last x)).
Proof.
  intros [Ha Hb] line e Hq. destruct (decimal_ok x.1 ltac:(lia)) as (va & Hva & Hna & Hnea). unfold item_last.
  set (da := decimal x.1) in *. set (p := Z.of_nat (length pre + length da)). exists p.
  destruct x.2 as [b|] eqn:E2; cbn [default].
  - destruct (decimal_ok b ltac:(lia)) as (vb & Hvb & Hnb & Hneb). set (db := decimal b) in *.
    assert (Hri : render_item x = da ++ DASH :: db) by (unfold render_item; by rewrite E2).
    assert (He : e = p + 1 + Z.of_nat (length db)) by (unfold e, p; rewrite Hri, length_app; cbn [length]; lia).
    assert (Hline : line = pre ++ da ++ DASH :: db ++ post) by (unfold line; rewrite Hri, <- app_assoc; done).
    assert (Hline2 : line = (pre ++ da ++ [DASH]) ++ db ++ post) by (rewrite Hline, <- !app_assoc; done).
    split; [|exists DASH; split].
    + unfold parse_decimal. rewrite (parse_number_ok line q 10 pre da va (DASH :: db ++ post)); try done; [| |right; by eexists _, _|].
      * rewrite bool_decide_false by done. by rewrite Hna.
      * fold p. lia.
      * rewrite Hna. lia.
    + destruct (Z.ltb_spec p q); [|lia]. rewrite Hline, app_assoc. apply rd_app_mid. rewrite length_app. done.
    + destruct (Z.ltb_spec p q); [|lia]. rewrite Z.eqb_refl. cbn [andb].
      exists e. unfold parse_decimal.
      replace (p + 1) with (Z.of_nat (length (pre ++ da ++ [DASH]))) by (rewrite !length_app; cbn [length]; unfold p; lia).
      assert (Hl : Z.of_nat (length (pre ++ da ++ [DASH]) + length db) = e) by (rewrite !length_app; cbn [length]; unfold p in *; lia).
      rewrite (parse_number_ok line q 10 _ db vb post); try done; rewrite ?Hl, ?Hnb; [by rewrite bool_decide_false|lia| |lia].
      destruct Hq as [?|[-> ?]]; [by left|right]. eexists _, _. split; [reflexivity|]. apply no_digit. tauto.
  - assert (Hri : render_item x = da) by (unfold render_item; by rewrite E2, app_nil_r).
    assert (He : e = p) by (unfold e, p; by rewrite Hri). assert (Hline : line = pre ++ da ++ post) by (unfold line; by rewrite Hri).
    split.
    + unfold parse_decimal. rewrite (parse_number_ok line q 10 pre da va post); try done; fold p; rewrite ?Hna; [by rewrite bool_decide_false|lia| |lia].
      destruct Hq as [?|[-> ?]]; [left; lia|right]. eexists _, _. split; [reflexivity|]. apply no_digit. tauto.
    + destruct Hq as [Hq|[-> Hq]].
      * destruct (Z.ltb_spec p q); [lia|]. exists 0. split; [done|]. by exists p.
      * destruct (Z.ltb_spec p q); [|lia]. exists NL. split; [|by exists p].
        rewrite Hline, app_assoc. apply rd_app_mid. by rewrite length_app.
Qed.

Lemma item_step pre x post mask : item_ok x → item_end post →
  let line := pre ++ render_item x ++ post in
  ∃ mask', item_body line (Z.of_nat (length pre), mask) =
    Ok (inl (item_next (Z.of_nat (length pre + length (render_item x))) post, mask')) ∧
  ∀ i, 0 <= i → Z.testbit mask' i = Z.testbit mask i || ((i <? 32) && in_item i x).
Proof.
  intros Hx Hp line. destruct (item_limit pre x post Hx Hp) as [Hq Hnext]. fold line in Hq, Hnext.
  set (q := default (Z.of_nat (length line)) (memchr line (Z.of_nat (length pre)) COMMA (Z.of_nat (length line)))) in *.
  destruct (item_values pre x post q Hx Hq) as (p & H1 & c & H2 & p' & H3). fold line in H1, H2, H3.
  destruct Hx as [Ha Hb].
  destruct (set_range_ok mask x.1 (item_last x)) as (mask' & Hm & Hbits); [lia|unfold item_last; destruct x.2; cbn; lia|].
  exists mask'. split.
  - destruct (render_item_chars x (conj Ha Hb)) as (_ & c0 & l & Hri & Hc0). unfold item_body.
    assert (Hrd : rd line (Z.of_nat (length pre)) = Ok c0) by (unfold line; rewrite Hri; by apply rd_app_mid).
    assert (Hlt : (Z.of_nat (length pre) <? Z.of_nat (length line)) = true) by (apply Z.ltb_lt; unfold line; rewrite !length_app, Hri; cbn; lia).
    rewrite Hlt, Hrd, bind_Ok.
    rewrite (proj2 (Z.eqb_neq c0 NL)) by done. cbn [negb orb]. fold q. rewrite H1, bind_Ok, H2, bind_Ok, H3, bind_Ok, Hm, bind_Ok. by rewrite Hnext.
  - intros i Hi. rewrite Hbits by done. rewrite <- andb_assoc. f_equal. f_equal. unfold in_item, item_last. destruct x.2; [done|cbn].
    destruct (Z.leb_spec x.1 i), (Z.leb_spec i x.1), (Z.eqb_spec i x.1); done || lia.
Qed.

(** The end of the line, or a newline. *)
Lemma item_body_end pre mask nl : nl = [] ∨ nl = [NL] → item_body (pre ++ nl) (Z.of_nat (length pre), mask) = Ok (inr mask).
Proof.
  intros [Hnl|Hnl]; subst nl; unfold item_body.
  - rewrite app_nil_r, Z.ltb_irrefl. done.
  - assert (Hlt : (Z.of_nat (length pre) <? Z.of_nat (length (pre ++ [NL]))) = true) by (apply Z.ltb_lt; rewrite length_app; cbn; lia).
    rewrite Hlt, rd_app_mid by done. done.
Qed.

Lemma items_loop nl : nl = [] ∨ nl = [NL] → ∀ items pre mask fuel, Forall item_ok items →
  (length (render items ++ nl) < fuel)%nat →
  ∃ mask', loop fuel (item_body (pre ++ render items ++ nl)) (Z.of_nat (length pre), mask) = Ok mask' ∧
    ∀ i, 0 <= i → Z.testbit mask' i = Z.testbit mask i || ((i <? 32) && existsb (in_item i) items).
Proof.
  intros Hnl. induction items as [|x items IH]; intros pre mask fuel Hok Hfuel; (destruct fuel as [|fuel]; [lia|]).
  - exists mask. split; [by apply loop_exit, item_body_end|]. intros i _. cbn. by rewrite andb_false_r, orb_false_r.
  - inversion Hok as [|? ? Hx Hxs]; subst.
    destruct (render_item_chars x Hx) as (_ & c0 & l0 & Hri & _).
    destruct items as [|y items].
    + cbn [render] in *. destruct (item_step pre x nl mask Hx ltac:(destruct Hnl; [by left|right; by left])) as (mask' & Hs & Hb).
      exists mask'. split; [|intros i Hi; rewrite Hb by done; cbn; by rewrite orb_false_r].
      rewrite (loop_unfold _ _ _ _ Hs). rewrite length_app, Hri in Hfuel. cbn [length] in Hfuel. destruct fuel as [|fuel]; [lia|].
      apply loop_exit. assert (Hn : item_next (Z.of_nat (length pre + length (render_item x))) nl = Z.of_nat (length (pre ++ render_item x ++ nl))).
      { rewrite !length_app. destruct Hnl; subst nl; cbn [item_next NL COMMA Z.eqb Pos.eqb length]; lia. }
      rewrite Hn. pose proof (item_body_end (pre ++ render_item x ++ nl) mask' [] (or_introl eq_refl)) as He. by rewrite app_nil_r in He.
    + set (post := COMMA :: render (y :: items) ++ nl).
      assert (Hl : render (x :: y :: items) ++ nl = render_item x ++ post) by (unfold post; cbn [render]; by rewrite <- app_assoc).
      rewrite Hl in *. destruct (item_step pre x post mask Hx ltac:(right; right; by eexists)) as (mask1 & Hs & Hb).
      rewrite (loop_unfold _ _ _ _ Hs). set (pre' := pre ++ render_item x ++ [COMMA]).
      assert (Hp' : pre ++ render_item x ++ post = pre' ++ render (y :: items) ++ nl) by (unfold pre', post; by rewrite <- !app_assoc).
      assert (Hn : item_next (Z.of_nat (length pre + length (render_item x))) post = Z.of_nat (length pre')).
      { unfold post, pre', item_next. rewrite Z.eqb_refl, !length_app. cbn [length]. lia. }
      rewrite Hn, Hp'. destruct (IH pre' mask1 fuel Hxs) as (mask' & Hlo & Hb').
      { rewrite length_app in Hfuel. unfold post in Hfuel. cbn [length] in Hfuel. lia. }
      exists mask'. split; [done|]. intros i Hi. rewrite Hb', Hb by done. cbn [existsb].
      by destruct (Z.testbit mask i), (i <? 32), (in_item i x), (in_item i y), (existsb (in_item i) items).
Qed.

(** The CPUs below 32 that a list names. *)
Definition named (items : list cpu_item) (i : Z) : bool := (i <? 32) && existsb (in_item i) items.

Lemma cpulist_parse_ok items nl mask : Forall item_ok items → nl = [] ∨ nl = [NL] →
  ∃ mask', cpulist_parse mask (render items ++ nl) = Ok mask' ∧ ∀ i, 0 <= i → Z.testbit mask' i = Z.testbit mask i || named items i.
Proof. intros Hok Hnl. apply (items_loop nl Hnl items [] mask); [done|lia]. Qed.

Lemma cpulist_read_ok items nl f : Forall item_ok items → nl = [] ∨ nl = [NL] → only_interrupts f →
  rest f = render items ++ nl → (length (render items ++ nl) ≤ 64)%nat →
  ∃ mask, cpulist_read_from (Some f) = Ok mask ∧ ∀ i, 0 <= i → Z.testbit mask i = named items i.
Proof.
  intros Hok Hnl Hf Hr Hlen. unfold cpulist_read_from. rewrite (read_file_ok _ f 64 Hf Hr) by lia. rewrite bind_Ok. cbn [fst snd].
  rewrite (take_ge _ 64) by done. destruct (Z.ltb_spec (Z.of_nat (Nat.min 64 (length (render items ++ nl)))) 0); [lia|].
  rewrite Nat2Z.id, take_ge by lia. destruct (cpulist_parse_ok items nl cpulist_init Hok Hnl) as (mask & Hm & Hb).
  exists mask. split; [done|]. intros i Hi. rewrite Hb by done. unfold cpulist_init. by rewrite Z.testbit_0_l.
Qed.

Lemma filter_ext_in (P Q : Z → bool) (l : list Z) : (∀ i, i ∈ l → P i = Q i) →
  filter (λ i, P i = true) l = filter (λ i, Q i = true) l.
Proof.
  induction l as [|x l IH]; intros H; [done|]. rewrite !filter_cons, IH by (intros; apply H; by right).
  by rewrite (H x) by (by left).
Qed.

(** C37: the lists of CPUs. What the kernel writes for a list of numbers and
    ranges, with or without a newline, is parsed back: the mask gains exactly
    the CPUs below 32 of the list (larger ones are dropped). The number of CPUs
    is the number of those that are both in the list of the CPUs present and in
    that of the possible ones, however the reads of the two files are cut up and
    interrupted, as long as the files fit the buffer of 64 bytes. *)
Theorem cpulist_roundtrip items1 items2 nl1 nl2 f1 f2 mask :
  Forall item_ok items1 → Forall item_ok items2 → nl1 = [] ∨ nl1 = [NL] → nl2 = [] ∨ nl2 = [NL] →
  only_interrupts f1 → only_interrupts f2 → rest f1 = render items1 ++ nl1 → rest f2 = render items2 ++ nl2 →
  (length (render items1 ++ nl1) ≤ 64)%nat → (length (render items2 ++ nl2) ≤ 64)%nat →
  (∃ mask', cpulist_parse mask (render items1 ++ nl1) = Ok mask' ∧
     ∀ i, 0 <= i → Z.testbit mask' i = Z.testbit mask i || named items1 i) ∧
  get_cpu_count (Some f1) (Some f2) =
    Ok (Z.of_nat (length (filter (λ i, named items1 i && named items2 i = true) (seqZ 0 32)))).
Proof.
  intros Ho1 Ho2 Hn1 Hn2 Hf1 Hf2 Hr1 Hr2 Hl1 Hl2. split; [by apply cpulist_parse_ok|].
  destruct (cpulist_read_ok items1 nl1 f1) as (m1 & E1 & B1); try done.
  destruct (cpulist_read_ok items2 nl2 f2) as (m2 & E2 & B2); try done.
  unfold get_cpu_count. rewrite E1, bind_Ok, E2, bind_Ok. unfold cpulist_count, cpulist_and. do 3 f_equal.
  apply (filter_ext_in (Z.testbit (Z.land m1 m2)) (λ i, named items1 i && named items2 i)).
  intros i [Hi _]%elem_of_seqZ. by rewrite Z.land_spec, B1, B2.
Qed.

Lemma cpulist_roundtrip_witness :
  let items := [(2, None); (4, Some 7); (40, None)] in
  get_cpu_count (Some (OpenFile (render items ++ [NL]) [inl 1%nat; inr EINTR])) (Some (OpenFile (render [(0, Some 5)]) [])) = Ok 3.
Proof.
  set (items := [(2, None); (4, Some 7); (40, None)]).
  destruct (cpulist_roundtrip items [(0, Some 5)] [NL] [] (OpenFile (render items ++ [NL]) [inl 1%nat; inr EINTR])
    (OpenFile (render [(0, Some 5)]) []) 0) as [_ H];
    [repeat constructor; cbn; lia|repeat constructor; cbn; lia|by right|by left| | |done|done|vm_compute; lia|vm_compute; lia|].
  - intros e [He|[He|[]%elem_of_nil]%elem_of_cons]%elem_of_cons; congruence.
  - intros e []%elem_of_nil.
  - etransitivity; [exact H|vm_compute; reflexivity].
Defined.

(** ** Feature flags *)

Lemma test_bit v n : 0 <= n → test v (bit n) = Z.testbit v n.
Proof.
  intros Hn. unfold test, bit. rewrite Z.shiftl_1_l. destruct (Z.testbit v n) eqn:E.
  - apply negb_true_iff, Z.eqb_neq. intros H. assert (Ht : Z.testbit (Z.land v (2 ^ n)) n = true).
    { by rewrite Z.land_spec, E, Z.pow2_bits_true. }
    by rewrite H, Z.testbit_0_l in Ht.
  - apply negb_false_iff, Z.eqb_eq. apply Z.bits_inj_iff'. intros i Hi. rewrite Z.land_spec, Z.testbit_0_l, Z.pow2_bits_eqb by done.
    destruct (Z.eqb_spec n i); [subst|by rewrite andb_false_r]. by rewrite E.
Qed.

Lemma testbit_or_if b m v n : Z.testbit (or_if b m v) n = (b && Z.testbit m n) || Z.testbit v n.
Proof. unfold or_if. destruct b; [|done]. rewrite Z.lor_spec. cbn. apply orb_comm. Qed.

(** What the flags of an ARM processor promise each other (cpu-features.h). *)
Definition arm_consistent (f : Z) : bool :=
  implb (test f VFPv3) (test f VFPv2 && test f ARMv7) &&
  implb (test f NEON) (test f VFPv3 && test f VFP_D32) &&
  implb (test f VFP_D32) (test f NEON) &&
  implb (test f NEON_FMA) (test f NEON && test f VFP_FMA) &&
  implb (test f VFP_FMA) (test f VFPv3 && test f VFP_FP16) && implb (test f VFP_FP16) (test f VFP_FMA).

(** Flags above the eighth do not matter. *)
Definition high_flags (m : Z) : Prop := Forall (λ n, Z.testbit m n = false) [0; 1; 2; 4; 5; 6; 7; 8].

Lemma consistent_bits f g : Forall (λ n, Z.testbit f n = Z.testbit g n) [0; 1; 2; 4; 5; 6; 7; 8] →
  arm_consistent f = arm_consistent g.
Proof.
  rewrite !Forall_cons. intros (H0 & H1 & H2 & H4 & H5 & H6 & H7 & H8 & _). unfold arm_consistent.
  unfold VFPv3, VFPv2, ARMv7, NEON, VFP_D32, NEON_FMA, VFP_FMA, VFP_FP16. rewrite !test_bit by lia. by rewrite H0, H1, H2, H4, H5, H6, H7, H8.
Qed.

Lemma consistent_or_if b m f : high_flags m → arm_consistent (or_if b m f) = arm_consistent f.
Proof.
  intros Hm. apply consistent_bits. eapply Forall_impl; [exact Hm|]. intros n Hn. cbn in *. by rewrite testbit_or_if, Hn, andb_false_r.
Qed.

Ltac high := repeat constructor.

(** The flags before the hardware capabilities: the architecture only. *)
Lemma arm_architecture_flags cpuinfo f : arm_architecture cpuinfo = Ok f →
  ∃ a b, f = or_if a LDREX_STREX (or_if b ARMv7 0).
Proof.
  unfold arm_architecture. intros H. apply bind_inv in H as ([a|] & _ & H); [|injection H as <-; by exists false, false].
  destruct (strtol a) as [n found]. apply bind_inv in H as (b & _ & H). injection H as <-. eauto.
Qed.

Lemma arm_hwcaps_consistent h a b : arm_consistent (arm_hwcaps h (or_if a LDREX_STREX (or_if b ARMv7 0))) = true.
Proof.
  unfold arm_hwcaps. destruct (h =? 0); [by destruct a, b|]. cbv zeta. rewrite !consistent_or_if by high.
  generalize (test h HWCAP_VFP) (test h HWCAP_VFPv3 || test h HWCAP_VFPv3D16) (test h HWCAP_VFPv4) (test h HWCAP_NEON).
  intros b1 b2 b3 b4. by destruct a, b, b1, b2, b3, b4.
Qed.

Lemma arm_hwcaps2_consistent h f : arm_consistent (arm_hwcaps2 h f) = arm_consistent f.
Proof. unfold arm_hwcaps2. destruct (h =? 0); [done|]. by rewrite !consistent_or_if by high. Qed.

Lemma apply_fixes_consistent i f : arm_consistent (apply_fixes i f) = arm_consistent f.
Proof. unfold apply_fixes, cpu_fixes. cbn [foldl fst snd]. by rewrite !consistent_or_if by high. Qed.

Lemma goldfish_consistent h i fam f : arm_consistent (goldfish_fix h i fam f) = arm_consistent f.
Proof. unfold goldfish_fix. destruct h; [|done]. by rewrite consistent_or_if by high. Qed.

Lemma count_bounds n m : get_cpu_count n m = Ok 0 ∨ (∃ k, get_cpu_count n m = Ok k ∧ 1 <= k <= 32) ∨ (∀ k, get_cpu_count n m ≠ Ok k).
Proof.
  destruct (get_cpu_count n m) as [k| |] eqn:E; [|by right; right..]. unfold get_cpu_count in E.
  apply bind_inv in E as (m1 & _ & E). apply bind_inv in E as (m2 & _ & E). injection E as <-. unfold cpulist_count.
  pose proof (length_filter (λ i, Z.testbit (cpulist_and m1 m2) i = true) (seqZ 0 32)) as Hl. rewrite length_seqZ in Hl.
  destruct (filter _ _); [by left|right; left; eexists; split; [done|]; cbn [length] in *; lia].
Qed.

(** the features of an ARM processor. Whatever the files and the hardware
    capabilities say (they are known to be inconsistent), the flags found keep
    the promises of cpu-features.h: VFPv3 comes with VFPv2 and ARMv7, NEON with
    VFPv3 and the 32 registers, and vice versa, NEON_FMA with NEON and VFP_FMA,
    VFP_FMA with VFP_FP16 and VFPv3; the number of CPUs is between 1 and 32. The
    special case for the emulator tests the family of the processor where it
    means the features: IDIV_ARM is set whether or not ARMv7 is. *)
Theorem arm_features_consistent s c c' :
  android_cpuInit ANDROID_CPU_FAMILY_ARM s c = Ok c' →
  (arm_consistent (g_cpuFeatures c') = true ∧ 1 <= g_cpuCount c' <= 32 ∧ g_inited c' = true) ∧
  (∀ f, goldfish_fix (Some (bytes "Goldfish")) 0x4100c080 ANDROID_CPU_FAMILY_ARM f = Z.lor f IDIV_ARM).
Proof.
  intros H. split; [|done]. unfold android_cpuInit in H. apply bind_inv in H as (len & _ & H).
  destruct (len <? 0); [by injection H as <-|]. destruct (malloc_ok s); [|by injection H as <-]. cbn [negb] in H.
  apply bind_inv in H as (r & _ & H). destruct (r.1 <? 0); [by injection H as <-|]. apply bind_inv in H as (n & Hn & H).
  rewrite Z.eqb_refl in H. cbv zeta in H. unfold arm_init in H.
  apply bind_inv in H as (f & Hf & H). apply bind_inv in H as (hw & _ & H). apply bind_inv in H as (i & _ & H).
  apply bind_inv in H as (hardware & _ & H). injection H as <-. cbn [g_cpuFeatures g_cpuCount g_inited].
  destruct (arm_architecture_flags _ _ Hf) as (a & b & ->). split_and!; [| | |done].
  - rewrite goldfish_consistent, apply_fixes_consistent, arm_hwcaps2_consistent, Z.lor_0_l. apply arm_hwcaps_consistent.
  - destruct (count_bounds (present s) (possible s)) as [E|[(k & E & Hk)|E]]; rewrite Hn in *; simplify_eq; [done| |by edestruct E].
    destruct (Z.eqb_spec k 0); lia.
  - destruct (count_bounds (present s) (possible s)) as [E|[(k & E & Hk)|E]]; rewrite Hn in *; simplify_eq; [done| |by edestruct E].
    destruct (Z.eqb_spec k 0); lia.
Qed.

Lemma arm_features_consistent_witness :
  let f l := Some (OpenFile l []) in
  let s := System (f (bytes "CPU architecture: 7")) (f (bytes "CPU architecture: 7")) true (f (bytes "0-3")) (f (bytes "0-3")) (λ _, bit 12) [] (λ _, (0, 0, 0)) in
  ∃ c', android_cpuInit ANDROID_CPU_FAMILY_ARM s (Cpu false false 0 0 0 0) = Ok c' ∧ arm_consistent (g_cpuFeatures c') = true ∧ g_cpuCount c' = 4.
Proof.
  intros f s. set (c' := Cpu false true 1 63 4 0).
  assert (H : android_cpuInit ANDROID_CPU_FAMILY_ARM s (Cpu false false 0 0 0 0) = Ok c') by (vm_compute; reflexivity).
  exists c'. split; [exact H|]. split; [apply (arm_features_consistent s _ c' H)|reflexivity].
Defined.

(** ** The fields and their items *)

Lemma first_from_spec test p n q : p <= q < p + Z.of_nat n → test q = true →
  ∃ p', first_from test p n = Some p' ∧ p <= p' <= q ∧ test p' = true.
Proof.
  revert p. induction n as [|n IH]; intros p Hq Ht; [lia|]. cbn [first_from]. destruct (test p) eqn:E; [exists p; split_and!; done || lia|].
  destruct (Z.eq_dec p q) as [->|]; [congruence|]. destruct (IH (p + 1)) as (p' & H1 & H2 & H3); [lia|done|]. exists p'. split_and!; done || lia.
Qed.

Lemma span (t : Z → bool) l : ∃ a b, l = a ++ b ∧ Forall (λ c, t c = true) a ∧ (b = [] ∨ ∃ c b', b = c :: b' ∧ t c = false).
Proof.
  induction l as [|c l (a & b & -> & Ha & Hb)]; [exists [], []; split_and!; [done|constructor|by left]|].
  destruct (t c) eqn:E; [exists (c :: a), b; split_and!; [done|by constructor|done]|].
  exists [], (c :: a ++ b). split_and!; [done|constructor|right; eauto].
Qed.

(** A loop that goes on while the character satisfies [t]. *)
Lemma scan_loop (body : list Z → Z → res (Z + Z)) (t : Z → bool) pre a c b fuel :
  (∀ l p, body l p = x ← rd l p; if t x then Ok (inl (p + 1)) else Ok (inr p)) →
  Forall (λ x, t x = true) a → t c = false → (length a < fuel)%nat →
  loop fuel (body (pre ++ a ++ c :: b)) (Z.of_nat (length pre)) = Ok (Z.of_nat (length pre + length a)).
Proof.
  intros Hb Ha Hc. revert pre fuel. induction Ha as [|x a Hx Ha IH]; intros pre fuel Hf; (destruct fuel as [|fuel]; [lia|]).
  - apply loop_exit. rewrite Hb. cbn [app]. rewrite rd_app_mid by done. rewrite bind_Ok, Hc. cbn [length]. by rewrite Nat.add_0_r.
  - rewrite (loop_unfold _ _ _ (Z.of_nat (length (pre ++ [x])))).
    + specialize (IH (pre ++ [x]) fuel). rewrite <- app_assoc in IH. rewrite length_app in *. cbn [length app] in *.
      rewrite IH by lia. do 2 f_equal. lia.
    + rewrite Hb. cbn [app]. rewrite rd_app_mid by done. rewrite bind_Ok, Hx, length_app. cbn [length]. do 2 f_equal. lia.
Qed.

(** The items of a list: the longest runs without blanks. *)
Definition flush (w : list Z) : list (list Z) := match w with [] => [] | _ => [w] end.
Fixpoint words (l w : list Z) : list (list Z) :=
  match l with [] => flush w | c :: l => if blank c then flush w ++ words l [] else words l (w ++ [c]) end.

Lemma words_run a b w : Forall (λ c, negb (c =? 0) && negb (blank c) = true) a → (b = [] ∨ ∃ c b', b = c :: b' ∧ blank c = true) →
  words (a ++ b) w = flush (w ++ a) ++ words b [].
Proof.
  intros Ha Hb. revert w. induction Ha as [|c a Hc Ha IH]; intros w; cbn [app words].
  - rewrite app_nil_r. destruct Hb as [->|(c & b' & -> & Hc)]; cbn [words]; [by rewrite app_nil_r|]. by rewrite Hc.
  - apply andb_true_iff in Hc as [_ Hc]. apply negb_true_iff in Hc. rewrite Hc, IH. by rewrite <- app_assoc.
Qed.

Lemma words_blanks a b : Forall (λ c, blank c = true) a → words (a ++ b) [] = words b [].
Proof. induction 1 as [|c a Hc _ IH]; [done|]. cbn [app words]. by rewrite Hc. Qed.

Definition word_char (c : Z) : bool := negb (c =? 0) && negb (blank c).

(** One round: the blanks, then the word. *)
Lemma list_round item pre a w b : item ≠ [] → 0 ∉ a ++ w ++ b → a ++ w ≠ [] →
  Forall (λ c, blank c = true) a → Forall (λ c, word_char c = true) w → (b = [] ∨ ∃ c b', b = c :: b' ∧ blank c = true) →
  (w = [] → b = []) →
  list_body (pre ++ (a ++ w ++ b) ++ [0]) item (Z.of_nat (length pre)) =
  Ok (if bool_decide (w = item) then inr true else inl (Z.of_nat (length (pre ++ a ++ w)))).
Proof.
  intros Hi H0 Hne Ha Hw Hb Hwb. set (L := pre ++ (a ++ w ++ b) ++ [0]). unfold list_body.
  assert (Hhd : ∃ c l, (a ++ w ++ b) ++ [0] = c :: l ∧ c ≠ 0).
  { rewrite app_assoc in *. destruct (a ++ w) as [|c l]; [done|]. exists c, ((l ++ b) ++ [0]). split; [done|]. intros ->. apply H0. by left. }
  destruct Hhd as (c & l & Hc & Hc0).
  assert (Hrd : rd L (Z.of_nat (length pre)) = Ok c) by (unfold L; rewrite Hc; by apply rd_app_mid).
  rewrite Hrd, bind_Ok, (proj2 (Z.eqb_neq c 0)) by done.
  assert (Hskip : loop (S (length L)) (skip_body L) (Z.of_nat (length pre)) = Ok (Z.of_nat (length pre + length a))).
  { assert (Hx : ∃ c1 l1, (w ++ b) ++ [0] = c1 :: l1 ∧ blank c1 = false).
    { destruct w as [|x w]; [rewrite Hwb by done; by exists 0, []|]. inversion Hw as [|? ? Hx _]; subst.
      apply andb_true_iff in Hx as [_ Hx]. apply negb_true_iff in Hx. by eexists x, _. }
    destruct Hx as (c1 & l1 & Hx & Hc1). unfold L. rewrite <- (app_assoc a (w ++ b) [0]), Hx.
    apply (scan_loop skip_body blank); [done|done|done|]. rewrite !length_app. lia. }
  assert (Hend : loop (S (length L)) (end_body L) (Z.of_nat (length pre + length a)) = Ok (Z.of_nat (length pre + length a + length w))).
  { assert (Hx : ∃ c1 l1, b ++ [0] = c1 :: l1 ∧ word_char c1 = false).
    { destruct Hb as [->|(x & b' & -> & Hx)]; [by exists 0, []|]. eexists x, _. split; [reflexivity|]. unfold word_char. by rewrite Hx, andb_false_r. }
    destruct Hx as (c1 & l1 & Hx & Hc1). assert (HL : L = (pre ++ a) ++ w ++ c1 :: l1) by (unfold L; rewrite <- !app_assoc, Hx; done).
    rewrite HL, <- length_app. apply (scan_loop end_body word_char); [done|done|done|]. rewrite !length_app. lia. }
  rewrite Hskip, bind_Ok, Hend, bind_Ok.
  assert (Hz : zslice L (Z.of_nat (length pre + length a)) (Z.of_nat (length pre + length a + length w)) = w).
  { assert (HL : L = (pre ++ a) ++ w ++ (b ++ [0])) by (unfold L; by rewrite <- !app_assoc). rewrite HL.
    apply zslice_window; rewrite ?length_app; lia. }
  rewrite Hz. case_bool_decide as Hwi.
  - subst w. by destruct (Z.eqb_spec (Z.of_nat (length item)) (Z.of_nat (length pre + length a + length item) - Z.of_nat (length pre + length a))); [|lia].
  - rewrite andb_false_r. do 2 f_equal. rewrite !length_app. lia.
Qed.

Lemma has_list_item_ok l item : item ≠ [] → 0 ∉ l →
  has_list_item (l ++ [0]) item = Ok (bool_decide (item ∈ words l [])).
Proof.
  intros Hi Hl0. unfold has_list_item.
  cut (∀ n l pre fuel, (length l ≤ n)%nat → 0 ∉ l → (length l < fuel)%nat →
    loop fuel (list_body (pre ++ l ++ [0]) item) (Z.of_nat (length pre)) = Ok (bool_decide (item ∈ words l []))).
  { intros Hc. apply (Hc (length l) l []); [lia|done|rewrite length_app; lia]. }
  clear l Hl0. induction n as [|n IH]; intros l pre fuel Hn Hl0 Hf; (destruct fuel as [|fuel]; [lia|]).
  { destruct l; [|cbn in Hn; lia]. apply loop_exit. unfold list_body. cbn [app]. rewrite rd_app_mid by done.
    rewrite bool_decide_false; [done|]. cbn. apply not_elem_of_nil. }
  destruct (span blank l) as (a & r & -> & Ha & Hr).
  destruct (span word_char r) as (w & b & -> & Hw & Hb).
  assert (Hb' : b = [] ∨ ∃ c b', b = c :: b' ∧ blank c = true).
  { destruct Hb as [?|(c & b' & -> & Hc)]; [by left|right]. exists c, b'. split; [done|]. unfold word_char in Hc.
    destruct (Z.eqb_spec c 0) as [->|]; [|by destruct (blank c)]. exfalso. apply Hl0. rewrite !elem_of_app. right; right. by left. }
  assert (Hwb : w = [] → b = []).
  { intros ->. destruct Hr as [Hr|(c & b1 & Hr & Hc)]; [by destruct b|]. cbn in Hr. destruct Hb' as [?|(c' & b' & ? & Hc')]; [done|]. congruence. }
  destruct (decide (a ++ w = [])) as [Hnil|Hne].
  { apply app_eq_nil in Hnil as [-> ->]. rewrite Hwb by done. apply loop_exit. unfold list_body. cbn [app]. rewrite rd_app_mid by done.
    rewrite bool_decide_false; [done|]. cbn. apply not_elem_of_nil. }
  pose proof (list_round item pre a w b Hi Hl0 Hne Ha Hw Hb' Hwb) as Hround.
  rewrite (words_blanks a (w ++ b) Ha), (words_run w b [] Hw Hb'). cbn [app].
  case_bool_decide as Hwi.
  - rewrite (loop_exit _ _ _ _ Hround). rewrite bool_decide_true; [done|]. apply elem_of_app. left. subst w. destruct item; [done|]. by left.
  - rewrite (loop_unfold _ _ _ _ Hround). specialize (IH b (pre ++ a ++ w) fuel).
    assert (Hl : pre ++ (a ++ w ++ b) ++ [0] = (pre ++ a ++ w) ++ b ++ [0]) by (by rewrite <- !app_assoc).
    rewrite Hl, IH; [|..].
    + f_equal. apply bool_decide_ext. rewrite elem_of_app. split; [tauto|]. intros [H|H]; [|done]. destruct w; [by apply elem_of_nil in H|].
      apply list_elem_of_singleton in H. congruence.
    + rewrite !length_app in *. destruct a, w; cbn [length app] in *; done || lia.
    + intros H. apply Hl0. rewrite !elem_of_app. tauto.
    + rewrite !length_app in *. destruct a, w; cbn [length app] in *; done || lia.
Qed.

(** The occurrences of a field. *)
Lemma occurs_app before field r : occurs (before ++ field ++ r) field (Z.of_nat (length before)) = true.
Proof. unfold occurs. rewrite zslice_window by done. by apply bool_decide_true. Qed.

Lemma occurs_char buf field p i c : occurs buf field p = true → 0 <= p → p <= i < p + Z.of_nat (length field) →
  buf !! Z.to_nat i = Some c → c ∈ field.
Proof.
  unfold occurs. intros H%bool_decide_eq_true_1 Hp Hi Hc. rewrite <- H. unfold zslice.
  apply (list_elem_of_lookup_2 _ (Z.to_nat (i - p))). rewrite lookup_take_lt by lia. rewrite lookup_drop.
  by replace (Z.to_nat p + Z.to_nat (i - p))%nat with (Z.to_nat i) by lia.
Qed.

(** A position at which a line starts. *)
Definition line_start (buf : list Z) (p : Z) : Prop := p = 0 ∨ rd buf (p - 1) = Ok NL.

Lemma rd_inside (buf : list Z) p : 0 <= p < Z.of_nat (length buf) → ∃ c, rd buf p = Ok c ∧ buf !! Z.to_nat p = Some c.
Proof.
  intros Hp. destruct (lookup_lt_is_Some_2 buf (Z.to_nat p)) as [c Hc]; [lia|]. exists c. split; [|done]. by apply rd_lookup; [lia|].
Qed.

(** The search finds the first occurrence that starts a line. *)
Lemma field_loop before field r : field ≠ [] → NL ∉ field → before = [] ∨ (∃ b, before = b ++ [NL]) →
  let buf := before ++ field ++ r in
  (∀ p, 0 <= p < Z.of_nat (length before) → occurs buf field p = true → ¬ line_start buf p) →
  ∀ fuel p, 0 <= p <= Z.of_nat (length before) → Z.of_nat (length before) - p < Z.of_nat fuel →
  loop fuel (field_body buf field) p = Ok (Some (Z.of_nat (length before))).
Proof.
  intros Hf Hnl Hb buf Hno. induction fuel as [|fuel IH]; intros p Hp Hfu; [lia|].
  assert (Hlen : (1 ≤ length field)%nat) by (destruct field; cbn; done || lia).
  assert (Hbuf : Z.of_nat (length buf) = Z.of_nat (length before) + Z.of_nat (length field) + Z.of_nat (length r)) by (unfold buf; rewrite !length_app; lia).
  destruct (first_from_spec (occurs buf field) p (Z.to_nat (Z.of_nat (length buf) - p - Z.of_nat (length field) + 1)) (Z.of_nat (length before)))
    as (p' & Hm & Hp' & Ho); [lia|apply occurs_app|].
  assert (Hbody : field_body buf field p = (c ← (if p' =? 0 then Ok NL else rd buf (p' - 1));
    if (p' =? 0) || (c =? NL) then Ok (inr (Some p')) else Ok (inl (p' + Z.of_nat (length field))))) by (unfold field_body, memmem; by rewrite Hm).
  destruct (Z.eq_dec p' (Z.of_nat (length before))) as [->|Hne].
  - apply loop_exit. rewrite Hbody. destruct Hb as [->|(b & ->)]; [done|].
    destruct (Z.eqb_spec (Z.of_nat (length (b ++ [NL]))) 0) as [E|_]; [rewrite length_app in E; cbn in E; lia|].
    assert (Hrd : rd buf (Z.of_nat (length (b ++ [NL])) - 1) = Ok NL).
    { unfold buf. rewrite <- app_assoc. cbn [app]. apply rd_app_mid. rewrite length_app. cbn [length]. lia. }
    by rewrite Hrd.
  - assert (Hns : ¬ line_start buf p') by (apply Hno; [lia|done]). unfold line_start in Hns.
    destruct (rd_inside buf (p' - 1)) as (c & Hrd & _); [destruct (Z.eq_dec p' 0); [tauto|lia]|].
    assert (Hstep : field_body buf field p = Ok (inl (p' + Z.of_nat (length field)))).
    { rewrite Hbody. destruct (Z.eqb_spec p' 0); [tauto|]. rewrite Hrd, bind_Ok.
      destruct (Z.eqb_spec c NL) as [->|]; [|done]. rewrite Hrd in Hns. tauto. }
    rewrite (loop_unfold _ _ _ _ Hstep). apply IH; [|lia]. split; [lia|].
    destruct (Z.le_gt_cases (p' + Z.of_nat (length field)) (Z.of_nat (length before))) as [|Hgt]; [done|exfalso].
    destruct Hb as [Hb|(b & Hb)]; [rewrite Hb in *; cbn in *; lia|]. apply Hnl.
    apply (occurs_char buf field p' (Z.of_nat (length b)) NL Ho); [lia|rewrite Hb, length_app in *; cbn [length] in *; lia|].
    unfold buf. rewrite Nat2Z.id, Hb, <- app_assoc. by apply list_lookup_middle.
Qed.

Lemma memchr_none l p : COLON ∉ l → memchr_from l COLON p = None.
Proof. intros H. rewrite <- (app_nil_r l), memchr_from_app by done. done. Qed.

(** C38: the fields of /proc/cpuinfo. When a line starts with the field's name
    (and no earlier line does), the text after the first colon and space up to
    the end of that line is extracted, whatever stands elsewhere in the file;
    the test of a feature answers whether it is one of the words of the text.
    When the colon is the last byte of the file, the byte after it is read. *)
Theorem cpuinfo_field_spec before field gap value after item :
  field ≠ [] → NL ∉ field → before = [] ∨ (∃ b, before = b ++ [NL]) → COLON ∉ gap → NL ∉ value → after = [] ∨ (∃ r, after = NL :: r) →
  let buf := before ++ field ++ gap ++ COLON :: SPACE :: value ++ after in
  (∀ p, 0 <= p < Z.of_nat (length before) → occurs buf field p = true → ¬ line_start buf p) →
  extract_cpuinfo_field buf field = Ok (Some value) ∧
  (0 ∉ value → item ≠ [] → has_list_item (value ++ [0]) item = Ok (bool_decide (item ∈ words value []))) ∧
  extract_cpuinfo_field (field ++ gap ++ [COLON]) field = UB.
Proof.
  intros Hf Hnl Hb Hgap Hval Haf buf Hno. split_and!.
  - unfold extract_cpuinfo_field.
    assert (Hlo : loop (S (length buf)) (field_body buf field) 0 = Ok (Some (Z.of_nat (length before)))).
    { apply (field_loop before field (gap ++ COLON :: SPACE :: value ++ after) Hf Hnl Hb Hno); [lia|unfold buf; rewrite !length_app; lia]. }
    rewrite Hlo, bind_Ok. set (p1 := Z.of_nat (length before) + Z.of_nat (length field)).
    assert (Hb1 : buf = (before ++ field) ++ gap ++ COLON :: SPACE :: value ++ after) by (unfold buf; by rewrite <- !app_assoc).
    assert (Hp1 : p1 = Z.of_nat (length (before ++ field))) by (rewrite length_app; unfold p1; lia).
    rewrite Hb1 at 1 2. rewrite Hp1, memchr_app, memchr_from_app by done. cbn [memchr_from]. rewrite Z.eqb_refl.
    set (p2 := Z.of_nat (length (before ++ field)) + Z.of_nat (length gap)).
    assert (Hb2 : buf = ((before ++ field) ++ gap ++ [COLON]) ++ SPACE :: value ++ after) by (rewrite Hb1, <- !app_assoc; done).
    assert (Hrd : rd buf (p2 + 1) = Ok SPACE) by (rewrite Hb2; apply rd_app_mid; rewrite !length_app; unfold p2; rewrite length_app; cbn [length]; lia).
    rewrite Hrd, bind_Ok. change (negb (SPACE =? SPACE)) with false. cbv iota. set (pre := (before ++ field) ++ gap ++ [COLON; SPACE]).
    assert (Hb3 : buf = pre ++ value ++ after) by (unfold pre; rewrite Hb1, <- !app_assoc; done).
    assert (Hp3 : p2 + 2 = Z.of_nat (length pre)) by (unfold pre, p2; rewrite !length_app; cbn [length]; lia).
    rewrite Hp3. do 2 f_equal.
    assert (Hq : default (Z.of_nat (length buf)) (memchr buf (Z.of_nat (length pre)) NL (Z.of_nat (length buf))) = Z.of_nat (length pre) + Z.of_nat (length value)).
    { rewrite Hb3, memchr_app, memchr_from_app by done. destruct Haf as [->|(r & ->)].
      - cbn [memchr_from default]. rewrite app_nil_r, length_app. lia.
      - cbn [memchr_from]. rewrite Z.eqb_refl. done. }
    rewrite Hq, Hb3. apply zslice_window; lia.
  - intros H0 Hi. by apply has_list_item_ok.
  - unfold extract_cpuinfo_field. set (b := field ++ gap ++ [COLON]).
    pose proof (field_loop [] field (gap ++ [COLON]) Hf Hnl ltac:(by left)) as Hlo. cbn [app length] in Hlo. fold b in Hlo.
    rewrite Hlo; [|intros p ?; lia|lia|lia]. rewrite bind_Ok. change (Z.of_nat 0 + Z.of_nat (length field)) with (Z.of_nat (length field)).
    unfold b. rewrite memchr_app, memchr_from_app by done. cbn [memchr_from]. rewrite Z.eqb_refl. unfold rd.
    destruct (Z.ltb_spec (Z.of_nat (length field) + Z.of_nat (length gap) + 1) 0); [done|].
    rewrite lookup_ge_None_2; [done|]. rewrite !length_app. cbn [length]. lia.
Qed.

Lemma cpuinfo_field_spec_witness :
  let buf := bytes "Processor: v7" ++ [NL] ++ bytes "Features: vfp neon" ++ [NL] in
  extract_cpuinfo_field buf (bytes "Features") = Ok (Some (bytes "vfp neon")) ∧
  has_list_item (bytes "vfp neon" ++ [0]) (bytes "neon") = Ok true.
Proof.
  destruct (cpuinfo_field_spec (bytes "Processor: v7" ++ [NL]) (bytes "Features") [] (bytes "vfp neon") [NL] (bytes "neon")) as (H1 & H2 & _);
    [done|by_decision|right; by eexists|by_decision|by_decision|right; by eexists| |].
  - intros p Hp Ho. exfalso. cbn in Hp.
    assert (Hall : forall_below 14 (λ p, negb (occurs ((bytes "Processor: v7" ++ [NL]) ++ bytes "Features" ++ [] ++ COLON :: SPACE :: bytes "vfp neon" ++ [NL]) (bytes "Features") p)) = true)
      by (vm_compute; reflexivity).
    pose proof (forall_below_spec _ _ Hall p ltac:(lia)) as Hp2. cbn beta in Hp2. by rewrite Ho in Hp2.
  - split; [exact H1|]. rewrite H2; [vm_compute; reflexivity|by_decision|done].
Defined.
