(* ===== verification/Loader.v ===== *)
(** The library loader (src/libuzi/library.c) over the dynamic loader of the
    system, and the probe of getauxval in src/libuzi/cpu-features.c.

    The dynamic loader (dlfcn.h) is an interface, with the laws that POSIX
    states for its reference counts. *)

From stdpp Require Import list gmap strings.
From S2P Require Import Prelude CpuFeatures.

Set Warnings "-clear-no-such-hyp".

(** ** dlfcn.h *)

(** Handles and addresses are numbers, 0 the null pointer; [openings d h]: how
    many times [h] is open. *)
Class DynamicLoader (D : Type) := {
  dlopen : option (list Z) → Z → D → Z * D;
  dlsym : Z → list Z → D → Z;
  dlclose : Z → D → Z * D;
  openings : D → Z → nat }.

(** Opening counts, or answers null and changes no count; closing an open
    handle succeeds and counts down, closing any other fails; the symbols of a
    handle stay the same as long as it is open. *)
Class DynamicLoaderLaws (D : Type) `{DynamicLoader D} := {
  dlopen_counts name flags (d : D) h :
    openings (dlopen name flags d).2 h =
      (openings d h + if decide (h = (dlopen name flags d).1 ∧ h ≠ 0%Z) then 1 else 0)%nat;
  dlclose_fails h (d : D) : openings d h = 0%nat → (dlclose h d).1 ≠ 0 ∧ ∀ h', openings (dlclose h d).2 h' = openings d h';
  dlclose_counts h (d : D) : (0 < openings d h)%nat →
    (dlclose h d).1 = 0 ∧ ∀ h', openings (dlclose h d).2 h' = (openings d h' - if decide (h' = h) then 1 else 0)%nat;
  dlopen_symbols name flags (d : D) h s : (0 < openings d h)%nat → dlsym h s (dlopen name flags d).2 = dlsym h s d;
  dlclose_symbols h (d : D) h' s : (0 < openings (dlclose h d).2 h')%nat → dlsym h' s (dlclose h d).2 = dlsym h' s d;
  null_closed (d : D) : openings d 0 = 0%nat }.

Definition RTLD_LOCAL := 0.
Definition RTLD_LAZY := 1.
Definition RTLD_NOW := 2.

(** ** library.c *)

Section Library.
Context {D : Type} `{DynamicLoader D}.

Definition LoadLibraryA (lpLibFileName : option (list Z)) (d : D) : Z * D :=
  let '(library, d) := dlopen lpLibFileName (Z.lor RTLD_LOCAL RTLD_LAZY) d in
  if library =? 0 then (0, d) else (library, d).

Definition GetProcAddress (hModule : Z) (lpProcName : list Z) (d : D) : Z := dlsym hModule lpProcName d.

Definition FreeLibrary (hLibModule : Z) (d : D) : bool * D :=
  let '(status, d) := dlclose hLibModule d in
  if negb (status =? 0) then (false, d) else (true, d).

(** ** The C library's getauxval *)

(** [call f x]: what the function at address [f] answers to [x], an
    [unsigned long] of [long_bits] bits. *)
Definition get_elf_hwcap_from_getauxval (long_bits : Z) (call : Z → Z → Z) (hwcap_type : Z) (d : D) : Z * D :=
  let '(libc_handle, d) := dlopen (Some (bytes "libc.so")) RTLD_NOW d in
  if libc_handle =? 0 then (0, d)
  else
    let func := dlsym libc_handle (bytes "getauxval") d in
    let ret := if func =? 0 then 0 else u32 (call func (wrap long_bits hwcap_type)) in
    (ret, (dlclose libc_handle d).2).
End Library.

(** LoadLibraryA for the Universal Windows Platform: [ConvertToUnicode]
    answers a status and, when it is positive, a name that is freed at the
    end. *)
Definition LoadLibraryA_uwp (ConvertToUnicode : list Z → Z * list Z) (LoadPackagedLibrary : list Z → Z)
    (lpLibFileName : option (list Z)) : Z :=
  match lpLibFileName with
  | None => 0
  | Some name => let '(status, filenameW) := ConvertToUnicode name in if status <? 1 then 0 else LoadPackagedLibrary filenameW
  end.

(** ** Modules as reference counts *)

(** The calls a program makes, and what they answer. *)
Inductive module_call : Type :=
  | Load (name : option (list Z))
  | Free (h : Z)
  | Proc (h : Z) (name : list Z)
  | Hwcap (hwcap_type : Z).

Inductive module_answer : Type :=
  | Loaded (h : Z)
  | Freed (ok : bool)
  | Address (a : Z)
  | Caps (z : Z).

Section Calls.
Context {D : Type} `{DynamicLoader D} (long_bits : Z) (call : Z → Z → Z).

Definition module_step (d : D) (c : module_call) : module_answer * D :=
  match c with
  | Load name => let '(h, d) := LoadLibraryA name d in (Loaded h, d)
  | Free h => let '(ok, d) := FreeLibrary h d in (Freed ok, d)
  | Proc h name => (Address (GetProcAddress h name d), d)
  | Hwcap t => let '(z, d) := get_elf_hwcap_from_getauxval long_bits call t d in (Caps z, d)
  end.

Fixpoint module_run (d : D) (cs : list module_call) : list module_answer * D :=
  match cs with
  | [] => ([], d)
  | c :: cs => let '(a, d) := module_step d c in let '(l, d) := module_run d cs in (a :: l, d)
  end.
End Calls.

(** The specification: a count for each module, its symbols fixed while it is
    loaded. *)
Record modules := Modules { count : Z → nat; symbols : Z → list Z → Z }.

Definition syms_kept (m : modules) (syms : Z → list Z → Z) : Prop := ∀ h s, (0 < count m h)%nat → syms h s = symbols m h s.

Section Spec.
Context (long_bits : Z) (call : Z → Z → Z).

(** The answer of the probe: 0, or what a function answers, cut to 32 bits. *)
Definition probe_answer (t z : Z) : Prop := z = 0 ∨ ∃ f, f ≠ 0 ∧ z = u32 (call f (wrap long_bits t)).

Inductive modules_step : modules → module_call → module_answer → modules → Prop :=
  | step_load m name h syms : h ≠ 0 → syms_kept m syms →
      modules_step m (Load name) (Loaded h) (Modules (λ h', (count m h' + if decide (h' = h) then 1 else 0)%nat) syms)
  | step_load_fails m name syms : syms_kept m syms → modules_step m (Load name) (Loaded 0) (Modules (count m) syms)
  | step_free m h syms : let count' h' := (count m h' - if decide (h' = h) then 1 else 0)%nat in
      (0 < count m h)%nat → syms_kept (Modules count' (symbols m)) syms →
      modules_step m (Free h) (Freed true) (Modules count' syms)
  | step_free_fails m h syms : count m h = 0%nat → syms_kept m syms →
      modules_step m (Free h) (Freed false) (Modules (count m) syms)
  | step_proc m h s : modules_step m (Proc h s) (Address (symbols m h s)) m
  | step_hwcap m t z syms : probe_answer t z → syms_kept m syms →
      modules_step m (Hwcap t) (Caps z) (Modules (count m) syms).

Inductive modules_run : modules → list module_call → list module_answer → modules → Prop :=
  | run_nil m : modules_run m [] [] m
  | run_cons m c a m' cs l m'' : modules_step m c a m' → modules_run m' cs l m'' → modules_run m (c :: cs) (a :: l) m''.
End Spec.

(** ** The refinement *)

Section Refinement.
Context {D : Type} `{DynamicLoaderLaws D} (long_bits : Z) (call : Z → Z → Z).

Definition stands_for (d : D) (m : modules) : Prop :=
  (∀ h, openings d h = count m h) ∧ (∀ h s, dlsym h s d = symbols m h s).

Definition now (d : D) (count : Z → nat) : modules := Modules count (λ h s, dlsym h s d).

Lemma now_stands d f : (∀ h, openings d h = f h) → stands_for d (now d f).
Proof. by split. Qed.

Lemma load_refines name d m : stands_for d m →
  let r := LoadLibraryA name d in ∃ m', modules_step long_bits call m (Load name) (Loaded r.1) m' ∧ stands_for r.2 m'.
Proof.
  intros [Hc Hs]. unfold LoadLibraryA. pose proof (dlopen_counts name (Z.lor RTLD_LOCAL RTLD_LAZY) d) as Hn.
  pose proof (dlopen_symbols name (Z.lor RTLD_LOCAL RTLD_LAZY) d) as Hk. destruct (dlopen _ _ d) as [h d']. cbn [fst snd] in *.
  assert (Hkept : syms_kept m (λ h s, dlsym h s d')) by (intros h' s; rewrite <- Hc, <- Hs; apply Hk).
  destruct (Z.eqb_spec h 0) as [->|Hh]; cbn [fst snd].
  - exists (now d' (count m)). split; [by constructor|]. apply now_stands. intros h. rewrite Hn, Hc. case_decide; [lia|]. apply Nat.add_0_r.
  - eexists (now d' _). split; [by constructor|]. apply now_stands. intros h'. rewrite Hn, Hc. by repeat case_decide; subst; naive_solver.
Qed.

Lemma free_refines h d m : stands_for d m →
  let r := FreeLibrary h d in ∃ m', modules_step long_bits call m (Free h) (Freed r.1) m' ∧ stands_for r.2 m'.
Proof.
  intros [Hc Hs]. unfold FreeLibrary. pose proof (dlclose_fails h d) as Hf. pose proof (dlclose_counts h d) as Hn.
  pose proof (dlclose_symbols h d) as Hk. destruct (dlclose h d) as [status d']. cbn [fst snd] in *. rewrite !Hc in *.
  destruct (decide (count m h = 0%nat)) as [E|E].
  - destruct (Hf E) as [Hst Hsame]. rewrite (proj2 (Z.eqb_neq _ _) Hst). cbn. exists (now d' (count m)). split.
    + constructor; [done|]. intros h' s Hpos. cbn. rewrite <- Hs. apply Hk. by rewrite Hsame, Hc.
    + apply now_stands. intros h'. by rewrite Hsame.
  - destruct Hn as [-> Hless]; [lia|]. cbn. eexists (now d' _). split.
    + constructor; [lia|]. intros h' s Hpos. cbn. rewrite <- Hs. apply Hk. rewrite Hless, Hc. exact Hpos.
    + apply now_stands. intros h'. by rewrite Hless, Hc.
Qed.

(** The probe closes what it opened. *)
Lemma hwcap_refines t d m : stands_for d m → let r := get_elf_hwcap_from_getauxval long_bits call t d in
  ∃ m', modules_step long_bits call m (Hwcap t) (Caps r.1) m' ∧ stands_for r.2 m'.
Proof.
  intros [Hc Hs]. unfold get_elf_hwcap_from_getauxval. pose proof (dlopen_counts (Some (bytes "libc.so")) RTLD_NOW d) as Hn.
  pose proof (dlopen_symbols (Some (bytes "libc.so")) RTLD_NOW d) as Hk. destruct (dlopen _ _ d) as [h d']. cbn [fst snd] in *.
  destruct (Z.eqb_spec h 0) as [->|Hh]; cbn [fst snd].
  - exists (now d' (count m)). split.
    + constructor; [by left|]. intros h s. rewrite <- Hc, <- Hs. apply Hk.
    + apply now_stands. intros h. rewrite Hn, Hc. case_decide; [lia|]. apply Nat.add_0_r.
  - assert (Hpos : (0 < openings d' h)%nat) by (rewrite Hn, decide_True by done; lia).
    destruct (dlclose_counts h d' Hpos) as [_ Hless]. assert (Hsame : ∀ h', openings (dlclose h d').2 h' = count m h').
    { intros h'. rewrite Hless, Hn, Hc. repeat case_decide; naive_solver lia. }
    exists (now (dlclose h d').2 (count m)). split; [|by apply now_stands]. constructor.
    + destruct (Z.eqb_spec (dlsym h (bytes "getauxval") d') 0); [by left|right; by eexists].
    + intros h' s Hpos'. cbn. rewrite <- Hs, <- Hk by (by rewrite Hc). apply dlclose_symbols. by rewrite Hsame.
Qed.

(** C27: modules. Whatever calls a program makes, what it is answered is what
    modules with reference counts answer: loading counts the handle that is
    returned, freeing answers TRUE exactly when the handle is loaded and
    counts down, addresses stay the same while their module is loaded, and
    the probe of getauxval leaves every count as it was and answers 0 or 32
    bits of what the C library says. *)
Theorem modules_refine cs d m : stands_for d m →
  let r := module_run long_bits call d cs in
  ∃ m', modules_run long_bits call m cs r.1 m' ∧ stands_for r.2 m'.
Proof.
  revert d m. induction cs as [|c cs IH]; intros d m Hd; cbn; [exists m; by split; [constructor|]|].
  assert (Hstep : ∃ m1, modules_step long_bits call m c (module_step long_bits call d c).1 m1 ∧
    stands_for (module_step long_bits call d c).2 m1).
  { destruct c as [name|h|h name|t]; cbn.
    - pose proof (load_refines name d m Hd) as Hl. by destruct (LoadLibraryA name d).
    - pose proof (free_refines h d m Hd) as Hl. by destruct (FreeLibrary h d).
    - exists m. split; [|done]. unfold GetProcAddress. rewrite (proj2 Hd). constructor.
    - pose proof (hwcap_refines t d m Hd) as Hl. by destruct (get_elf_hwcap_from_getauxval long_bits call t d). }
  destruct Hstep as (m1 & Hstep & Hd1). destruct (module_step long_bits call d c) as [a d1]. cbn [fst snd] in *.
  specialize (IH d1 m1 Hd1). destruct (module_run long_bits call d1 cs) as [l d2]. destruct IH as (m2 & Hrun & Hd2).
  exists m2. split; [by econstructor|done].
Qed.
End Refinement.

(** ** A loader with two modules *)

(** The program itself (no name) and the C library, whose getauxval answers 7
    above 2^32 and the type. *)
Abbreviation open_counts := (gmap Z nat).

Definition toy_handle (name : option (list Z)) : Z :=
  match name with None => 2 | Some n => if bool_decide (n = bytes "libc.so") then 1 else 0 end.

Definition toy_openings (d : open_counts) (h : Z) : nat := if h =? 0 then 0%nat else default 0%nat (d !! h).

#[export] Instance toy_loader : DynamicLoader open_counts := {
  dlopen name _ d := (toy_handle name, <[toy_handle name := S (toy_openings d (toy_handle name))]> d);
  dlsym h s _ := if (h =? 1) && bool_decide (s = bytes "getauxval") then 100 else 0;
  dlclose h d := match toy_openings d h with O => (-1, d) | S n => (0, <[h := n]> d) end;
  openings := toy_openings }.

Lemma toy_openings_insert d h n h' : toy_openings (<[h := n]> d) h' = if h' =? 0 then 0%nat else if decide (h' = h) then n else toy_openings d h'.
Proof.
  unfold toy_openings. destruct (Z.eqb_spec h' 0); [done|]. destruct (decide (h' = h)) as [->|Hne]; [by rewrite lookup_insert_eq|].
  by rewrite lookup_insert_ne.
Qed.

#[export] Instance toy_loader_laws : DynamicLoaderLaws open_counts.
Proof.
  split; cbn; [| | |done|done|done].
  - intros name _ d h. rewrite toy_openings_insert. destruct (Z.eqb_spec h 0) as [->|Hh].
    { rewrite decide_False by naive_solver. done. }
    destruct (decide (h = toy_handle name)) as [E|E]; [rewrite decide_True, <- E by done; lia|rewrite decide_False by naive_solver; lia].
  - intros h d ->. done.
  - intros h d Hpos. destruct (toy_openings d h) as [|n] eqn:E; [lia|]. cbn. split; [done|]. intros h'. rewrite toy_openings_insert.
    destruct (Z.eqb_spec h' 0) as [->|Hh']; [done|]. destruct (decide (h' = h)) as [->|Hne]; [lia|by rewrite Nat.sub_0_r].
Qed.

Definition toy_call (f x : Z) : Z := 7 * 2 ^ 32 + x.

Lemma modules_refine_witness :
  let cs := [Load (Some (bytes "libc.so")); Hwcap 16; Proc 1 (bytes "getauxval"); Free 1; Free 1; Load (Some (bytes "nothing.so"))] in
  let r := module_run 64 toy_call (∅ : open_counts) cs in
  r.1 = [Loaded 1; Caps 16; Address 100; Freed true; Freed false; Loaded 0] ∧
  ∃ m', modules_run 64 toy_call (now (∅ : open_counts) (λ _, 0%nat)) cs r.1 m' ∧ stands_for r.2 m'.
Proof.
  intros cs r. split; [vm_compute; reflexivity|].
  apply (modules_refine 64 toy_call cs (∅ : open_counts) (now (∅ : open_counts) (λ _, 0%nat))).
  apply now_stands. intros h. cbn. unfold toy_openings. by destruct (h =? 0).
Defined.
