(* ===== verification/Winsock.v ===== *)
(** Sockets (src/libuzi/winsock.c): the error codes, the events of sockets, and the
    wrappers that do more than call the system. *)

From stdpp Require Import list gmap.
From S2P Require Import Prelude Kernel Handle Wait Event Objects.

Set Warnings "-clear-no-such-hyp".

(** ** Error codes

    The numbers of the system's errors are those of Linux, where EWOULDBLOCK is
    EAGAIN, there is no EPROCLIM, and there is an EPROTO. *)

Definition WSAEINTR := 10004.
Definition WSAEBADF := 10009.
Definition WSAEACCES := 10013.
Definition WSAEFAULT := 10014.
Definition WSAEINVAL := 10022.
Definition WSAEMFILE := 10024.
Definition WSAEWOULDBLOCK := 10035.
Definition WSAEINPROGRESS := 10036.
Definition WSAEALREADY := 10037.
Definition WSAENOTSOCK := 10038.
Definition WSAEDESTADDRREQ := 10039.
Definition WSAEMSGSIZE := 10040.
Definition WSAEPROTOTYPE := 10041.
Definition WSAENOPROTOOPT := 10042.
Definition WSAEPROTONOSUPPORT := 10043.
Definition WSAESOCKTNOSUPPORT := 10044.
Definition WSAEOPNOTSUPP := 10045.
Definition WSAEPFNOSUPPORT := 10046.
Definition WSAEAFNOSUPPORT := 10047.
Definition WSAEADDRINUSE := 10048.
Definition WSAEADDRNOTAVAIL := 10049.
Definition WSAENETDOWN := 10050.
Definition WSAENETUNREACH := 10051.
Definition WSAENETRESET := 10052.
Definition WSAECONNABORTED := 10053.
Definition WSAECONNRESET := 10054.
Definition WSAENOBUFS := 10055.
Definition WSAEISCONN := 10056.
Definition WSAENOTCONN := 10057.
Definition WSAESHUTDOWN := 10058.
Definition WSAETOOMANYREFS := 10059.
Definition WSAETIMEDOUT := 10060.
Definition WSAECONNREFUSED := 10061.
Definition WSAELOOP := 10062.
Definition WSAENAMETOOLONG := 10063.
Definition WSAEHOSTDOWN := 10064.
Definition WSAEHOSTUNREACH := 10065.
Definition WSAENOTEMPTY := 10066.
Definition WSAEUSERS := 10068.
Definition WSAEDQUOT := 10069.
Definition WSAESTALE := 10070.
Definition WSAEREMOTE := 10071.

Definition EACCES := 13.
Definition EFAULT := 14.
Definition EMFILE := 24.
Definition EWOULDBLOCK := 11.
Definition EINPROGRESS := 115.
Definition EALREADY := 114.
Definition ENOTSOCK := 88.
Definition EDESTADDRREQ := 89.
Definition EMSGSIZE := 90.
Definition EPROTOTYPE := 91.
Definition ENOPROTOOPT := 92.
Definition EPROTONOSUPPORT := 93.
Definition ESOCKTNOSUPPORT := 94.
Definition EOPNOTSUPP := 95.
Definition EPFNOSUPPORT := 96.
Definition EAFNOSUPPORT := 97.
Definition EADDRINUSE := 98.
Definition EADDRNOTAVAIL := 99.
Definition ENETDOWN := 100.
Definition ENETUNREACH := 101.
Definition ENETRESET := 102.
Definition ECONNABORTED := 103.
Definition ECONNRESET := 104.
Definition ENOBUFS := 105.
Definition EISCONN := 106.
Definition ENOTCONN := 107.
Definition ESHUTDOWN := 108.
Definition ETOOMANYREFS := 109.
Definition ECONNREFUSED := 111.
Definition ELOOP := 40.
Definition ENAMETOOLONG := 36.
Definition EHOSTDOWN := 112.
Definition EHOSTUNREACH := 113.
Definition ENOTEMPTY := 39.
Definition EUSERS := 87.
Definition EDQUOT := 122.
Definition ESTALE := 116.
Definition EREMOTE := 66.
Definition EPROTO := 71.

(** A [switch] over a list of cases. *)
Definition switch (l : list (Z * Z)) (x : Z) : option Z := snd <$> List.find (λ p, p.1 =? x) l.

Definition set_cases : list (Z * Z) :=
  [(WSAEINTR, EINTR);
   (WSAEBADF, EBADF);
   (WSAEACCES, EACCES);
   (WSAEFAULT, EFAULT);
   (WSAEINVAL, EINVAL);
   (WSAEMFILE, EMFILE);
   (WSAEWOULDBLOCK, EWOULDBLOCK);
   (WSAEINPROGRESS, EINPROGRESS);
   (WSAEALREADY, EALREADY);
   (WSAENOTSOCK, ENOTSOCK);
   (WSAEDESTADDRREQ, EDESTADDRREQ);
   (WSAEMSGSIZE, EMSGSIZE);
   (WSAEPROTOTYPE, EPROTOTYPE);
   (WSAENOPROTOOPT, ENOPROTOOPT);
   (WSAEPROTONOSUPPORT, EPROTONOSUPPORT);
   (WSAESOCKTNOSUPPORT, ESOCKTNOSUPPORT);
   (WSAEOPNOTSUPP, EOPNOTSUPP);
   (WSAEPFNOSUPPORT, EPFNOSUPPORT);
   (WSAEAFNOSUPPORT, EAFNOSUPPORT);
   (WSAEADDRINUSE, EADDRINUSE);
   (WSAEADDRNOTAVAIL, EADDRNOTAVAIL);
   (WSAENETDOWN, ENETDOWN);
   (WSAENETUNREACH, ENETUNREACH);
   (WSAENETRESET, ENETRESET);
   (WSAECONNABORTED, ECONNABORTED);
   (WSAECONNRESET, ECONNRESET);
   (WSAENOBUFS, ENOBUFS);
   (WSAEISCONN, EISCONN);
   (WSAENOTCONN, ENOTCONN);
   (WSAESHUTDOWN, ESHUTDOWN);
   (WSAETOOMANYREFS, ETOOMANYREFS);
   (WSAETIMEDOUT, ETIMEDOUT);
   (WSAECONNREFUSED, ECONNREFUSED);
   (WSAELOOP, ELOOP);
   (WSAENAMETOOLONG, ENAMETOOLONG);
   (WSAEHOSTDOWN, EHOSTDOWN);
   (WSAEHOSTUNREACH, EHOSTUNREACH);
   (WSAENOTEMPTY, ENOTEMPTY);
   (WSAEUSERS, EUSERS);
   (WSAEDQUOT, EDQUOT);
   (WSAESTALE, ESTALE);
   (WSAEREMOTE, EREMOTE)].

(** The value of [errno] afterwards. *)
Definition WSASetLastError (iError errno : Z) : Z := default errno (switch set_cases iError).

Definition get_cases : list (Z * Z) :=
  [(EINTR, WSAEINTR);
   (EBADF, WSAEBADF);
   (EACCES, WSAEACCES);
   (EFAULT, WSAEFAULT);
   (EINVAL, WSAEINVAL);
   (EMFILE, WSAEMFILE);
   (EWOULDBLOCK, WSAEWOULDBLOCK);
   (EINPROGRESS, WSAEINPROGRESS);
   (EALREADY, WSAEALREADY);
   (ENOTSOCK, WSAENOTSOCK);
   (EDESTADDRREQ, WSAEDESTADDRREQ);
   (EMSGSIZE, WSAEMSGSIZE);
   (EPROTOTYPE, WSAEPROTOTYPE);
   (ENOPROTOOPT, WSAENOPROTOOPT);
   (EPROTONOSUPPORT, WSAEPROTONOSUPPORT);
   (ESOCKTNOSUPPORT, WSAESOCKTNOSUPPORT);
   (EOPNOTSUPP, WSAEOPNOTSUPP);
   (EPFNOSUPPORT, WSAEPFNOSUPPORT);
   (EAFNOSUPPORT, WSAEAFNOSUPPORT);
   (EADDRINUSE, WSAEADDRINUSE);
   (EADDRNOTAVAIL, WSAEADDRNOTAVAIL);
   (ENETDOWN, WSAENETDOWN);
   (ENETUNREACH, WSAENETUNREACH);
   (ENETRESET, WSAENETRESET);
   (ECONNABORTED, WSAECONNABORTED);
   (ECONNRESET, WSAECONNRESET);
   (ENOBUFS, WSAENOBUFS);
   (EISCONN, WSAEISCONN);
   (ENOTCONN, WSAENOTCONN);
   (ESHUTDOWN, WSAESHUTDOWN);
   (ETOOMANYREFS, WSAETOOMANYREFS);
   (ETIMEDOUT, WSAETIMEDOUT);
   (ECONNREFUSED, WSAECONNREFUSED);
   (ELOOP, WSAELOOP);
   (ENAMETOOLONG, WSAENAMETOOLONG);
   (EHOSTDOWN, WSAEHOSTDOWN);
   (EHOSTUNREACH, WSAEHOSTUNREACH);
   (ENOTEMPTY, WSAENOTEMPTY);
   (EUSERS, WSAEUSERS);
   (EDQUOT, WSAEDQUOT);
   (ESTALE, WSAESTALE);
   (EREMOTE, WSAEREMOTE);
   (EPROTO, WSAECONNRESET)].

Definition WSAGetLastError (errno : Z) : Z := default 0 (switch get_cases errno).

(** ** Sockets

    The answers of the system are arguments: [getfl] and the like are what
    [fcntl(F_GETFL)], [socket], [bind], ... answer. *)

Definition SOCKET_ERROR := -1.
Definition INVALID_SOCKET := 2 ^ 64 - 1.
Definition FIONBIO := 21537.
Definition O_NONBLOCK := 2048.
Definition FD_WRITE := Z.shiftl 1 1.

(** The result, and the flags set with [fcntl(F_SETFL)], if any. [argp]: the
    value it points to, [None] for a null pointer. *)
Definition _ioctlsocket (getfl cmd : Z) (argp : option Z) : Z * option Z :=
  if cmd =? FIONBIO then
    match argp with
    | None => (SOCKET_ERROR, None)
    | Some arg =>
      if getfl =? -1 then (SOCKET_ERROR, None)
      else if nonzero arg then (0, Some (Z.lor getfl O_NONBLOCK))
      else (0, Some (Z.land getfl (Z.lnot O_NONBLOCK)))
    end
  else (0, None).

(** The mode of the event for some network events. *)
Definition select_mode (lNetworkEvents : Z) : Z :=
  let mode := 0 in
  let mode := if nonzero (Z.land lNetworkEvents FD_READ) then Z.lor mode UZI_FD_READ else mode in
  if nonzero (Z.land lNetworkEvents FD_WRITE) then Z.lor mode UZI_FD_WRITE else mode.

Definition WSAEventSelect (getfl s hEventObject lNetworkEvents : Z) : K (Z * option Z) :=
  let r := _ioctlsocket getfl FIONBIO (Some 1) in
  if negb (r.1 =? 0) then mret (SOCKET_ERROR, r.2)
  else
    status ← SetEventFileDescriptor hEventObject s (select_mode lNetworkEvents);
    mret (if status <? 0 then SOCKET_ERROR else 0, r.2).

Definition WSACreateEvent (calloc efd : Z) : K Z := CreateEventA calloc efd true false.
Definition WSASetEvent (h : Z) : K bool := SetEvent h.
Definition WSAResetEvent (h : Z) : K bool := mret true.

Definition WSACloseEvent (h : Z) : K bool :=
  status ← CloseHandle h;
  (if negb status then SetLastError 6 else mret ());;
  mret status.

(** [shutdown]'s argument for [how]: SHUT_RD, SHUT_WR, SHUT_RDWR. *)
Definition _shutdown (shutdown : Z → Z) (how : Z) : Z :=
  let s_how := if how =? 0 then 0 else if how =? 1 then 1 else if how =? 2 then 2 else -1 in
  if s_how <? 0 then SOCKET_ERROR else shutdown s_how.

Definition _socket (fd : Z) : Z := if fd <? 1 then INVALID_SOCKET else u64 fd.

Definition _bind (status : Z) : Z := if status <? 0 then SOCKET_ERROR else status.
Definition _connect (status : Z) : Z := if status <? 0 then SOCKET_ERROR else status.

(** [select], again while it is interrupted: the calls' results and errors. *)
Fixpoint _select (calls : list (Z * Z)) : option Z :=
  match calls with
  | [] => None
  | (status, errno) :: l => if (status <? 0) && (errno =? EINTR) then _select l else Some status
  end.

Definition WSAStartup (wVersionRequired : Z) : Z * (Z * Z) := (0, (wVersionRequired, 514)).
Definition WSACleanup : Z := 0.

(** The calls that pass their arguments on: a socket becomes a descriptor, a
    length an unsigned number and the result an [int]. The length that is read
    and written back ([None]: a null pointer) is read in any case. *)
Definition inout_length (call : Z → Z * Z) (len : option Z) : res (Z * Z) :=
  match len with
  | None => UB
  | Some n => let '(status, n) := call (u32 n) in Ok (status, s32 n)
  end.

Definition _accept (accept : Z → Z → Z * Z) (s : Z) (addrlen : option Z) : res (Z * Z) :=
  r ← inout_length (accept (s32 s)) addrlen; Ok (u64 r.1, r.2).
Definition _getpeername (getpeername : Z → Z → Z * Z) (s : Z) (namelen : option Z) : res (Z * Z) := inout_length (getpeername (s32 s)) namelen.
Definition _getsockname (getsockname : Z → Z → Z * Z) (s : Z) (namelen : option Z) : res (Z * Z) := inout_length (getsockname (s32 s)) namelen.
Definition _getsockopt (getsockopt : Z → Z → Z → Z → Z * Z) (s level optname : Z) (optlen : option Z) : res (Z * Z) :=
  inout_length (getsockopt (s32 s) level optname) optlen.
Definition _recvfrom (recvfrom : Z → Z → Z → Z → Z * Z) (s len flags : Z) (fromlen : option Z) : res (Z * Z) :=
  r ← inout_length (recvfrom (s32 s) (u64 len) flags) fromlen; Ok (s32 r.1, r.2).

Definition _closesocket (close : Z → Z) (s : Z) : Z := close (s32 s).
Definition _listen (listen : Z → Z → Z) (s backlog : Z) : Z := listen (s32 s) backlog.
Definition _recv (recv : Z → Z → Z → Z) (s len flags : Z) : Z := s32 (recv (s32 s) (u64 len) flags).
Definition _send (send : Z → Z → Z → Z) (s len flags : Z) : Z := s32 (send (s32 s) (u64 len) (Z.lor flags 16384)).
Definition _sendto (sendto : Z → Z → Z → Z → Z) (s len flags tolen : Z) : Z := s32 (sendto (s32 s) (u64 len) flags (u32 tolen)).
Definition _setsockopt (setsockopt : Z → Z → Z → Z → Z) (s level optname optlen : Z) : Z := setsockopt (s32 s) level optname (u32 optlen).
Definition _gethostname (gethostname : Z → Z) (namelen : Z) : Z := gethostname (u64 namelen).

(** Byte order, on a little-endian machine. *)
Definition byte (x i : Z) : Z := Z.land (Z.shiftr x (8 * i)) 255.
Definition htonl (x : Z) : Z :=
  Z.lor (Z.shiftl (byte x 0) 24) (Z.lor (Z.shiftl (byte x 1) 16) (Z.lor (Z.shiftl (byte x 2) 8) (byte x 3))).
Definition htons (x : Z) : Z := Z.lor (Z.shiftl (byte x 0) 8) (byte x 1).
Definition _htonl (hostlong : Z) : Z := htonl (u32 hostlong).
Definition _htons (hostshort : Z) : Z := htons (u16 hostshort).
Definition _ntohl (netlong : Z) : Z := htonl (u32 netlong).
Definition _ntohs (netshort : Z) : Z := htons (u16 netshort).

(** ** Theorems *)

Lemma switch_in l x y : switch l x = Some y → (x, y) ∈ l.
Proof.
  unfold switch. destruct (List.find _ l) as [[x' y']|] eqn:E; [|done]. intros [= <-]. apply List.find_some in E as [Hin Hx].
  cbn in Hx. apply Z.eqb_eq in Hx as ->. by apply list_elem_of_In.
Qed.

Lemma switch_none l x : switch l x = None → x ∉ l.*1.
Proof.
  unfold switch. destruct (List.find _ l) as [p|] eqn:E; [done|]. intros _ ([x' y] & -> & Hin)%list_elem_of_fmap.
  apply list_elem_of_In in Hin. pose proof (List.find_none _ _ E _ Hin) as H. cbn in H. by rewrite Z.eqb_refl in H.
Qed.

(** Every case of one switch is undone by the other, apart from the alias. *)
Lemma cases_inverse : forallb (λ p, bool_decide (switch get_cases p.2 = Some p.1)) set_cases = true ∧
  forallb (λ p, (p.1 =? EPROTO) || bool_decide (switch set_cases p.2 = Some p.1)) get_cases = true.
Proof. split; vm_compute; reflexivity. Qed.

Lemma byte_bits x i n : 0 <= i → 0 <= n → Z.testbit (byte x i) n = (n <? 8) && Z.testbit x (n + 8 * i).
Proof.
  intros Hi Hn. unfold byte. rewrite Z.land_spec, Z.shiftr_spec by done. change 255 with (Z.ones 8). rewrite andb_comm. f_equal.
  rewrite Z.testbit_ones_nonneg by lia. done.
Qed.

Lemma swap_bits x n : 0 <= n → Z.testbit (htonl x) n = (n <? 32) && Z.testbit x (n mod 8 + 8 * (3 - n / 8)).
Proof.
  intros Hn. unfold htonl. rewrite !Z.lor_spec, !Z.shiftl_spec by done.
  assert (H : ∀ i k, 0 <= i → Z.testbit (byte x i) (n - k) = ((0 <=? n - k) && (n - k <? 8)) && Z.testbit x (n - k + 8 * i)).
  { intros i k Hi. destruct (Z.leb_spec 0 (n - k)); [by rewrite byte_bits by lia|]. by rewrite Z.testbit_neg_r by lia. }
  rewrite !H, byte_bits by lia.
  destruct (Z.ltb_spec n 8); [replace (n mod 8) with n by lia; replace (n / 8) with 0 by lia|].
  { destruct (Z.leb_spec 0 (n - 24)), (Z.leb_spec 0 (n - 16)), (Z.leb_spec 0 (n - 8)), (Z.ltb_spec n 32); try lia. done. }
  destruct (Z.ltb_spec n 16); [replace (n mod 8) with (n - 8) by lia; replace (n / 8) with 1 by lia|].
  { destruct (Z.leb_spec 0 (n - 24)), (Z.leb_spec 0 (n - 16)), (Z.leb_spec 0 (n - 8)), (Z.ltb_spec (n - 8) 8), (Z.ltb_spec n 32); try lia.
    cbn. by rewrite orb_false_r. }
  destruct (Z.ltb_spec n 24); [replace (n mod 8) with (n - 16) by lia; replace (n / 8) with 2 by lia|].
  { destruct (Z.leb_spec 0 (n - 24)), (Z.leb_spec 0 (n - 16)), (Z.ltb_spec (n - 16) 8), (Z.ltb_spec (n - 8) 8), (Z.ltb_spec n 32); try lia.
    rewrite andb_false_r. cbn. by rewrite orb_false_r. }
  destruct (Z.ltb_spec n 32); [replace (n mod 8) with (n - 24) by lia; replace (n / 8) with 3 by lia|].
  { destruct (Z.leb_spec 0 (n - 24)), (Z.ltb_spec (n - 24) 8), (Z.ltb_spec (n - 16) 8), (Z.ltb_spec (n - 8) 8); try lia.
    rewrite !andb_false_r. cbn. by rewrite orb_false_r. }
  destruct (Z.ltb_spec (n - 24) 8), (Z.ltb_spec (n - 16) 8), (Z.ltb_spec (n - 8) 8); lia.
Qed.

Lemma swap_swap x : htonl (htonl x) = u32 x.
Proof.
  apply Z.bits_inj_iff'. intros n Hn. rewrite swap_bits by done. unfold wrap. 
  destruct (Z.ltb_spec n 32).
  - rewrite Z.mod_pow2_bits_low, swap_bits by lia.
    destruct (Z.ltb_spec (n mod 8 + 8 * (3 - n / 8)) 32); [|lia]. cbn [andb]. f_equal. lia.
  - by rewrite Z.mod_pow2_bits_high by lia.
Qed.

Lemma swap16_bits x n : 0 <= n → Z.testbit (htons x) n = (n <? 16) && Z.testbit x (n mod 8 + 8 * (1 - n / 8)).
Proof.
  intros Hn. unfold htons. rewrite Z.lor_spec, Z.shiftl_spec by done.
  assert (H : Z.testbit (byte x 0) (n - 8) = ((0 <=? n - 8) && (n - 8 <? 8)) && Z.testbit x (n - 8 + 8 * 0)).
  { destruct (Z.leb_spec 0 (n - 8)); [by rewrite byte_bits by lia|]. by rewrite Z.testbit_neg_r by lia. }
  rewrite H, byte_bits by lia.
  destruct (Z.ltb_spec n 8); [replace (n mod 8) with n by lia; replace (n / 8) with 0 by lia|].
  { destruct (Z.leb_spec 0 (n - 8)), (Z.ltb_spec n 16); try lia. done. }
  destruct (Z.ltb_spec n 16); [replace (n mod 8) with (n - 8) by lia; replace (n / 8) with 1 by lia|].
  { destruct (Z.leb_spec 0 (n - 8)), (Z.ltb_spec (n - 8) 8); try lia. cbn. by rewrite orb_false_r. }
  destruct (Z.ltb_spec (n - 8) 8); lia.
Qed.

Lemma swap16_swap16 x : htons (htons x) = u16 x.
Proof.
  apply Z.bits_inj_iff'. intros n Hn. rewrite swap16_bits by done. unfold wrap. destruct (Z.ltb_spec n 16).
  - rewrite Z.mod_pow2_bits_low, swap16_bits by lia.
    destruct (Z.ltb_spec (n mod 8 + 8 * (1 - n / 8)) 16); [|lia]. cbn [andb]. f_equal. lia.
  - by rewrite Z.mod_pow2_bits_high by lia.
Qed.

(** A number without bits from [w] on is its own reduction. *)
Lemma wrap_idem w x : 0 <= w → (∀ n, w <= n → Z.testbit x n = false) → wrap w x = x.
Proof.
  intros Hw Hx. apply Z.bits_inj_iff'. intros n Hn. unfold wrap. destruct (Z.lt_ge_cases n w).
  - by rewrite Z.mod_pow2_bits_low by lia.
  - rewrite Z.mod_pow2_bits_high by lia. by rewrite Hx by lia.
Qed.

Lemma wrap_wrap w x : 0 <= w → wrap w (wrap w x) = wrap w x.
Proof. intros Hw. by apply wrap_id, wrap_range. Qed.

Lemma swap_high x n : 32 <= n → Z.testbit (htonl x) n = false.
Proof. intros Hn. rewrite swap_bits by lia. by destruct (Z.ltb_spec n 32); [lia|]. Qed.

Lemma swap16_high x n : 16 <= n → Z.testbit (htons x) n = false.
Proof. intros Hn. rewrite swap16_bits by lia. by destruct (Z.ltb_spec n 16); [lia|]. Qed.

(** The socket error codes of the table, and the system's. *)
Definition wsa_codes : list Z := set_cases.*1.
Definition system_codes : list Z := set_cases.*2.

(** A descriptor as a socket, and back. *)
Lemma socket_fd fd : -1 <= fd < 2 ^ 31 → s32 (u64 fd) = fd.
Proof.
  intros H. destruct (Z.eq_dec fd (-1)) as [->|]; [done|]. rewrite (wrap_id 64) by zlia. apply swrap_id; [lia|zlia].
Qed.

Lemma socket_invalid fd : -1 <= fd < 2 ^ 31 → u64 fd = INVALID_SOCKET ↔ fd = -1.
Proof.
  intros H. destruct (Z.eq_dec fd (-1)) as [->|]; [done|]. rewrite (wrap_id 64) by zlia. unfold INVALID_SOCKET. pow2_lit. lia.
Qed.

(** the error codes and the byte order. Setting an error code of the table
    and reading the last error gives it back, and the other way round; a code
    outside the table (0 included) leaves [errno] as it was, an [errno] outside
    it reads as 0; the only [errno] with a code of another one is EPROTO. The
    conversions to network byte order and back are inverse on 32 and 16 bits, and
    drop the higher bits. Sockets: a descriptor that [_socket] or [_accept] turns
    into a socket is the one that the other calls turn it back into, and -1 is
    INVALID_SOCKET -- but [_socket] answers INVALID_SOCKET for the descriptor 0
    too, and [_accept] reads the length behind its null pointer. *)
Theorem winsock_roundtrips :
  (∀ e errno, e ∈ wsa_codes → WSAGetLastError (WSASetLastError e errno) = e ∧ WSASetLastError e errno ∈ system_codes) ∧
  (∀ n errno, n ∈ system_codes → WSASetLastError (WSAGetLastError n) errno = n ∧ WSAGetLastError n ∈ wsa_codes) ∧
  (∀ e errno, e ∉ wsa_codes → WSASetLastError e errno = errno) ∧
  (∀ n, n ∉ system_codes → n ≠ EPROTO → WSAGetLastError n = 0) ∧ WSAGetLastError EPROTO = WSAECONNRESET ∧
  (∀ x, _ntohl (_htonl x) = u32 x ∧ _ntohs (_htons x) = u16 x) ∧
  (∀ fd n s len accept close, -1 <= fd < 2 ^ 31 → accept (s32 s) (u32 len) = (fd, n) →
     _closesocket close (_socket fd) = close (if fd =? 0 then -1 else fd) ∧ (_socket fd = INVALID_SOCKET ↔ fd <= 0) ∧
     (∃ sock n', _accept accept s (Some len) = Ok (sock, n') ∧ _closesocket close sock = close fd ∧ (sock = INVALID_SOCKET ↔ fd = -1)) ∧
     _accept accept s None = UB).
Proof.
  split_and!; [| | | |done| |].
  - intros e errno He.
    assert (H : Forall (λ e, bool_decide (WSAGetLastError (default 0 (switch set_cases e)) = e ∧ is_Some (switch set_cases e)
      ∧ default 0 (switch set_cases e) ∈ system_codes) = true) wsa_codes) by by_decision.
    apply (proj1 (Forall_forall _ _) H) in He as (H1 & [y Hy] & H2)%bool_decide_eq_true_1.
    unfold WSASetLastError. rewrite Hy in *. cbn [default] in *. by split.
  - intros n errno Hn.
    assert (H : Forall (λ n, bool_decide (switch set_cases (WSAGetLastError n) = Some n ∧ WSAGetLastError n ∈ wsa_codes) = true) system_codes)
      by by_decision.
    apply (proj1 (Forall_forall _ _) H) in Hn as (H1 & H2)%bool_decide_eq_true_1. split; [|done]. unfold WSASetLastError. by rewrite H1.
  - intros e errno He. unfold WSASetLastError. destruct (switch set_cases e) as [y|] eqn:E; [|done].
    exfalso. apply He. unfold wsa_codes. apply switch_in in E. apply list_elem_of_fmap. by exists (e, y).
  - intros n Hn Hp. unfold WSAGetLastError. destruct (switch get_cases n) as [y|] eqn:E; [|done]. exfalso.
    assert (Hg : n ∈ get_cases.*1) by (apply switch_in in E; apply list_elem_of_fmap; by exists (n, y)).
    assert (H : Forall (λ n, bool_decide (n ∈ EPROTO :: system_codes) = true) get_cases.*1) by by_decision.
    apply (proj1 (Forall_forall _ _) H) in Hg. apply bool_decide_eq_true_1 in Hg. apply elem_of_cons in Hg as [?|?]; done.
  - intros x. split; [unfold _ntohl, _htonl|unfold _ntohs, _htons].
    + rewrite (wrap_idem 32 (htonl (u32 x))), swap_swap; [by apply wrap_wrap|done|intros; by apply swap_high].
    + rewrite (wrap_idem 16 (htons (u16 x))), swap16_swap16; [by apply wrap_wrap|done|intros; by apply swap16_high].
  - intros fd n s len accept close Hfd Ha. unfold _closesocket, _accept, inout_length. rewrite Ha.
    assert (Hs : s32 (u64 fd) = fd) by (by apply socket_fd). assert (Hi : u64 fd = INVALID_SOCKET ↔ fd = -1) by (by apply socket_invalid).
    split_and!; [| |eexists _, _; split; [reflexivity|]; cbn [fst snd]; by rewrite Hs|done]; unfold _socket; destruct (Z.ltb_spec fd 1).
    + change (s32 INVALID_SOCKET) with (-1). destruct (Z.eqb_spec fd 0); [done|]. f_equal. lia.
    + destruct (Z.eqb_spec fd 0); [lia|]. by rewrite Hs.
    + split; [lia|done].
    + rewrite Hi. lia.
Qed.

(** the events of sockets. WSAEventSelect makes the socket non-blocking and
    turns the event into one on the socket, in the mode of the read and write
    events asked for (all the others, FD_ACCEPT, FD_CONNECT and FD_CLOSE among
    them, are ignored: an event for them alone polls for nothing); the event's
    own descriptor is closed the first time only. Closing the event then gives
    back its memory and leaves the socket open. WSAResetEvent answers TRUE and
    does not reset the event. When the flags of the socket cannot be read, the
    call fails and the event is as it was. *)
Theorem event_select_spec k s h sock getfl lNetworkEvents fd mode e :
  valid_handle h → objs k !! h = Some (Object HANDLE_TYPE_EVENT mode (Some EventOps) (BEvent e)) → ev_fd0 e = fd → 0 <= fd →
  (getfl ≠ -1 → ∃ k',
     WSAEventSelect getfl sock h lNetworkEvents (World k s) = Ok ((0, Some (Z.lor getfl O_NONBLOCK)), World k' s) ∧
     objs k' !! h = Some (Object HANDLE_TYPE_EVENT (select_mode lNetworkEvents) (Some EventOps) (BEvent (Event sock (ev_fd1 e) true (bManualReset e)))) ∧
     files k' = (if bAttached e then files k else delete fd (files k)) ∧
     ∃ k'', WSACloseEvent h (World k' s) = Ok (true, World k'' s) ∧ objs k'' = delete h (objs k) ∧ files k'' = files k') ∧
  (select_mode (Z.shiftl 1 3) = 0 ∧ select_mode (Z.shiftl 1 4) = 0 ∧ select_mode (Z.shiftl 1 5) = 0) ∧
  WSAResetEvent h (World k s) = Ok (true, World k s) ∧
  WSAEventSelect (-1) sock h lNetworkEvents (World k s) = Ok ((SOCKET_ERROR, None), World k s).
Proof.
  intros Hv Ho Hfd Hpos. split_and!; try done. intros Hfl. set (m := select_mode lNetworkEvents).
  set (kc := if bAttached e then k else set_files (delete fd (files k)) k).
  set (o' := Object HANDLE_TYPE_EVENT m (Some EventOps) (BEvent (Event sock (ev_fd1 e) true (bManualReset e)))).
  assert (Hoc : objs kc !! h = Some (Object HANDLE_TYPE_EVENT mode (Some EventOps) (BEvent e))) by (unfold kc; by destruct (bAttached e)).
  exists (set_obj h o' kc). split_and!.
  - unfold WSAEventSelect. assert (Hio : _ioctlsocket getfl FIONBIO (Some 1) = (0, Some (Z.lor getfl O_NONBLOCK))).
    { unfold _ioctlsocket. rewrite Z.eqb_refl. by destruct (Z.eqb_spec getfl (-1)). }
    rewrite Hio. cbn [fst snd Z.eqb negb]. unfold SetEventFileDescriptor. rewrite bind_bind. kstep (info_ok k s h _ Hv Ho).
    unfold event_at. rewrite !bind_bind. rewrite (bind_object _ _ _ _ _ Ho). cbn [obody]. rewrite bind_ret, bind_bind.
    rewrite (K_bind_ok (if negb (bAttached e) && (0 <=? ev_fd0 e) then sys_close (ev_fd0 e) else mret ()) _ _ () (World kc s)).
    + rewrite bind_bind, (bind_object _ _ _ _ _ Hoc). cbn [Type_ ops]. krun. done.
    + rewrite Hfd, (proj2 (Z.leb_le 0 fd)) by done. unfold kc. by destruct (bAttached e).
  - cbn. by rewrite lookup_insert_eq.
  - cbn. unfold kc. by destruct (bAttached e).
  - exists (set_objs (delete h (objs k)) (set_obj h o' kc)). split_and!; try done.
    assert (Ho' : objs (set_obj h o' kc) !! h = Some o') by (cbn; by rewrite lookup_insert_eq).
    unfold WSACloseEvent, CloseHandle. rewrite bind_bind. kstep (info_ok _ s h _ Hv Ho'). rewrite bind_bind, (bind_object _ _ _ _ _ Ho').
    cbn [ops o' close_op]. unfold EventCloseHandle. rewrite bind_bind. kstep (is_handled_ok _ s h _ Hv Ho').
    cbn [negb]. unfold event_at. rewrite !bind_bind, (bind_object _ _ _ _ _ Ho'). cbn [obody o']. rewrite bind_ret. cbn [bAttached negb].
    unfold free. krun. cbn [negb]. krun. unfold mret, K_ret. do 3 f_equal. kernel_eq. rewrite delete_insert_eq. unfold kc. by destruct (bAttached e).
Qed.

Lemma event_select_spec_witness :
  let k := Kernel {[ 32 := Object HANDLE_TYPE_EVENT FD_READ (Some EventOps) (BEvent (Event 3 (-1) false true)) ]} {[ 3 := FdEvent 0; 9 := FdPipeR 0 ]} [0] ∅ None 1 0 0 0 ∅ in
  ∃ k', WSAEventSelect 2 9 32 1 (World k []) = Ok ((0, Some 2050), World k' []) ∧ files k' !! 3 = None ∧
    ∃ k'', WSACloseEvent 32 (World k' []) = Ok (true, World k'' []) ∧ files k'' !! 9 = Some (FdPipeR 0).
Proof.
  set (k := Kernel {[ 32 := Object HANDLE_TYPE_EVENT FD_READ (Some EventOps) (BEvent (Event 3 (-1) false true)) ]} {[ 3 := FdEvent 0; 9 := FdPipeR 0 ]} [0] ∅ None 1 0 0 0 ∅).
  destruct (event_select_spec k [] 32 9 2 1 3 FD_READ (Event 3 (-1) false true)) as (H & _);
    [split; unfold INVALID_HANDLE_VALUE; lia|reflexivity|reflexivity|lia|].
  destruct (H ltac:(lia)) as (k' & H1 & _ & H2 & k'' & H3 & _ & H4). exists k'. split; [exact H1|]. rewrite H2. split; [reflexivity|].
  exists k''. split; [exact H3|]. rewrite H4, H2. reflexivity.
Defined.
