(* ===== verification/NetNames.v ===== *)
(** Names of addresses (src/libuzi/winsock.c): the replacements of inet_ntop and
    inet_pton for old versions of Windows, over getnameinfo and
    WSAStringToAddressA, and the name services that are handed on to the C
    library. *)

From stdpp Require Import list.
From S2P Require Import Prelude.

(** ** Addresses as text *)

Definition AF_INET := 2.
Definition AF_INET6 := 23.

(** The bytes of an address ([in_addr], [in6_addr]). *)
Definition address_size (Family : Z) : option nat := if Family =? AF_INET then Some 4%nat else if Family =? AF_INET6 then Some 16%nat else None.

(** [memcpy] of [n] bytes out of, and into, memory that must have them. *)
Definition copy_from (n : nat) (p : list Z) : res (list Z) := if decide (n ≤ length p)%nat then Ok (take n p) else UB.
Definition copy_to (p bs : list Z) : res (list Z) := if decide (length bs ≤ length p)%nat then Ok (bs ++ drop (length bs) p) else UB.

Section Addresses.
(** [getnameinfo family address size buffer] is the buffer afterwards, for a
    socket address that is zero otherwise; [WSAStringToAddressA string family]
    answers a status and the bytes of the address. *)
Context (getnameinfo : Z → list Z → Z → list Z → list Z) (WSAStringToAddressA : list Z → Z → Z * list Z).

(** [None] is a null pointer; the status of [getnameinfo] is not looked at. *)
Definition winpr_inet_ntop (Family : Z) (pAddr pStringBuf : list Z) (StringBufSize : Z) : res (option (list Z)) :=
  match address_size Family with
  | None => Ok None
  | Some n => a ← copy_from n pAddr; Ok (Some (getnameinfo Family a (u32 StringBufSize) pStringBuf))
  end.

Definition winpr_inet_pton (Family : Z) (pszAddrString pAddrBuf : list Z) : res (Z * list Z) :=
  match address_size Family with
  | None => Ok (-1, pAddrBuf)
  | Some n =>
    let '(status, addr) := WSAStringToAddressA pszAddrString Family in
    if negb (status =? 0) then Ok (0, pAddrBuf)
    else a ← copy_from n addr; b ← copy_to pAddrBuf a; Ok (1, b)
  end.

(** What one writes the other one reads: then an address survives, in the first
    bytes of the buffer; the rest of the buffer stays. *)
Lemma inet_roundtrip Family n a text buffer size more p rest :
  address_size Family = Some n → length a = n → length p = n → 0 <= size < 2 ^ 32 →
  getnameinfo Family a size buffer = text → WSAStringToAddressA text Family = (0, a ++ more) →
  winpr_inet_ntop Family a buffer size = Ok (Some text) ∧ winpr_inet_pton Family text (p ++ rest) = Ok (1, a ++ rest).
Proof.
  intros Hf Ha Hp Hs Hn Hw. unfold winpr_inet_ntop, winpr_inet_pton, copy_from, copy_to. rewrite Hf, Hw. cbn [negb Z.eqb].
  rewrite !decide_True by (rewrite ?length_app; lia). rewrite take_ge by lia. cbn [mbind res_bind].
  rewrite wrap_id, Hn by (unfold urange; lia). split; [done|]. rewrite take_app_length' by done.
  rewrite decide_True by (rewrite length_app; lia). cbn. by rewrite drop_app_length' by lia.
Qed.
End Addresses.

(** ** Name services

    [P] is a pointer to an entry, as the C library answers it. *)
Class NameServices (P : Type) := {
  inet_addr : list Z → Z;
  inet_ntoa : Z → list Z;
  gethostbyaddr : list Z → Z → Z → P;
  gethostbyname : list Z → P;
  getservbyport : Z → list Z → P;
  getservbyname : list Z → list Z → P;
  getprotobynumber : Z → P;
  getprotobyname : list Z → P }.

Section Services.
Context {P : Type} `{NameServices P}.

(** The answer is an [in_addr_t] of 32 bits, made a [long] and then unsigned. *)
Definition _inet_addr (cp : list Z) : Z := u64 (s64 (inet_addr cp)).
Definition _inet_ntoa (addr : Z) : list Z := inet_ntoa addr.
Definition _gethostbyaddr (addr : list Z) (len type : Z) : P := gethostbyaddr addr (u32 len) type.
Definition _gethostbyname (name : list Z) : P := gethostbyname name.
Definition _getservbyport (port : Z) (proto : list Z) : P := getservbyport port proto.
Definition _getservbyname (name proto : list Z) : P := getservbyname name proto.
Definition _getprotobynumber (number : Z) : P := getprotobynumber number.
Definition _getprotobyname (name : list Z) : P := getprotobyname name.

(** Addresses are not sign-extended. *)
Lemma inet_addr_unsigned cp : 0 <= inet_addr cp < 2 ^ 32 → _inet_addr cp = inet_addr cp.
Proof.
  intros Ha. unfold _inet_addr. rewrite swrap_id by (unfold srange; lia). by apply wrap_id; unfold urange; lia.
Qed.
End Services.
