(* ===== verification/File.v ===== *)
(** Files and paths (src/libuzi/file.c). A path is the list of the characters
    before its terminating zero, a pointer into it a position; the file system
    is a map from paths to directories and files with their modes. What the
    system grants the process (its mask, the directories it may add to) is a
    parameter. *)

From stdpp Require Import list gmap.
From S2P Require Import Prelude.

Set Warnings "-clear-no-such-hyp".

Definition SLASH := 47.
Definition BACKSLASH := 92.
Definition DOT := 46.

(** ** Parts of a path *)

(** [strrchr]: the last position that holds [c]. *)
Fixpoint strrchr_from (s : list Z) (c p : Z) : option Z :=
  match s with
  | [] => None
  | x :: s => match strrchr_from s c (p + 1) with Some q => Some q | None => if x =? c then Some p else None end
  end.
Definition strrchr (s : list Z) (c : Z) : option Z := strrchr_from s c 0.
Definition strlen (s : list Z) : Z := Z.of_nat (length s).

(** The position answered; [None] is a null pointer. *)
Definition UziFile_Base (filename : option (list Z)) : option Z :=
  match filename with
  | None => None
  | Some s =>
    let separator := match strrchr s BACKSLASH with Some p => Some p | None => strrchr s SLASH end in
    match separator with
    | None => Some 0
    | Some p => if 1 <? strlen s - p then Some (p + 1) else Some 0
    end
  end.

(** [malloc_ok]: does the allocation succeed? *)
Definition UziFile_Dir (malloc_ok : bool) (filename : option (list Z)) : option (list Z) :=
  match filename, UziFile_Base filename with
  | Some s, Some base =>
    let end_ := base - 1 in
    if end_ <? 0 then None
    else if negb malloc_ok then None else Some (take (Z.to_nat end_) s)
  | _, _ => None
  end.

Definition UziFile_Extension (filename : option (list Z)) (dot : bool) : option Z :=
  match filename with
  | None => None
  | Some s =>
    match strrchr s DOT with
    | None => None
    | Some p => if dot then Some p else if 1 <? strlen s - p then Some (p + 1) else None
    end
  end.

(** ** The file system *)

Inductive node := Dir (mode : Z) | File (content : list Z) (mode : Z).
Abbreviation fs := (gmap (list Z) node).

Definition content_of (f : fs) (p : list Z) : option (list Z) :=
  match f !! p with Some (File c _) => Some c | _ => None end.

(** [ftello] after a seek to the end; an unseekable file answers -1. *)
Definition UziFile_Tell (seekable : bool) (content : list Z) : Z := if seekable then u64 (Z.of_nat (length content)) else u64 (-1).

(** What reading a name finds: the bytes, and what [ftello] answers at the end.
    A directory can be opened too, nothing can be read from it, and its end is
    where the system says ([dir_end]). *)
Definition stream_of (f : fs) (seekable : bool) (dir_end : Z) (p : list Z) : option (list Z * Z) :=
  match f !! p with
  | Some (File c _) => Some (c, UziFile_Tell seekable c)
  | Some (Dir _) => Some ([], u64 dir_end)
  | None => None
  end.

Definition UziFile_Size (f : fs) (seekable : bool) (dir_end : Z) (filename : list Z) : Z :=
  match stream_of f seekable dir_end filename with None => 0 | Some (_, size) => size end.

(** What [UziFile_Load] does with an opened stream: the data (with its padding),
    or a null pointer, and [*size]. [malloc n]: does the allocation of [n] bytes
    succeed; [nread]: how many bytes [fread] can read. Zeroing or reading outside
    the block is undefined. *)
Definition load_stream (malloc : Z → bool) (nread : nat) (padding : Z) (c : list Z) (size : Z) : res (option (list Z) * Z) :=
  let block := u64 (size + padding) in
  if negb (malloc block) then Ok (None, size)
  else if (0 <? padding) && (block <? size + padding) then UB
  else
    let data := take nread c in
    if block <? Z.of_nat (length data) then UB
    else if negb (Z.of_nat (length data) =? size) then Ok (None, if 0 <? padding then padding else 0)
    else Ok (Some (data ++ replicate (Z.to_nat padding) 0), u64 (size + padding)).

Definition UziFile_Load (f : fs) (seekable : bool) (dir_end : Z) (malloc : Z → bool) (nread : nat) (filename : option (list Z)) (padding : Z)
    : res (option (list Z) * Z) :=
  match filename with
  | None => Ok (None, 0)
  | Some name =>
    match stream_of f seekable dir_end name with
    | None => Ok (None, 0)
    | Some (c, size) => load_stream malloc nread padding c size
    end
  end.

(** What the system grants: the mask that takes bits off the modes asked for,
    whether the process may add entries to a directory of a mode, and whether it
    may to the root and to the current directory. *)
Record process := Process { umask : Z; may_add : Z → bool; may_start : bool }.

Definition granted (pr : process) (mode : Z) : Z := Z.land mode (Z.lnot (umask pr)).

Definition mode_of (n : node) : Z := match n with Dir m => m | File _ m => m end.

(** [fopen] for writing creates or empties the file; [nwritten] bytes of the
    data reach it. A new file gets the mode [fopen] asks for, 0666, an old one
    keeps its own: [mode] is not looked at. *)
Definition UziFile_Save (pr : process) (f : fs) (open_ok : bool) (nwritten : nat) (filename : option (list Z)) (data : option (list Z)) (mode : Z)
    : bool * fs :=
  match filename, data with
  | Some name, Some d =>
    if negb open_ok then (false, f)
    else (bool_decide (length (take nwritten d) = length d),
          <[name := File (take nwritten d) (from_option mode_of (granted pr 438) (f !! name))]> f)
  | _, _ => (false, f)
  end.

Definition S_IWUSR := 128.

(** [rename]: the name moves, and what was at the target is replaced. *)
Definition rename (f : fs) (src dst : list Z) : bool * fs :=
  match f !! src with
  | None => (false, f)
  | Some n => (true, <[dst := n]> (delete src f))
  end.

Definition UziFile_Move (f : fs) (src dst : list Z) (replace : bool) : bool * fs :=
  let st := f !! dst in
  if negb replace then
    match st with Some _ => (false, f) | None => rename f src dst end
  else
    match st with
    | Some n => if Z.land (mode_of n) S_IWUSR =? 0 then (false, f) else rename f src dst
    | None => rename f src dst
    end.

Definition UziFile_Exists (f : fs) (filename : list Z) : bool := bool_decide (is_Some (f !! filename)).

(** [unlink] removes files only. *)
Definition UziFile_Delete (f : fs) (filename : list Z) : bool * fs :=
  match f !! filename with Some (File _ _) => (true, delete filename f) | _ => (false, f) end.

(** The name that a path means: slashes at its end and repeated slashes do not
    count. The map holds such names. *)
Fixpoint canon (s : list Z) : list Z :=
  match s with
  | [] => []
  | x :: s =>
    match canon s with
    | [] => if x =? SLASH then [] else [x]
    | y :: t => if (x =? SLASH) && (y =? SLASH) then y :: t else x :: y :: t
    end
  end.

(** The directory a name lies in; the root and the current directory are the
    empty prefix. *)
Definition parent (p : list Z) : list Z := match strrchr p SLASH with Some i => take (Z.to_nat i) p | None => [] end.

(** May the process add entries to [p]? *)
Definition adds (pr : process) (f : fs) (p : list Z) : bool :=
  match p with
  | [] => may_start pr
  | _ => match f !! p with Some (Dir m) => may_add pr m | _ => false end
  end.

Definition mkdir (pr : process) (path : list Z) (mode : Z) (f : fs) : Z * fs :=
  let p := canon path in
  if bool_decide (p ≠ [] ∧ f !! p = None) && adds pr f (parent p) then (0, <[p := Dir (granted pr mode)]> f) else (-1, f).

Definition UziRmDir (f : fs) (path : list Z) : Z * fs :=
  let p := canon path in
  match f !! p with
  | Some (Dir _) => if bool_decide (map_Forall (λ q _, parent q ≠ p) f) then (0, delete p f) else (-1, f)
  | _ => (-1, f)
  end.

(** *** Making directories, for any file system [S] with its [mkdir] *)

Section Make.
Context {S : Type} (mkdir : list Z → Z → S → Z * S).

Definition UziMkDir (path : list Z) (mode : Z) (f : S) : Z * S := mkdir path (if mode =? 0 then 448 else mode) f.

(** The loop of [UziMkPath]: [q] is the next separator. The path is cut at [q]
    while the directory is made, and restored. *)
Definition strchr (s : list Z) (p : Z) : option Z := memchr s p SLASH (Z.of_nat (length s)).

Definition mkpath_body (path : list Z) (mode : Z) (st : option Z * S) : res (option Z * S + Z * S) :=
  match st.1 with
  | Some q => Ok (inl (strchr path (q + 1), (UziMkDir (take (Z.to_nat q) path) mode st.2).2))
  | None => Ok (inr (UziMkDir path mode st.2))
  end.

Definition UziMkPath (path : list Z) (mode : Z) (f : S) : res (Z * S) :=
  loop (2 + length path) (mkpath_body path mode) (strchr path 0, f).
End Make.

(** The permission bits, by the hexadecimal digits of the mode: the argument of
    [chmod]. *)
Definition chmod_bits : list (Z * Z) :=
  [(0x4000, 2048); (0x2000, 1024); (0x1000, 512); (0x0400, 256); (0x0200, 128); (0x0100, 64);
   (0x0040, 32); (0x0020, 16); (0x0010, 8); (0x0004, 4); (0x0002, 2); (0x0001, 1)].
Definition UziChMod (mode : Z) : Z :=
  foldl (λ fl b, Z.lor fl (if negb (Z.land mode b.1 =? 0) then b.2 else 0)) 0 chmod_bits.

(** ** Lemmas *)

Lemma strrchr_from_none s c p : (c ∉ s) → strrchr_from s c p = None.
Proof.
  revert p. induction s as [|x s IH]; intros p H; [done|]. apply not_elem_of_cons in H as [Hx Hs]. cbn. rewrite IH by done.
  by destruct (Z.eqb_spec x c); [congruence|].
Qed.

Lemma strrchr_from_app a b c p : (c ∉ b) → strrchr_from (a ++ c :: b) c p = Some (p + Z.of_nat (length a)).
Proof.
  intros Hb. revert p. induction a as [|x a IH]; intros p; cbn [app strrchr_from length].
  - rewrite strrchr_from_none by done. rewrite Z.eqb_refl. f_equal. lia.
  - rewrite IH. f_equal. lia.
Qed.

Lemma strrchr_app a b c : (c ∉ b) → strrchr (a ++ c :: b) c = Some (Z.of_nat (length a)).
Proof. intros Hb. unfold strrchr. by rewrite strrchr_from_app. Qed.

(** The last occurrence splits the string. *)
Lemma last_split (s : list Z) c : c ∈ s → ∃ a b, s = a ++ c :: b ∧ (c ∉ b).
Proof.
  induction s as [|x s IH]; [by intros ?%elem_of_nil|]. intros H. destruct (decide (c ∈ s)) as [Hs|Hs].
  - destruct (IH Hs) as (a & b & -> & Hb). by exists (x :: a), b.
  - apply elem_of_cons in H as [->|?]; [|done]. by exists [], s.
Qed.

Lemma strrchr_cases s c : ((c ∉ s) ∧ strrchr s c = None) ∨ (∃ a b, s = a ++ c :: b ∧ (c ∉ b) ∧ strrchr s c = Some (Z.of_nat (length a))).
Proof.
  destruct (decide (c ∈ s)) as [H|H]; [right|left; split; [done|by apply strrchr_from_none]].
  destruct (last_split s c H) as (a & b & -> & Hb). exists a, b. split_and!; [done|done|by apply strrchr_app].
Qed.

(** The base name after a separator [sep], the last one of its kind. *)
Lemma base_after s sep a b : s = a ++ sep :: b → (sep = BACKSLASH ∧ (BACKSLASH ∉ b)) ∨ (sep = SLASH ∧ (BACKSLASH ∉ s) ∧ (SLASH ∉ b)) →
  UziFile_Base (Some s) = Some (if bool_decide (b = []) then 0 else Z.of_nat (length a) + 1).
Proof.
  intros -> H. unfold UziFile_Base.
  assert (Hsep : match strrchr (a ++ sep :: b) BACKSLASH with Some p => Some p | None => strrchr (a ++ sep :: b) SLASH end = Some (Z.of_nat (length a))).
  { destruct H as [[-> Hb]|(-> & Hn & Hb)]; [by rewrite strrchr_app|]. unfold strrchr at 1. rewrite strrchr_from_none by done. by apply strrchr_app. }
  rewrite Hsep. unfold strlen. rewrite length_app. cbn [length]. case_bool_decide as Hb.
  - subst b. cbn [length]. by destruct (Z.ltb_spec 1 (Z.of_nat (length a + 1) - Z.of_nat (length a))); [lia|].
  - destruct b; [done|]. cbn [length]. by destruct (Z.ltb_spec 1 (Z.of_nat (length a + S (S (length b))) - Z.of_nat (length a))); [|lia].
Qed.

Lemma base_cases s : ((BACKSLASH ∉ s) ∧ (SLASH ∉ s) ∧ UziFile_Base (Some s) = Some 0) ∨
  ∃ a sep b, s = a ++ sep :: b ∧ ((sep = BACKSLASH ∧ (BACKSLASH ∉ b)) ∨ (sep = SLASH ∧ (BACKSLASH ∉ s) ∧ (SLASH ∉ b))).
Proof.
  destruct (strrchr_cases s BACKSLASH) as [[H1 E1]|(a & b & -> & Hb & _)]; [|right; exists a, BACKSLASH, b; by split; [|left]].
  destruct (strrchr_cases s SLASH) as [[H2 E2]|(a & b & -> & Hb & _)]; [|right; exists a, SLASH, b; by split; [|right]].
  left. split_and!; [done|done|]. unfold UziFile_Base. by rewrite E1, E2.
Qed.

(** ** Theorems *)

(** the parts of a path. When UziFile_Dir answers a directory, the path is
    the directory, a separator and a base name that is not empty; without a
    backslash the base name is what follows the last slash (with one, what
    follows the last backslash, slashes included). A path without a separator,
    or that ends in one, is its own base and has no directory. The extension is
    what follows the last dot, wherever it stands, in a directory's name too. *)
Theorem file_paths_spec s :
  (∀ d, UziFile_Dir true (Some s) = Some d →
     ∃ sep base, s = d ++ sep :: base ∧ UziFile_Base (Some s) = Some (Z.of_nat (length d) + 1) ∧ base ≠ [] ∧
       ((sep = SLASH ∧ (BACKSLASH ∉ s) ∧ (SLASH ∉ base)) ∨ (sep = BACKSLASH ∧ (BACKSLASH ∉ base)))) ∧
  (UziFile_Dir true (Some s) = None ↔
     ((BACKSLASH ∉ s) ∧ (SLASH ∉ s)) ∨ (∃ d, s = d ++ [BACKSLASH]) ∨ ((BACKSLASH ∉ s) ∧ ∃ d, s = d ++ [SLASH])) ∧
  (UziFile_Dir true (Some s) = None → UziFile_Base (Some s) = Some 0) ∧
  (∀ stem ext, (DOT ∉ ext) → UziFile_Extension (Some (stem ++ DOT :: ext)) true = Some (Z.of_nat (length stem)) ∧
     UziFile_Extension (Some (stem ++ DOT :: ext)) false = if bool_decide (ext = []) then None else Some (Z.of_nat (length stem) + 1)).
Proof.
  assert (Hext : ∀ stem ext, (DOT ∉ ext) → UziFile_Extension (Some (stem ++ DOT :: ext)) true = Some (Z.of_nat (length stem)) ∧
     UziFile_Extension (Some (stem ++ DOT :: ext)) false = if bool_decide (ext = []) then None else Some (Z.of_nat (length stem) + 1)).
  { intros stem ext He. unfold UziFile_Extension. rewrite strrchr_app by done. split; [done|]. unfold strlen. rewrite length_app. cbn [length].
    case_bool_decide as Hb; [subst ext; cbn [length]|destruct ext as [|x ext]; [done|]; cbn [length]].
    - by destruct (Z.ltb_spec 1 (Z.of_nat (length stem + 1) - Z.of_nat (length stem))); [lia|].
    - by destruct (Z.ltb_spec 1 (Z.of_nat (length stem + S (S (length ext))) - Z.of_nat (length stem))); [|lia]. }
  unfold UziFile_Dir. destruct (base_cases s) as [(H1 & H2 & ->)|(a & sep & b & Hs & Hsep)].
  - cbn [negb]. change (0 - 1 <? 0) with true. cbv iota. split_and!; [done| |done|done]. split; [by left|done].
  - rewrite (base_after s sep a b Hs Hsep). case_bool_decide as Hb.
    + change (0 - 1 <? 0) with true. cbv iota. subst b. split_and!; [done| |done|done]. split; [|done]. intros _.
      destruct Hsep as [[-> _]|(-> & Hn & _)]; [right; left; by exists a|right; right; split; [done|by exists a]].
    + destruct (Z.ltb_spec (Z.of_nat (length a) + 1 - 1) 0); [lia|]. cbn [negb].
      assert (Ht : take (Z.to_nat (Z.of_nat (length a) + 1 - 1)) s = a).
      { replace (Z.to_nat (Z.of_nat (length a) + 1 - 1)) with (length a) by lia. rewrite Hs. apply take_app_length. }
      rewrite Ht. split_and!; [| |done|done].
      * intros d [= <-]. exists sep, b. split_and!; try done. tauto.
      * split; [done|]. intros [[Hn1 Hn2]|[(d & Hd)|(Hn & d & Hd)]]; exfalso.
        -- destruct Hsep as [[-> _]|(-> & _)]; [apply Hn1|apply Hn2]; rewrite Hs; apply elem_of_app; right; by left.
        -- rewrite Hd in Hs. destruct b as [|x b _] using rev_ind; [done|].
           rewrite app_comm_cons, app_assoc in Hs. apply app_inj_tail in Hs as [Hs <-].
           destruct Hsep as [[_ Hx]|(_ & Hx & _)]; [apply Hx; apply elem_of_app; right; by left|].
           apply Hx. rewrite Hd. apply elem_of_app; right; by left.
        -- rewrite Hd in Hs. destruct b as [|x b _] using rev_ind; [done|].
           rewrite app_comm_cons, app_assoc in Hs. apply app_inj_tail in Hs as [Hs <-].
           destruct Hsep as [[-> Hx]|(_ & _ & Hx)]; [|apply Hx; apply elem_of_app; right; by left].
           apply Hn. rewrite Hd. apply elem_of_app. left. rewrite Hs. apply elem_of_app. right. by left.
Qed.

(** C39: saving and loading. What is saved in full is loaded back, followed by
    the padding of zeros, with the size of both; the other files stay as they
    are. A file that cannot be read in full gives a null pointer, but a size
    that is not 0 when padding was asked for. A file without a size (a pipe or a
    device, for which [ftello] answers -1) with padding is zeroed before the
    start of the block that was allocated. *)
Theorem file_load_spec pr f name data n mode padding malloc dir_end :
  Z.of_nat (length data) + padding < 2 ^ 64 → 0 <= padding → (length data ≤ n)%nat → (∀ b, malloc b = true) →
  (∃ f', UziFile_Save pr f true n (Some name) (Some data) mode = (true, f') ∧ (∀ p, p ≠ name → f' !! p = f !! p) ∧
     (∀ nread, (length data ≤ nread)%nat →
        UziFile_Load f' true dir_end malloc nread (Some name) padding =
        Ok (Some (data ++ replicate (Z.to_nat padding) 0), Z.of_nat (length data) + padding)) ∧
     (∀ nread, (nread < length data)%nat → UziFile_Load f' true dir_end malloc nread (Some name) padding = Ok (None, padding)) ∧
     (0 < padding → ∀ nread, UziFile_Load f' false dir_end malloc nread (Some name) padding = UB)) ∧
  (∀ n', (n' < length data)%nat → (UziFile_Save pr f true n' (Some name) (Some data) mode).1 = false).
Proof.
  intros Hlen Hpad Hn Hm. split.
  - set (m := from_option mode_of (granted pr 438) (f !! name)). exists (<[name := File data m]> f).
    assert (Hc : ∀ sk, stream_of (<[name := File data m]> f) sk dir_end name = Some (data, UziFile_Tell sk data))
      by (intros sk; unfold stream_of; by rewrite lookup_insert_eq).
    assert (Hl : u64 (Z.of_nat (length data)) = Z.of_nat (length data)) by (apply wrap_id; unfold urange; lia).
    assert (Hlp : u64 (Z.of_nat (length data) + padding) = Z.of_nat (length data) + padding) by (apply wrap_id; unfold urange; lia).
    split_and!.
    + unfold UziFile_Save. cbn [negb]. rewrite take_ge by done. by rewrite bool_decide_true.
    + intros p Hp. by rewrite lookup_insert_ne.
    + intros nread Hr. unfold UziFile_Load. rewrite Hc. unfold load_stream. rewrite Hm. unfold UziFile_Tell. rewrite Hl, Hlp, Z.ltb_irrefl, andb_false_r. cbn [negb].
      rewrite take_ge by done. destruct (Z.ltb_spec (Z.of_nat (length data) + padding) (Z.of_nat (length data))); [lia|]. rewrite Z.eqb_refl. cbn [negb]. done.
    + intros nread Hr. unfold UziFile_Load. rewrite Hc. unfold load_stream. rewrite Hm. unfold UziFile_Tell. rewrite Hl, Hlp, Z.ltb_irrefl, andb_false_r. cbn [negb].
      rewrite length_take. destruct (Z.ltb_spec (Z.of_nat (length data) + padding) (Z.of_nat (nread `min` length data))); [lia|].
      destruct (Z.eqb_spec (Z.of_nat (nread `min` length data)) (Z.of_nat (length data))); [lia|]. cbn [negb].
      destruct (Z.ltb_spec 0 padding); [done|]. do 2 f_equal. lia.
    + intros Hp nread. unfold UziFile_Load. rewrite Hc. unfold load_stream. rewrite Hm. unfold UziFile_Tell. cbn [negb].
      assert (Hu : u64 (-1) = 2 ^ 64 - 1) by reflexivity. rewrite Hu. rewrite (proj2 (Z.ltb_lt 0 padding)) by done.
      assert (Hw : u64 (2 ^ 64 - 1 + padding) < 2 ^ 64) by (apply (wrap_range 64); lia).
      by rewrite (proj2 (Z.ltb_lt _ _)) by lia.
  - intros n' Hn'. unfold UziFile_Save. cbn [negb fst]. apply bool_decide_false. rewrite length_take. lia.
Qed.

(** *** Making a path *)

(** What precedes each slash of [s], after [pre]. *)
Fixpoint cuts (pre s : list Z) : list (list Z) :=
  match s with [] => [] | x :: s => (if x =? SLASH then [pre] else []) ++ cuts (pre ++ [x]) s end.

(** The calls of [UziMkDir], one after the other; the answer of the last. *)
Definition make_each {S} (mkdir : list Z → Z → S → Z * S) (mode : Z) (ps : list (list Z)) (f : S) : Z * S :=
  foldl (λ r p, UziMkDir mkdir p mode r.2) (0, f) ps.

Lemma make_each_snoc {S} (mkdir : list Z → Z → S → Z * S) mode ps p f :
  make_each mkdir mode (ps ++ [p]) f = UziMkDir mkdir p mode (make_each mkdir mode ps f).2.
Proof. unfold make_each. by rewrite foldl_app. Qed.

(** The answer of the calls before does not matter. *)
Lemma make_each_cons {S} (mkdir : list Z → Z → S → Z * S) mode p ps f :
  make_each mkdir mode (p :: ps) f =
  match ps with [] => UziMkDir mkdir p mode f | _ => make_each mkdir mode ps (UziMkDir mkdir p mode f).2 end.
Proof. by destruct ps. Qed.

Lemma mkpath_loop {S} (mkdir : list Z → Z → S → Z * S) mode s : ∀ pre f fuel, (length s < fuel)%nat →
  loop fuel (mkpath_body mkdir (pre ++ s) mode) (strchr (pre ++ s) (Z.of_nat (length pre)), f) =
  Ok (make_each mkdir mode (cuts pre s ++ [pre ++ s]) f).
Proof.
  induction s as [|x s IH]; intros pre f [|fuel] Hf; cbn [length] in Hf; try lia;
    unfold strchr in *; rewrite memchr_app; cbn [memchr_from cuts].
  - cbn [loop]. by rewrite app_nil_r.
  - assert (E : pre ++ x :: s = (pre ++ [x]) ++ s) by (by rewrite <- app_assoc).
    assert (En : Z.of_nat (length pre) + 1 = Z.of_nat (length (pre ++ [x]))) by (rewrite length_app; cbn [length]; lia).
    destruct (x =? SLASH).
    + rewrite (loop_unfold _ _ _ (strchr (pre ++ x :: s) (Z.of_nat (length pre) + 1), (UziMkDir mkdir pre mode f).2))
        by (unfold mkpath_body; cbn [fst snd]; by rewrite Nat2Z.id, take_app_length).
      unfold strchr. rewrite E, En, IH by lia. cbn [app]. rewrite make_each_cons. by destruct (cuts (pre ++ [x]) s).
    + cbn [app]. rewrite En, E. specialize (IH (pre ++ [x]) f (Datatypes.S fuel) ltac:(lia)). by rewrite memchr_app in IH.
Qed.

(** [UziMkPath] is the calls for what precedes each slash, from left to right,
    and for the path. *)
Lemma UziMkPath_calls {S} (mkdir : list Z → Z → S → Z * S) path mode f :
  UziMkPath mkdir path mode f = Ok (make_each mkdir mode (cuts [] path ++ [path]) f).
Proof. apply (mkpath_loop mkdir mode path [] f). lia. Qed.

(** **** Names *)

Fixpoint join (l : list (list Z)) : list Z :=
  match l with [] => [] | [c] => c | c :: l => c ++ SLASH :: join l end.

(** The directories on the way to a path below [pre], the path included. *)
Fixpoint prefixes (pre : list Z) (l : list (list Z)) : list (list Z) :=
  match l with [] => [] | c :: l => (pre ++ c) :: prefixes (pre ++ c ++ [SLASH]) l end.

Definition component (c : list Z) : Prop := c ≠ [] ∧ (SLASH ∉ c).

Lemma cuts_skip c : (SLASH ∉ c) → ∀ pre r, cuts pre (c ++ r) = cuts (pre ++ c) r.
Proof.
  induction c as [|x c IH]; intros Hc pre r; [by rewrite app_nil_r|]. apply not_elem_of_cons in Hc as [Hx Hc]. cbn.
  rewrite (proj2 (Z.eqb_neq x SLASH)), IH by done. by rewrite <- app_assoc.
Qed.

Lemma cuts_snoc s : ∀ pre, cuts pre (s ++ [SLASH]) = cuts pre s ++ [pre ++ s].
Proof.
  induction s as [|x s IH]; intros pre; cbn; [by rewrite app_nil_r|]. rewrite IH, <- !app_assoc. done.
Qed.

Lemma cuts_prefixes l : l ≠ [] → Forall component l → ∀ pre, cuts pre (join l) ++ [pre ++ join l] = prefixes pre l.
Proof.
  intros Hne Hl. induction Hl as [|c l [_ Hc] Hl IH]; intros pre; [done|]. destruct l as [|c2 l].
  - cbn [join prefixes]. rewrite <- (app_nil_r c) at 1. by rewrite cuts_skip.
  - change (join (c :: c2 :: l)) with (c ++ SLASH :: join (c2 :: l)). rewrite cuts_skip by done. cbn [cuts].
    rewrite Z.eqb_refl. cbn [app]. change (prefixes pre (c :: c2 :: l)) with ((pre ++ c) :: prefixes (pre ++ c ++ [SLASH]) (c2 :: l)).
    f_equal. rewrite <- IH by done. f_equal; [by rewrite <- app_assoc|]. by rewrite <- !app_assoc.
Qed.

Lemma canon_char x s : x ≠ SLASH → canon (x :: s) = x :: canon s.
Proof. intros Hx. cbn. apply Z.eqb_neq in Hx as ->. by destruct (canon s). Qed.

Lemma canon_component c r : (SLASH ∉ c) → canon (c ++ r) = c ++ canon r.
Proof.
  induction c as [|x c IH]; intros Hc; [done|]. apply not_elem_of_cons in Hc as [Hx Hc]. cbn [app].
  rewrite canon_char, IH by done. done.
Qed.

Lemma canon_snoc s : canon (s ++ [SLASH]) = canon s.
Proof. induction s as [|x s IH]; [done|]. cbn. by rewrite IH. Qed.

Lemma canon_join l : l ≠ [] → Forall component l → canon (join l) = join l ∧ canon (SLASH :: join l) = SLASH :: join l.
Proof.
  intros Hne Hl. induction Hl as [|c l [Hc0 Hc] Hl IH]; [done|].
  assert (E : canon (join (c :: l)) = join (c :: l)).
  { destruct l as [|c2 l]; [cbn [join]; rewrite <- (app_nil_r c) at 1; by rewrite canon_component, app_nil_r|].
    change (join (c :: c2 :: l)) with (c ++ SLASH :: join (c2 :: l)). rewrite canon_component by done. f_equal. by apply IH. }
  split; [done|]. assert (Hh : ∃ y t, join (c :: l) = y :: t ∧ y ≠ SLASH).
  { destruct c as [|y c]; [done|]. apply not_elem_of_cons in Hc as [Hy _].
    destruct l; cbn [join app]; eexists _, _; split; try done; congruence. }
  destruct Hh as (y & t & Ey & Hy). cbn [canon]. rewrite E, Ey. apply Z.eqb_neq in Hy as ->. by rewrite andb_false_r.
Qed.

(** The beginning of a path before a component, and the components before it. *)
Definition before (lead : list Z) (l : list (list Z)) : list Z := lead ++ concat (map (λ c, c ++ [SLASH]) l).

Lemma before_snoc lead l c : before lead (l ++ [c]) = before lead l ++ c ++ [SLASH].
Proof. unfold before. rewrite map_app, concat_app. cbn. by rewrite app_nil_r, <- app_assoc. Qed.

Lemma before_join lead l c : before lead l ++ c = lead ++ join (l ++ [c]).
Proof.
  unfold before. rewrite <- app_assoc. f_equal. induction l as [|b l IH]; [done|]. cbn [map concat app]. rewrite <- !app_assoc, IH. cbn [app].
  by destruct l.
Qed.

(** Each name lies in the one before it, the first in [d]. *)
Fixpoint chain (d : list Z) (ps : list (list Z)) : Prop :=
  match ps with [] => True | p :: ps => parent p = d ∧ canon p = p ∧ (length d < length p)%nat ∧ chain p ps end.

Lemma parent_snoc q c : (SLASH ∉ c) → parent (q ++ SLASH :: c) = q.
Proof. intros Hc. unfold parent. rewrite strrchr_app by done. rewrite Nat2Z.id. apply take_app_length. Qed.

Definition container (lead : list Z) (l : list (list Z)) : list Z := match l with [] => [] | _ => lead ++ join l end.

Lemma before_container lead l c : lead = [] ∨ lead = [SLASH] → component c → parent (before lead l ++ c) = container lead l.
Proof.
  intros Hlead [Hc0 Hc]. destruct l as [|b l _] using rev_ind.
  - cbn [container]. unfold before. cbn [map concat]. rewrite app_nil_r. destruct Hlead as [->| ->].
    + unfold parent, strrchr. cbn [app]. by rewrite strrchr_from_none.
    + by apply (parent_snoc []).
  - rewrite before_snoc, <- app_assoc. replace (before lead l ++ b ++ [SLASH] ++ c) with ((before lead l ++ b) ++ SLASH :: c) by (by rewrite <- app_assoc).
    rewrite <- app_assoc. cbn [app]. rewrite app_assoc, parent_snoc, before_join by done. unfold container. by destruct l.
Qed.

Lemma chain_prefixes lead l : lead = [] ∨ lead = [SLASH] → Forall component l → ∀ l0, Forall component l0 →
  chain (container lead l0) (prefixes (before lead l0) l).
Proof.
  intros Hlead. induction 1 as [|c l Hc Hl IH]; intros l0 Hl0; [done|]. cbn [prefixes chain].
  assert (Hj : before lead l0 ++ c = lead ++ join (l0 ++ [c])) by apply before_join.
  assert (Hl1 : Forall component (l0 ++ [c])) by (apply Forall_app; split; [done|by constructor]).
  assert (Hne : l0 ++ [c] ≠ []) by (by destruct l0).
  split_and!.
  - by apply before_container.
  - rewrite Hj. destruct (canon_join (l0 ++ [c]) Hne Hl1), Hlead as [->| ->]; done.
  - destruct Hc as [Hc0 Hc]. assert (0 < length c)%nat by (destruct c; [done|cbn; lia]). unfold container.
    destruct l0 as [|b l0 _] using rev_ind; [rewrite length_app; cbn [length]; lia|].
    replace (match l0 ++ [b] with [] => [] | _ => lead ++ join (l0 ++ [b]) end) with (before lead l0 ++ b) by (rewrite before_join; by destruct l0).
    rewrite before_snoc, !length_app. cbn [length]. lia.
  - rewrite <- before_snoc. replace (before lead l0 ++ c) with (container lead (l0 ++ [c])); [by apply IH|].
    rewrite Hj. unfold container. by destruct (l0 ++ [c]).
Qed.

(** *** Making directories on the file system *)

Section MakePath.
Context (pr : process) (mode : Z).

(** The mode of the directories that are made. *)
Definition dir_mode : Z := granted pr (if mode =? 0 then 448 else mode).

Local Abbreviation make := (make_each (mkdir pr) mode).

Lemma mkdir_made f p : canon p = p → p ≠ [] → f !! p = None → adds pr f (parent p) = true →
  UziMkDir (mkdir pr) p mode f = (0, <[p := Dir dir_mode]> f).
Proof. intros Hc Hp Hf Ha. unfold UziMkDir, mkdir. rewrite Hc, Ha, bool_decide_true by done. done. Qed.

Lemma mkdir_fails f p : canon p = p → is_Some (f !! p) ∨ adds pr f (parent p) = false → UziMkDir (mkdir pr) p mode f = (-1, f).
Proof.
  intros Hc H. unfold UziMkDir, mkdir. rewrite Hc. destruct H as [[n Hn]| ->]; [|by rewrite andb_false_r].
  rewrite bool_decide_false; [done|]. intros [_ ?]. congruence.
Qed.

(** The empty name, before the slash of an absolute path. *)
Lemma mkdir_empty f : UziMkDir (mkdir pr) [] mode f = (-1, f).
Proof. unfold UziMkDir, mkdir. cbn [canon]. rewrite bool_decide_false; [done|]. by intros [? _]. Qed.

(** Nothing more is made by a second attempt. *)
Lemma mkdir_again p p' f : canon p' = canon p → UziMkDir (mkdir pr) p' mode (UziMkDir (mkdir pr) p mode f).2 = (-1, (UziMkDir (mkdir pr) p mode f).2).
Proof.
  intros Hc. unfold UziMkDir, mkdir. rewrite Hc. set (q := canon p).
  destruct (bool_decide (q ≠ [] ∧ f !! q = None) && adds pr f (parent q)) eqn:E; cbn [snd]; [|by rewrite E].
  rewrite (bool_decide_false (q ≠ [] ∧ <[q := _]> f !! q = None)); [done|]. rewrite lookup_insert_eq. by intros [_ ?].
Qed.

Lemma chain_longer d ps p : chain d ps → p ∈ ps → (length d < length p)%nat.
Proof.
  revert d. induction ps as [|q ps IH]; intros d; [by intros _ ?%elem_of_nil|]. intros (_ & _ & Hd & Hc) [->|Hp]%elem_of_cons; [done|].
  specialize (IH q Hc Hp). lia.
Qed.

Lemma chain_drop d ps1 p ps2 : chain d (ps1 ++ p :: ps2) → chain (parent p) (p :: ps2).
Proof.
  revert d. induction ps1 as [|x ps1 IH]; intros d; cbn [app].
  - intros Hc. pose proof Hc as (-> & _). exact Hc.
  - intros (_ & _ & _ & Hc). by eapply IH.
Qed.

(** A way that cannot be entered. *)
Lemma make_blocked f ps : ∀ d, chain d ps → adds pr f d = false → (∀ p, p ∈ ps → f !! p = None) →
  ps ≠ [] → make ps f = (-1, f).
Proof.
  induction ps as [|p ps IH]; intros d Hc Ha Hn Hne; [done|]. destruct Hc as (Hp & Hcp & Hl & Hc).
  rewrite make_each_cons, (mkdir_fails f p Hcp) by (right; by rewrite Hp). cbn [snd]. destruct ps as [|q ps]; [done|].
  apply (IH p); [done| |intros x Hx; apply Hn; by right|done]. unfold adds. destruct p; [cbn in Hl; lia|]. by rewrite Hn by (by left).
Qed.

(** Directories that are there are passed over. *)
Lemma make_over f ps1 ps2 : ∀ d, chain d (ps1 ++ ps2) → (∀ p, p ∈ ps1 → is_Some (f !! p)) →
  make (ps1 ++ ps2) f = match ps2 with [] => (if decide (ps1 = []) then 0 else -1, f) | _ => make ps2 f end.
Proof.
  induction ps1 as [|p ps1 IH]; intros d Hc Hs; [by destruct ps2|]. destruct Hc as (Hp & Hcp & _ & Hc). cbn [app].
  rewrite make_each_cons, (mkdir_fails f p Hcp) by (left; apply Hs; by left). cbn [snd].
  rewrite (IH p Hc) by (intros x Hx; apply Hs; by right). destruct ps1, ps2; done.
Qed.

(** Everything is made where everything may be. *)
Lemma make_all f ps : may_add pr dir_mode = true → ∀ d, chain d ps → adds pr f d = true →
  (∀ p, p ∈ ps → f !! p = None ∨ ∃ m, f !! p = Some (Dir m) ∧ may_add pr m = true) →
  let r := make ps f in
  (∀ p, r.2 !! p = if decide (p ∈ ps ∧ f !! p = None) then Some (Dir dir_mode) else f !! p) ∧
  (∀ p, last ps = Some p → r.1 = if decide (f !! p = None) then 0 else -1).
Proof.
  intros Hm. revert f. induction ps as [|p ps IH]; intros f d Hc Ha Hw.
  { split; [|done]. intros p. rewrite decide_False; [done|]. by intros [?%elem_of_nil _]. }
  pose proof Hc as (Hp & Hcp & Hl & Hch). assert (Hp0 : p ≠ []) by (intros ->; cbn in Hl; lia).
  set (f1 := (UziMkDir (mkdir pr) p mode f).2).
  assert (Hf1 : ∀ q, f1 !! q = if decide (q = p ∧ f !! p = None) then Some (Dir dir_mode) else f !! q).
  { intros q. unfold f1. destruct (Hw p ltac:(by left)) as [Hn|(m & Hm' & _)].
    - rewrite mkdir_made by (rewrite ?Hp; done). cbn [snd]. destruct (decide (q = p)) as [->|Hq].
      + by rewrite lookup_insert_eq, decide_True.
      + rewrite lookup_insert_ne, decide_False by naive_solver. done.
    - rewrite (mkdir_fails f p Hcp) by eauto. cbn [snd]. rewrite decide_False; [done|]. intros [_ ?]. congruence. }
  assert (Hlast : (UziMkDir (mkdir pr) p mode f).1 = if decide (f !! p = None) then 0 else -1).
  { case_decide as Hn; [by rewrite mkdir_made by (rewrite ?Hp; done)|]. rewrite (mkdir_fails f p Hcp); [done|]. left. by apply not_eq_None_Some. }
  rewrite make_each_cons. destruct ps as [|q ps].
  { split.
    - intros x. rewrite Hf1. repeat case_decide; rewrite ?list_elem_of_singleton in *; try done; naive_solver.
    - by intros x [= <-]. }
  assert (Hnot : ∀ x, x ∈ q :: ps → x ≠ p) by (intros x Hx ->; pose proof (chain_longer p _ _ Hch Hx); lia).
  destruct (IH f1 p Hch) as [H1 H2].
  - unfold adds. destruct p as [|y p']; [by destruct Hp0|]. rewrite Hf1. clear Hlast. destruct (decide _) as [E|E]; [exact Hm|].
    destruct (Hw (y :: p') ltac:(by left)) as [Hn|(m & -> & ?)]; [|done]. by destruct E.
  - intros x Hx. rewrite Hf1, decide_False by (intros [? _]; by apply (Hnot x)). apply Hw. by right.
  - split.
    + intros x. etransitivity; [exact (H1 x)|]. rewrite Hf1. clear -Hnot. specialize (Hnot x).
      repeat case_decide; rewrite ?(elem_of_cons (q :: ps)) in *; try done; tauto || naive_solver.
    + intros x Hx. change (last (p :: q :: ps)) with (last (q :: ps)) in Hx. etransitivity; [exact (H2 x Hx)|]. rewrite Hf1, (decide_False (P := x = p ∧ _)); [done|].
      intros [-> _]. by apply (Hnot p); [apply last_Some_elem_of|].
Qed.
End MakePath.

(** C40: making a path. (1) On any file system [UziMkPath] returns; it calls
    [UziMkDir] for what precedes each slash of the path, from left to right, and
    for the path, and gives the answer of the last call, whatever the others
    answer. Then on the file system of this file, for a relative or absolute path
    of components, whose directories are [ps] in order: (2) where every
    directory that is there, or is made, lets the process add to it and no file
    is in the way, exactly the missing directories are made, with the mode asked
    for (0700 for 0) under the mask, and the answer is 0 when the last one was
    missing and -1 when it was there; (3) when the first missing directory may not
    be made (a file or a directory that cannot be added to comes before it), or
    nothing is missing, nothing is made and the answer is -1; (4) when the mode
    asked for does not let the process add to the directories it makes, only the
    first of several missing directories is made and the answer is -1. (5) With a
    slash at its end a path is made in the same way, but the answer is -1. *)
Theorem make_path_spec :
  (∀ (S : Type) (mkdir : list Z → Z → S → Z * S) path mode f,
     UziMkPath mkdir path mode f = Ok (make_each mkdir mode (cuts [] path ++ [path]) f)) ∧
  (∀ pr mode f lead l, l ≠ [] → Forall component l → lead = [] ∨ lead = [SLASH] →
     let ps := prefixes lead l in let path := lead ++ join l in let m := dir_mode pr mode in
     (may_start pr = true → may_add pr m = true →
      (∀ p, p ∈ ps → f !! p = None ∨ ∃ m, f !! p = Some (Dir m) ∧ may_add pr m = true) →
      ∃ f', UziMkPath (mkdir pr) path mode f = Ok (if decide (f !! path = None) then 0 else -1, f') ∧
        ∀ p, f' !! p = if decide (p ∈ ps ∧ f !! p = None) then Some (Dir m) else f !! p) ∧
     (∀ ps1 ps2, ps = ps1 ++ ps2 → (∀ p, p ∈ ps1 → is_Some (f !! p)) → (∀ p, p ∈ ps2 → f !! p = None) →
      (∀ p, head ps2 = Some p → adds pr f (parent p) = false) →
      UziMkPath (mkdir pr) path mode f = Ok (-1, f)) ∧
     (∀ ps1 p q ps2, ps = ps1 ++ p :: q :: ps2 → (∀ x, x ∈ ps1 → is_Some (f !! x)) → (∀ x, x ∈ p :: q :: ps2 → f !! x = None) →
      adds pr f (parent p) = true → may_add pr m = false →
      UziMkPath (mkdir pr) path mode f = Ok (-1, <[p := Dir m]> f))) ∧
  (∀ pr path mode f r, UziMkPath (mkdir pr) path mode f = Ok r →
     UziMkPath (mkdir pr) (path ++ [SLASH]) mode f = Ok (-1, r.2)).
Proof.
  split; [intros; apply UziMkPath_calls|]. split.
  - intros pr mode f lead l Hne Hl Hlead ps path m.
    assert (Hch : chain [] ps).
    { pose proof (chain_prefixes lead l Hlead Hl [] ltac:(constructor)) as H. cbn [container] in H. unfold before in H. cbn in H. by rewrite app_nil_r in H. }
    assert (Hcalls : UziMkPath (mkdir pr) path mode f = Ok (make_each (mkdir pr) mode ps f)).
    { rewrite UziMkPath_calls. f_equal. unfold ps, path. destruct Hlead as [->| ->].
      - cbn [app]. by rewrite <- (cuts_prefixes l Hne Hl []).
      - cbn [app cuts]. rewrite Z.eqb_refl. cbn [app]. rewrite make_each_cons, mkdir_empty, <- (cuts_prefixes l Hne Hl [SLASH]). by destruct (cuts [SLASH] (join l)). }
    rewrite Hcalls. assert (Hlast : last ps = Some path).
    { unfold ps, path. rewrite <- (cuts_prefixes l Hne Hl lead). apply last_snoc. }
    split_and!.
    + intros Hst Hm Hw. destruct (make_all pr mode f ps Hm [] Hch Hst Hw) as [H1 H2]. exists (make_each (mkdir pr) mode ps f).2.
      split; [|done]. rewrite <- (H2 path Hlast). by rewrite <- surjective_pairing.
    + intros ps1 ps2 Hps H1 H2 H3. rewrite Hps in *. rewrite (make_over pr mode f ps1 ps2 [] Hch H1).
      destruct ps2 as [|p ps2]; [by destruct ps1|]. f_equal.
      assert (Hc2 := chain_drop _ _ _ _ Hch).
      apply (make_blocked pr mode f _ (parent p)); [done|by apply H3|done|done].
    + intros ps1 p q ps2 Hps H1 H2 H3 H4. rewrite Hps in *. rewrite (make_over pr mode f ps1 (p :: q :: ps2) [] Hch H1). f_equal.
      assert (Hc2 := chain_drop _ _ _ _ Hch).
      destruct Hc2 as (_ & Hcp & Hlen & Hc2). assert (Hp0 : p ≠ []) by (intros ->; cbn in Hlen; lia).
      rewrite make_each_cons, mkdir_made by (try apply H2; try done; by left). cbn [snd].
      apply (make_blocked pr mode _ _ p); [done| | |done].
      * unfold adds. destruct p; [done|]. by rewrite lookup_insert_eq.
      * intros x Hx. rewrite lookup_insert_ne; [apply H2; by right|]. intros <-. pose proof (chain_longer p _ _ Hc2 Hx). lia.
  - intros pr path mode f r. rewrite !UziMkPath_calls. intros [= <-]. f_equal. rewrite cuts_snoc. cbn [app].
    rewrite (make_each_snoc _ _ (cuts [] path ++ [path])), make_each_snoc. apply mkdir_again, canon_snoc.
Qed.

(** The mode bits: four hexadecimal digits become four octal ones. *)
Lemma UziChMod_octal a b c d : 0 <= a < 8 → 0 <= b < 8 → 0 <= c < 8 → 0 <= d < 8 →
  UziChMod (a * 4096 + b * 256 + c * 16 + d) = a * 512 + b * 64 + c * 8 + d.
Proof.
  intros Ha Hb Hc Hd.
  assert (H : forall_below 8 (λ a, forall_below 8 (λ b, forall_below 8 (λ c, forall_below 8 (λ d,
    UziChMod (a * 4096 + b * 256 + c * 16 + d) =? a * 512 + b * 64 + c * 8 + d)))) = true) by (vm_compute; reflexivity).
  apply Z.eqb_eq.
  exact (forall_below_spec _ _ (forall_below_spec _ _ (forall_below_spec _ _ (forall_below_spec _ _ H a Ha) b Hb) c Hc) d Hd).
Qed.

Lemma file_paths_spec_witness :
  UziFile_Base (Some [97; SLASH; 98]) = Some 2 ∧ UziFile_Extension (Some [97; DOT; 98; SLASH; 99]) false = Some 2.
Proof.
  destruct (file_paths_spec [97; SLASH; 98]) as (H1 & _ & _ & _). destruct (file_paths_spec []) as (_ & _ & _ & H2). split.
  - destruct (H1 [97] eq_refl) as (sep & base & Hs & Hb & _). exact Hb.
  - exact (proj2 (H2 [97] [98; SLASH; 99] ltac:(by_decision))).
Defined.

Definition anyone : process := Process 18 (λ m, Z.land m 192 =? 192) true.

Lemma file_load_spec_witness :
  ∃ f', UziFile_Save anyone ∅ true 2 (Some [97]) (Some [1; 2]) 448 = (true, f') ∧ f' !! [97] = Some (File [1; 2] 420) ∧
    UziFile_Load f' true 0 (λ _, true) 2 (Some [97]) 1 = Ok (Some [1; 2; 0], 3) ∧ UziFile_Load f' false 0 (λ _, true) 2 (Some [97]) 1 = UB.
Proof.
  destruct (file_load_spec anyone ∅ [97] [1; 2] 2 448 1 (λ _, true) 0) as [(f' & H1 & _ & H2 & _ & H3) _]; [cbn; lia|lia|cbn; lia|done|].
  exists f'. split; [exact H1|]. split; [|split; [exact (H2 2%nat ltac:(cbn; lia))|exact (H3 ltac:(lia) 2%nat)]].
  injection H1 as <-. reflexivity.
Defined.

(** "a/b/c" below a directory "a", with a mode of use and with one that does not
    let the owner in. *)
Lemma make_path_spec_witness :
  let f : fs := {[ [97] := Dir 448 ]} in let path := [97; SLASH; 98; SLASH; 99] in
  (∃ f', UziMkPath (mkdir anyone) path 0 f = Ok (0, f') ∧ f' !! [97; SLASH; 98; SLASH; 99] = Some (Dir 448)) ∧
  UziMkPath (mkdir anyone) path 256 f = Ok (-1, <[ [97; SLASH; 98] := Dir 256 ]> f).
Proof.
  destruct make_path_spec as (_ & H & _).
  destruct (H anyone 0 {[ [97] := Dir 448 ]} [] [[97]; [98]; [99]]) as (H1 & _ & _); [done|repeat constructor; by_decision|by left|].
  destruct (H anyone 256 {[ [97] := Dir 448 ]} [] [[97]; [98]; [99]]) as (_ & _ & H3); [done|repeat constructor; by_decision|by left|].
  split.
  - destruct H1 as (f' & H1 & H2); [done|done| |].
    + intros p [->|[->|[->|[]%elem_of_nil]%elem_of_cons]%elem_of_cons]%elem_of_cons; [right; by exists 448|by left|by left].
    + exists f'. split; [exact H1|]. rewrite H2. vm_compute. reflexivity.
  - apply (H3 [[97]] [97; SLASH; 98] [97; SLASH; 98; SLASH; 99] []); [done| | |done|done].
    + intros x [->|[]%elem_of_nil]%elem_of_cons. by eexists.
    + intros x [->|[->|[]%elem_of_nil]%elem_of_cons]%elem_of_cons; done.
Defined.
