(* ===== verification/FileWin.v ===== *)
(** The Windows branches of src/libuzi/file.c: names are converted to UTF-16
    (Unicode.v) into a buffer of the stack before the system is called. *)

From stdpp Require Import list.
From S2P Require Import Prelude Unicode File.
Import Spec.

Set Warnings "-clear-no-such-hyp".

(** The Windows calls, on names before their terminating zero; [W] is the state
    of the system. [fopen] takes bytes; [stream] is what reading an open stream
    finds and the position of its end. *)
Class WinFiles (W : Type) := {
  fopen : list Z → list Z → W → Z * W;
  stream : Z → W → list Z * Z;
  fwrite : list Z → Z → W → nat * W;
  fclose : Z → W → W;
  _wfopen : list Z → list Z → W → Z * W;
  MoveFileW : list Z → list Z → W → bool * W;
  PathFileExistsW : list Z → W → bool;
  DeleteFileW : list Z → W → bool * W;
  CreateDirectoryW : list Z → W → bool * W;
  RemoveDirectoryW : list Z → W → bool * W;
  _wchmod : list Z → Z → W → Z * W }.

Definition UZI_MAX_PATH := 1024.

(** The name that a call sees in a buffer; without a zero it reads past its end. *)
Definition name_in (buffer : list Z) : res (list Z) := n ← unit_strlen buffer; Ok (take (Z.to_nat n) buffer).

(** [UziUtf8toUtf16(s, -1, buffer, sizeof(buffer) / 2)], its answer ignored;
    [buffer] holds what the stack holds. *)
Definition wide_name (s buffer : list Z) : res (list Z) :=
  r ← UziUtf8toUtf16 s (-1) buffer (Z.of_nat (length buffer)); name_in r.2.

Section Files.
Context {W : Type} `{WinFiles W}.

Definition UziFile_Open (path mode : option (list Z)) (pathW modeW : list Z) (w : W) : res (Z * W) :=
  match path, mode with
  | Some path, Some mode => m ← wide_name mode modeW; p ← wide_name path pathW; Ok (_wfopen p m w)
  | _, _ => Ok (0, w)
  end.

(** The modes "rb", "wb" and "r", with their terminating zeros. *)
Definition mode_rb : list Z := [114; 98; 0].
Definition mode_wb : list Z := [119; 98; 0].
Definition mode_r : list Z := [114].

Definition UziFile_Load (malloc : Z → bool) (nread : nat) (filename : option (list Z)) (padding : Z) (pathW modeW : list Z) (w : W)
    : res (option (list Z) * Z * W) :=
  match filename with
  | None => Ok (None, 0, w)
  | Some _ =>
    r ← UziFile_Open filename (Some mode_rb) pathW modeW w;
    let '(fp, w) := r in
    if fp =? 0 then Ok (None, 0, w)
    else let '(c, size) := stream fp w in x ← load_stream malloc nread padding c (u64 size); Ok (x.1, x.2, fclose fp w)
  end.

(** [mode] is not looked at. *)
Definition UziFile_Save (filename data : option (list Z)) (mode : Z) (pathW modeW : list Z) (w : W) : res (bool * W) :=
  match filename, data with
  | Some _, Some d =>
    r ← UziFile_Open filename (Some mode_wb) pathW modeW w;
    let '(fp, w) := r in
    if fp =? 0 then Ok (false, w)
    else let '(n, w) := fwrite d fp w in Ok (Z.of_nat n =? Z.of_nat (length d), fclose fp w)
  | _, _ => Ok (false, w)
  end.

(** The name goes to [fopen] as it is, on Windows too. *)
Definition UziFile_Size (filename : list Z) (w : W) : res (Z * W) :=
  n ← name_in filename;
  let '(fp, w) := fopen n mode_r w in
  if fp =? 0 then Ok (0, w) else Ok (u64 (stream fp w).2, fclose fp w).

(** [replace] is not looked at. *)
Definition UziFile_Move (src dst : list Z) (replace : bool) (srcW dstW : list Z) (w : W) : res (bool * W) :=
  s ← wide_name src srcW; d ← wide_name dst dstW; Ok (MoveFileW s d w).
Definition UziFile_Exists (filename filenameW : list Z) (w : W) : res bool := f ← wide_name filename filenameW; Ok (PathFileExistsW f w).
Definition UziFile_Delete (filename filenameW : list Z) (w : W) : res (bool * W) := f ← wide_name filename filenameW; Ok (DeleteFileW f w).
Definition status_of (r : bool * W) : Z * W := (if r.1 then 0 else -1, r.2).
Definition UziMkDir (path : list Z) (mode : Z) (pathW : list Z) (w : W) : res (Z * W) :=
  p ← wide_name path pathW; Ok (status_of (CreateDirectoryW p w)).
Definition UziRmDir (path pathW : list Z) (w : W) : res (Z * W) := p ← wide_name path pathW; Ok (status_of (RemoveDirectoryW p w)).
Definition UziChMod (filename : list Z) (mode : Z) (filenameW : list Z) (w : W) : res (Z * W) :=
  f ← wide_name filename filenameW; Ok (_wchmod f mode w).
End Files.

(** ** Names *)

(** A text without zeros, of a length that an [int] counts. *)
Definition text (cs : list Z) : Prop :=
  Forall scalar cs ∧ Forall (λ c, c ≠ 0) cs ∧ Z.of_nat (length (utf8_text cs)) + 1 < 2 ^ 31.

(** The C string of a text, with what follows it in memory. *)
Definition c_string (cs k : list Z) : list Z := utf8_text cs ++ 0 :: k.

Definition units (cs : list Z) : Z := Z.of_nat (length (utf16_text cs)).

Lemma terminated cs : Forall scalar cs → Forall scalar (cs ++ [0]).
Proof. intros H. apply Forall_app_2; [done|]. constructor; [unfold scalar; lia|constructor]. Qed.

Lemma name_in_text cs k : text cs → name_in (utf16_text cs ++ 0 :: k) = Ok (utf16_text cs).
Proof.
  intros (Hcs & Hnz & _). unfold name_in. rewrite unit_strlen_app, bind_Ok by (apply (text_nonzero utf16_enc), Hnz; [apply utf16_enc_nonzero|done]).
  by rewrite Nat2Z.id, take_app_length.
Qed.

Lemma name_in_unterminated l : Forall (λ x, x ≠ 0) l → name_in l = UB.
Proof.
  intros Hl. assert (E : unit_strlen l = UB); [|unfold name_in; by rewrite E].
  induction Hl as [|x l Hx _ IH]; [done|]. cbn. destruct (Z.eqb_spec x 0); [done|]. by rewrite IH.
Qed.

Lemma wide_name_fits cs k buffer : text cs → Forall (urange 8) k → units cs < Z.of_nat (length buffer) < 2 ^ 31 →
  wide_name (c_string cs k) buffer = Ok (utf16_text cs).
Proof.
  intros Ht Hk Hb. pose proof Ht as (Hcs & Hnz & Hl). unfold wide_name, c_string, units in *.
  rewrite UziUtf8toUtf16_nul by (try lia; (apply (text_nonzero utf8_enc), Hnz; [apply utf8_enc_nonzero|done])).
  assert (L8 : length (utf8_text (cs ++ [0])) = (length (utf8_text cs) + 1)%nat) by (rewrite text8_app, length_app; done).
  assert (L16 : length (utf16_text (cs ++ [0])) = (length (utf16_text cs) + 1)%nat) by (rewrite text16_app, length_app; done).
  rewrite (UziUtf8toUtf16_text _ _ (cs ++ [0]) k); [| |by apply terminated| |lia|lia|lia].
  - rewrite bind_Ok. cbn [snd]. rewrite (text16_app cs [0]), <- app_assoc. by apply name_in_text.
  - apply Forall_app_2; [by apply (text_units _ utf8_enc), Hcs; apply scalar_bytes|]. constructor; [unfold urange; lia|done].
  - by rewrite text8_app, <- app_assoc.
Qed.

(** A conversion that runs out of room has written the text up to a character
    whose units do not fit. *)
Lemma convert8_cut flags cs k dst : Forall scalar cs → Forall (urange 8) k → Z.of_nat (length dst) < units cs →
  ∃ cs1 c cs2 r, cs = cs1 ++ c :: cs2 ∧
    ConvertUTF8toUTF16 (utf8_text cs ++ k) 0 (Z.of_nat (length (utf8_text cs))) dst 0 (Some (Z.of_nat (length dst))) flags = Ok r ∧
    units cs1 <= Z.of_nat (length dst) < units cs1 + Z.of_nat (length (utf16_enc c)) ∧
    cv_dst r = utf16_text cs1 ++ drop (length (utf16_text cs1)) dst.
Proof.
  intros Hcs Hk Hlt. set (src := utf8_text cs ++ k). set (e := Z.of_nat (length (utf8_text cs))).
  assert (Hle : e <= Z.of_nat (length src)) by (unfold e, src; rewrite length_app; lia).
  assert (Hz : zslice src 0 e = utf8_text cs) by apply zslice_prefix.
  destruct (ConvertUTF8toUTF16_total flags src 0 e dst 0 (Some (Z.of_nat (length dst)))) as (r & Hr & H); try done; [|lia|cbn; lia|].
  { apply Forall_app_2; [by apply (text_units _ utf8_enc), Hcs; apply scalar_bytes|done]. }
  destruct H as (Hsrc & Hroom & (bss & cs1 & Hacc & Hz' & Htg & Hd) & Hst). cbn in Hroom.
  rewrite (zslice_app src 0 (cv_source r)) in Hz by lia. rewrite Hz' in Hz. symmetry in Hz.
  destruct (text8_prefix cs bss cs1 _ Hcs Hacc Hz) as ([|c cs2] & -> & Hrest).
  { rewrite app_nil_r in Hlt. unfold units in Hlt. lia. }
  apply Forall_app in Hcs as [_ [Hc _]%Forall_cons_1]. rewrite text8_cons in Hrest.
  destruct (next8_stop src (cv_source r) e _ _ _ c (utf8_text cs2) ltac:(lia) Hle Hc Hrest Hst) as (_ & x & [= <-] & Hx).
  exists cs1, c, cs2, r. split; [done|]. split; [done|]. split; [unfold units; lia|]. by rewrite Hd.
Qed.

(** A name that does not fit: the buffer has no end, or (when the character
    cut off takes two units and the last unit happens to be 0) holds another
    name, a beginning of the one that was meant. *)
Lemma wide_name_cut cs k buffer : text cs → Forall (urange 8) k → 0 < Z.of_nat (length buffer) <= units cs →
  wide_name (c_string cs k) buffer = UB ∨
  ∃ cs1 c cs2, cs = cs1 ++ c :: cs2 ∧ wide_name (c_string cs k) buffer = Ok (utf16_text cs1) ∧ last buffer = Some 0.
Proof.
  intros (Hcs & Hnz & Hl) Hk Hb. assert (L8 : length (utf8_text (cs ++ [0])) = (length (utf8_text cs) + 1)%nat) by (rewrite text8_app, length_app; done).
  destruct (convert8_cut strictConversion (cs ++ [0]) k buffer (terminated cs Hcs) Hk) as (cs1 & c & cs2 & r & E & Hr & Hlen & Hd).
  { unfold units in *. rewrite text16_app, length_app. cbn. lia. }
  assert (Hw : wide_name (c_string cs k) buffer = name_in (cv_dst r)).
  { unfold wide_name, c_string. rewrite UziUtf8toUtf16_nul by (try lia; (apply (text_nonzero utf8_enc), Hnz; [apply utf8_enc_nonzero|done])).
    unfold UziUtf8toUtf16. rewrite (proj2 (Z.eqb_neq _ (-1))), bind_Ok, (proj2 (Z.eqb_neq _ 0)) by lia.
    rewrite text8_app, <- app_assoc in Hr. cbn [app] in Hr. rewrite length_app in Hr.
    rewrite Nat2Z.inj_add in Hr. change (Z.of_nat (length (utf8_text [0]))) with 1 in Hr. change (utf8_text [0] ++ k) with (0 :: k) in Hr. by rewrite Hr. }
  rewrite Hw, Hd. assert (Hpre : ∃ m, cs = cs1 ++ m ∧ (m = [] ∧ c = 0 ∨ ∃ m', m = c :: m')).
  { destruct cs2 as [|y cs2] using rev_ind.
    - apply app_inj_tail in E as [-> <-]. exists []. rewrite app_nil_r. by split; [|left].
    - rewrite app_comm_cons, app_assoc in E. apply app_inj_tail in E as [-> _]. eexists. split; [done|]. right. by eexists. }
  destruct Hpre as (m & -> & Hm). apply Forall_app in Hcs as [Hcs1 _], Hnz as [Hnz1 _].
  assert (Hn16 : Forall (λ x, x ≠ 0) (utf16_text cs1)) by (apply (text_nonzero utf16_enc), Hnz1; [apply utf16_enc_nonzero|done]).
  unfold units in *. pose proof (utf16_enc_length c) as Hc. destruct (drop (length (utf16_text cs1)) buffer) as [|x rest] eqn:Hdrop.
  - left. rewrite app_nil_r. by apply name_in_unterminated.
  - assert (Hone : length (x :: rest) = (length buffer - length (utf16_text cs1))%nat) by (by rewrite <- Hdrop, length_drop).
    assert (rest = []) as -> by (destruct rest; [done|]; cbn in Hone; destruct (c <? 0x10000); lia).
    destruct (decide (x = 0)) as [->|Hx]; [right|left; apply name_in_unterminated, Forall_app_2; [done|by constructor]].
    destruct Hm as [[-> ->]|[m' ->]]; [change (length (utf16_enc 0)) with 1%nat in Hlen; cbn in Hone; lia|]. exists cs1, c, m'. split; [done|]. split.
    + apply name_in_text. split; [done|]. split; [done|]. rewrite text8_app, length_app in Hl. lia.
    + rewrite <- (take_drop (length (utf16_text cs1)) buffer), Hdrop. apply last_snoc.
Qed.

(** What the operations on a path do when its conversion gives them [name]: each
    calls the system with this name. *)
Section Named.
Context {W : Type} `{WinFiles W} (w : W) (path buffer : list Z).

Definition named (name : list Z) : Prop :=
  (UziFile_Exists path buffer w = Ok (PathFileExistsW name w) ∧
   UziFile_Delete path buffer w = Ok (DeleteFileW name w) ∧
   (∀ mode, UziMkDir path mode buffer w = Ok (status_of (CreateDirectoryW name w))) ∧
   UziRmDir path buffer w = Ok (status_of (RemoveDirectoryW name w)) ∧
   (∀ mode, UziChMod path mode buffer w = Ok (_wchmod name mode w))) ∧
  (∀ ds k buffer' replace, text ds → Forall (urange 8) k → Z.of_nat (length buffer') = UZI_MAX_PATH → units ds < UZI_MAX_PATH →
     UziFile_Move path (c_string ds k) replace buffer buffer' w = Ok (MoveFileW name (utf16_text ds) w) ∧
     UziFile_Move (c_string ds k) path replace buffer' buffer w = Ok (MoveFileW (utf16_text ds) name w)) ∧
  (∀ modeW, length modeW = 32%nat →
     (∀ ms k, text ms → Forall (urange 8) k → units ms < 32 →
        UziFile_Open (Some path) (Some (c_string ms k)) buffer modeW w = Ok (_wfopen name (utf16_text ms) w)) ∧
     (∀ malloc nread padding, UziFile_Load malloc nread (Some path) padding buffer modeW w =
        let '(fp, w) := _wfopen name [114; 98] w in
        if fp =? 0 then Ok (None, 0, w)
        else x ← load_stream malloc nread padding (stream fp w).1 (u64 (stream fp w).2); Ok (x.1, x.2, fclose fp w)) ∧
     (∀ d mode, UziFile_Save (Some path) (Some d) mode buffer modeW w =
        let '(fp, w) := _wfopen name [119; 98] w in
        if fp =? 0 then Ok (false, w)
        else let '(n, w) := fwrite d fp w in Ok (Z.of_nat n =? Z.of_nat (length d), fclose fp w))).

(** They read past the end of the buffer. *)
Definition unnamed : Prop :=
  UziFile_Exists path buffer w = UB ∧ UziFile_Delete path buffer w = UB ∧ (∀ mode, UziMkDir path mode buffer w = UB) ∧
  UziRmDir path buffer w = UB ∧ (∀ mode, UziChMod path mode buffer w = UB) ∧
  (∀ dst replace buffer', UziFile_Move path dst replace buffer buffer' w = UB) ∧
  (∀ modeW, length modeW = 32%nat → (∀ malloc nread padding, UziFile_Load malloc nread (Some path) padding buffer modeW w = UB) ∧
     (∀ d mode, UziFile_Save (Some path) (Some d) mode buffer modeW w = UB)).

Lemma mode_name (ms : list Z) modeW : text ms → utf16_text ms = utf8_text ms → length modeW = 32%nat → units ms < 32 →
  wide_name (utf8_text ms ++ [0]) modeW = Ok (utf8_text ms).
Proof. intros Ht E Hm Hu. rewrite <- E at 2. apply (wide_name_fits ms []); [done|by constructor|lia]. Qed.

Lemma modes_ok modeW : length modeW = 32%nat → wide_name mode_rb modeW = Ok [114; 98] ∧ wide_name mode_wb modeW = Ok [119; 98].
Proof.
  intros Hm. split; [apply (mode_name [114; 98])|apply (mode_name [119; 98])]; try done;
    (split; [repeat constructor; unfold scalar; lia|split; [repeat constructor; lia|done]]).
Qed.

Lemma named_ok name : wide_name path buffer = Ok name → named name.
Proof.
  intros Hn. unfold named, UziFile_Exists, UziFile_Delete, UziMkDir, UziRmDir, UziChMod, UziFile_Move, UziFile_Save, UziFile_Load, UziFile_Open.
  split; [by rewrite Hn|]. split.
  - intros ds k buffer' replace Hds Hk Hb Hlt. unfold UZI_MAX_PATH in *. rewrite Hn, (wide_name_fits ds k buffer') by (done || lia). done.
  - intros modeW Hm. destruct (modes_ok modeW Hm) as [-> ->]. rewrite Hn, !bind_Ok. split; [|split].
    + intros ms k Hms Hk Hlt. rewrite (wide_name_fits ms k modeW) by (done || lia). done.
    + intros malloc nread padding. destruct (_wfopen name [114; 98] w) as [fp w1]. rewrite bind_Ok. destruct (Z.eqb fp 0); [done|]. by destruct (stream fp w1).
    + intros d mode. destruct (_wfopen name [119; 98] w) as [fp w1]. by rewrite bind_Ok.
Qed.

Lemma unnamed_ok : wide_name path buffer = UB → unnamed.
Proof.
  intros Hn. unfold unnamed, UziFile_Exists, UziFile_Delete, UziMkDir, UziRmDir, UziChMod, UziFile_Move, UziFile_Save, UziFile_Load, UziFile_Open.
  rewrite Hn. do 6 (split; [done|]). intros modeW Hm. destruct (modes_ok modeW Hm) as [-> ->]. by rewrite !bind_Ok.
Qed.
End Named.

(** C26: names on Windows. A path (any Unicode text without zeros) of less than
    UZI_MAX_PATH units reaches the system as its UTF-16 form, whatever the buffers
    hold before, in the operations that test, delete, make, remove, change the
    mode of, move (either name), open, load and save. For a longer path, the
    answer of the conversion not being looked at, they read past the end of their
    buffer or act on the file named by a beginning of the path. [UziFile_Size]
    hands the bytes of the name to [fopen] unconverted. *)
Theorem windows_names_spec {W} `{WinFiles W} (w : W) cs k buffer :
  text cs → Forall (urange 8) k → Z.of_nat (length buffer) = UZI_MAX_PATH →
  let path := c_string cs k in
  (units cs < UZI_MAX_PATH → named w path buffer (utf16_text cs)) ∧
  (UZI_MAX_PATH <= units cs → unnamed w path buffer ∨
    ∃ cs1 c cs2, cs = cs1 ++ c :: cs2 ∧ named w path buffer (utf16_text cs1)) ∧
  UziFile_Size path w = (let '(fp, w) := fopen (utf8_text cs) mode_r w in
    if fp =? 0 then Ok (0, w) else Ok (u64 (stream fp w).2, fclose fp w)).
Proof.
  intros Ht Hk Hb path. unfold UZI_MAX_PATH in *. split; [|split].
  - intros Hlt. apply named_ok, wide_name_fits; [done|done|lia].
  - intros Hle. destruct (wide_name_cut cs k buffer Ht Hk) as [E|(cs1 & c & cs2 & E & Hn & _)]; [lia|left|right].
    + by apply unnamed_ok.
    + exists cs1, c, cs2. split; [done|]. by apply named_ok.
  - pose proof Ht as (Hcs & Hnz & _). unfold UziFile_Size, name_in, path, c_string.
    rewrite unit_strlen_app, bind_Ok by (apply (text_nonzero utf8_enc), Hnz; [apply utf8_enc_nonzero|done]).
    by rewrite Nat2Z.id, take_app_length.
Qed.

(** A system that keeps the names of its files. *)
Definition names : Type := list (list Z).
#[export] Instance name_files : WinFiles names := {
  fopen p _ w := if bool_decide (p ∈ w) then (1, w) else (0, w);
  stream _ _ := ([], 0);
  fwrite d _ w := (length d, w);
  fclose _ w := w;
  _wfopen p _ w := (1, p :: w);
  MoveFileW s d w := (bool_decide (s ∈ w), d :: filter (.≠ s) w);
  PathFileExistsW p w := bool_decide (p ∈ w);
  DeleteFileW p w := (bool_decide (p ∈ w), filter (.≠ p) w);
  CreateDirectoryW p w := (true, p :: w);
  RemoveDirectoryW p w := (bool_decide (p ∈ w), filter (.≠ p) w);
  _wchmod _ _ w := (0, w) }.

(** A long path whose 1024th unit would be the first half of a pair: the file
    with the shorter name is deleted. *)
Definition long_path : list Z := replicate 1023 97 ++ [0x1F600; 98].
Definition short_path : list Z := replicate 1023 97.
Definition zero_buffer : list Z := replicate 1024 0.

Lemma long_path_deletes_short :
  UziFile_Delete (c_string long_path []) zero_buffer ([short_path; [98]] : names) = Ok (true, [[98]]).
Proof. vm_compute. reflexivity. Qed.

Lemma windows_names_spec_witness :
  let w : names := [[0x20AC]; [98]] in
  text [0x20AC] ∧ UziFile_Delete (c_string [0x20AC] [7]) (replicate 1024 1) w = Ok (DeleteFileW [0x20AC] w) ∧
  DeleteFileW [0x20AC] w = (true, [[98]]).
Proof.
  intros w. assert (Ht : text [0x20AC]).
  { split; [repeat constructor; unfold scalar; lia|]. split; [repeat constructor; lia|vm_compute; reflexivity]. }
  split; [exact Ht|]. split; [|vm_compute; reflexivity].
  destruct (windows_names_spec w [0x20AC] [7] (replicate 1024 1) Ht ltac:(repeat constructor; unfold urange; lia) eq_refl) as (Hn & _ & _).
  destruct (Hn eq_refl) as [(_ & Hd & _) _]. exact Hd.
Defined.
