(* ===== verification/Sysinfo.v ===== *)
(** System information, clocks and sleeping (src/libuzi/sysinfo.c, sleep.c), for
    Linux. What the system answers is an argument. *)

From stdpp Require Import list numbers.
From S2P Require Import Prelude CpuFeatures.

Set Warnings "-clear-no-such-hyp".

(** ** The system *)

Definition PROCESSOR_ARCHITECTURE_UNKNOWN := 0xFFFF.

(** Android: from the family of the processor. *)
Definition GetProcessorArchitecture (family : Z) : Z :=
  if family =? 1 then 5 else if family =? 2 then 0 else if family =? 3 then 1 else if family =? 4 then 12
  else if family =? 5 then 9 else if family =? 6 then 13 else PROCESSOR_ARCHITECTURE_UNKNOWN.

Definition GetNumberOfProcessors (sysconf : Z) : Z := u32 sysconf.

(** [sysconf1], [sysconf2]: the two names of the page size. *)
Definition GetSystemPageSize (sysconf1 sysconf2 : Z) : Z :=
  let sc_page_size := -1 in
  let sc_page_size := if sc_page_size <? 0 then sysconf1 else sc_page_size in
  let sc_page_size := if sc_page_size <? 0 then sysconf2 else sc_page_size in
  let dwPageSize := if 0 <? sc_page_size then u32 sc_page_size else 0 in
  if dwPageSize <? 4096 then 4096 else dwPageSize.

Record SYSTEM_INFO := SystemInfo { wProcessorArchitecture : Z; dwPageSize : Z; dwNumberOfProcessors : Z }.
Definition GetSystemInfo (family sysconf1 sysconf2 nprocessors : Z) : SYSTEM_INFO :=
  SystemInfo (GetProcessorArchitecture family) (GetSystemPageSize sysconf1 sysconf2) (GetNumberOfProcessors nprocessors).
Definition GetNativeSystemInfo := GetSystemInfo.

(** ** Clocks *)

(** [clock_gettime]: [None] when it fails. *)
Definition GetTickCount (ts : option (Z * Z)) : Z :=
  match ts with None => 0 | Some (sec, nsec) => u32 (sec * 1000 + nsec / 1000000) end.
Definition winpr_GetTickCount64 (ts : option (Z * Z)) : Z :=
  match ts with None => 0 | Some (sec, nsec) => u64 (sec * 1000 + nsec / 1000000) end.
Definition GetTickCountPrecise := GetTickCount.

(** The two halves of the file time. *)
Definition GetSystemTimeAsFileTime (time : Z) : Z * Z :=
  let time64 := u64 (time + 11644473600) in
  let time64 := u64 (time64 * 10000000) in
  (u32 time64, u32 (Z.shiftr time64 32)).

(** [struct tm] and SYSTEMTIME. *)
Record tm := Tm { tm_year : Z; tm_mon : Z; tm_wday : Z; tm_mday : Z; tm_hour : Z; tm_min : Z; tm_sec : Z }.
Record SYSTEMTIME := SystemTime {
  wYear : Z; wMonth : Z; wDayOfWeek : Z; wDay : Z; wHour : Z; wMinute : Z; wSecond : Z; wMilliseconds : Z }.

(** The milliseconds are those of the tick count. *)
Definition system_time (ts : option (Z * Z)) (stm : option tm) : SYSTEMTIME :=
  let ms := u16 (GetTickCount ts mod 1000) in
  match stm with
  | None => SystemTime 0 0 0 0 0 0 0 0
  | Some t => SystemTime (u16 (tm_year t + 1900)) (u16 (tm_mon t + 1)) (u16 (tm_wday t)) (u16 (tm_mday t))
                (u16 (tm_hour t)) (u16 (tm_min t)) (u16 (tm_sec t)) ms
  end.
Definition GetSystemTime (gmtime : Z → option tm) (time : Z) (ts : option (Z * Z)) : SYSTEMTIME := system_time ts (gmtime time).
Definition GetLocalTime (localtime : Z → option tm) (time : Z) (ts : option (Z * Z)) : SYSTEMTIME := system_time ts (localtime time).

(** The argument of [usleep], of 32 bits. *)
Definition Sleep (dwMilliseconds : Z) : Z := u32 (dwMilliseconds * 1000).
Definition SleepEx (dwMilliseconds : Z) : Z * bool := (u32 (dwMilliseconds * 1000), true).
Definition USleep (dwMicroseconds : Z) : Z := dwMicroseconds.

(** [USleep] on Windows. [t n]: what the [n]-th call of QueryPerformanceCounter
    stores; [freq]: the static variable, 0 before the first call. Answered are
    the milliseconds given to [Sleep] first, if any, and the last reading. *)
Definition usleep_round (t : nat → Z) (freq dwMicroseconds : Z) (n : nat) : res (nat + nat) :=
  let n := S n in
  let scaled := (t n - t 0%nat) * 1000000 in
  if (2 ^ 63 <=? scaled) || (scaled <? - 2 ^ 63) || (freq =? 0) then UB
  else Ok (if scaled ÷ freq <? dwMicroseconds then inl n else inr n).

Definition USleep_windows (fuel : nat) (t : nat → Z) (freq QueryPerformanceFrequency dwMicroseconds : Z) : res (option Z * nat) :=
  let freq := if freq =? 0 then QueryPerformanceFrequency else freq in
  let slept := if 1000 <=? dwMicroseconds then Some (dwMicroseconds / 1000) else None in
  n ← loop fuel (usleep_round t freq dwMicroseconds) 0%nat; Ok (slept, n).

(** ** Processor features *)

(** A [switch] in the order of the source: each group of labels, its test, and
    whether a [break] follows. Without one, control falls through. *)
Definition group : Type := list Z * bool * bool.
Fixpoint run_switch (l : list group) (active : bool) (x : Z) (ret : bool) : bool :=
  match l with
  | [] => ret
  | (labels, cond, brk) :: l =>
    if active || bool_decide (x ∈ labels) then
      let ret := ret || cond in
      if brk : bool then ret else run_switch l true x ret
    else run_switch l false x ret
  end.

(** ARM: the capabilities, from the entries of /proc/self/auxv ([None] ends the
    file); the last entry of its kind counts. *)
Fixpoint GetARMCPUCaps (entries : list (option (Z * Z))) (caps : Z) : Z :=
  match entries with
  | [] | None :: _ => caps
  | Some (a_type, a_val) :: l =>
    if (a_type =? 0) && (a_val =? 0) then caps
    else GetARMCPUCaps l (if a_type =? 16 then a_val else caps)
  end.

Definition PF_ARM_NEON_INSTRUCTIONS_AVAILABLE := 19.
Definition PF_ARM_NEON := 0x8000001B.
Definition PF_ARM_THUMB := 0x80000005.
Definition PF_ARM_VFP_32_REGISTERS_AVAILABLE := 18.
Definition PF_ARM_DIVIDE_INSTRUCTION_AVAILABLE := 24.
Definition PF_ARM_VFP3 := 0x8000001A.
Definition PF_ARM_JAZELLE := 0x80000006.
Definition PF_ARM_DSP := 0x80000007.
Definition PF_ARM_MPU := 0x8000000A.
Definition PF_ARM_THUMB2 := 0x80000018.
Definition PF_ARM_T2EE := 0x80000019.
Definition PF_ARM_INTEL_WMMX := 0x80010003.

Definition has (caps n : Z) : bool := test caps (bit n).

Definition arm_groups (caps : Z) : list group :=
  [([PF_ARM_NEON_INSTRUCTIONS_AVAILABLE; PF_ARM_NEON], has caps 12, true);
   ([PF_ARM_THUMB], has caps 2, false);
   ([PF_ARM_VFP_32_REGISTERS_AVAILABLE], has caps 19, false);
   ([PF_ARM_DIVIDE_INSTRUCTION_AVAILABLE], has caps 17 || has caps 18, false);
   ([PF_ARM_VFP3], has caps 13, true);
   ([PF_ARM_JAZELLE], has caps 8, true);
   ([PF_ARM_DSP], has caps 7, true);
   ([PF_ARM_MPU], has caps 7, true);
   ([PF_ARM_THUMB2], has caps 18 || has caps 16, true);
   ([PF_ARM_T2EE], has caps 11, true);
   ([PF_ARM_INTEL_WMMX], has caps 9, true)].
Definition IsProcessorFeaturePresent_arm (caps ProcessorFeature : Z) : bool :=
  run_switch (arm_groups caps) false ProcessorFeature false.

(** x86: registers ecx and edx of leaf 1. *)
Definition x86_groups (c d : Z) : list group :=
  [([3], has d 23, true); ([6], has d 25, true); ([10], has d 26, true); ([7], has d 30, true); ([13], has c 0, true)].
Definition IsProcessorFeaturePresent_x86 (c d ProcessorFeature : Z) : bool :=
  run_switch (x86_groups c d) false ProcessorFeature false.

(** Android: the answer is the masked features, an [int] used as a truth value. *)
Definition IsProcessorFeaturePresent_android (features ProcessorFeature : Z) : Z :=
  if bool_decide (ProcessorFeature ∈ [PF_ARM_NEON_INSTRUCTIONS_AVAILABLE; PF_ARM_NEON]) then Z.land features NEON else 0.

Definition IsProcessorFeaturePresentEx_arm (caps ProcessorFeature : Z) : bool :=
  run_switch [([10], has caps 6, true); ([11], has caps 14, true); ([12], has caps 16, true); ([13], has caps 17, true);
              ([14], has caps 18, true)] false ProcessorFeature false.

(** x86 compiled with AVX: leaf 1's ecx, leaf 0x80000001's ecx, and [xgetbv]. *)
Definition avx_feature (c e ProcessorFeature : Z) : bool :=
  if negb (Z.land c (Z.lor (bit 27) (bit 28)) =? Z.lor (bit 27) (bit 28)) then false
  else if Z.land e (Z.lor (bit 1) (bit 2)) =? Z.lor (bit 1) (bit 2) then
    run_switch [([6], true, true); ([7], has c 12, true); ([8], has c 25, true); ([15], has c 1, true)] false ProcessorFeature false
  else false.
Definition IsProcessorFeaturePresentEx_x86 (c c81 e ProcessorFeature : Z) : bool :=
  run_switch [([1], has c81 5, true); ([2], has c 8, true); ([3], has c 9, true); ([4], has c 19, true); ([5], has c 20, true);
              ([6; 7; 8; 15], avx_feature c e ProcessorFeature, true)] false ProcessorFeature false.

(** ** Theorems *)

(** Milliseconds since the start of a clock. *)
Definition ms_of (ts : Z * Z) : Z := ts.1 * 1000 + ts.2 / 1000000.

Lemma split64 x : 0 <= x < 2 ^ 64 → u32 x + 2 ^ 32 * u32 (Z.shiftr x 32) = x ∧ urange 32 (u32 x) ∧ urange 32 (u32 (Z.shiftr x 32)).
Proof.
  intros Hx. rewrite Z.shiftr_div_pow2 by lia. split; [|split; by apply wrap_range].
  assert (Hq : 0 <= x / 2 ^ 32 < 2 ^ 32) by (split; [apply Z.div_pos; lia|apply Z.div_lt_upper_bound; lia]).
  rewrite (wrap_id 32 (x / 2 ^ 32)) by done. unfold wrap. pose proof (Z.div_mod x (2 ^ 32) ltac:(lia)). lia.
Qed.

Lemma tick_count ts : GetTickCount (Some ts) = u32 (ms_of ts).
Proof. by destruct ts. Qed.
Lemma tick_count64 ts : winpr_GetTickCount64 (Some ts) = u64 (ms_of ts).
Proof. by destruct ts. Qed.

(** When the counter, which never goes back, reaches the time at its [N]-th
    reading, the call returns by then, and not before the time has passed. *)
Lemma USleep_windows_returns t freq q us N : let f := if freq =? 0 then q else freq in
  0 < f → 0 <= us → (∀ i j, (i <= j)%nat → t i <= t j) → (0 < N)%nat → us * f <= (t N - t 0%nat) * 1000000 < 2 ^ 63 →
  runs (USleep_windows (S N) t freq q us) (λ r, (0 < r.2 <= N)%nat ∧ us * f <= (t r.2 - t 0%nat) * 1000000).
Proof.
  intros f Hf Hus Hmono HN Hend. unfold USleep_windows. fold f.
  apply (runs_bind _ _ (λ n, (0 < n <= N)%nat ∧ us * f <= (t n - t 0%nat) * 1000000)); [|by intros n Hn; apply runs_ok].
  apply (loop_total _ (λ n, (n < N)%nat) (λ n, N - n)%nat); [|lia|lia]. intros n Hn. unfold usleep_round.
  assert (H1 := Hmono 0%nat (S n) ltac:(lia)). assert (H2 := Hmono (S n) N ltac:(lia)).
  rewrite (proj2 (Z.leb_gt _ _)), (proj2 (Z.ltb_ge _ _)), (proj2 (Z.eqb_neq _ _)) by lia. cbn [orb]. apply runs_ok.
  rewrite Z.quot_div_nonneg by lia. pose proof (Z.div_le_lower_bound ((t (S n) - t 0%nat) * 1000000) f us Hf).
  destruct (Z.ltb_spec ((t (S n) - t 0%nat) * 1000000 / f) us) as [Hlt|Hge].
  - assert (Hne : S n ≠ N) by (intros E; rewrite E in *; lia). lia.
  - split; [lia|]. pose proof (Z.mul_div_le ((t (S n) - t 0%nat) * 1000000) f Hf). nia.
Qed.

(** the clocks. The tick count is the milliseconds of the monotonic clock
    modulo 2^32, so that the unsigned difference of two readings less than 2^32
    ms (49 days) apart is the time between them, over the wrap-around too; the
    64-bit count is exact. The file time is exact: its halves make up the number
    of 100 ns since 1601, from which the time is got back. [Sleep] sleeps for the
    time asked for up to 4294967 ms; above, the microseconds are taken modulo
    2^32. *)
Theorem clocks_spec ts1 ts2 time ms :
  0 <= ms_of ts1 <= ms_of ts2 → ms_of ts2 < 2 ^ 64 → 0 <= time < 2 ^ 40 → 0 <= ms < 2 ^ 32 →
  (ms_of ts2 - ms_of ts1 < 2 ^ 32 → u32 (GetTickCount (Some ts2) - GetTickCount (Some ts1)) = ms_of ts2 - ms_of ts1) ∧
  (winpr_GetTickCount64 (Some ts2) = ms_of ts2 ∧ GetTickCount (Some ts2) = u32 (winpr_GetTickCount64 (Some ts2))) ∧
  (let ft := GetSystemTimeAsFileTime time in
   ft.1 + 2 ^ 32 * ft.2 = (time + 11644473600) * 10000000 ∧ urange 32 ft.1 ∧ urange 32 ft.2 ∧
   (ft.1 + 2 ^ 32 * ft.2) / 10000000 - 11644473600 = time) ∧
  (Sleep ms = ms * 1000 ↔ ms <= 4294967).
Proof.
  intros Hm Hm2 Ht Hms. assert (H64 : u64 (ms_of ts2) = ms_of ts2) by (apply wrap_id; unfold urange; lia).
  rewrite !tick_count, !tick_count64. split_and!.
  - intros Hd. unfold wrap. rewrite Zminus_mod_idemp_l, Zminus_mod_idemp_r. apply Z.mod_small. lia.
  - done.
  - by rewrite H64.
  - unfold GetSystemTimeAsFileTime. cbv zeta. rewrite (wrap_id 64 (time + 11644473600)) by (unfold urange; pow2_lit; lia).
    rewrite (wrap_id 64 ((time + 11644473600) * 10000000)) by (unfold urange; pow2_lit; lia). cbn [fst snd].
    destruct (split64 ((time + 11644473600) * 10000000)) as (H1 & H2 & H3); [pow2_lit; lia|]. split_and!; try done.
    rewrite H1, Z.div_mul by lia. lia.
  - unfold Sleep, wrap. pow2_lit. split; intros H; [lia|]. rewrite Z.mod_small; lia.
Qed.

Lemma clocks_spec_witness :
  u32 (GetTickCount (Some (4294967, 300000000)) - GetTickCount (Some (4294967, 290000000))) = 10 ∧ Sleep 1000 = 1000000.
Proof.
  destruct (clocks_spec (4294967, 290000000) (4294967, 300000000) 0 1000) as (H1 & _ & _ & H4); [by_decision|by_decision|lia|lia|].
  split; [rewrite H1 by by_decision; reflexivity|]. apply H4. lia.
Defined.

(** The answer a group gives on its own. *)
Definition intended (l : list group) (x : Z) : bool :=
  existsb (λ g : group, bool_decide (x ∈ g.1.1) && g.1.2) l.

(** With a [break] after every group whose labels are different from all others,
    a switch does what is intended. *)
Lemma run_switch_intended l x : Forall (λ g : group, g.2 = true) l → NoDup (concat (map (λ g : group, g.1.1) l)) →
  run_switch l false x false = intended l x.
Proof.
  induction 1 as [|[[labels cond] brk] l Hb Hl IH]; intros Hnd; [done|]. cbn in Hb. subst brk. cbn [map concat fst] in Hnd.
  apply NoDup_app in Hnd as (_ & Hdis & Hnd). cbn [run_switch intended existsb fst snd orb]. case_bool_decide as Hx; cbn [andb orb].
  - destruct cond; cbn [orb]; [done|]. symmetry. unfold intended. apply not_true_iff_false. intros H%existsb_exists.
    destruct H as ([[ls c] b] & Hin & [Hx2%bool_decide_eq_true_1 _]%andb_true_iff). apply (Hdis x Hx).
    apply list_elem_of_In, in_concat. exists ls. split; [|by apply list_elem_of_In]. apply in_map_iff. by exists (ls, c, b).
  - by apply IH.
Qed.

(** the features of the processor. For every feature the answer on x86 (both
    functions) and that of IsProcessorFeaturePresentEx on ARM is the test its
    case makes. IsProcessorFeaturePresent on ARM does so too for all features
    but three: without their [break], Thumb, the 32 registers of VFP and the
    division are also reported for a processor that only has a feature of the
    cases that follow, down to VFPv3. *)
Theorem processor_features_spec x caps c d :
  IsProcessorFeaturePresent_x86 c d x = intended (x86_groups c d) x ∧
  IsProcessorFeaturePresentEx_arm caps x =
    intended [([10], has caps 6, true); ([11], has caps 14, true); ([12], has caps 16, true); ([13], has caps 17, true); ([14], has caps 18, true)] x ∧
  (x ∉ [PF_ARM_THUMB; PF_ARM_VFP_32_REGISTERS_AVAILABLE; PF_ARM_DIVIDE_INSTRUCTION_AVAILABLE] →
     IsProcessorFeaturePresent_arm caps x = intended (arm_groups caps) x) ∧
  (IsProcessorFeaturePresent_arm caps PF_ARM_THUMB = has caps 2 || has caps 19 || (has caps 17 || has caps 18) || has caps 13 ∧
   IsProcessorFeaturePresent_arm caps PF_ARM_VFP_32_REGISTERS_AVAILABLE = has caps 19 || (has caps 17 || has caps 18) || has caps 13 ∧
   IsProcessorFeaturePresent_arm caps PF_ARM_DIVIDE_INSTRUCTION_AVAILABLE = (has caps 17 || has caps 18) || has caps 13).
Proof.
  split_and!; try reflexivity.
  - apply run_switch_intended; [by repeat constructor|by_decision].
  - apply run_switch_intended; [by repeat constructor|by_decision].
  - intros Hx. rewrite !not_elem_of_cons in Hx. destruct Hx as (H1 & H2 & H3 & _). unfold IsProcessorFeaturePresent_arm, arm_groups.
    set (l := [([PF_ARM_NEON_INSTRUCTIONS_AVAILABLE; PF_ARM_NEON], has caps 12, true); ([PF_ARM_VFP3], has caps 13, true);
      ([PF_ARM_JAZELLE], has caps 8, true); ([PF_ARM_DSP], has caps 7, true); ([PF_ARM_MPU], has caps 7, true);
      ([PF_ARM_THUMB2], has caps 18 || has caps 16, true); ([PF_ARM_T2EE], has caps 11, true); ([PF_ARM_INTEL_WMMX], has caps 9, true)]).
    transitivity (run_switch l false x false); [|transitivity (intended l x)].
    + unfold l. cbn [run_switch orb]. case_bool_decide as H0; [done|].
      rewrite (bool_decide_false (x ∈ [PF_ARM_THUMB])), (bool_decide_false (x ∈ [PF_ARM_VFP_32_REGISTERS_AVAILABLE])),
        (bool_decide_false (x ∈ [PF_ARM_DIVIDE_INSTRUCTION_AVAILABLE])) by (by rewrite list_elem_of_singleton). done.
    + apply run_switch_intended; [by repeat constructor|by_decision].
    + unfold l, intended. cbn [existsb fst snd].
      by rewrite (bool_decide_false (x ∈ [PF_ARM_THUMB])), (bool_decide_false (x ∈ [PF_ARM_VFP_32_REGISTERS_AVAILABLE])),
        (bool_decide_false (x ∈ [PF_ARM_DIVIDE_INSTRUCTION_AVAILABLE])) by (by rewrite list_elem_of_singleton).
Qed.

Lemma processor_features_spec_witness :
  IsProcessorFeaturePresent_arm (bit 13) PF_ARM_THUMB = true ∧ IsProcessorFeaturePresent_arm (bit 7) PF_ARM_DSP = true.
Proof.
  destruct (processor_features_spec PF_ARM_DSP (bit 7) 0 0) as (_ & _ & H1 & _).
  destruct (processor_features_spec 0 (bit 13) 0 0) as (_ & _ & _ & H2 & _).
  split; [rewrite H2; reflexivity|rewrite H1 by by_decision; reflexivity].
Defined.
