(* ===== verification/InitOnce.v ===== *)
(** One-time initialisation (src/libuzi/init.c): the loop of
    [InitOnceExecuteOnce] as the steps of a thread on the shared word, and any
    number of threads that call it. The initialisation function belongs to the
    caller: its outcomes are parts of the schedule. *)

From stdpp Require Import list.
From S2P Require Import Prelude Interlocked.

(** Where a thread is in [InitOnceExecuteOnce]: before the [switch], before the
    compare-and-swap, inside [InitFn], before the store of its outcome, asleep,
    or back in the caller. A thread that called [InitFn] carries the context it
    was given. *)
Inductive pc :=
  | AtSwitch
  | AtCas
  | InInit
  | AtSuccess (context : Z)
  | AtFailure (context : Z)
  | Asleep
  | Returned (b : bool) (context : option Z).

(** One step: on the word [Ptr], with what [InitFn] answers should it end in
    this step. *)
Definition once_step (init : bool * Z) (Ptr : Z) (p : pc) : Z * pc :=
  match p with
  | AtSwitch =>
    match Z.land Ptr 3 with
    | 2 => (Ptr, Returned true None)
    | 0 => (Ptr, AtCas)
    | 1 => (Ptr, Asleep)
    | _ => (Ptr, Returned false None)
    end
  | AtCas =>
    let '(Ptr, old) := InterlockedCompareExchangePointer Ptr 1 0 in
    (Ptr, if negb (old =? 0) then Asleep else InInit)
  | InInit => (Ptr, if init.1 then AtSuccess init.2 else AtFailure init.2)
  | AtSuccess c => (2, Returned true (Some c))
  | AtFailure c => (0, Returned false (Some c))
  | Asleep => (Ptr, AtSwitch)
  | Returned b c => (Ptr, Returned b c)
  end.

(** The threads that call it on one INIT_ONCE, and the outcomes of the calls of
    [InitFn] so far. *)
Record once := Once { o_ptr : Z; o_threads : list pc; o_calls : list bool }.

Definition once_start (n : nat) (s : once) : Prop := s = Once 0 (replicate n AtSwitch) [].

Definition once_next (i : nat) (init : bool * Z) (s : once) : once :=
  match o_threads s !! i with
  | None => s
  | Some p =>
    let '(Ptr, p') := once_step init (o_ptr s) p in
    Once Ptr (<[i := p']> (o_threads s)) (match p with InInit => o_calls s ++ [init.1] | _ => o_calls s end)
  end.

Definition once_trans (s s' : once) : Prop := ∃ i init, s' = once_next i init s.

(** [k] steps of thread [i] alone. *)
Fixpoint once_alone (k : nat) (i : nat) (init : bool * Z) (s : once) : once :=
  match k with O => s | S k => once_alone k i init (once_next i init s) end.

(** ** The invariant *)

Definition is_init (p : pc) : nat := match p with InInit => 1 | _ => 0 end.
Definition is_success (p : pc) : nat := match p with AtSuccess _ => 1 | _ => 0 end.
Definition is_failure (p : pc) : nat := match p with AtFailure _ => 1 | _ => 0 end.
Definition is_true (p : pc) : nat := match p with Returned true _ => 1 | _ => 0 end.
Definition is_first (p : pc) : nat := match p with Returned true (Some _) => 1 | _ => 0 end.
Definition is_false (p : pc) : nat := match p with Returned false _ => 1 | _ => 0 end.
Definition inside (p : pc) : Prop := (is_init p + is_success p + is_failure p = 1)%nat.
Definition total (f : pc → nat) (s : once) : nat := sum_list_with f (o_threads s).
Definition busy (s : once) : nat := (total is_init s + total is_success s + total is_failure s)%nat.

(** The word tells how many threads are between the compare-and-swap and the
    store, and whether a call has succeeded; [n] calls have failed. *)
Definition once_inv (n : nat) (ok : bool) (s : once) : Prop :=
  o_calls s = replicate n false ++ (if ok then [true] else []) ∧
  ((o_ptr s = 0 ∧ Nat.b2n ok = 0%nat ∧ busy s = 0%nat) ∨
   (o_ptr s = 1 ∧ total is_success s = Nat.b2n ok ∧ busy s = 1%nat) ∨
   (o_ptr s = 2 ∧ Nat.b2n ok = 1%nat ∧ busy s = 0%nat)) ∧
  (total is_success s + total is_first s = Nat.b2n ok)%nat ∧
  (total is_failure s + total is_false s = n)%nat ∧
  ((0 < total is_true s)%nat → o_ptr s = 2).

Lemma total_zero n f : f AtSwitch = 0%nat → total f (Once 0 (replicate n AtSwitch) []) = 0%nat.
Proof. intros Hf. unfold total. cbn [o_threads]. induction n as [|n IH]; [done|]. cbn. by rewrite Hf, IH. Qed.

Lemma once_start_inv n s : once_start n s → once_inv 0 false s.
Proof. intros ->. unfold once_inv, busy. cbn [o_calls o_ptr]. rewrite !total_zero by done. cbn. split_and!; first [done|lia|by left]. Qed.

Local Ltac once_solve := cbn [is_init is_success is_failure is_true is_first is_false] in *; split_and?; first [done|lia].

Lemma once_next_inv n ok s i init : once_inv n ok s → ∃ n' ok', once_inv n' ok' (once_next i init s).
Proof.
  intros H. unfold once_next. destruct (o_threads s !! i) as [p|] eqn:Hi; [|eauto].
  destruct (once_step init (o_ptr s) p) as [w p'] eqn:Hs. destruct H as (Hc & Hw & Hg & Hf & Ht).
  pose proof (λ f : pc → nat, sum_insert f _ _ _ p' Hi) as Hsum.
  pose proof (Hsum is_init) as S1. pose proof (Hsum is_success) as S2. pose proof (Hsum is_failure) as S3.
  pose proof (Hsum is_true) as S4. pose proof (Hsum is_first) as S5. pose proof (Hsum is_false) as S6. clear Hsum.
  unfold once_inv, busy, total in *. cbn [o_calls o_ptr o_threads].
  destruct p as [| | |c|c| |b c]; cbn [is_init is_success is_failure is_true is_first is_false] in *.
  - exists n, ok. destruct Hw as [(E & Hw)|[(E & Hw)|(E & Hw)]]; rewrite E in *; injection Hs as <- <-; once_solve.
  - exists n, ok. destruct Hw as [(E & Hw)|[(E & Hw)|(E & Hw)]]; rewrite E in *; injection Hs as <- <-; once_solve.
  - injection Hs as <- <-. assert (Hok : Nat.b2n ok = 0%nat) by (destruct init.1; once_solve).
    destruct ok; [done|]. rewrite app_nil_r in Hc. rewrite Hc. destruct init.1.
    + exists n, true. cbn [Nat.b2n] in *. once_solve.
    + exists (S n), false. rewrite replicate_S_end, app_nil_r. cbn [Nat.b2n] in *. once_solve.
  - exists n, ok. injection Hs as <- <-. once_solve.
  - exists n, ok. injection Hs as <- <-. once_solve.
  - exists n, ok. injection Hs as <- <-. once_solve.
  - exists n, ok. injection Hs as <- <-. once_solve.
Qed.

Lemma once_reachable_inv n s : reachable (once_start n) once_trans s → ∃ k ok, once_inv k ok s.
Proof.
  apply (reachable_inv _ _ (λ s, ∃ k ok, once_inv k ok s)); [intros s0 H; exists 0%nat, false; by apply once_start_inv in H|].
  intros s1 s2 (k & ok & H) (i & init & ->). by apply once_next_inv with k ok.
Qed.

(** At most one thread is inside; none calls the function when it is done; TRUE
    is only answered then. *)
Lemma once_inv_unique n ok s i j p q : once_inv n ok s →
  o_threads s !! i = Some p → o_threads s !! j = Some q → inside p → inside q → i = j.
Proof.
  intros (Hc & Hw & Hg & Hf & Ht) Hp Hq Ip Iq. destruct (decide (i = j)) as [|Hne]; [done|exfalso].
  assert (Hsum : ∀ l, (sum_list_with is_init l + sum_list_with is_success l + sum_list_with is_failure l =
    sum_list_with (λ p, is_init p + is_success p + is_failure p) l)%nat) by (induction l as [|x l IH]; cbn in *; lia).
  pose proof (sum_lookup_two (λ p, is_init p + is_success p + is_failure p)%nat _ _ _ _ _ Hne Hp Hq) as H2.
  cbn beta in H2. rewrite <- Hsum in H2. unfold inside, busy, total in *. lia.
Qed.

Lemma once_inv_done n s i : once_inv n true s → o_threads s !! i ≠ Some InInit.
Proof. intros (Hc & Hw & Hg & Hf & Ht) Hi. pose proof (sum_lookup is_init _ _ _ Hi) as H1. unfold busy, total in *. cbn in *. lia. Qed.

Lemma once_inv_true n ok s i c : once_inv n ok s → o_threads s !! i = Some (Returned true c) → ok = true.
Proof.
  intros (Hc & Hw & Hg & Hf & Ht) Hi. pose proof (sum_lookup is_true _ _ _ Hi) as H1. unfold busy, total in *. cbn in *.
  specialize (Ht ltac:(lia)). destruct ok; cbn [Nat.b2n] in *; [done|lia].
Qed.

Lemma once_inv_false n ok s i c : once_inv n ok s → o_threads s !! i = Some (Returned false c) → (0 < n)%nat.
Proof. intros (Hc & Hw & Hg & Hf & Ht) Hi. pose proof (sum_lookup is_false _ _ _ Hi) as H1. unfold total in *. cbn in *. lia. Qed.

(** ** Theorems *)

(** C20: the function is called by one thread at a time and succeeds once. In
    every reachable state, with any number of threads: at most one thread is
    between the compare-and-swap and the store of the outcome; the calls made so
    far have all failed, but for the last one if the initialisation is done, and
    once it is done no thread calls the function; a thread is told TRUE only
    after the call that succeeded, at most one of them by having made it (only
    that one gets a context: the others' is not written); those that are told
    FALSE (and the one about to be) are as many as the calls that failed. *)
Theorem init_once_exclusive n s :
  reachable (once_start n) once_trans s →
  (∀ i j p q, o_threads s !! i = Some p → o_threads s !! j = Some q → inside p → inside q → i = j) ∧
  ∃ failed done, o_calls s = replicate failed false ++ (if done : bool then [true] else []) ∧
    (done = true → ∀ i, o_threads s !! i ≠ Some InInit) ∧
    (∀ i c, o_threads s !! i = Some (Returned true c) → done = true) ∧
    (total is_first s ≤ Nat.b2n done)%nat ∧ (total is_false s + total is_failure s = failed)%nat.
Proof.
  intros (k & ok & H)%once_reachable_inv. split; [intros i j p q; by apply (once_inv_unique k ok)|].
  pose proof H as (Hc & Hw & Hg & Hf & Ht). exists k, ok. split_and!; [done| | |destruct ok; cbn in *; lia|lia].
  - intros -> i. by apply (once_inv_done k).
  - intros i c. by apply (once_inv_true k).
Qed.

Lemma once_next_self i init s p : o_threads s !! i = Some p →
  o_threads (once_next i init s) !! i = Some (once_step init (o_ptr s) p).2 ∧ o_ptr (once_next i init s) = (once_step init (o_ptr s) p).1.
Proof.
  intros Hi. unfold once_next. rewrite Hi. destruct (once_step init (o_ptr s) p) as [w p']. cbn.
  split; [|done]. apply list_lookup_insert_eq. by apply lookup_lt_Some in Hi.
Qed.

(** The word and the state of a thread that runs alone. *)
Fixpoint alone_step (k : nat) (init : bool * Z) (wp : Z * pc) : Z * pc :=
  match k with O => wp | S k => alone_step k init (once_step init wp.1 wp.2) end.

Lemma once_alone_step k i init s p : o_threads s !! i = Some p →
  o_threads (once_alone k i init s) !! i = Some (alone_step k init (o_ptr s, p)).2.
Proof.
  revert s p. induction k as [|k IH]; intros s p Hi; [done|]. cbn [once_alone alone_step fst snd].
  destruct (once_next_self i init s p Hi) as [H1 H2]. rewrite (IH _ _ H1), H2. by destruct (once_step init (o_ptr s) p).
Qed.

(** C21: nobody waits for a thread that is not initialising. From every reachable
    state in which no other thread is between the compare-and-swap and the
    store, a thread that runs alone returns within six steps; one that just
    called is told TRUE exactly when the initialisation was done or its own call
    of the function succeeds, and gets that call's context in the latter case
    only. *)
Theorem init_once_returns n s i p init :
  reachable (once_start n) once_trans s → o_threads s !! i = Some p →
  (∀ j q, o_threads s !! j = Some q → inside q → j = i) →
  ∃ b c, o_threads (once_alone 6 i init s) !! i = Some (Returned b c) ∧
    (p = AtSwitch → b = (o_ptr s =? 2) || init.1 ∧ c = if o_ptr s =? 2 then None else Some init.2).
Proof.
  intros (k & ok & _ & Hw & _)%once_reachable_inv Hi Ho. rewrite (once_alone_step 6 i init s p Hi).
  assert (Hz : ¬ inside p → busy s ≠ 1%nat).
  { intros Hp E. assert (Hex : ∃ q j, o_threads s !! j = Some q ∧ inside q); [|destruct Hex as (q & j & Hj & Hq); specialize (Ho j q Hj Hq); subst; by simplify_eq].
    clear -E. unfold busy, total in E. induction (o_threads s) as [|x l IH]; [done|]. destruct (decide (is_init x + is_success x + is_failure x = 1)%nat) as [Hx|Hx].
    - exists x, 0%nat. by split.
    - destruct IH as (q & j & Hj & Hq); [|exists q, (S j); by split]. cbn in E. destruct x as [| | | | | |[] [] ]; cbn in *; lia. }
  assert (Hw' : o_ptr s = 0 ∨ o_ptr s = 2 ∨ (o_ptr s = 1 ∧ inside p)).
  { destruct Hw as [(E & _)|[(E & _ & H1)|(E & _)]]; [by left|right; right; split; [done|]|right; by left].
    unfold inside. destruct p; try reflexivity; exfalso; by apply Hz. }
  destruct Hw' as [E|[E|(E & Hp)]]; rewrite E; destruct p as [| | |c|c| |b c]; destruct init as [[] cx];
    first [eexists _, _; split; [reflexivity|done]|exfalso; unfold inside in Hp; cbn in Hp; lia].
Qed.

(** Two threads: the first one's call fails while the second one sleeps; then
    the second one's call succeeds, and the first one calls again. *)
Definition once_run (l : list (nat * (bool * Z))) (s : once) : once := foldl (λ s a, once_next a.1 a.2 s) s l.

Lemma once_run_reachable n l s : reachable (once_start n) once_trans s → reachable (once_start n) once_trans (once_run l s).
Proof.
  revert s. induction l as [|a l IH]; intros s H; [done|]. apply IH. eapply reach_step; [exact H|]. by exists a.1, a.2.
Qed.

Definition once_demo : once :=
  once_run [(0%nat, (false, 7)); (0%nat, (false, 7)); (1%nat, (true, 8)); (0%nat, (false, 7)); (1%nat, (true, 8)); (0%nat, (false, 7));
            (1%nat, (true, 8)); (1%nat, (true, 8)); (1%nat, (true, 8))] (Once 0 [AtSwitch; AtSwitch; AtSwitch] []).

Lemma init_once_exclusive_witness :
  o_threads once_demo = [Returned false (Some 7); AtSuccess 8; AtSwitch] ∧ o_calls once_demo = [false; true] ∧ (total is_false once_demo = 1)%nat.
Proof.
  assert (H : reachable (once_start 3) once_trans once_demo) by (apply once_run_reachable, reach_init; reflexivity).
  destruct (init_once_exclusive 3 once_demo H) as (_ & k & ok & Hc & _ & _ & _ & Hf).
  split; [vm_compute; reflexivity|]. split; [vm_compute; reflexivity|]. vm_compute in Hc.
  assert (total is_failure once_demo = 0%nat) by (vm_compute; reflexivity).
  destruct k as [|[|[|k]]], ok; first [done|lia].
Defined.

Lemma init_once_returns_witness :
  ∃ b c, o_threads (once_alone 6 2 (true, 9) (once_next 1 (true, 8) once_demo)) !! 2%nat = Some (Returned b c) ∧ b = true ∧ c = None.
Proof.
  assert (H : reachable (once_start 3) once_trans (once_next 1 (true, 8) once_demo)).
  { apply reach_step with once_demo; [apply once_run_reachable, reach_init; reflexivity|]. by exists 1%nat, (true, 8). }
  destruct (init_once_returns 3 _ 2 AtSwitch (true, 9) H) as (b & c & Hr & Hb).
  - vm_compute. reflexivity.
  - intros [|[|[|j]]] q Hq Hin; vm_compute in Hq; simplify_eq; vm_compute in Hin; done.
  - exists b, c. split; [exact Hr|]. exact (Hb eq_refl).
Defined.
