(* ===== verification/Barrier.v ===== *)
(** Synchronisation barriers (src/libuzi/barrier.c): creation, and entering and
    deleting as the steps of a thread, a read or write of the barrier or a call
    on one of its two events each.

    The barrier relies on its events through the interface [Events]; the events
    of Event.v on the kernel implement it. *)

From stdpp Require Import list gmap.
From S2P Require Import Prelude Interlocked Kernel Handle Wait Event Objects.

Set Warnings "-clear-no-such-hyp".

(** ** The events a barrier uses

    Two events [ev false] and [ev true] in a store: [ev_flags ev f s] tells
    which of them are set. A wait that would block has no result. *)
Class Events (S : Type) := {
  ev_set : Z → S → res S;
  ev_reset : Z → S → res S;
  ev_wait : Z → S → res (option S);
  ev_close : Z → S → res S;
  ev_flags : (bool → Z) → (bool → bool) → S → Prop;
  ev_set_ok : ∀ ev f s i, ev_flags ev f s → f i = false →
    runs (ev_set (ev i) s) (λ s', ∃ f', ev_flags ev f' s' ∧ f' i = true ∧ f' (negb i) = f (negb i));
  ev_reset_ok : ∀ ev f s i, ev_flags ev f s →
    runs (ev_reset (ev i) s) (λ s', ∃ f', ev_flags ev f' s' ∧ f' i = false ∧ f' (negb i) = f (negb i));
  ev_wait_ok : ∀ ev f s i, ev_flags ev f s → ev_wait (ev i) s = Ok (if f i then Some s else None) }.

(** ** The barrier *)

Record SYNCHRONIZATION_BARRIER := Barrier {
  Reserved1 : Z;     (* the threads that have not yet entered *)
  Reserved2 : Z;     (* the threads required *)
  Reserved3_0 : Z;   (* the current event *)
  Reserved3_1 : Z;   (* the dormant one *)
  Reserved4 : Z;     (* processors *)
  Reserved5 : Z }.   (* spin count *)

Definition set_R1 x (b : SYNCHRONIZATION_BARRIER) := Barrier x (Reserved2 b) (Reserved3_0 b) (Reserved3_1 b) (Reserved4 b) (Reserved5 b).
Definition set_R30 x (b : SYNCHRONIZATION_BARRIER) := Barrier (Reserved1 b) (Reserved2 b) x (Reserved3_1 b) (Reserved4 b) (Reserved5 b).
Definition set_R31 x (b : SYNCHRONIZATION_BARRIER) := Barrier (Reserved1 b) (Reserved2 b) (Reserved3_0 b) x (Reserved4 b) (Reserved5 b).

Definition zero_barrier := Barrier 0 0 0 0 0 0.
Definition ERROR_INVALID_PARAMETER := 87.

(** The allocations and descriptors of the two events and the number of
    processors are the system's answers. *)
Definition winpr_InitializeSynchronizationBarrier (calloc0 efd0 calloc1 efd1 dwNumberOfProcessors : Z)
    (lpBarrier : option SYNCHRONIZATION_BARRIER) (lTotalThreads lSpinCount : Z) : K (bool * option SYNCHRONIZATION_BARRIER) :=
  match lpBarrier with
  | None => SetLastError ERROR_INVALID_PARAMETER;; mret (false, None)
  | Some b =>
    if (lTotalThreads <? 1) || (lSpinCount <? -1) then SetLastError ERROR_INVALID_PARAMETER;; mret (false, Some b)
    else
      let lSpinCount := if lSpinCount =? -1 then 2000 else lSpinCount in
      hEvent0 ← CreateEventA calloc0 efd0 true false;
      if hEvent0 =? 0 then mret (false, Some zero_barrier)
      else
        hEvent1 ← CreateEventA calloc1 efd1 true false;
        if hEvent1 =? 0 then CloseHandle hEvent0;; mret (false, Some zero_barrier)
        else mret (true, Some (Barrier (u32 lTotalThreads) (u32 lTotalThreads) hEvent0 hEvent1 dwNumberOfProcessors (u32 lSpinCount)))
  end.

Definition SYNCHRONIZATION_BARRIER_FLAGS_SPIN_ONLY := 1.
Definition SYNCHRONIZATION_BARRIER_FLAGS_BLOCK_ONLY := 2.

(** Where a thread is: outside, or before the given read, write or call of
    Enter (with its flags, the events it has read, the threads remaining and its
    spins) or of Delete. *)
Inductive pc :=
  | Outside
  | AtDormant (dwFlags cur : Z)
  | AtDecrement (dwFlags cur dorm : Z)
  | AtTest (dwFlags cur remaining : Z)
  | AtSpin (spinOnly : bool) (cur dwSpinCount sp : Z)
  | AtWait (cur : Z)
  | AtReset (cur dorm : Z)
  | AtRefill (cur dorm : Z)
  | AtSwitch1 (cur dorm : Z)
  | AtSwitch0 (cur dorm : Z)
  | AtSignal (cur : Z)
  | AtPoll
  | AtClose0
  | AtClose1
  | AtZero.

(** What a step leads to: a place inside, or the return of Enter or Delete. *)
Inductive outcome := At (p : pc) | Entered (b : bool) | Deleted.

Section Steps.
Context {S : Type} `{Events S}.

(** A step from [p]; [None] when the thread is blocked. *)
Definition barrier_step (m : SYNCHRONIZATION_BARRIER) (s : S) (p : pc) : res (option (SYNCHRONIZATION_BARRIER * S * outcome)) :=
  match p with
  | Outside => Ok None
  | AtDormant f cur => Ok (Some (m, s, At (AtDecrement f cur (Reserved3_1 m))))
  | AtDecrement f cur dorm =>
    let '(v, remainingThreads) := InterlockedDecrement (s32 (Reserved1 m)) in
    if remainingThreads <? 0 then UB
    else if 0 <? remainingThreads then Ok (Some (set_R1 (u32 v) m, s, At (AtTest f cur remainingThreads)))
    else Ok (Some (set_R1 (u32 v) m, s, At (AtReset cur dorm)))
  | AtTest f cur remainingThreads =>
    let spinOnly := nonzero (Z.land f SYNCHRONIZATION_BARRIER_FLAGS_SPIN_ONLY) in
    let blockOnly := nonzero (Z.land f SYNCHRONIZATION_BARRIER_FLAGS_BLOCK_ONLY) in
    if spinOnly || ((u32 remainingThreads <? Reserved4 m) && negb blockOnly) then
      Ok (Some (m, s, At (AtSpin spinOnly cur (Reserved5 m) 0)))
    else Ok (Some (m, s, At (AtWait cur)))
  | AtSpin spinOnly cur dwSpinCount sp =>
    if negb (Reserved3_0 m =? cur) then Ok (Some (m, s, Entered false))
    else if spinOnly then Ok (Some (m, s, At (AtSpin spinOnly cur dwSpinCount sp)))
    else
      let sp := u32 (sp + 1) in
      if dwSpinCount <? sp then Ok (Some (m, s, At (AtWait cur))) else Ok (Some (m, s, At (AtSpin spinOnly cur dwSpinCount sp)))
  | AtWait cur => r ← ev_wait cur s; Ok (match r with Some s => Some (m, s, Entered false) | None => None end)
  | AtReset cur dorm => s ← ev_reset dorm s; Ok (Some (m, s, At (AtRefill cur dorm)))
  | AtRefill cur dorm => Ok (Some (set_R1 (Reserved2 m) m, s, At (AtSwitch1 cur dorm)))
  | AtSwitch1 cur dorm => Ok (Some (set_R31 cur m, s, At (AtSwitch0 cur dorm)))
  | AtSwitch0 cur dorm => Ok (Some (set_R30 dorm m, s, At (AtSignal cur)))
  | AtSignal cur => s ← ev_set cur s; Ok (Some (m, s, Entered true))
  | AtPoll => Ok (Some (m, s, At (if Reserved1 m =? Reserved2 m then AtClose0 else AtPoll)))
  | AtClose0 => s ← (if Reserved3_0 m =? 0 then Ok s else ev_close (Reserved3_0 m) s); Ok (Some (m, s, At AtClose1))
  | AtClose1 => s ← (if Reserved3_1 m =? 0 then Ok s else ev_close (Reserved3_1 m) s); Ok (Some (m, s, At AtZero))
  | AtZero => Ok (Some (zero_barrier, s, Deleted))
  end.

(** A thread: where it is, and what its calls of Enter have answered. *)
Record party := Party { place : pc; results : list bool }.
Record system := System { mem : SYNCHRONIZATION_BARRIER; store : S; parties : list party }.

Inductive action := Enter (dwFlags : Z) | Delete | Go.
#[export] Instance action_eq_dec : EqDecision action.
Proof. solve_decision. Defined.

Definition arrive (t : party) (o : outcome) : party :=
  match o with
  | At p => Party p (results t)
  | Entered b => Party Outside (results t ++ [b])
  | Deleted => Party Outside (results t)
  end.

(** Thread [i] does [a]: a call when it is outside (the current event is read
    first), its next step when it is inside; anything else does nothing. *)
Definition barrier_next (i : nat) (a : action) (σ : system) : res system :=
  match parties σ !! i with
  | None => Ok σ
  | Some t =>
    match a, place t with
    | Enter f, Outside => Ok (System (mem σ) (store σ) (<[i := Party (AtDormant f (Reserved3_0 (mem σ))) (results t)]> (parties σ)))
    | Delete, Outside => Ok (System (mem σ) (store σ) (<[i := Party AtPoll (results t)]> (parties σ)))
    | Go, p =>
      r ← barrier_step (mem σ) (store σ) p;
      match r with
      | None => Ok σ
      | Some (m, s, o) => Ok (System m s (<[i := arrive t o]> (parties σ)))
      end
    | _, _ => Ok σ
    end
  end.

Fixpoint barrier_run (l : list (nat * action)) (σ : system) : res system :=
  match l with
  | [] => Ok σ
  | (i, a) :: l => σ ← barrier_next i a σ; barrier_run l σ
  end.
End Steps.

Arguments party : clear implicits.
Arguments system S : clear implicits.

(** ** The invariant *)

Section Invariant.
Context {St : Type} `{Events St} (ev : bool → Z) (Hev : ev false ≠ ev true) (N : nat).

(** In round [k] the current event is [cur k], the other one [dorm k]. *)
Fixpoint parity (k : nat) : bool := match k with O => false | S k => negb (parity k) end.
Definition cur (k : nat) : Z := ev (parity k).
Definition dorm (k : nat) : Z := ev (negb (parity k)).

Lemma cur_dorm k : cur k ≠ dorm k.
Proof. unfold cur, dorm. destruct (parity k); cbn; congruence. Qed.
Lemma cur_S k : cur (S k) = dorm k.
Proof. done. Qed.
Lemma dorm_S k : dorm (S k) = cur k.
Proof. unfold dorm, cur. cbn. by rewrite negb_involutive. Qed.

Definition round (t : party) : nat := length (results t).

(** Counted in, and not yet out of, round [k]. *)
Definition waiting (k : nat) (t : party) : Prop :=
  round t = k ∧ match place t with AtTest _ c _ | AtSpin _ c _ _ | AtWait c => c = cur k | _ => False end.
(** Not yet counted in. *)
Definition before (k : nat) (t : party) : Prop :=
  round t = k ∧ match place t with
                | Outside => True | AtDormant _ c => c = cur k | AtDecrement _ c d => c = cur k ∧ d = dorm k | _ => False end.
(** Still on the way out of the previous round. *)
Definition leaving (k : nat) (t : party) : Prop := match k with O => False | S k => waiting k t end.
(** The last thread of the previous round, before it wakes the others. *)
Definition signalling (k : nat) (t : party) : Prop :=
  match k with O => False | S k => round t = k ∧ place t = AtSignal (cur k) end.

Definition absent (k : nat) (t : party) : nat :=
  match place t with AtTest _ _ _ | AtSpin _ _ _ _ | AtWait _ => if (round t =? k)%nat then 0 else 1 | _ => 1 end.
Definition won (r : nat) (t : party) : nat := match results t !! r with Some true => 1 | _ => 0 end.

Definition role (k : nat) (b : option nat) (i : nat) (t : party) : Prop :=
  before k t ∨ waiting k t ∨ leaving k t ∨ (b = Some i ∧ signalling k t).

(** The threads of round [k] gather; [b] is the thread that has yet to wake
    those of the round before. *)
Record gathering (k : nat) (b : option nat) (σ : system St) : Prop := Gathering {
  g_N : length (parties σ) = N;
  g_R2 : Reserved2 (mem σ) = Z.of_nat N;
  g_R1 : Reserved1 (mem σ) = Z.of_nat (sum_list_with (absent k) (parties σ));
  g_pos : 1 <= Reserved1 (mem σ);
  g_R30 : Reserved3_0 (mem σ) = cur k;
  g_R31 : Reserved3_1 (mem σ) = dorm k;
  g_flags : ∃ f, ev_flags ev f (store σ) ∧ f (parity k) = false ∧
    f (negb (parity k)) = match b with Some _ => false | None => negb (k =? 0)%nat end;
  g_role : ∀ i t, parties σ !! i = Some t → role k b i t;
  g_signal : ∀ i, b = Some i → ∃ t, parties σ !! i = Some t ∧ signalling k t;
  g_won : ∀ r, sum_list_with (won r) (parties σ) =
    if (r <? k)%nat then match b with Some _ => if (S r =? k)%nat then 0%nat else 1%nat | None => 1%nat end else 0%nat }.

(** The last thread of round [k], between its decrement and the switch of the
    events. *)
Definition leader (k : nat) (m : SYNCHRONIZATION_BARRIER) (f : bool → bool) (t : party) : Prop :=
  round t = k ∧ Reserved3_0 m = cur k ∧
  match place t with
  | AtReset c d => c = cur k ∧ d = dorm k
  | AtRefill c d => c = cur k ∧ d = dorm k ∧ f (negb (parity k)) = false
  | AtSwitch1 c d => c = cur k ∧ d = dorm k ∧ f (negb (parity k)) = false ∧ Reserved1 m = Z.of_nat N
  | AtSwitch0 c d => c = cur k ∧ d = dorm k ∧ f (negb (parity k)) = false ∧ Reserved1 m = Z.of_nat N ∧ Reserved3_1 m = cur k
  | _ => False
  end.

Record closing (k i : nat) (σ : system St) : Prop := Closing {
  c_N : length (parties σ) = N;
  c_R2 : Reserved2 (mem σ) = Z.of_nat N;
  c_leader : ∃ f t, ev_flags ev f (store σ) ∧ f (parity k) = false ∧ parties σ !! i = Some t ∧ leader k (mem σ) f t;
  c_role : ∀ j t, j ≠ i → parties σ !! j = Some t → waiting k t;
  c_won : ∀ r, sum_list_with (won r) (parties σ) = if (r <? k)%nat then 1%nat else 0%nat }.

(** What is left to do in the round. *)
Definition rank (k : nat) (t : party) : nat :=
  match place t with
  | Outside => 12
  | AtDormant _ _ => 11
  | AtDecrement _ _ _ => 10
  | AtTest _ _ _ => if (round t =? k)%nat then 0 else 15
  | AtSpin _ _ _ _ | AtWait _ => if (round t =? k)%nat then 0 else 14
  | AtSignal _ => 14
  | AtReset _ _ => 4
  | AtRefill _ _ => 3
  | AtSwitch1 _ _ => 2
  | AtSwitch0 _ _ => 1
  | _ => 0
  end.
Definition work (k : nat) (σ : system St) : nat := sum_list_with (rank k) (parties σ).

(** An action that brings the round forward. *)
Definition useful (k : nat) (b : option nat) (i : nat) (a : action) (σ : system St) : Prop :=
  ∃ t, parties σ !! i = Some t ∧ ¬ waiting k t ∧ (b = None ∨ b = Some i) ∧
       match place t with Outside => ∃ f, a = Enter f | _ => a = Go end.

Lemma signalling_place k t : signalling k t → place t = AtSignal (dorm k) ∧ S (round t) = k.
Proof. destruct k as [|k]; [done|]. intros [<- Hp]. by rewrite Hp, dorm_S. Qed.

Lemma gathering_move k b σ i t t' : gathering k b σ → parties σ !! i = Some t → b ≠ Some i → role k b i t' →
  absent k t' = absent k t → (∀ r, won r t' = won r t) →
  gathering k b (System (mem σ) (store σ) (<[i := t']> (parties σ))).
Proof.
  intros [HN H2 H1 Hp H30 H31 Hf Hro Hsi Hwo] Hi Hb Hr Ha Hw. split; cbn [mem store parties]; try done.
  - by rewrite length_insert.
  - pose proof (sum_insert (absent k) _ _ _ t' Hi). rewrite H1. lia.
  - intros j u. destruct (decide (i = j)) as [<-|Hij].
    + rewrite list_lookup_insert_eq by (by eapply lookup_lt_Some). by intros [= <-].
    + rewrite list_lookup_insert_ne by done. apply Hro.
  - intros j ->. rewrite list_lookup_insert_ne by congruence. by apply Hsi.
  - intros r. rewrite <- Hwo. pose proof (sum_insert (won r) _ _ _ t' Hi). specialize (Hw r). lia.
Qed.

Lemma work_move k σ i t t' m s : parties σ !! i = Some t → (rank k t' < rank k t)%nat →
  (work k (System m s (<[i := t']> (parties σ))) < work k σ)%nat.
Proof. intros Hi Hr. unfold work. cbn [parties]. pose proof (sum_insert (rank k) _ _ _ t' Hi). lia. Qed.

Lemma won_false r l p p' : won r (Party p' (l ++ [false])) = won r (Party p l).
Proof.
  unfold won. cbn [results]. destruct (decide (r < length l)%nat).
  - by rewrite lookup_app_l.
  - rewrite lookup_app_r by lia. rewrite (lookup_ge_None_2 l) by lia. by destruct (r - length l)%nat.
Qed.

Lemma won_true r l p p' : won r (Party p' (l ++ [true])) = (won r (Party p l) + if (r =? length l)%nat then 1 else 0)%nat.
Proof.
  unfold won. cbn [results]. destruct (Nat.eqb_spec r (length l)) as [->|Hne].
  - rewrite lookup_app_r, Nat.sub_diag by lia. by rewrite (lookup_ge_None_2 l).
  - destruct (decide (r < length l)%nat); [rewrite lookup_app_l by done; by rewrite Nat.add_0_r|].
    rewrite lookup_app_r by lia. rewrite (lookup_ge_None_2 l) by lia. destruct (r - length l)%nat eqn:E; [lia|done].
Qed.

Lemma waiting_not_outside k t : waiting k t → place t ≠ Outside.
Proof. intros [_ Hp] E. by rewrite E in Hp. Qed.

(** The result of one action in a round: still gathering with less to do when
    the action is useful, or closing. *)
Definition advances (k : nat) (b : option nat) (i : nat) (a : action) (σ : system St) (r : res (system St)) : Prop :=
  runs r (λ σ', ((∃ b', gathering k b' σ') ∨ closing k i σ') ∧ (useful k b i a σ → (work k σ' < work k σ)%nat)).

Lemma advances_stay k b i a σ : gathering k b σ → ¬ useful k b i a σ → advances k b i a σ (Ok σ).
Proof. intros G Hu. apply runs_ok. split; [left; by exists b|done]. Qed.

Lemma advances_move k b i a σ t t' : gathering k b σ → parties σ !! i = Some t → b ≠ Some i → role k b i t' →
  absent k t' = absent k t → (∀ r, won r t' = won r t) → waiting k t ∨ (rank k t' < rank k t)%nat →
  advances k b i a σ (Ok (System (mem σ) (store σ) (<[i := t']> (parties σ)))).
Proof.
  intros G Hi Hb Hr Ha Hw Hk. apply runs_ok. split; [left; exists b; by eapply gathering_move|].
  intros (u & Hu & Hnw & _). rewrite Hi in Hu. injection Hu as <-. destruct Hk as [Hk|Hk]; [done|]. by eapply work_move.
Qed.

Lemma go_step i σ t : parties σ !! i = Some t → place t ≠ Outside →
  barrier_next i Go σ =
  (r ← barrier_step (mem σ) (store σ) (place t);
   match r with None => Ok σ | Some (m, s, o) => Ok (System m s (<[i := arrive t o]> (parties σ))) end).
Proof. intros Hi Hp. unfold barrier_next. rewrite Hi. by destruct (place t). Qed.

(** A thread that waits in the round. *)
Lemma waiting_advances k b i σ t : gathering k b σ → parties σ !! i = Some t → waiting k t →
  advances k b i Go σ (barrier_next i Go σ).
Proof.
  intros G Hi Hw. rewrite (go_step i σ t Hi (waiting_not_outside k t Hw)).
  assert (Hb : b ≠ Some i).
  { intros E. destruct (g_signal _ _ _ G i E) as (u & Hu & Hs%signalling_place). rewrite Hi in Hu. injection Hu as <-.
    destruct Hw as [_ Hp], Hs as [Hs _]. by rewrite Hs in Hp. }
  destruct t as [p l]. destruct Hw as [Hr Hp]. cbn [place] in *.
  assert (Hstay : ∀ p', match p' with AtTest _ c _ | AtSpin _ c _ _ | AtWait c => c = cur k | _ => False end →
    advances k b i Go σ (Ok (System (mem σ) (store σ) (<[i := Party p' l]> (parties σ))))).
  { intros p' Hp'. eapply advances_move; try done.
    - right. left. by split.
    - unfold absent. cbn [place]. unfold round in *. cbn [results] in *. rewrite Hr, Nat.eqb_refl. by destruct p, p'.
    - left. by split. }
  destruct p; try done; cbn [barrier_step]; subst cur0.
  - destruct (nonzero _ || _); rewrite bind_Ok; by apply Hstay.
  - rewrite (g_R30 _ _ _ G), Z.eqb_refl. cbn [negb]. destruct spinOnly; [rewrite bind_Ok; by apply Hstay|].
    destruct (dwSpinCount <? _); rewrite bind_Ok; by apply Hstay.
  - destruct (g_flags _ _ _ G) as (f & Hf & Hc & _). unfold cur. rewrite (ev_wait_ok ev f _ _ Hf), Hc, !bind_Ok.
    apply advances_stay; [done|]. intros (u & Hu & Hnw & _). rewrite Hi in Hu. injection Hu as <-. apply Hnw. by split.
Qed.

(** The thread that wakes the others. *)
Lemma signal_advances k i σ : gathering k (Some i) σ → advances k (Some i) i Go σ (barrier_next i Go σ).
Proof.
  intros G. destruct (g_signal _ _ _ G i eq_refl) as (t & Hi & Hs). destruct k as [|k]; [done|]. destruct Hs as [Hr Hp].
  rewrite (go_step i σ t Hi) by (by rewrite Hp). rewrite Hp. cbn [barrier_step].
  destruct G as [HN H2 H1 Hpos H30 H31 (f & Hf & Hc & Hd) Hro Hsi Hwo]. cbn [parity] in *. rewrite negb_involutive in Hd.
  destruct (ev_set_ok ev f _ (parity k) Hf Hd) as (s' & Hs' & f' & Hf' & Hi' & Hn').
  unfold cur at 1. rewrite Hs', !bind_Ok. apply runs_ok. destruct t as [p l]. cbn [place] in Hp. subst p. unfold round in Hr. cbn [results] in Hr.
  split; [left; exists None|intros _; eapply work_move; [exact Hi|cbn; lia]]. split; cbn [mem store parties arrive results]; try done.
  - by rewrite length_insert.
  - pose proof (sum_insert (absent (S k)) _ _ _ (Party Outside (l ++ [true])) Hi) as E. cbn [absent place] in E. rewrite H1. lia.
  - exists f'. cbn [parity]. rewrite negb_involutive, Hn', Hi', Hc. by split_and!.
  - intros j u. destruct (decide (i = j)) as [<-|Hij].
    + rewrite list_lookup_insert_eq by (by eapply lookup_lt_Some). intros [= <-]. left. split; [|done].
      unfold round. cbn [results]. rewrite length_app. cbn. lia.
    + rewrite list_lookup_insert_ne by done. intros Hu. destruct (Hro _ _ Hu) as [?|[?|[?|[[= ->] _]]]]; [by left|by right; left|by right; right; left|done].
  - intros r. pose proof (sum_insert (won r) _ _ _ (Party Outside (l ++ [true])) Hi) as E.
    rewrite (won_true r l (AtSignal (cur k))), Hr in E. specialize (Hwo r). cbn [Nat.eqb] in Hwo.
    destruct (Nat.ltb_spec r (S k)), (Nat.eqb_spec r k); lia.
Qed.

(** A thread on its way out of the previous round. *)
Lemma leaving_advances k b i σ t : gathering k b σ → parties σ !! i = Some t → leaving k t → b ≠ Some i →
  advances k b i Go σ (barrier_next i Go σ).
Proof.
  intros G Hi Hl Hb. destruct k as [|k]; [done|]. cbn [leaving] in Hl. rewrite (go_step i σ t Hi (waiting_not_outside k t Hl)).
  destruct t as [p l]. destruct Hl as [Hr Hp]. unfold round in Hr. cbn [place results] in *.
  assert (Hne : (length l =? S k)%nat = false) by (apply Nat.eqb_neq; lia).
  assert (Habs : absent (S k) (Party p l) = 1%nat) by (unfold absent, round; cbn [place results]; rewrite Hne; by destruct p).
  assert (Hstay : ∀ p', match p' with AtSpin _ c _ _ | AtWait c => c = cur k | _ => False end →
    (rank (S k) (Party p' l) < rank (S k) (Party p l))%nat ∨ ¬ useful (S k) b i Go σ →
    advances (S k) b i Go σ (Ok (System (mem σ) (store σ) (<[i := Party p' l]> (parties σ))))).
  { intros p' Hp' Hk. assert (Hrole : role (S k) b i (Party p' l)) by (right; right; left; split; [done|]; by destruct p').
    assert (Ha : absent (S k) (Party p' l) = absent (S k) (Party p l)) by (rewrite Habs; unfold absent, round; cbn [place results]; rewrite Hne; by destruct p').
    apply runs_ok. split; [left; exists b; by eapply gathering_move|]. intros Hu. destruct Hk as [Hk|Hk]; [by eapply work_move|done]. }
  assert (Hout : advances (S k) b i Go σ (Ok (System (mem σ) (store σ) (<[i := Party Outside (l ++ [false])]> (parties σ))))).
  { eapply advances_move; try done.
    - left. split; [|done]. unfold round. cbn [results]. rewrite length_app. cbn. lia.
    - intros r. apply won_false.
    - right. unfold rank, round. cbn [place results]. rewrite Hne. destruct p; done || lia. }
  destruct p; try done; cbn [barrier_step]; subst cur0.
  - assert (Hk : ∀ p', match p' with AtSpin _ c _ _ | AtWait c => c = cur k | _ => False end →
      (rank (S k) (Party p' l) < rank (S k) (Party (AtTest dwFlags (cur k) remaining) l))%nat).
    { intros p' Hp'. unfold rank, round. cbn [place results]. rewrite Hne. destruct p'; done || lia. }
    destruct (nonzero _ || _); rewrite bind_Ok; apply Hstay; try done; left; by apply Hk.
  - rewrite (g_R30 _ _ _ G), cur_S. replace (dorm k =? cur k) with false by (symmetry; apply Z.eqb_neq; apply not_eq_sym, cur_dorm). exact Hout.
  - destruct (g_flags _ _ _ G) as (f & Hf & Hc & Hd). cbn [parity] in Hd. rewrite negb_involutive in Hd.
    unfold cur. rewrite (ev_wait_ok ev f _ _ Hf), Hd. destruct b as [j|]; [|exact Hout]. rewrite !bind_Ok. apply advances_stay; [done|].
    intros (u & _ & _ & [?|?] & _); [done|]. by apply Hb.
Qed.

Context (HN : (1 ≤ N)%nat) (HN31 : Z.of_nat N < 2 ^ 31).

Lemma sum_absent_le k l : (sum_list_with (absent k) l ≤ length l)%nat.
Proof. rewrite <- (Nat.mul_1_r (length l)). apply sum_bound. intros i t _. unfold absent. destruct (place t); try lia; destruct (_ =? _)%nat; lia. Qed.

(** The last thread to be counted in: every other one is waiting. *)
Lemma last_in k b σ i t : gathering k b σ → parties σ !! i = Some t → absent k t = 1%nat → Reserved1 (mem σ) = 1 →
  ∀ j u, j ≠ i → parties σ !! j = Some u → waiting k u.
Proof.
  intros G Hi Ha H1 j u Hj Hu. pose proof (sum_lookup_two (absent k) _ _ _ _ _ Hj Hu Hi) as Hs.
  rewrite (g_R1 _ _ _ G) in H1. assert (Hz : absent k u = 0%nat) by lia.
  destruct (g_role _ _ _ G j u Hu) as [[_ Hb]|[Hw|[Hl|[_ Hg%signalling_place]]]]; [|done| |].
  - exfalso. unfold absent in Hz. by destruct (place u).
  - exfalso. destruct k as [|k]; [done|]. destruct Hl as [Hr _]. unfold absent in Hz. rewrite Hr in Hz.
    replace (k =? S k)%nat with false in Hz by (symmetry; apply Nat.eqb_neq; lia). by destruct (place u).
  - exfalso. unfold absent in Hz. by rewrite (proj1 Hg) in Hz.
Qed.

Lemma decrement_ok k b σ : gathering k b σ →
  InterlockedDecrement (s32 (Reserved1 (mem σ))) = (Reserved1 (mem σ) - 1, Reserved1 (mem σ) - 1) ∧ u32 (Reserved1 (mem σ) - 1) = Reserved1 (mem σ) - 1.
Proof.
  intros G. pose proof (g_pos _ _ _ G) as Hp. pose proof (g_R1 _ _ _ G) as H1. pose proof (sum_absent_le k (parties σ)) as Hs.
  rewrite (g_N _ _ _ G) in Hs. unfold InterlockedDecrement. rewrite (swrap_id 32 (Reserved1 (mem σ))) by zlia; rewrite swrap_id by zlia. split; [done|]. apply wrap_id. zlia.
Qed.

(** A thread that is counted in. *)
Lemma decrement_advances k b i σ f l : gathering k b σ → b ≠ Some i →
  parties σ !! i = Some (Party (AtDecrement f (cur k) (dorm k)) l) → length l = k →
  advances k b i Go σ (barrier_next i Go σ).
Proof.
  intros G Hb Hi Hr. rewrite (go_step i σ _ Hi) by done. cbn [place barrier_step].
  destruct (decrement_ok k b σ G) as [-> ->]. pose proof (g_pos _ _ _ G) as Hpos.
  destruct (Z.ltb_spec (Reserved1 (mem σ) - 1) 0); [lia|]. pose proof Hi as Hlt%lookup_lt_Some.
  destruct (Z.ltb_spec 0 (Reserved1 (mem σ) - 1)) as [Hgt|Hle]; rewrite bind_Ok; cbn [arrive results];
    (apply runs_ok; split; [|intros _; eapply work_move; [exact Hi|unfold rank, round; cbn [place results]; rewrite ?Hr, ?Nat.eqb_refl; lia]]).
  - left. exists b. destruct G as [Hn H2 H1 Hp H30 H31 Hf Hro Hsi Hwo]. split; cbn [mem store parties set_R1 Reserved1 Reserved2 Reserved3_0 Reserved3_1]; try done.
    + by rewrite length_insert.
    + pose proof (sum_insert (absent k) _ _ _ (Party (AtTest f (cur k) (Reserved1 (mem σ) - 1)) l) Hi) as E.
      unfold absent at 2 4, round in E. cbn [place results] in E. rewrite Hr, Nat.eqb_refl in E. lia.
    + lia.
    + intros j u. destruct (decide (i = j)) as [<-|Hij].
      * rewrite list_lookup_insert_eq by done. intros [= <-]. right. left. by split.
      * rewrite list_lookup_insert_ne by done. apply Hro.
    + intros j ->. rewrite list_lookup_insert_ne by congruence. by apply Hsi.
    + intros r. rewrite <- Hwo. pose proof (sum_insert (won r) _ _ _ (Party (AtTest f (cur k) (Reserved1 (mem σ) - 1)) l) Hi) as E.
      unfold won at 2 4 in E. cbn [results] in E. lia.
  - right. assert (E1 : Reserved1 (mem σ) = 1) by lia. pose proof (last_in k b σ i _ G Hi eq_refl E1) as Hothers.
    assert (Hbn : b = None).
    { destruct b as [j|]; [exfalso|done]. destruct (g_signal _ _ _ G j eq_refl) as (u & Hu & Hs%signalling_place).
      destruct (Hothers j u ltac:(congruence) Hu) as [_ Hw]. by rewrite (proj1 Hs) in Hw. }
    subst b. destruct G as [Hn H2 H1 Hp H30 H31 (g & Hg & Hc & Hd) Hro Hsi Hwo]. split; cbn [mem store parties set_R1 Reserved2]; try done.
    + by rewrite length_insert.
    + exists g, (Party (AtReset (cur k) (dorm k)) l). rewrite list_lookup_insert_eq by done. by split_and!.
    + intros j u Hj. rewrite list_lookup_insert_ne by done. by apply Hothers.
    + intros r. pose proof (sum_insert (won r) _ _ _ (Party (AtReset (cur k) (dorm k)) l) Hi) as E.
      unfold won at 2 4 in E. cbn [results] in E. specialize (Hwo r). destruct (r <? k)%nat; lia.
Qed.

(** A thread that has not been counted in. *)
Lemma before_advances k b i a σ t : gathering k b σ → parties σ !! i = Some t → before k t → b ≠ Some i →
  (place t = Outside → ∃ f, a = Enter f) → (place t ≠ Outside → a = Go) →
  advances k b i a σ (barrier_next i a σ).
Proof.
  intros G Hi Hbe Hb Ha1 Ha2. destruct t as [p l]. destruct Hbe as [Hr Hp]. unfold round in Hr. cbn [place results] in *.
  destruct p; try done.
  - destruct (Ha1 eq_refl) as [f ->]. unfold barrier_next. rewrite Hi. cbn [place results].
    eapply advances_move; try done; [|by right; cbn; lia]. left. split; [done|]. apply (g_R30 _ _ _ G).
  - rewrite Ha2 by done. rewrite (go_step i σ _ Hi) by done. cbn [place barrier_step]. rewrite bind_Ok. cbn [arrive results].
    eapply advances_move; try done; [|by right; cbn; lia]. left. split; [done|]. split; [done|]. apply (g_R31 _ _ _ G).
  - rewrite Ha2 by done. destruct Hp as [-> ->]. by eapply decrement_advances.
Qed.

Lemma next_idle i a σ t : parties σ !! i = Some t → a ≠ Delete → ¬ (place t = Outside ∧ ∃ f, a = Enter f) → ¬ (place t ≠ Outside ∧ a = Go) →
  barrier_next i a σ = Ok σ.
Proof. intros Hi Hd H1 H2. unfold barrier_next. rewrite Hi. destruct a, (place t) eqn:E; try done; exfalso; first [by apply H2|by apply H1; eauto]. Qed.

Lemma gathering_step k b i a σ : gathering k b σ → a ≠ Delete → advances k b i a σ (barrier_next i a σ).
Proof.
  intros G Hd. destruct (parties σ !! i) as [t|] eqn:Hi.
  2: { unfold barrier_next. rewrite Hi. apply advances_stay; [done|]. intros (u & Hu & _). congruence. }
  assert (Hfit : (place t = Outside ∧ (∃ f, a = Enter f)) ∨ (place t ≠ Outside ∧ a = Go) ∨
    (¬ (place t = Outside ∧ ∃ f, a = Enter f) ∧ ¬ (place t ≠ Outside ∧ a = Go))).
  { destruct a as [f| |], (place t); try done;
      first [by left; eauto|by right; left|right; right; split; [intros [? [? ?]]; done|intros [? ?]; done]]. }
  assert (Hidle : ¬ (place t = Outside ∧ (∃ f, a = Enter f)) → ¬ (place t ≠ Outside ∧ a = Go) → advances k b i a σ (barrier_next i a σ)).
  { intros H1 H2. rewrite (next_idle i a σ t Hi Hd H1 H2). apply advances_stay; [done|]. intros (u & Hu & _ & _ & Hp).
    rewrite Hi in Hu. injection Hu as <-. destruct (place t) eqn:E; first [by apply H1|by apply H2]. }
  assert (Hb : ¬ signalling k t → b ≠ Some i).
  { intros Hs ->. destruct (g_signal _ _ _ G i eq_refl) as (u & Hu & Hs'). rewrite Hi in Hu. by injection Hu as <-. }
  destruct (g_role _ _ _ G i t Hi) as [Hbe|[Hw|[Hl|[-> Hs]]]].
  - assert (b ≠ Some i). { apply Hb. intros [Hp _]%signalling_place. destruct Hbe as [_ Hbe]. by rewrite Hp in Hbe. }
    destruct Hfit as [[Hp Hf]|[[Hp ->]|[H1 H2]]]; [| |by apply Hidle]; eapply before_advances; done.
  - destruct Hfit as [[Hp _]|[[_ ->]|[H1 H2]]]; [by destruct (waiting_not_outside _ _ Hw)| |by apply Hidle]. by eapply waiting_advances.
  - assert (b ≠ Some i). { apply Hb. intros [Hp _]%signalling_place. destruct k; [done|]. destruct Hl as [_ Hl]. by rewrite Hp in Hl. }
    destruct Hfit as [[Hp _]|[[_ ->]|[H1 H2]]]; [destruct k; [done|]; by destruct (waiting_not_outside _ _ Hl)| |by apply Hidle].
    by eapply leaving_advances.
  - apply signalling_place in Hs as [Hp _]. destruct Hfit as [[Hp2 _]|[[_ ->]|[H1 H2]]]; [congruence| |by apply Hidle]. by apply signal_advances.
Qed.

Lemma sum_one {A} (f : A → nat) l : (∀ i x, l !! i = Some x → f x = 1%nat) → sum_list_with f l = length l.
Proof.
  induction l as [|x l IH]; intros Hl; [done|]. cbn. rewrite (Hl 0%nat x eq_refl), IH; [done|]. intros i y Hy. by apply (Hl (S i)).
Qed.

(** A step of the last thread that is not the switch. *)
Lemma closing_move k i σ m s f t t' : closing k i σ → parties σ !! i = Some t → Reserved2 m = Z.of_nat N →
  ev_flags ev f s → f (parity k) = false → leader k m f t' → results t' = results t → (rank k t' < rank k t)%nat →
  runs (Ok (System m s (<[i := t']> (parties σ)))) (λ σ', closing k i σ' ∧ (work k σ' < work k σ)%nat).
Proof.
  intros [Hn H2 _ Hro Hwo] Hi Hm Hf Hc Hl Hres Hk. apply runs_ok. split; [|by eapply work_move]. pose proof Hi as Hlt%lookup_lt_Some.
  split; cbn [mem store parties]; try done.
  - by rewrite length_insert.
  - exists f, t'. by rewrite list_lookup_insert_eq.
  - intros j u Hj. rewrite list_lookup_insert_ne by done. by apply Hro.
  - intros r. rewrite <- Hwo. pose proof (sum_insert (won r) _ _ _ t' Hi) as E. assert (won r t' = won r t) by (unfold won; by rewrite Hres). lia.
Qed.

(** The switch of the events opens the next round. *)
Lemma switch_opens k i σ f l : closing k i σ → parties σ !! i = Some (Party (AtSwitch0 (cur k) (dorm k)) l) → length l = k →
  ev_flags ev f (store σ) → f (parity k) = false → f (negb (parity k)) = false →
  Reserved1 (mem σ) = Z.of_nat N → Reserved3_1 (mem σ) = cur k →
  gathering (S k) (Some i) (System (set_R30 (dorm k) (mem σ)) (store σ) (<[i := Party (AtSignal (cur k)) l]> (parties σ))).
Proof.
  intros [Hn H2 _ Hro Hwo] Hi Hl Hf Hc Hd H1 H31. pose proof Hi as Hlt%lookup_lt_Some.
  split; cbn [mem store parties set_R30 Reserved1 Reserved2 Reserved3_0 Reserved3_1]; try done.
  - by rewrite length_insert.
  - rewrite sum_one, length_insert, Hn; [done|]. intros j u. destruct (decide (i = j)) as [<-|Hij].
    + rewrite list_lookup_insert_eq by done. by intros [= <-].
    + rewrite list_lookup_insert_ne by done. intros Hu. destruct (Hro j u ltac:(congruence) Hu) as [Hr _]. unfold absent. rewrite Hr.
      replace (k =? S k)%nat with false by (symmetry; apply Nat.eqb_neq; lia). by destruct (place u).
  - lia.
  - by rewrite dorm_S.
  - exists f. cbn [parity]. by rewrite negb_involutive.
  - intros j u. destruct (decide (i = j)) as [<-|Hij].
    + rewrite list_lookup_insert_eq by done. intros [= <-]. right. right. right. by split_and!.
    + rewrite list_lookup_insert_ne by done. intros Hu. right. right. left. apply (Hro j u); [congruence|done].
  - intros j [= <-]. eexists. rewrite list_lookup_insert_eq by done. split; [done|]. by split.
  - intros r. pose proof (sum_insert (won r) _ _ _ (Party (AtSignal (cur k)) l) Hi) as E. unfold won at 2 4 in E. cbn [results] in E.
    specialize (Hwo r). cbn [Nat.eqb]. destruct (Nat.ltb_spec r k), (Nat.ltb_spec r (S k)), (Nat.eqb_spec r k); lia.
Qed.

(** The last thread's steps. *)
Lemma leader_step k i σ : closing k i σ →
  runs (barrier_next i Go σ) (λ σ', (closing k i σ' ∧ (work k σ' < work k σ)%nat) ∨ gathering (S k) (Some i) σ').
Proof.
  intros C. destruct (c_leader _ _ _ C) as (f & [p l] & Hf & Hc & Hi & Hr & H30 & Hp). unfold round in Hr. cbn [place results] in *.
  rewrite (go_step i σ _ Hi) by (by destruct p). cbn [place]. pose proof (c_R2 _ _ _ C) as H2.
  destruct p; try done; cbn [barrier_step]; [destruct Hp as [-> ->]|destruct Hp as (-> & -> & Hp)..].
  - destruct (ev_reset_ok ev f _ (negb (parity k)) Hf) as (s' & Hs' & f' & Hf' & Hi' & Hn'). rewrite negb_involutive in Hn'.
    change (ev (negb (parity k))) with (dorm k) in Hs'. rewrite Hs', !bind_Ok. cbn [arrive results].
    eapply runs_mono; [|intros σ' Hx; left; exact Hx]. eapply closing_move; [done|done|done|exact Hf'|congruence| |done|cbn; lia]. by split_and!.
  - rewrite bind_Ok. cbn [arrive results]. eapply runs_mono; [|intros σ' Hx; left; exact Hx].
    eapply closing_move; [done|done|done|exact Hf|done| |done|cbn; lia]. by split_and!.
  - rewrite bind_Ok. cbn [arrive results]. eapply runs_mono; [|intros σ' Hx; left; exact Hx].
    eapply closing_move; [done|done|done|exact Hf|done| |done|cbn; lia]. destruct Hp. by split_and!.
  - rewrite bind_Ok. cbn [arrive results]. apply runs_ok. right. destruct Hp as (Hd & H1 & H31). by eapply switch_opens.
Qed.

(** The others wait while it does. *)
Lemma closing_stay k i j σ p l p' : closing k i σ → j ≠ i → parties σ !! j = Some (Party p l) → round (Party p l) = k →
  match p' with AtTest _ c _ | AtSpin _ c _ _ | AtWait c => c = cur k | _ => False end →
  closing k i (System (mem σ) (store σ) (<[j := Party p' l]> (parties σ))).
Proof.
  intros [Hn H2 (f & t & Hf & Hc & Hi & Hl) Hro Hwo] Hji Hj Hr Hp'. pose proof Hj as Hlt%lookup_lt_Some. split; cbn [mem store parties]; try done.
  - by rewrite length_insert.
  - exists f, t. by rewrite list_lookup_insert_ne.
  - intros j' u Hj'. destruct (decide (j = j')) as [<-|Hne].
    + rewrite list_lookup_insert_eq by done. intros [= <-]. by split.
    + rewrite list_lookup_insert_ne by done. by apply Hro.
  - intros r. rewrite <- Hwo. pose proof (sum_insert (won r) _ _ _ (Party p' l) Hj) as E. unfold won at 2 4 in E. cbn [results] in E. lia.
Qed.

Lemma closing_step k i j a σ : closing k i σ → a ≠ Delete →
  runs (barrier_next j a σ) (λ σ', (closing k i σ' ∧ (j = i → a = Go → work k σ' < work k σ)%nat) ∨ gathering (S k) (Some i) σ').
Proof.
  intros C Hd. destruct (decide (j = i)) as [->|Hji].
  - destruct (decide (a = Go)) as [->|Ha]; [eapply runs_mono; [by apply leader_step|]; cbn; tauto|].
    destruct (c_leader _ _ _ C) as (f & t & Hf & Hc & Hi & _ & _ & Hp).
    rewrite (next_idle i a σ t Hi Hd); [apply runs_ok; left; split; [done|by intros _ ?]|intros [E _]; by rewrite E in Hp|by intros [_ ?]].
  - destruct (parties σ !! j) as [t|] eqn:Hj; [|unfold barrier_next; rewrite Hj; apply runs_ok; left; split; [done|by intros ?]].
    pose proof (c_role _ _ _ C j t Hji Hj) as Hw. destruct (decide (a = Go)) as [->|Ha].
    + rewrite (go_step j σ t Hj (waiting_not_outside k t Hw)).
      destruct (c_leader _ _ _ C) as (f & u & Hf & Hc & Hi & Hr & H30 & Hp). destruct t as [p l]. destruct Hw as [Hrt Hpt]. cbn [place] in *.
      assert (Hstay : ∀ p', match p' with AtTest _ c _ | AtSpin _ c _ _ | AtWait c => c = cur k | _ => False end →
        runs (Ok (System (mem σ) (store σ) (<[j := Party p' l]> (parties σ))))
          (λ σ', (closing k i σ' ∧ (j = i → Go = Go → work k σ' < work k σ)%nat) ∨ gathering (S k) (Some i) σ')).
      { intros p' Hp'. apply runs_ok. left. split; [|done]. by eapply closing_stay. }
      destruct p; try done; cbn [barrier_step]; subst cur0.
      * destruct (nonzero _ || _); rewrite bind_Ok; by apply Hstay.
      * rewrite H30, Z.eqb_refl. cbn [negb]. destruct spinOnly; [rewrite bind_Ok; by apply Hstay|].
        destruct (dwSpinCount <? _); rewrite bind_Ok; by apply Hstay.
      * unfold cur. rewrite (ev_wait_ok ev f _ _ Hf), Hc, !bind_Ok. apply runs_ok. left. by split.
    + rewrite (next_idle j a σ t Hj Hd); [apply runs_ok; left; split; [done|by intros ?]|intros [E _]; by apply (waiting_not_outside _ _ Hw)|by intros [_ ?]].
Qed.

(** *** Executions *)

Definition barrier_inv (σ : system St) : Prop := ∃ k, (∃ b, gathering k b σ) ∨ (∃ i, closing k i σ).

Lemma next_inv i a σ : barrier_inv σ → a ≠ Delete → runs (barrier_next i a σ) barrier_inv.
Proof.
  intros [k [[b G]|[j C]]] Hd.
  - eapply runs_mono; [by eapply gathering_step|]. intros σ' [[G'|C'] _]; exists k; [by left|by right; exists i].
  - eapply runs_mono; [by apply (closing_step k j i a σ C)|]. intros σ' [[C' _]|G']; [exists k; right; by exists j|exists (S k); left; eauto].
Qed.

Lemma run_inv l σ : barrier_inv σ → Forall (λ x : nat * action, x.2 ≠ Delete) l → runs (barrier_run l σ) barrier_inv.
Proof.
  intros Hi Hl. revert σ Hi. induction Hl as [|[i a] l Ha Hl IH]; intros σ Hi; [by apply runs_ok|].
  cbn [barrier_run]. eapply runs_bind; [by apply next_inv|]. intros σ' H'. by apply IH.
Qed.

(** How many times a thread has been counted in. *)
Definition entered (t : party) : nat :=
  (round t + match place t with Outside | AtDormant _ _ | AtDecrement _ _ _ => 0 | _ => 1 end)%nat.

Lemma inv_rounds σ : barrier_inv σ → ∃ k, ∀ i t, parties σ !! i = Some t → (round t ≤ k ≤ entered t)%nat ∧ (k ≤ S (round t))%nat.
Proof.
  intros [k [[b G]|[j C]]]; exists k; intros i t Hi; unfold entered.
  - destruct (g_role _ _ _ G i t Hi) as [[<- _]|[[<- _]|[Hl|[_ [Hp <-]%signalling_place]]]]; [lia..| |rewrite Hp; lia].
    destruct k as [|k]; [done|]. destruct Hl as [<- Hp]. destruct (place t); done || lia.
  - destruct (decide (i = j)) as [->|Hne].
    + destruct (c_leader _ _ _ C) as (f & u & _ & _ & Hu & [Hr _]). rewrite Hi in Hu. injection Hu as <-. lia.
    + destruct (c_role _ _ _ C i t Hne Hi) as [Hr _]. lia.
Qed.

Lemma inv_won σ r : barrier_inv σ → (∀ i t, parties σ !! i = Some t → r < round t)%nat → sum_list_with (won r) (parties σ) = 1%nat.
Proof.
  intros [k [[b G]|[j C]]] Hr.
  - assert (Hk : (r < k)%nat).
    { assert (Hex : ∃ t, parties σ !! 0%nat = Some t) by (apply lookup_lt_is_Some; rewrite (g_N _ _ _ G); lia). destruct Hex as [t Ht].
      destruct (inv_rounds σ) as (k' & Hk'); [exists k; left; by exists b|]. specialize (Hr _ _ Ht).
      destruct (g_role _ _ _ G 0%nat t Ht) as [[<- _]|[[<- _]|[Hl|[_ [_ <-]%signalling_place]]]]; [done..| |lia].
      destruct k; [done|]. destruct Hl as [<- _]. lia. }
    rewrite (g_won _ _ _ G). destruct (Nat.ltb_spec r k); [|lia]. destruct b as [i|]; [|done].
    destruct (g_signal _ _ _ G i eq_refl) as (u & Hu & [_ Hs]%signalling_place). specialize (Hr _ _ Hu).
    destruct (Nat.eqb_spec (S r) k); [lia|done].
  - destruct (c_leader _ _ _ C) as (f & u & _ & _ & Hu & [Hk _]). specialize (Hr _ _ Hu). rewrite (c_won _ _ _ C).
    by destruct (Nat.ltb_spec r k); [|lia].
Qed.

(** *** Every round ends *)

Lemma barrier_run_app l1 l2 (σ : system St) : barrier_run (l1 ++ l2) σ = σ ← barrier_run l1 σ; barrier_run l2 σ.
Proof.
  revert σ. induction l1 as [|[i a] l1 IH]; intros σ; [done|]. cbn [app barrier_run].
  destruct (barrier_next i a σ) as [σ1| |]; [|done..]. rewrite !bind_Ok. apply IH.
Qed.

Lemma sum_pos {A} (f : A → nat) l : (0 < sum_list_with f l)%nat → ∃ i x, l !! i = Some x ∧ (0 < f x)%nat.
Proof.
  induction l as [|x l IH]; cbn; [lia|]. intros Hs. destruct (f x) eqn:E; [|exists 0%nat, x; split; [done|lia]].
  destruct IH as (i & y & Hi & Hy); [lia|]. by exists (S i), y.
Qed.

Lemma useful_exists k b σ : gathering k b σ → ∃ i a, a ≠ Delete ∧ useful k b i a σ.
Proof.
  intros G. destruct b as [i|].
  - destruct (g_signal _ _ _ G i eq_refl) as (t & Hi & Hs%signalling_place). exists i, Go. split; [done|]. exists t.
    rewrite (proj1 Hs). split_and!; [done| |by right|done]. intros [_ Hw]. by rewrite (proj1 Hs) in Hw.
  - destruct (sum_pos (absent k) (parties σ)) as (i & t & Hi & Ht); [pose proof (g_pos _ _ _ G); rewrite (g_R1 _ _ _ G) in *; lia|].
    exists i, (match place t with Outside => Enter 0 | _ => Go end). split; [by destruct (place t)|]. exists t. split_and!; [done| |by left|by destruct (place t); eauto].
    intros [Hr Hw]. unfold absent in Ht. rewrite Hr, Nat.eqb_refl in Ht. destruct (place t); done || lia.
Qed.

(** From [σ] some schedule without deletions leads to [Q]. *)
Definition leads_to (σ : system St) (Q : system St → Prop) : Prop :=
  ∃ l, Forall (λ x : nat * action, x.2 ≠ Delete) l ∧ runs (barrier_run l σ) Q.

Lemma leads_step i a σ P Q : a ≠ Delete → runs (barrier_next i a σ) P → (∀ σ', P σ' → leads_to σ' Q) → leads_to σ Q.
Proof.
  intros Ha (σ' & E & HP) Hn. destruct (Hn σ' HP) as (l & Hl & Hr). exists ((i, a) :: l). split; [by constructor|].
  cbn [barrier_run]. by rewrite E.
Qed.

Lemma leads_refl σ (Q : system St → Prop) : Q σ → leads_to σ Q.
Proof. intros HQ. exists []. split; [constructor|by apply runs_ok]. Qed.

Lemma round_ends k n σ : (work k σ < n)%nat → (∃ b, gathering k b σ) ∨ (∃ i, closing k i σ) → leads_to σ (λ σ', ∃ b, gathering (S k) b σ').
Proof.
  revert σ. induction n as [|n IH]; intros σ Hn; [lia|]. intros [[b G]|[i C]].
  - destruct (useful_exists k b σ G) as (i & a & Ha & Hu). eapply leads_step; [exact Ha|by apply (gathering_step k b i a σ)|].
    intros σ' [Hi Hw]. specialize (Hw Hu). apply IH; [lia|]. destruct Hi; [by left|right; eauto].
  - eapply (leads_step i Go); [done|by apply leader_step|]. intros σ' [[C' Hw]|G']; [|by apply leads_refl; eauto]. apply IH; [lia|]. right. eauto.
Qed.

Lemma rounds_end R σ : barrier_inv σ → leads_to σ (λ σ', ∀ i t, parties σ' !! i = Some t → (R ≤ round t)%nat).
Proof.
  intros [k Hk]. assert (Hm : ∀ m k σ, (∃ b, gathering k b σ) ∨ (∃ i, closing k i σ) → leads_to σ (λ σ', ∃ b, gathering (m + k) b σ') ∨ m = 0%nat).
  { clear k Hk σ. intros m. induction m as [|m IH]; intros k σ Hk; [by right|left].
    destruct (round_ends k (S (work k σ)) σ ltac:(lia) Hk) as (l & Hl & σ1 & E1 & b & G1).
    destruct (IH (S k) σ1 ltac:(left; eauto)) as [(l2 & Hl2 & σ2 & E2 & b2 & G2)| ->].
    - exists (l ++ l2). split; [by apply Forall_app|]. exists σ2. split; [by rewrite barrier_run_app, E1|]. exists b2. by replace (S m + k)%nat with (m + S k)%nat by lia.
    - exists l. split; [done|]. exists σ1. split; [done|]. by exists b. }
  destruct (Hm (S R) k σ Hk) as [(l & Hl & σ' & E & b & G)|]; [|done]. exists l. split; [done|]. exists σ'. split; [done|]. intros i t Hi.
  destruct (inv_rounds σ') as (k' & Hk'); [exists (S R + k)%nat; left; eauto|].
  destruct (g_role _ _ _ G i t Hi) as [[Hr _]|[[Hr _]|[Hl'|[_ [_ Hr]%signalling_place]]]]; [lia..| |lia].
  cbn [Nat.add leaving] in Hl'. destruct Hl' as [Hr _]. lia.
Qed.
End Invariant.

(** ** The events of the library *)

Definition on_kernel {A} (m : K A) (k : kernel) : res kernel :=
  match m (World k []) with Ok (_, w) => Ok (kern w) | UB => UB | NoFuel => NoFuel end.

Definition two_events (ev : bool → Z) (f : bool → bool) (k : kernel) : Prop :=
  ∃ fd : bool → Z, fd false ≠ fd true ∧ ∀ i, ∃ n, is_event k (ev i) (fd i) n ∧ f i = (0 <? n).

Lemma is_event_other k h fd n fd' x : is_event k h fd n → fd' ≠ fd → is_event (set_file fd' x k) h fd n.
Proof. intros (Hv & Hfd & Hn & Hf & Ho) Hne. split_and!; try done; try lia. cbn. by rewrite lookup_insert_ne. Qed.

Lemma two_events_set ev f k fd n m i : fd false ≠ fd true → (∀ i, ∃ n, is_event k (ev i) (fd i) n ∧ f i = (0 <? n)) →
  is_event k (ev i) (fd i) n → 0 <= m <= EVENTFD_MAX →
  two_events ev (λ j, if bool_decide (j = i) then 0 <? m else f j) (set_file (fd i) (FdEvent m) k).
Proof.
  intros Hfd Hk Hi Hm. exists fd. split; [done|]. intros j. case_bool_decide as Hj; [subst j; exists m; split; [by eapply is_event_set|done]|].
  destruct (Hk j) as (n' & Hn' & Hf). exists n'. split; [|done]. apply is_event_other; [done|]. destruct i, j; congruence.
Qed.

(** A wait without a timeout, when nothing else happens. *)
Lemma wait_event k h fd n : is_event k h fd n →
  WaitForSingleObject h INFINITE (World k []) = if 0 <? n then Ok (WAIT_OBJECT_0, World k []) else NoFuel.
Proof.
  intros H. pose proof (is_event_waitable _ _ _ _ H) as Hw. rewrite (wait_single_eq (World k []) h _ INFINITE Hw).
  destruct (poll_one k h _ Hw) as [He Hc]. cbn [fst] in *. rewrite (is_event_sig k h fd n H) in *. destruct (0 <? n) eqn:En.
  - rewrite (retry_poll_ready _ _ _ (map (revents k) [Pollfd fd POLLIN])) by (unfold poll_ready; cbn [kern]; by rewrite He).
    rewrite Hc by done. cbn -[map]. apply (cleanup_ok k [] h _ Hw). cbn [fst]. by rewrite (is_event_sig k h fd n H).
  - unfold retry. cbn [script length]. rewrite retry_unfold. unfold sys_poll, mbind, K_bind, gets, awaitK. cbn [kern script].
    change (s32 INFINITE <? 0) with true. cbv iota. cbn [await]. unfold poll_ready. by rewrite He.
Qed.

Program Definition kernel_events : Events kernel := {|
  ev_set h := on_kernel (SetEvent h);
  ev_reset h := on_kernel (ResetEvent 2 h);
  ev_wait h k := match WaitForSingleObject h INFINITE (World k []) with Ok (_, w) => Ok (Some (kern w)) | NoFuel => Ok None | UB => UB end;
  ev_close h := on_kernel (CloseHandle h);
  ev_flags := two_events |}.
Next Obligation.
  intros ev f k i (fd & Hfd & Hk) Hi. destruct (Hk i) as (n & Hn & Hf). pose proof Hn as (_ & _ & Hr & _).
  assert (n = 0) as -> by (rewrite Hi in Hf; symmetry in Hf; apply Z.ltb_ge in Hf; lia).
  unfold on_kernel. rewrite (SetEvent_ok k [] _ _ _ Hn). apply runs_ok. eexists. split; [eapply (two_events_set ev f k fd); try done; unfold EVENTFD_MAX; lia|].
  cbn beta. rewrite bool_decide_true by done. split; [done|]. rewrite bool_decide_false by (by destruct i). done.
Qed.
Next Obligation.
  intros ev f k i (fd & Hfd & Hk). destruct (Hk i) as (n & Hn & Hf). pose proof Hn as (_ & _ & Hr & Hfi & _).
  unfold on_kernel. rewrite (ResetEvent_ok k [] _ _ _ 0 Hn). apply runs_ok.
  exists (λ j, if bool_decide (j = i) then false else f j). rewrite bool_decide_true, bool_decide_false by (done || by destruct i).
  split_and!; [|done|done]. cbn [kern]. destruct (Z.ltb_spec 0 n) as [Hpos|]; [by eapply (two_events_set ev f k fd n 0)|].
  exists fd. split; [done|]. intros j. case_bool_decide as Hj; [subst j|by apply Hk]. exists n. split; [done|]. symmetry. by apply Z.ltb_ge.
Qed.
Next Obligation.
  intros ev f k i (fd & Hfd & Hk). destruct (Hk i) as (n & Hn & Hf). rewrite (wait_event k _ _ _ Hn), Hf. by destruct (0 <? n).
Qed.
#[export] Existing Instance kernel_events.

(** Creation: the barrier is ready for its first round. *)
Definition fresh_events (k : kernel) (calloc0 efd0 calloc1 efd1 : Z) : Prop :=
  valid_handle calloc0 ∧ valid_handle calloc1 ∧ calloc0 ≠ calloc1 ∧ 0 <= efd0 ∧ 0 <= efd1 ∧ efd0 ≠ efd1.

Definition handles (calloc0 calloc1 : Z) (i : bool) : Z := if i then calloc1 else calloc0.

Lemma Initialize_ok k s c0 e0 c1 e1 procs b n spin : fresh_events k c0 e0 c1 e1 → 1 <= n < 2 ^ 31 → -1 <= spin →
  winpr_InitializeSynchronizationBarrier c0 e0 c1 e1 procs (Some b) n spin (World k s) =
    Ok ((true, Some (Barrier n n c0 c1 procs (u32 (if spin =? -1 then 2000 else spin)))), World (with_event c1 e1 0 (with_event c0 e0 0 k)) s) ∧
  two_events (handles c0 c1) (λ _, false) (with_event c1 e1 0 (with_event c0 e0 0 k)).
Proof.
  intros (Hv0 & Hv1 & Hc & He0 & He1 & He) Hn Hs. split.
  - unfold winpr_InitializeSynchronizationBarrier. destruct (Z.ltb_spec n 1), (Z.ltb_spec spin (-1)); try lia. cbn [orb]. cbv zeta.
    unfold CreateEventA. assert (Hcr0 : CreateEventW c0 e0 true false (World k s) = Ok (c0, World (with_event c0 e0 0 k) s))
      by (rewrite CreateEventW_body by (done || apply Hv0); done).
    kstep Hcr0. destruct (Z.eqb_spec c0 0); [by destruct Hv0|].
    assert (Hcr1 : CreateEventW c1 e1 true false (World (with_event c0 e0 0 k) s) = Ok (c1, World (with_event c1 e1 0 (with_event c0 e0 0 k)) s))
      by (rewrite CreateEventW_body by (done || apply Hv1); done).
    kstep Hcr1. destruct (Z.eqb_spec c1 0); [by destruct Hv1|]. by rewrite (wrap_id 32 n) by zlia.
  - exists (handles e0 e1). split; [done|]. intros i. exists 0. split; [|done]. destruct i; cbn [handles].
    + apply is_event_with; unfold EVENTFD_MAX; done || lia.
    + pose proof (is_event_with c0 e0 0 k Hv0 He0 ltac:(unfold EVENTFD_MAX; lia)) as (_ & _ & _ & Hf & Ho).
      split_and!; try done; try (unfold EVENTFD_MAX; lia); cbn in *; by rewrite lookup_insert_ne.
Qed.

(** [N] threads outside a barrier that has just been created. *)
Definition barrier_start (N : nat) (c0 e0 c1 e1 procs spin : Z) (k : kernel) : system kernel :=
  System (Barrier (Z.of_nat N) (Z.of_nat N) c0 c1 procs (u32 (if spin =? -1 then 2000 else spin)))
    (with_event c1 e1 0 (with_event c0 e0 0 k)) (replicate N (Party Outside [])).

Lemma start_inv N c0 e0 c1 e1 procs spin k : fresh_events k c0 e0 c1 e1 → (1 ≤ N)%nat → Z.of_nat N < 2 ^ 31 →
  barrier_inv (handles c0 c1) N (barrier_start N c0 e0 c1 e1 procs spin k).
Proof.
  intros Hf HN HN31. exists 0%nat. left. exists None.
  destruct (Initialize_ok k [] c0 e0 c1 e1 procs zero_barrier 1 0 Hf ltac:(lia) ltac:(lia)) as [_ Hk].
  split; cbn [mem store parties barrier_start Reserved1 Reserved2 Reserved3_0 Reserved3_1]; try done.
  - apply length_replicate.
  - rewrite sum_one, length_replicate; [done|]. by intros i t [-> _]%lookup_replicate.
  - lia.
  - exists (λ _, false). by split_and!.
  - intros i t [-> _]%lookup_replicate. left. by split.
  - intros r. cbn. assert (E : ∀ n, sum_list_with (won r) (replicate n (Party Outside [])) = 0%nat); [|apply E].
    intros n. induction n as [|n IH]; [done|]. cbn. rewrite IH. unfold won. cbn. by rewrite lookup_nil.
Qed.

Definition without (h fd : Z) (k : kernel) : kernel := set_objs (delete h (objs k)) (set_files (delete fd (files k)) k).

Lemma close_event k s h fd n : is_event k h fd n → CloseHandle h (World k s) = Ok (true, World (without h fd k) s).
Proof.
  intros H. pose proof H as (Hv & Hfd & Hn & Hf & Ho). unfold CloseHandle. kstep (info_ok k s h _ Hv Ho).
  rewrite (bind_object k s h _ _ Ho). cbn [ops close_op].
  assert (Hk : k = with_event h fd n (without h fd k)).
  { unfold with_event, without, set_file, set_obj. apply kernel_eq; try done; cbn; symmetry; [by rewrite insert_delete_id|by rewrite insert_delete_id]. }
  rewrite Hk at 1. apply EventCloseHandle_ok; try done; cbn; by rewrite lookup_delete_eq.
Qed.

Lemma is_event_without k h fd n h' fd' : is_event k h fd n → h' ≠ h → fd' ≠ fd → is_event (without h' fd' k) h fd n.
Proof. intros (Hv & Hfd & Hn & Hf & Ho) Hh Hd. split_and!; try done; try lia; cbn; by rewrite lookup_delete_ne. Qed.

(** Delete by a thread, when nobody is inside. *)
Definition delete_schedule (i : nat) : list (nat * action) := [(i, Delete); (i, Go); (i, Go); (i, Go); (i, Go)].

Lemma delete_alone c0 c1 N i (σ : system kernel) : c0 ≠ c1 → valid_handle c0 → valid_handle c1 → barrier_inv (handles c0 c1) N σ →
  (∀ j t, parties σ !! j = Some t → place t = Outside) → (i < N)%nat →
  runs (barrier_run (delete_schedule i) σ) (λ σ', mem σ' = zero_barrier ∧ parties σ' = parties σ ∧ objs (store σ') = delete c0 (delete c1 (objs (store σ)))).
Proof.
  intros Hc Hv0 Hv1 [k [[b G]|[j C]]] Hout Hi.
  2: { exfalso. destruct (c_leader _ _ _ _ _ C) as (f & t & _ & _ & Ht & _ & _ & Hp). by rewrite (Hout _ _ Ht) in Hp. }
  assert (Hex : ∃ t, parties σ !! i = Some t) by (apply lookup_lt_is_Some; by rewrite (g_N _ _ _ _ _ G)). destruct Hex as [t Ht].
  pose proof (Hout _ _ Ht) as Hp. destruct t as [p l]. cbn [place] in Hp. subst p. pose proof Ht as Hlt%lookup_lt_Some.
  assert (H12 : Reserved1 (mem σ) = Reserved2 (mem σ)).
  { rewrite (g_R1 _ _ _ _ _ G), (g_R2 _ _ _ _ _ G), sum_one, (g_N _ _ _ _ _ G); [done|]. intros j u Hu. unfold absent. by rewrite (Hout _ _ Hu). }
  destruct (g_flags _ _ _ _ _ G) as (f & (fd & Hfd & Hk) & _).
  destruct (Hk (parity k)) as (n & Hn & _). destruct (Hk (negb (parity k))) as (n' & Hn' & _).
  assert (Hne : cur (handles c0 c1) k ≠ dorm (handles c0 c1) k) by (by apply cur_dorm). fold (cur (handles c0 c1) k) in Hn. fold (dorm (handles c0 c1) k) in Hn'.
  assert (Hnf : fd (parity k) ≠ fd (negb (parity k))) by (destruct (parity k); cbn; congruence).
  pose proof Hn as ([Hnz _] & _). pose proof Hn' as ([Hnz' _] & _).
  assert (Hd : barrier_next i Delete σ = Ok (System (mem σ) (store σ) (<[i := Party AtPoll l]> (parties σ)))) by (unfold barrier_next; by rewrite Ht).
  unfold delete_schedule. cbn [barrier_run]. rewrite Hd, bind_Ok. rewrite go_step with (t := Party AtPoll l) by (done || by apply list_lookup_insert_eq). cbn [place barrier_step mem store parties].
  rewrite H12, Z.eqb_refl, !bind_Ok. cbn [arrive results]. rewrite list_insert_insert_eq.
  rewrite go_step with (t := Party AtClose0 l) by (done || by apply list_lookup_insert_eq). cbn [place barrier_step mem store parties].
  rewrite (g_R30 _ _ _ _ _ G). destruct (Z.eqb_spec (cur (handles c0 c1) k) 0); [done|].
  cbn [ev_close kernel_events]. unfold on_kernel at 1. rewrite (close_event _ [] _ _ _ Hn), !bind_Ok. cbn [arrive results]. rewrite list_insert_insert_eq.
  rewrite go_step with (t := Party AtClose1 l) by (done || by apply list_lookup_insert_eq). cbn [place barrier_step mem store parties].
  rewrite (g_R31 _ _ _ _ _ G). destruct (Z.eqb_spec (dorm (handles c0 c1) k) 0); [done|].
  cbn [ev_close kernel_events kern]. unfold on_kernel at 1.
  rewrite (close_event _ [] _ _ _ (is_event_without _ _ _ _ _ _ Hn' Hne Hnf)), !bind_Ok. cbn [arrive results]. rewrite list_insert_insert_eq.
  rewrite go_step with (t := Party AtZero l) by (done || by apply list_lookup_insert_eq). cbn [place barrier_step mem store parties].
  rewrite !bind_Ok. cbn [arrive results]. rewrite list_insert_insert_eq, list_insert_id by done. apply runs_ok. split_and!; [done|done|].
  cbn [store kern without objs set_objs set_files]. unfold cur, dorm, handles. destruct (parity k); cbn; [done|apply delete_delete].
Qed.

(** Two threads, from their calls of Enter to the second one's [SetEvent]; the
    first one spins, leaves, and deletes the barrier. *)
Definition race_schedule : list (nat * action) :=
  [(0, Enter 1); (0, Go); (0, Go); (0, Go); (1, Enter 0); (1, Go); (1, Go); (1, Go); (1, Go); (1, Go); (1, Go); (0, Go)]%nat
  ++ delete_schedule 0 ++ [(1, Go)]%nat.
Definition no_objects : kernel := Kernel ∅ ∅ [] ∅ None 1 0 0 0 ∅.
Definition race_start : system kernel := barrier_start 2 16 3 32 4 2 (-1) no_objects.

Definition no_delete (l : list (nat * action)) : Prop := Forall (λ x : nat * action, x.2 ≠ Delete) l.

(** ** Theorems *)

Section Barriers.
Context (N : nat) (c0 e0 c1 e1 procs spin : Z) (b0 : SYNCHRONIZATION_BARRIER) (k : kernel).
Context (Hfresh : fresh_events k c0 e0 c1 e1) (HN : (1 ≤ N)%nat) (HN31 : Z.of_nat N < 2 ^ 31) (Hspin : -1 <= spin).

Local Abbreviation start := (barrier_start N c0 e0 c1 e1 procs spin k).

(** C4: what a barrier promises. [N] threads that call Enter on a barrier
    initialised for [N], in any order, any number of times, with any flags, and
    interleaved in any way: the count never becomes negative (the assertion
    holds), no thread has left its r-th call before every thread has been
    counted in for the r-th time, and of the threads' r-th calls, once all have
    returned, exactly one has answered TRUE. *)
Theorem barrier_rounds s l :
  no_delete l →
  winpr_InitializeSynchronizationBarrier c0 e0 c1 e1 procs (Some b0) (Z.of_nat N) spin (World k s) =
    Ok ((true, Some (mem start)), World (store start) s) ∧
  runs (barrier_run l start) (λ σ,
    (∀ i j t u, parties σ !! i = Some t → parties σ !! j = Some u → (round t ≤ entered u)%nat) ∧
    (∀ r, (∀ i t, parties σ !! i = Some t → r < round t)%nat → sum_list_with (won r) (parties σ) = 1%nat)).
Proof.
  intros Hl. split; [by apply Initialize_ok; [|lia|]|].
  assert (Hne : handles c0 c1 false ≠ handles c0 c1 true) by apply Hfresh.
  eapply runs_mono; [apply (run_inv (handles c0 c1) Hne N HN HN31); [by apply start_inv|done]|].
  intros σ Hσ. split; [|intros r; by apply (inv_won (handles c0 c1) N)].
  intros i j t u Hi Hj. destruct (inv_rounds (handles c0 c1) N HN σ Hσ) as [k' Hk']. destruct (Hk' _ _ Hi), (Hk' _ _ Hj). lia.
Qed.

(** C15: no deadlock. From every state the threads can be in, whatever they have
    done so far, they can go on until each of them has passed the barrier any
    number of times more. *)
Theorem barrier_progress l R :
  no_delete l →
  runs (barrier_run l start) (λ σ, ∃ l', no_delete l' ∧
    runs (barrier_run l' σ) (λ σ', ∀ i t, parties σ' !! i = Some t → (R ≤ round t)%nat)).
Proof.
  intros Hl. assert (Hne : handles c0 c1 false ≠ handles c0 c1 true) by apply Hfresh.
  eapply runs_mono; [apply (run_inv (handles c0 c1) Hne N HN HN31); [by apply start_inv|done]|].
  intros σ Hσ. by apply (rounds_end (handles c0 c1) Hne N HN HN31).
Qed.

(** deleting a barrier. When no thread is inside, Delete returns, having
    closed both events and cleared the barrier. But it does not wait for threads
    that are on their way out: with two threads, the first one is released by
    the switch of the events, deletes the barrier, and the second one sets an
    event that is closed. *)
Theorem barrier_delete l i :
  no_delete l → (i < N)%nat →
  runs (barrier_run l start) (λ σ, (∀ j t, parties σ !! j = Some t → place t = Outside) →
    runs (barrier_run (delete_schedule i) σ)
      (λ σ', mem σ' = zero_barrier ∧ parties σ' = parties σ ∧ objs (store σ') = delete c0 (delete c1 (objs (store σ))))) ∧
  barrier_run race_schedule race_start = UB.
Proof.
  intros Hl Hi. assert (Hne : handles c0 c1 false ≠ handles c0 c1 true) by apply Hfresh. split.
  - eapply runs_mono; [apply (run_inv (handles c0 c1) Hne N HN HN31); [by apply start_inv|done]|].
    intros σ Hσ Hout. destruct Hfresh as (Hv0 & Hv1 & Hc & _). by eapply delete_alone.
  - vm_compute. reflexivity.
Qed.
End Barriers.

(** Two threads pass one round; the first one comes last. *)
Definition round_schedule : list (nat * action) :=
  [(0, Enter 1); (0, Go); (1, Enter 2); (1, Go); (1, Go); (1, Go); (0, Go); (0, Go); (0, Go); (0, Go); (0, Go); (1, Go); (0, Go); (1, Go)]%nat.

Lemma demo_fresh : fresh_events no_objects 16 3 32 4.
Proof. unfold fresh_events, valid_handle, INVALID_HANDLE_VALUE. split_and!; first [lia|done]. Qed.

Lemma barrier_rounds_witness :
  runs (barrier_run round_schedule race_start) (λ σ, parties σ = [Party Outside [true]; Party Outside [false]] ∧ sum_list_with (won 0) (parties σ) = 1%nat).
Proof.
  destruct (barrier_rounds 2 16 3 32 4 2 (-1) zero_barrier no_objects demo_fresh ltac:(lia) ltac:(lia) ltac:(lia) [] round_schedule
    ltac:(repeat constructor; discriminate)) as (_ & σ & Hrun & _ & Hwon).
  assert (Hp : parties σ = [Party Outside [true]; Party Outside [false]]).
  { assert (E : match barrier_run round_schedule race_start with Ok σ => parties σ | _ => [] end = [Party Outside [true]; Party Outside [false]])
      by (vm_compute; reflexivity).
    change (barrier_start 2 16 3 32 4 2 (-1) no_objects) with race_start in Hrun. by rewrite Hrun in E. }
  exists σ. split; [exact Hrun|]. split; [exact Hp|]. apply Hwon. rewrite Hp. clear. intros [|[|j]] t Ht; cbn in Ht; simplify_eq; cbn; lia.
Defined.

Lemma barrier_progress_witness :
  runs (barrier_run [(0%nat, Enter 0)] race_start) (λ σ, ∃ l', no_delete l' ∧
    runs (barrier_run l' σ) (λ σ', ∀ i t, parties σ' !! i = Some t → (3 ≤ round t)%nat)).
Proof.
  apply (barrier_progress 2 16 3 32 4 2 (-1) no_objects demo_fresh); first [lia|repeat constructor; discriminate].
Defined.

Lemma barrier_delete_witness :
  runs (barrier_run round_schedule race_start) (λ σ, runs (barrier_run (delete_schedule 1) σ) (λ σ', objs (store σ') = ∅)).
Proof.
  destruct (barrier_delete 2 16 3 32 4 2 (-1) no_objects demo_fresh ltac:(lia) ltac:(lia) round_schedule 1
    ltac:(repeat constructor; discriminate) ltac:(lia)) as ((σ & Hrun & Hdel) & _).
  change (barrier_start 2 16 3 32 4 2 (-1) no_objects) with race_start in Hrun. exists σ. split; [exact Hrun|].
  assert (E : match barrier_run round_schedule race_start with Ok σ => (parties σ, delete 16 (delete 32 (objs (store σ)))) | _ => ([], ∅) end =
    ([Party Outside [true]; Party Outside [false]], ∅)) by (vm_compute; reflexivity).
  rewrite Hrun in E. injection E as Hp Ho. eapply runs_mono; [apply Hdel|].
  - intros j t Ht. rewrite Hp in Ht. clear -Ht. destruct j as [|[|j]]; cbn in Ht; by simplify_eq.
  - intros σ' (_ & _ & H). cbn beta. by rewrite H.
Defined.
