(* ===== verification/BarrierWin.v ===== *)
(** The native barriers of Windows (src/libuzi/barrier.c, the branches for
    _WIN32): the first call of InitializeSynchronizationBarrier looks for the
    system's functions, once, through [InitOnceExecuteOnce] (InitOnce.v); then
    every call goes to them, or to the library's own barriers (Barrier.v). *)

From stdpp Require Import list strings.
From S2P Require Import Prelude CpuFeatures InitOnce.

Set Warnings "-clear-no-such-hyp".

(** ** The globals and the callback *)

(** Modules and functions are addresses, 0 the null pointer. *)
Record globals := Globals {
  g_Kernel32 : Z;
  pfnInitializeSynchronizationBarrier : Z;
  pfnEnterSynchronizationBarrier : Z;
  pfnDeleteSynchronizationBarrier : Z;
  g_NativeBarrier : bool }.

Definition no_globals : globals := Globals 0 0 0 0 false.

Inductive operation := Initialize | Enter | Delete.

(** Where a call is: in [InitOnceExecuteOnce] (where, is a matter of InitOnce.v);
    in the callback, before one of its statements; before it reads the flag or a
    function pointer; or it is served, by a function of the system or by the
    code that follows. *)
Inductive served := Native (pfn : Z) | Emulated.
Inductive place :=
  | InOnce
  | CbInitialize | CbEnter | CbDelete | CbTest
  | AtFlag | AtPointer
  | Served (d : served).

Section Windows.
Context (LoadLibraryA : list Z → Z) (GetProcAddress : Z → list Z → Z).

(** A statement of [InitOnce_Barrier]; [None] when it returns TRUE. *)
Definition InitOnce_Barrier (p : place) (g : globals) : option place * globals :=
  let '(Globals k i e d n) := g in
  match p with
  | InOnce =>
    let k := LoadLibraryA (bytes "kernel32.dll") in
    (if k =? 0 then None else Some CbInitialize, Globals k i e d n)
  | CbInitialize => (Some CbEnter, Globals k (GetProcAddress k (bytes "InitializeSynchronizationBarrier")) e d n)
  | CbEnter => (Some CbDelete, Globals k i (GetProcAddress k (bytes "EnterSynchronizationBarrier")) d n)
  | CbDelete => (Some CbTest, Globals k i e (GetProcAddress k (bytes "DeleteSynchronizationBarrier")) n)
  | CbTest => (None, Globals k i e d (if negb (i =? 0) && negb (e =? 0) && negb (d =? 0) then true else n))
  | p => (Some p, g)
  end.

(** The function pointer that a call goes through. *)
Definition pfn (o : operation) (g : globals) : Z :=
  match o with
  | Initialize => pfnInitializeSynchronizationBarrier g
  | Enter => pfnEnterSynchronizationBarrier g
  | Delete => pfnDeleteSynchronizationBarrier g
  end.

(** [if (g_NativeBarrier) return pfn...], at the head of the three functions. *)
Definition dispatch (o : operation) (p : place) (g : globals) : place :=
  match p with
  | AtFlag => if g_NativeBarrier g then AtPointer else Served Emulated
  | AtPointer => Served (Native (pfn o g))
  | p => p
  end.

(** ** Any number of calls *)

(** The calls, with the state of [g_InitOnce] and how often the library was
    loaded. *)
Record win := Win { w_once : once; w_globals : globals; w_calls : list (operation * place); w_loads : nat }.

Definition first_place (o : operation) : place := match o with Initialize => InOnce | _ => AtFlag end.
Definition win_start (ops : list operation) (s : win) : Prop :=
  s = Win (Once 0 (replicate (length ops) AtSwitch) []) no_globals (map (λ o, (o, first_place o)) ops) 0.

(** A barrier is there when a call that makes one has been served. *)
Definition has_barrier (s : win) : bool :=
  existsb (λ c, match c with (Initialize, Served _) => true | _ => false end) (w_calls s).

(** Call [i] does its next step; a call of Enter or Delete begins only when
    there is a barrier to pass. The callback runs while [g_InitOnce] has its
    call inside the function, and always succeeds. *)
Definition win_next (i : nat) (s : win) : win :=
  let '(Win once g calls loads) := s in
  let put p := <[i := p]> calls in
  match calls !! i, o_threads once !! i with
  | Some (o, p), Some q =>
    match p, q with
    | InOnce, InInit | CbInitialize, _ | CbEnter, _ | CbDelete, _ | CbTest, _ =>
      let '(r, g) := InitOnce_Barrier p g in
      let loads := match p with InOnce => S loads | _ => loads end in
      match r with
      | Some p => Win once g (put (o, p)) loads
      | None => Win (once_next i (true, 0) once) g (put (o, InOnce)) loads
      end
    | InOnce, Returned _ _ => Win once g (put (o, AtFlag)) loads
    | InOnce, _ => Win (once_next i (true, 0) once) g calls loads
    | AtFlag, _ =>
      match o with
      | Initialize => Win once g (put (o, dispatch o p g)) loads
      | _ => if has_barrier s then Win once g (put (o, dispatch o p g)) loads else s
      end
    | _, _ => Win once g (put (o, dispatch o p g)) loads
    end
  | _, _ => s
  end.

Definition win_trans (s s' : win) : Prop := ∃ i, s' = win_next i s.

(** What the callback leaves behind, and what every call is served by. *)
Definition found : globals :=
  let k := LoadLibraryA (bytes "kernel32.dll") in
  if k =? 0 then no_globals
  else
    let i := GetProcAddress k (bytes "InitializeSynchronizationBarrier") in
    let e := GetProcAddress k (bytes "EnterSynchronizationBarrier") in
    let d := GetProcAddress k (bytes "DeleteSynchronizationBarrier") in
    Globals k i e d (negb (i =? 0) && negb (e =? 0) && negb (d =? 0)).

Definition expected (o : operation) : served := if g_NativeBarrier found then Native (pfn o found) else Emulated.

(** ** The invariant *)

Definition in_callback (p : place) : Prop := match p with CbInitialize | CbEnter | CbDelete | CbTest => True | _ => False end.
Definition past_once (p : place) : Prop := match p with AtFlag | AtPointer | Served _ => True | _ => False end.

(** The globals before a statement of the callback. *)
Definition stage (p : place) : globals :=
  let k := LoadLibraryA (bytes "kernel32.dll") in
  let i := GetProcAddress k (bytes "InitializeSynchronizationBarrier") in
  let e := GetProcAddress k (bytes "EnterSynchronizationBarrier") in
  let d := GetProcAddress k (bytes "DeleteSynchronizationBarrier") in
  match p with
  | CbInitialize => Globals k 0 0 0 false
  | CbEnter => Globals k i 0 0 false
  | CbDelete => Globals k i e 0 false
  | CbTest => Globals k i e d false
  | _ => no_globals
  end.

(** What holds of a call, when the callback has returned ([ok]) or not. *)
Definition call_inv (ok : bool) (g : globals) (loads : nat) (q : pc) (o : operation) (p : place) : Prop :=
  (in_callback p → q = InInit ∧ g = stage p ∧ loads = 1%nat ∧ LoadLibraryA (bytes "kernel32.dll") ≠ 0) ∧
  (o = Initialize → past_once p → ok = true) ∧
  (p = AtPointer → ok = true ∧ g_NativeBarrier found = true) ∧
  (∀ d, p = Served d → ok = true ∧ d = expected o).

Record win_inv (n : nat) (ok : bool) (s : win) : Prop := WinInv {
  i_once : reachable (once_start n) once_trans (w_once s);
  i_calls : o_calls (w_once s) = if ok then [true] else [];
  i_call : ∀ i o p q, w_calls s !! i = Some (o, p) → o_threads (w_once s) !! i = Some q → call_inv ok (w_globals s) (w_loads s) q o p;
  i_found : ok = true → w_globals s = found ∧ w_loads s = 1%nat;
  i_start : ok = false → (∀ i o p, w_calls s !! i = Some (o, p) → ¬ in_callback p) → w_globals s = no_globals ∧ w_loads s = 0%nat;
  i_length : length (w_calls s) = length (o_threads (w_once s)) }.

(** The state of [g_InitOnce], as no call of the callback fails. *)
Lemma win_once n ok s : win_inv n ok s → once_inv 0 ok (w_once s).
Proof.
  intros H. destruct (once_reachable_inv _ _ (i_once _ _ _ H)) as (k & ok' & Ho). pose proof (i_calls _ _ _ H) as Hc.
  destruct Ho as (E & Ho). rewrite E in Hc. destruct k as [|k]; [|by destruct ok].
  by destruct ok, ok'; try done; split.
Qed.

Lemma win_start_inv ops s : win_start ops s → win_inv (length ops) false s.
Proof.
  intros ->. split; cbn [w_once w_globals w_calls w_loads o_calls o_threads]; try done.
  - by apply reach_init.
  - intros i o p q Hi _. apply list_lookup_fmap_Some in Hi as (o' & [= <- ->] & _). destruct o; split_and!; done.
  - by rewrite length_map, length_replicate.
Qed.

(** A step of [InitOnceExecuteOnce]. *)
Lemma once_next_eq i s q : o_threads s !! i = Some q →
  once_next i (true, 0) s = Once (once_step (true, 0) (o_ptr s) q).1 (<[i := (once_step (true, 0) (o_ptr s) q).2]> (o_threads s))
    (match q with InInit => o_calls s ++ [true] | _ => o_calls s end).
Proof. intros Hi. unfold once_next. rewrite Hi. by destruct (once_step (true, 0) (o_ptr s) q). Qed.

(** A step that leaves [g_InitOnce] alone and takes call [i] from [p] to [p']. *)
Lemma win_inv_put n ok s i o p p' q g loads : win_inv n ok s → w_calls s !! i = Some (o, p) → o_threads (w_once s) !! i = Some q →
  call_inv ok g loads q o p' →
  (∀ j o p q, j ≠ i → w_calls s !! j = Some (o, p) → o_threads (w_once s) !! j = Some q → call_inv ok g loads q o p) →
  (ok = true → g = found ∧ loads = 1%nat) →
  (ok = false → ¬ in_callback p' → (∀ j o p, j ≠ i → w_calls s !! j = Some (o, p) → ¬ in_callback p) → g = no_globals ∧ loads = 0%nat) →
  win_inv n ok (Win (w_once s) g (<[i := (o, p')]> (w_calls s)) loads).
Proof.
  intros H Hi Hq Hc Ho Hf Hs. pose proof (lookup_lt_Some _ _ _ Hi) as Hlt.
  split; cbn [w_once w_globals w_calls w_loads]; [apply H|apply H| |done| |by rewrite length_insert; apply H].
  - intros j o1 p1 q1. destruct (decide (j = i)) as [->|Hne].
    + rewrite list_lookup_insert_eq by done. intros [= <- <-] Hq1. by simplify_eq.
    + rewrite list_lookup_insert_ne by done. by apply Ho.
  - intros Hok Hno. apply Hs; [done|apply (Hno i o); by apply list_lookup_insert_eq|].
    intros j o1 p1 Hne Hj. apply (Hno j o1). by rewrite list_lookup_insert_ne.
Qed.

(** A step of [InitOnceExecuteOnce], of call [i] at [q], which goes on to [p']. *)
Lemma win_inv_once n ok s i o p p' q g ok' loads : win_inv n ok s → w_calls s !! i = Some (o, p) → o_threads (w_once s) !! i = Some q →
  (ok' = if q is InInit then true else ok) → (q = InInit → ok = false) → call_inv ok' g loads (once_step (true, 0) (o_ptr (w_once s)) q).2 o p' →
  (∀ j o p q, j ≠ i → w_calls s !! j = Some (o, p) → o_threads (w_once s) !! j = Some q → call_inv ok' g loads q o p) →
  (ok' = true → g = found ∧ loads = 1%nat) →
  (ok' = false → (∀ j o p, w_calls s !! j = Some (o, p) → ¬ in_callback p) → g = no_globals ∧ loads = 0%nat) →
  (ok' = false → ¬ in_callback p) →
  win_inv n ok' (Win (once_next i (true, 0) (w_once s)) g (<[i := (o, p')]> (w_calls s)) loads).
Proof.
  intros H Hi Hq Hok' Hok Hc Ho Hf Hs Hp. pose proof (lookup_lt_Some _ _ _ Hi) as Hlt. pose proof (lookup_lt_Some _ _ _ Hq) as Hlq.
  split; cbn [w_once w_globals w_calls w_loads].
  - eapply reach_step; [apply H|]. by exists i, (true, 0).
  - rewrite (once_next_eq i _ q Hq). cbn [o_calls]. rewrite (i_calls _ _ _ H), Hok'. destruct q; try done. by rewrite (Hok eq_refl).
  - intros j o1 p1 q1. rewrite (once_next_eq i _ q Hq). cbn [o_threads]. destruct (decide (j = i)) as [->|Hne].
    + rewrite !list_lookup_insert_eq by done. by intros [= <- <-] [= <-].
    + rewrite !list_lookup_insert_ne by done. by apply Ho.
  - done.
  - intros Hf' Hno. apply Hs; [done|]. intros j o1 p1 Hj. destruct (decide (j = i)) as [->|Hne]; [simplify_eq; by apply Hp|].
    apply (Hno j o1). by rewrite list_lookup_insert_ne.
  - rewrite (once_next_eq i _ q Hq). cbn [o_threads]. rewrite !length_insert. apply H.
Qed.

(** Nobody else is in the callback. *)
Lemma callback_alone n ok s i j o p q : win_inv n ok s → o_threads (w_once s) !! i = Some InInit →
  w_calls s !! j = Some (o, p) → o_threads (w_once s) !! j = Some q → j ≠ i → ¬ in_callback p.
Proof.
  intros H Hi Hj Hq Hne Hp. destruct (i_call _ _ _ H _ _ _ _ Hj Hq) as (Hc & _). destruct (Hc Hp) as (-> & _).
  apply Hne. by apply (once_inv_unique _ _ _ _ _ _ _ (win_once _ _ _ H) Hq Hi).
Qed.

Lemma callback_first n ok s i : win_inv n ok s → o_threads (w_once s) !! i = Some InInit → ok = false.
Proof. intros H Hi. destruct ok; [|done]. by destruct (once_inv_done _ _ i (win_once _ _ _ H)). Qed.

(** The calls that are not in the callback do not depend on the globals. *)
Lemma call_inv_other ok g loads g' loads' q o p : ¬ in_callback p → call_inv ok g loads q o p → call_inv ok g' loads' q o p.
Proof. intros Hp (_ & H). by split. Qed.

Lemma call_inv_true ok g loads q o p : ¬ in_callback p → call_inv ok g loads q o p → call_inv true g loads q o p.
Proof. intros Hp (_ & H1 & H2 & H3). split_and!; [done|done|naive_solver|naive_solver]. Qed.

(** A call moves on outside the callback; nothing else changes. *)
Lemma win_inv_move n ok s i o p p' q : win_inv n ok s → w_calls s !! i = Some (o, p) → o_threads (w_once s) !! i = Some q →
  ¬ in_callback p → call_inv ok (w_globals s) (w_loads s) q o p' →
  win_inv n ok (Win (w_once s) (w_globals s) (<[i := (o, p')]> (w_calls s)) (w_loads s)).
Proof.
  intros H Hi Hq Hp Hc. eapply win_inv_put; [done..|intros; by eapply (i_call _ _ _ H)|apply H|].
  intros Hok _ Hno. apply (i_start _ _ _ H); [done|]. intros j o1 p1 Hj. destruct (decide (j = i)) as [->|Hne]; [by simplify_eq|by eapply Hno].
Qed.

(** The callback's statements, and its return. *)
Lemma win_inv_callback n ok s i o p : win_inv n ok s → w_calls s !! i = Some (o, p) → o_threads (w_once s) !! i = Some InInit →
  in_callback p ∨ p = InOnce → win_inv n (match (InitOnce_Barrier p (w_globals s)).1 with Some _ => ok | None => true end) (win_next i s).
Proof.
  intros H Hi Hq Hp. pose proof (callback_first _ _ _ _ H Hq) as ->.
  pose proof (λ j o p q Hne Hj Hqj, callback_alone _ _ _ i j o p q H Hq Hj Hqj Hne) as Hal.
  assert (Hno : p = InOnce → w_globals s = no_globals ∧ w_loads s = 0%nat).
  { intros ->. apply (i_start _ _ _ H); [done|]. intros j o1 p1 Hj. destruct (decide (j = i)) as [->|Hne]; [simplify_eq; by intros []|].
    destruct (lookup_lt_is_Some_2 (o_threads (w_once s)) j) as [q1 Hq1]; [rewrite <- (i_length _ _ _ H); by apply lookup_lt_Some in Hj|].
    by eapply Hal. }
  assert (Hoth : ∀ ok' g' loads' j o p q, j ≠ i → w_calls s !! j = Some (o, p) → o_threads (w_once s) !! j = Some q →
    call_inv ok' g' loads' q o p).
  { intros ok' g' loads' j o1 p1 q1 Hne Hj Hqj. pose proof (Hal j o1 p1 q1 Hne Hj Hqj) as Hcb.
    pose proof (call_inv_other _ _ _ g' loads' _ _ _ Hcb (i_call _ _ _ H _ _ _ _ Hj Hqj)) as Hc.
    destruct ok'; [by eapply call_inv_true|done]. }
  pose proof (i_call _ _ _ H _ _ _ _ Hi Hq) as Hc. pose proof (proj1 Hc) as Hcb.
  destruct s as [once g calls loads]. cbn [w_once w_globals w_calls w_loads] in *. unfold win_next. rewrite Hi, Hq.
  destruct p; try (by destruct Hp).
  1: destruct (Hno eq_refl) as [-> ->]; cbn [InitOnce_Barrier no_globals fst]; destruct (Z.eqb_spec (LoadLibraryA (bytes "kernel32.dll")) 0) as [Hk|Hk].
  all: try (destruct (Hcb I) as (_ & -> & -> & Hk)); cbn [InitOnce_Barrier stage fst].
  1: refine (win_inv_once n false (Win once no_globals calls 0) i o InOnce InOnce InInit _ true 1 H Hi Hq eq_refl (λ _, eq_refl) _ _ _ _ _).
  6: refine (win_inv_put n false (Win once no_globals calls 0) i o InOnce CbInitialize InInit _ 1 H Hi Hq _ _ _ _).
  10: refine (win_inv_put n false (Win once (stage CbInitialize) calls 1) i o CbInitialize CbEnter InInit _ 1 H Hi Hq _ _ _ _).
  14: refine (win_inv_put n false (Win once (stage CbEnter) calls 1) i o CbEnter CbDelete InInit _ 1 H Hi Hq _ _ _ _).
  18: refine (win_inv_put n false (Win once (stage CbDelete) calls 1) i o CbDelete CbTest InInit _ 1 H Hi Hq _ _ _ _).
  22: refine (win_inv_once n false (Win once (stage CbTest) calls 1) i o CbTest InOnce InInit _ true 1 H Hi Hq eq_refl (λ _, eq_refl) _ _ _ _ _).
  all: try (by intros; eapply Hoth); try (by intros); try (by split_and!).
  all: intros _; split; [|done]; unfold found; cbv zeta.
  - by rewrite Hk.
  - rewrite (proj2 (Z.eqb_neq _ 0) Hk). by destruct (_ && _).
Qed.

Lemma barrier_there n ok s : win_inv n ok s → has_barrier s = true → ok = true.
Proof.
  intros H (c & Hin & Hc)%existsb_exists. apply list_elem_of_In, list_elem_of_lookup in Hin as [j Hj]. destruct c as [[| |] p]; try done.
  destruct (lookup_lt_is_Some_2 (o_threads (w_once s)) j) as [q Hq]; [rewrite <- (i_length _ _ _ H); by apply lookup_lt_Some in Hj|].
  destruct (i_call _ _ _ H _ _ _ _ Hj Hq) as (_ & H1 & _). apply H1; [done|]. by destruct p.
Qed.

Lemma dispatch_inv ok g loads q o p : ok = true → g = found → p = AtFlag ∨ p = AtPointer → call_inv ok g loads q o p →
  call_inv ok g loads q o (dispatch o p g).
Proof.
  intros -> -> Hp (_ & H1 & H2 & H3). destruct Hp as [->| ->]; cbn [dispatch].
  - destruct (g_NativeBarrier found) eqn:E; split_and!; try done. intros d [= <-]. unfold expected. by rewrite E.
  - split_and!; try done. intros d [= <-]. unfold expected. by destruct (H2 eq_refl) as [_ ->].
Qed.

(** A call that waits in [InitOnceExecuteOnce]. *)
Lemma win_inv_wait n ok s i o q : win_inv n ok s → w_calls s !! i = Some (o, InOnce) → o_threads (w_once s) !! i = Some q → q ≠ InInit →
  win_inv n ok (Win (once_next i (true, 0) (w_once s)) (w_globals s) (w_calls s) (w_loads s)).
Proof.
  intros H Hi Hq Hne. rewrite <- (list_insert_id _ _ _ Hi). eapply win_inv_once; [done..| | |by split_and!| | | |].
  - by destruct q.
  - done.
  - intros j o1 p1 q1 _ Hj Hq1. by eapply i_call.
  - apply H.
  - intros Hok Hno. by apply (i_start _ _ _ H).
  - by intros _ [].
Qed.

Lemma win_next_inv n ok s i : win_inv n ok s → ∃ ok', win_inv n ok' (win_next i s).
Proof.
  intros H. destruct (w_calls s !! i) as [[o p]|] eqn:Hi; [|exists ok; unfold win_next; destruct s; cbn in *; by rewrite Hi].
  destruct (o_threads (w_once s) !! i) as [q|] eqn:Hq; [|exists ok; unfold win_next; destruct s; cbn in *; by rewrite Hi, Hq].
  pose proof (i_call _ _ _ H _ _ _ _ Hi Hq) as Hc. pose proof (i_found _ _ _ H) as Hf.
  destruct (Hc) as (Hcb & Hpast & Hptr & Hsrv). pose proof (win_once _ _ _ H) as Ho.
  destruct p as [| | | | | | |d]; try (destruct (Hcb I) as (-> & _); eexists; eapply win_inv_callback; eauto; by left).
  - destruct q as [| | |c|c| |[] c].
    3: { eexists. eapply win_inv_callback; eauto. }
    all: exists ok; unfold win_next; destruct s as [once g calls loads]; cbn [w_once w_globals w_calls w_loads] in *; rewrite Hi, Hq.
    all: try (eapply (win_inv_wait n ok (Win once g calls loads)); [done..|discriminate]).
    + refine (win_inv_move n ok (Win once g calls loads) i o InOnce AtFlag _ H Hi Hq _ _); [by intros []|].
      pose proof (once_inv_true _ _ _ _ _ Ho Hq). by split_and!.
    + pose proof (once_inv_false _ _ _ _ _ Ho Hq). lia.
  - exists ok. unfold win_next; destruct s as [once g calls loads]; cbn [w_once w_globals w_calls w_loads] in *; rewrite Hi, Hq.
    assert (Hmv : ok = true → win_inv n ok (Win once g (<[i := (o, dispatch o AtFlag g)]> calls) loads)).
    { intros Hok. refine (win_inv_move n ok (Win once g calls loads) i o AtFlag _ q H Hi Hq _ _); [by intros []|].
      apply dispatch_inv; [done|by apply Hf|by left|done]. }
    pose proof (barrier_there _ _ _ H) as Hb. destruct o; [by apply Hmv, Hpast|destruct (has_barrier _); [by apply Hmv, Hb|done]..].
  - exists ok. unfold win_next; destruct s as [once g calls loads]; cbn [w_once w_globals w_calls w_loads] in *; rewrite Hi, Hq.
    refine (win_inv_move n ok (Win once g calls loads) i o AtPointer _ q H Hi Hq _ _); [by intros []|].
    destruct (Hptr eq_refl) as [Hok _]. apply dispatch_inv; [done|by apply Hf|by right|done].
  - exists ok. unfold win_next; destruct s as [once g calls loads]; cbn [w_once w_globals w_calls w_loads] in *; rewrite Hi, Hq.
    cbn [dispatch]. by rewrite list_insert_id.
Qed.

Lemma win_reachable_inv ops s : reachable (win_start ops) win_trans s → ∃ ok, win_inv (length ops) ok s.
Proof.
  apply (reachable_inv _ _ (λ s, ∃ ok, win_inv (length ops) ok s)); [intros s0 H; exists false; by apply win_start_inv|].
  intros s1 s2 (ok & H) [i ->]. by apply win_next_inv with ok.
Qed.

(** The names of the functions in kernel32.dll. *)
Definition export (o : operation) : list Z :=
  bytes match o with
        | Initialize => "InitializeSynchronizationBarrier"
        | Enter => "EnterSynchronizationBarrier"
        | Delete => "DeleteSynchronizationBarrier"
        end.

Definition complete : Prop :=
  LoadLibraryA (bytes "kernel32.dll") ≠ 0 ∧ ∀ o, GetProcAddress (LoadLibraryA (bytes "kernel32.dll")) (export o) ≠ 0.

Lemma found_native : g_NativeBarrier found = true ↔ complete.
Proof.
  unfold found, complete. cbv zeta. destruct (Z.eqb_spec (LoadLibraryA (bytes "kernel32.dll")) 0) as [E|E]; [split; [done|by intros []]|].
  cbn [g_NativeBarrier]. rewrite !andb_true_iff, !negb_true_iff, !Z.eqb_neq. split.
  - intros [[H1 H2] H3]. split; [done|]. by intros [].
  - intros [_ H]. split_and!; [exact (H Initialize)|exact (H Enter)|exact (H Delete)].
Qed.

Lemma found_pfn o : complete → pfn o found = GetProcAddress (LoadLibraryA (bytes "kernel32.dll")) (export o).
Proof. intros [H _]. unfold found. cbv zeta. rewrite (proj2 (Z.eqb_neq _ 0) H). by destruct o. Qed.

(** ** Theorem *)

(** C22: the detection of native barriers. Any number of threads make any calls,
    in any interleaving, where calls of Enter and Delete come when there is a
    barrier: the library is loaded at most once, all calls that are served are
    served alike, by the system's functions (never through a null pointer) when
    kernel32.dll has all three of them and by the library's own code otherwise;
    so no barrier is initialised in one way and entered in the other. When no
    call is in the callback, the globals are all null or all that was found. *)
Theorem native_barrier_spec ops s : reachable (win_start ops) win_trans s →
  (w_loads s ≤ 1)%nat ∧
  (∀ i o d, w_calls s !! i = Some (o, Served d) →
     (complete ∧ d = Native (GetProcAddress (LoadLibraryA (bytes "kernel32.dll")) (export o))) ∨ (¬ complete ∧ d = Emulated)) ∧
  ((∀ i o p, w_calls s !! i = Some (o, p) → ¬ in_callback p) → w_globals s = no_globals ∨ w_globals s = found).
Proof.
  intros [ok H]%win_reachable_inv.
  assert (Hq : ∀ i o p, w_calls s !! i = Some (o, p) → ∃ q, o_threads (w_once s) !! i = Some q).
  { intros i o p Hi. apply lookup_lt_is_Some_2. rewrite <- (i_length _ _ _ H). by apply lookup_lt_Some in Hi. }
  assert (Hno : (∀ i o p, w_calls s !! i = Some (o, p) → ¬ in_callback p) →
    (w_globals s = no_globals ∧ w_loads s = 0%nat) ∨ (w_globals s = found ∧ w_loads s = 1%nat)).
  { intros Hn. destruct ok; [right|left]; [by apply (i_found _ _ _ H)|by apply (i_start _ _ _ H)]. }
  split_and!.
  - destruct (decide (w_loads s ≤ 1)%nat) as [|Hl]; [done|]. destruct Hno as [[_ ->]|[_ ->]]; [|lia..].
    intros i o p Hi Hp. destruct (Hq _ _ _ Hi) as [q Hqi]. destruct (i_call _ _ _ H _ _ _ _ Hi Hqi) as (Hc & _).
    destruct (Hc Hp) as (_ & _ & E & _). lia.
  - intros i o d Hi. destruct (Hq _ _ _ Hi) as [q Hqi]. destruct (i_call _ _ _ H _ _ _ _ Hi Hqi) as (_ & _ & _ & Hd).
    destruct (Hd d eq_refl) as [_ ->]. unfold expected. pose proof found_native as Hn. destruct (g_NativeBarrier found).
    + left. pose proof (proj1 Hn eq_refl) as Hc. by rewrite found_pfn.
    + right. split; [|done]. intros Hc. by apply Hn in Hc.
  - intros Hn. destruct (Hno Hn) as [[? _]|[? _]]; auto.
Qed.
End Windows.

(** Two threads make a barrier at once, a third one enters: the second waits for
    the first one's callback. *)
Definition demo_export (k : Z) (name : list Z) : Z := k + Z.of_nat (length name).
Definition win_run (L : list Z → Z) (G : Z → list Z → Z) (l : list nat) (s : win) : win := foldl (λ s i, win_next L G i s) s l.

Lemma win_run_reachable L G ops l s : reachable (win_start ops) (win_trans L G) s → reachable (win_start ops) (win_trans L G) (win_run L G l s).
Proof. revert s. induction l as [|i l IH]; intros s H; [done|]. apply IH. eapply reach_step; [exact H|]. by exists i. Qed.

Definition win_demo : win :=
  win_run (λ _, 100) demo_export [0; 0; 2; 0; 1; 0; 1; 0; 0; 0; 0; 0; 0; 0; 1; 1; 1; 1; 1; 1; 2; 2]%nat
    (Win (Once 0 (replicate 3 AtSwitch) []) no_globals [(Initialize, InOnce); (Initialize, InOnce); (Enter, AtFlag)] 0).

Lemma native_barrier_spec_witness :
  w_calls win_demo = [(Initialize, Served (Native 132)); (Initialize, Served (Native 132)); (Enter, Served (Native 127))] ∧
  w_loads win_demo = 1%nat ∧ complete (λ _, 100) demo_export.
Proof.
  destruct (native_barrier_spec (λ _, 100) demo_export [Initialize; Initialize; Enter] win_demo) as (_ & H & _);
    [apply win_run_reachable, reach_init; reflexivity|].
  split; [vm_compute; reflexivity|]. split; [vm_compute; reflexivity|].
  destruct (H 2%nat Enter (Native 127) ltac:(vm_compute; reflexivity)) as [[Hc _]|[_ [=]]]. exact Hc.
Defined.
